(* ===== verification/_CoqProject ===== *)
-Q . S2P
Prelude.v
Primality.v
PyData.v
DateTime.v
IsoFormat.v
Json.v
Shamir.v
SecretSharing.v
Crypto.v
CoCNode.v
Storage.v
DeletionEngine.v
NetworkSim.v
AuditLog.v
TimeLock.v
Dicts.v
Steganography.v
Validation.v
Protocol.v
Gossip.v
Identity.v
Graph.v
Database.v
Provenance.v
Auth.v
Documents.v
Boardroom.v
Chat.v
Admin.v
Simulation.v
EventHandlers.v
PeerProcess.v
Coordinator.v
ApiServer.v
Custody.v
