(* ===== verification/Prelude.v ===== *)
(** * TrustFlow: a Rocq development of the chain-of-custody framework

    TrustFlow tracks who holds a piece of content.  Content is represented by
    signed nodes that form trees: a root for the first owner, a child for each
    forward.  Peers store nodes, forward them, and delete them on signed tokens;
    every event goes to a hash-chained log.  Around this core the framework has
    threshold secret sharing, time-locked keys, text watermarks, certificates,
    a wire protocol with gossip, and TrustDocs, a document-sharing service on a
    database.  The Python sources are under [src/coc_framework] and
    [src/trustdocs]; paths below are relative to them.

    ** Files and what they model

    Groundwork:
    - [Prelude]: exceptions ([result]), the state-and-exception monad [M S A]
      (a raised exception keeps the state reached, as Python does), its
      notation, and shared automation.
    - [PyData], [DateTime], [IsoFormat], [Json]: the parts of Python's [str],
      [bytes], [int], [hex], [datetime] and [json] that the code calls;
      [IsoFormat] is all that [datetime.fromisoformat] accepts.
    - [Primality]: the modulus of the secret sharing is prime (a Pocklington
      certificate evaluated by the kernel).

    The framework:
    - [Shamir], [SecretSharing]: [core/secret_sharing.py].
    - [Crypto]: [core/crypto_core.py] as the interface [Crypto]/[CryptoLaws].
    - [CoCNode]: [core/coc_node.py].
    - [Storage]: [interfaces/storage_backend.py]; the class [StorageBackend]
      states the operations and laws, [InMemory] and [SQLite] implement it, and
      [NetworkSim] is proved against the class only.
    - [DeletionEngine]: tokens, receipts, the replay cache and the tracker of
      [core/deletion_engine.py].
    - [NetworkSim]: [core/network_sim.py], [interfaces/peer_discovery.py] and
      the part of the deletion engine that acts on peers.  [World] is the shared
      state; [step] is the relation of calls and deliveries in any order.
    - [AuditLog], [TimeLock], [Steganography], [Validation], [Identity]: the
      modules of the same names in [core].
    - [Dicts]: the JSON forms of shares and of time-locked content.
    - [Simulation]: [simulation_engine.py] and the methods of [Peer] for shares,
      time locks and watermarks.  [Sim] is the engine's state; [sim_step] is the
      relation of ticks, deliveries and key clean-up.
    - [EventHandlers]: [event_handlers.py], over the state of [Simulation].
    - [Protocol], [Gossip]: [network/protocol.py] and [network/gossip.py].
    - [PeerProcess]: the networked peer of [network/peer_process.py], with its
      message handlers, request loop and sending; ZeroMQ sockets are effects.
    - [Coordinator]: [network/coordinator.py], scenarios over networked peers;
      [step] interleaves events, receptions and heartbeats.
    - [ApiServer]: [api/server.py] and [api/schemas.py], the routes and the event
      feed over the engine of [Simulation], with the identity of node objects
      that several stores share.
    - [Custody]: histories of API calls and deliveries ([api_run]) and the
      invariant that ties stored nodes, announced nodes, issued tokens and
      messages under way together.

    TrustDocs:
    - [Database]: the tables and query helpers of [database.py] and
      [interfaces/postgres_backend.py] of the framework.
    - [Graph], [Provenance], and the node operations at the head of
      [Documents]: [trustflow_service.py].
    - [Auth]: [auth/crypto.py], [auth/dependencies.py], [auth/routes.py].
    - [Documents]: [documents/routes.py].
    - [Boardroom]: [boardroom/routes.py], whose proposals combine the secret
      sharing and the time locks of the framework.
    - [Chat]: [chat.py] and [comments.py]; [run_chat] is a history of connections,
      frames, comments, document calls and account changes.
    - [Admin]: [admin.py].

    ** What the theorems show

    - The API over the simulated network (C1, C2, C18, C20): a deletion that was
      answered reaches every recipient of the node and of all that recipients
      made from it, however calls and deliveries of valid tokens interleave;
      stored nodes are
      announced, signed by their owners and the same everywhere; the provenance
      route returns exactly the connected nodes and links; the audit route lists
      exactly what was logged.
    - Secret sharing (C3 to C6): splitting always succeeds on legal input and
      any threshold of shares gives the text back; fewer shares fit every
      secret; modular inversion stays within its recursion bound; what is
      reconstructed was checked.
    - Nodes and storage (C7 to C10): the dictionary form keeps nodes verifiable;
      the descendant traversal ends and is exact; the reverse index is exact over
      any history; both backends refine one abstract store.
    - Deletion (C11 to C14): a token that is not dated too far ahead is accepted
      once; every outcome of [process_token]; what is in transit in a reachable
      world, and that only owners initiate deletions; and that nevertheless any
      registered signer can delete.  The lemma [tracker_status_correct] adds the
      answers of the tracker.
    - Simulation (C15 to C17): every run of the engine is a run of the network of
      [NetworkSim]; a run handles exactly the events of its scenario, in order;
      the handler registry does what the engine's own dispatch does.
    - Logs (C19), time locks (C21, C22), watermarks (C23), validation (C24):
      tamper evidence, decryption until expiry and never after it, attribution
      of a marked text, and the exact set of accepted events.
    - Messages (C25), networked peers (C26, C27) and the coordinator (C28, C29):
      round trips of every message class; a peer answers whatever arrives, unless
      it cannot print its failure, and keeps shares and nodes as they were sent;
      no follower obeys the deletion the coordinator signs; distributed shares can be reconstructed.
    - Gossip (C30, C31) and identities (C32): authenticity, at-most-once
      dispatch of what is not dated ahead, and the exact lookup of certificates
      over any history.
    - Provenance (C33, C34): path search is shortest; traces hold exactly the
      trees they should.
    - Accounts, documents and chat (C35 to C38): sessions identify the user who
      logged in until they end; the document routes refine an abstract life
      cycle; who can read a document was given access by a chain of shares; chat
      messages reach only those who had access when they joined.
    - Board rooms (C39, C40): a proposal opens only after a quorum of distinct
      members approved it and before its key expires, and it does open, with the
      text that was proposed marked for the reader, once the quorum is there in
      time.

    Where a statement shows that the code falls short of its intent, it says
    what the code does: C14, C28, and the lemmas on settings that are no dictionary,
    untimed events, forwards by message id, the missing audit logger, gossip that
    is not forwarded, the certificate cache, the row limit of [find_many],
    expired sessions in chat, replayed future tokens and gossip, retyped gossip
    ids, serial numbers used twice, failures that cannot be printed, separators in log details,
    foreign log lines, undone destruction, queued expired tokens, re-added
    content, unknown originators, unserved content requests, unanswered
    discovery, and forwards of the owner that outlive its deletion.

    ** Conventions

    Clock readings, random draws, UUIDs and the order in which Python iterates
    over a set are arguments or class parameters, so theorems hold for every
    outcome; so are the result of a float subtraction ([PyFloat]) and the [repr]
    of a container.  SHA-256, HMAC, AES-GCM, Ed25519, bcrypt and Argon2id are
    parameters whose documented laws (decryption inverts encryption, a signature
    verifies under its key, a digest is 64 hexadecimal digits) are the [...Laws]
    classes; each theorem that uses one has a witness with a concrete instance.
    No digest or signature is taken to be collision-free.  C1 and C2 are about
    histories in which the announced nodes have distinct hashes
    ([hashes_apart]), a condition on the history itself; C1, C19 and C28 have
    the collision or the forged signature as an explicit alternative.  C1 also
    asks that tokens were valid when they were delivered ([in_time]), since
    recipients refuse expired ones; C2 does not.
    Times are integers of microseconds.  Text is [pystr] (code points) where the
    code inspects characters and [string] (UTF-8 bytes) where it only stores and
    compares.

    ** Fuel

    A [while] loop or unstructured recursion takes fuel and shows its exhaustion
    as [None] (or [RecursionError] where Python would raise it); theorems say
    how much is enough.  [_mod_inverse]: 513 frames, since a remainder halves in
    two steps of 256 bits.  [get_all_descendants]: the height of the stored tree.
    Breadth-first search: one round per queued or unvisited node.  Depth-first
    search: the clamped depth, at most 64, and one.  Traces: one round per stored
    row and one.  The parent chain of a node: the number of stored nodes, which
    suffices exactly on acyclic tables.  [_collect] of the provenance route: one
    frame more than there are stored nodes.

    ** Not modelled

    [config.py], logging, settings, demonstration data, package exports, the
    interfaces without an implementation that keeps state
    ([encryption_policy.py], [notification_handler.py], [transfer_monitor.py]),
    process and server entry points, and the browser interface are input and
    output without state of their own.  Of modelled modules:
    [validate_timestamp] (seven [strptime] formats), opening and closing of
    ZeroMQ sockets, waiting for event times, FastAPI itself, the interleaving of
    one broadcast with connecting sockets, [search_documents], connection
    handling and UUID casting of the database, and floating-point rounding of
    time stamps. *)

From stdpp Require Export base tactics option list numbers strings gmap sets fin_maps.

#[global] Open Scope Z_scope.

(** ** Exceptions

    Python code that can raise returns [result A].  One constructor per
    exception class the modelled code raises itself or lets escape. *)

Inductive pyexn :=
  | ValueError
  | OverflowError
  | KeyError
  | IndexError
  | TypeError
  | AttributeError
  | UnicodeError
  | PermissionError
  | RuntimeError
  | RecursionError
  | InvalidTag
  | ShareIntegrityError
  | ReplayAttackError
  | TokenExpiredError
  | SignatureVerificationError
  | MessageTimestampError
  | ValidationError
  | JSONDecodeError
  | CertificateError
  | DatabaseError
  | FileNotFoundError
  | HTTPException (code : Z).

Inductive result (A : Type) :=
  | Ok (a : A)
  | Raise (e : pyexn).
Arguments Ok {A} _.
Arguments Raise {A} _.

#[global] Instance pyexn_eq_dec : EqDecision pyexn.
Proof. solve_decision. Defined.

#[global] Instance result_eq_dec `{EqDecision A} : EqDecision (result A).
Proof. solve_decision. Defined.

#[global] Instance result_ret : MRet result := λ A a, Ok a.
#[global] Instance result_bind : MBind result := λ A B f m,
  match m with Ok a => f a | Raise e => Raise e end.
#[global] Instance result_fmap : FMap result := λ A B f m,
  match m with Ok a => Ok (f a) | Raise e => Raise e end.

(** [try: m except: h] when every exception is caught. *)
Definition catch {A} (m : result A) (h : pyexn → A) : A :=
  match m with Ok a => a | Raise e => h e end.

(** A dict or list access that raises when the entry is missing. *)
Definition from_option_exn {A} (e : pyexn) (o : option A) : result A :=
  match o with Some a => Ok a | None => Raise e end.

(** Map a raising function over a list, left to right. *)
Fixpoint mapR {A B} (f : A → result B) (l : list A) : result (list B) :=
  match l with
  | [] => Ok []
  | x :: l => y ← f x; ys ← mapR f l; Ok (y :: ys)
  end.

Lemma mapR_Ok_Forall2 {A B} (f : A → result B) l r :
  mapR f l = Ok r ↔ Forall2 (λ x y, f x = Ok y) l r.
Proof.
  revert r; induction l as [|x l IH]; intros r; simpl.
  - split; [intros [= <-]; constructor | by intros ->%Forall2_nil_inv_l].
  - split.
    + destruct (f x) as [y|e] eqn:Hx; simpl; [|done].
      destruct (mapR f l) as [ys|e]; simpl; [intros [= <-]|done].
      constructor; [done|]. by apply IH.
    + intros (y & ys & Hy & Hys & ->)%Forall2_cons_inv_l.
      rewrite Hy; simpl. by rewrite (proj2 (IH ys) Hys).
Qed.

Lemma mapR_total {A B} (f : A → result B) (Q : A → B → Prop) l :
  (∀ x, x ∈ l → ∃ y, f x = Ok y ∧ Q x y) → ∃ r, mapR f l = Ok r ∧ Forall2 Q l r.
Proof.
  induction l as [|x l IH]; intros Hf; [by exists []|]. destruct (Hf x) as (y & Hy & Hq); [by left|].
  destruct IH as (ys & Hys & Hqs); [intros z Hz; apply Hf; by right|].
  exists (y :: ys). cbn [mapR]. rewrite Hy. cbn [mbind result_bind]. rewrite Hys. split; [done|by constructor].
Qed.

Lemma mapR_Ok_fmap {A B} (f : A → result B) (g : A → B) l :
  (∀ x, x ∈ l → f x = Ok (g x)) → mapR f l = Ok (g <$> l).
Proof.
  induction l as [|x l IH]; intros Hf; simpl; [done|].
  rewrite Hf by set_solver. simpl. rewrite IH by set_solver. done.
Qed.

Lemma mapR_seq {A} (f : nat → result A) (l : list A) :
  (∀ k x, l !! k = Some x → f k = Ok x) → mapR f (seq 0 (length l)) = Ok l.
Proof.
  intros Hf. apply mapR_Ok_Forall2, Forall2_same_length_lookup_2; [by rewrite length_seq|].
  intros k x y [-> Hk]%lookup_seq Hy. by apply Hf.
Qed.

(** ** State and exceptions

    Code that mutates objects and can raise: what was changed before the
    exception stays changed. *)

Definition M (S A : Type) : Type := S → result A * S.

#[global] Instance M_ret {S} : MRet (M S) := λ A a s, (Ok a, s).
#[global] Instance M_bind {S} : MBind (M S) := λ A B f m s,
  match m s with
  | (Ok a, s') => f a s'
  | (Raise e, s') => (Raise e, s')
  end.

Section M_ops.
Context {S : Type}.
Definition raise {A} (e : pyexn) : M S A := λ s, (Raise e, s).
Definition lift {A} (r : result A) : M S A := λ s, (r, s).
Definition gets {A} (f : S → A) : M S A := λ s, (Ok (f s), s).
Definition modify (f : S → S) : M S unit := λ s, (Ok (), f s).

(** [for x in l: body(x)]. *)
Fixpoint for_each {A} (l : list A) (body : A → M S unit) : M S unit :=
  match l with
  | [] => mret ()
  | x :: l => body x ;; for_each l body
  end.
End M_ops.

(** A run of a sequence stops in its first part, or continues with its value. *)
Lemma bind_inv {S A B} (m : M S A) (f : A → M S B) s r s' :
  (m ≫= f) s = (r, s') →
  (∃ e, r = Raise e ∧ m s = (Raise e, s')) ∨ ∃ a s1, m s = (Ok a, s1) ∧ f a s1 = (r, s').
Proof. unfold mbind, M_bind. destruct (m s) as [[a|e] s1]; [by right; eauto|]. intros [= <- <-]. left; eauto. Qed.

(** ** Dicts built from pairs: a later pair overrides an earlier one *)

Definition dict_of `{Countable K} {A} (l : list (K * A)) : gmap K A :=
  foldl (λ m ka, <[ka.1 := ka.2]> m) ∅ l.

Section dict_of.
Context `{Countable K} {A : Type}.
Implicit Types (l : list (K * A)) (m : gmap K A).

Lemma foldl_insert_notin l m k :
  k ∉ l.*1 → foldl (λ m ka, <[ka.1 := ka.2]> m) m l !! k = m !! k.
Proof.
  revert m; induction l as [|[k' a] l IH]; intros m Hk; [done|]. csimpl in *.
  apply not_elem_of_cons in Hk as [? ?]. rewrite IH by done. by rewrite lookup_insert_ne.
Qed.

Lemma dict_of_in l k a : NoDup l.*1 → (k, a) ∈ l → dict_of l !! k = Some a.
Proof.
  unfold dict_of. generalize (∅ : gmap K A).
  induction l as [|[k' a'] l IH]; intros m Hnd Hin; [by apply elem_of_nil in Hin|].
  csimpl in *. apply NoDup_cons in Hnd as [Hk' Hnd].
  apply elem_of_cons in Hin as [[= -> ->]|Hin]; [|by apply IH].
  rewrite foldl_insert_notin by done. apply lookup_insert_eq.
Qed.
End dict_of.

(** The keys of a dict filled from the list: the first occurrences. *)
Fixpoint first_keys `{EqDecision A} (l : list A) : list A :=
  match l with
  | [] => []
  | x :: l => x :: filter (λ y, y ≠ x) (first_keys l)
  end.

Lemma elem_of_first_keys `{EqDecision A} (l : list A) x : x ∈ first_keys l ↔ x ∈ l.
Proof.
  induction l as [|y l IH]; cbn [first_keys]; [done|]. rewrite !elem_of_cons, list_elem_of_filter, IH.
  destruct (decide (x = y)); tauto.
Qed.

Lemma first_keys_id `{EqDecision A} (l : list A) : NoDup l → first_keys l = l.
Proof.
  induction 1 as [|x l Hx _ IH]; [done|]. cbn [first_keys]. rewrite IH. f_equal.
  clear IH. induction l as [|y l IH]; [done|]. apply not_elem_of_cons in Hx as [Hy Hx].
  rewrite filter_cons_True by done. by rewrite IH.
Qed.

Lemma first_keys_NoDup `{EqDecision A} (l : list A) : NoDup (first_keys l).
Proof.
  induction l as [|y l IH]; cbn [first_keys]; constructor; [|by apply NoDup_filter].
  rewrite list_elem_of_filter. tauto.
Qed.

(** ** Integer comparisons the code makes *)

(** Split on every boolean comparison of integers in the goal; branches that
    contradict the context close. *)
Ltac case_cmp :=
  repeat match goal with
  | |- context [?a <? ?b] => destruct (Z.ltb_spec a b); try (exfalso; lia)
  | |- context [?a <=? ?b] => destruct (Z.leb_spec a b); try (exfalso; lia)
  | |- context [?a =? ?b] => destruct (Z.eqb_spec a b); try (exfalso; lia)
  end; cbn [andb orb negb].

(** [lia] with quotients and remainders spelled out. *)
Ltac dlia := Z.to_euclidean_division_equations; lia.
