(* ===== verification/Primality.v ===== *)
(** * Primality of the secret-sharing modulus

    [PRIME = 2**256 - 189] of [coc_framework/core/secret_sharing.py] is proved
    prime by a recursive Pocklington certificate that the kernel evaluates, so
    that no theorem about the field arithmetic rests on an assumption.  The
    number theory here is independent of the modelled program. *)

From Stdlib Require Import ZArith Znumtheory Zpow_facts Zmod.Zmod Lia.
From S2P Require Import Prelude.

(** ** Finding a small prime divisor *)

Lemma prime_divisor (n : Z) : 1 < n → ∃ p, Z.prime p ∧ (p | n).
Proof.
  induction n as [n IH] using (well_founded_induction (Z.lt_wf 0)); intros Hn.
  destruct (Znumtheory.prime_dec n) as [Hp|Hp].
  { exists n. split; [by apply prime_alt | reflexivity]. }
  destruct (not_prime_divide n Hn Hp) as (m & Hm & Hdiv).
  destruct (IH m ltac:(lia) ltac:(lia)) as (p & Hpp & Hpm).
  exists p. split; [done|]. by transitivity m.
Qed.

Lemma composite_small_prime (n : Z) :
  1 < n → ¬ Z.prime n → ∃ p, Z.prime p ∧ (p | n) ∧ p * p ≤ n.
Proof.
  intros Hn Hnp.
  destruct (not_prime_divide n Hn) as (m & Hm & k & Hk).
  { intros H. apply Hnp. by apply prime_alt. }
  assert (Hk1 : 1 < k) by nia.
  destruct (decide (m ≤ k)).
  - destruct (prime_divisor m ltac:(lia)) as (p & Hp & Hpm).
    exists p. split; [done|]. split; [transitivity m; [done|by exists k]|].
    pose proof (Z.divide_pos_le p m ltac:(lia) Hpm).
    pose proof (Z.prime_ge_2 _ Hp). nia.
  - destruct (prime_divisor k ltac:(lia)) as (p & Hp & Hpk).
    exists p. split; [done|]. split; [transitivity k; [done|exists m; lia]|].
    pose proof (Z.divide_pos_le p k ltac:(lia) Hpk).
    pose proof (Z.prime_ge_2 _ Hp). nia.
Qed.

(** ** Trial division for the leaves of the certificate *)

Fixpoint no_divisor_from (fuel : nat) (d n : Z) : bool :=
  match fuel with
  | O => false
  | S fuel =>
      if n <? d * d then true
      else if n mod d =? 0 then false else no_divisor_from fuel (d + 1) n
  end.

Definition trial_prime (n : Z) : bool :=
  (1 <? n) && no_divisor_from (S (Z.to_nat (Z.sqrt n))) 2 n.

Lemma no_divisor_from_sound fuel d n :
  1 < d → no_divisor_from fuel d n = true →
  ∀ m, d ≤ m → m * m ≤ n → ¬ (m | n).
Proof.
  revert d; induction fuel as [|fuel IH]; intros d Hd; simpl; [done|].
  destruct (Z.ltb_spec n (d * d)) as [?|?]; [intros _ m ?? ?; nia|].
  destruct (Z.eqb_spec (n mod d) 0) as [?|Hmod]; [done|].
  intros Hrec m Hm Hmm Hdiv.
  destruct (decide (m = d)) as [->|].
  - apply Hmod. by apply Z.mod_divide; [lia|].
  - refine (IH (d + 1) _ Hrec m _ Hmm Hdiv); lia.
Qed.

Lemma trial_prime_sound n : trial_prime n = true → Z.prime n.
Proof.
  unfold trial_prime. intros [Hn Hd]%andb_prop. apply Z.ltb_lt in Hn.
  destruct (Znumtheory.prime_dec n) as [?|Hp]; [by apply prime_alt|].
  destruct (composite_small_prime n Hn) as (p & Hp' & Hpn & Hpp).
  { intros H. apply Hp. by apply prime_alt. }
  exfalso. eapply (no_divisor_from_sound _ 2 n); [lia|done| |done|done].
  by apply Z.prime_ge_2.
Qed.

(** ** Pocklington's criterion *)

(** One certificate line [(q, a)]: [q] divides [n - 1] and [a] is a witness
    for [q]. *)
Definition pock_line (n : Z) (l : Z * Z) : bool :=
  let '(q, a) := l in
  ((n - 1) mod q =? 0)
    && (Zpow_mod a (n - 1) n =? 1)
    && (Z.gcd (Zpow_mod a ((n - 1) / q) n - 1) n =? 1).

Definition pock_check (n : Z) (ls : list (Z * Z)) : bool :=
  let F := foldr Z.mul 1 (fst <$> ls) in
  (1 <? n) && bool_decide (NoDup (fst <$> ls)) && (n <? F * F)
    && forallb (pock_line n) ls.

Lemma mod_pow_one (b e p : Z) : 1 < p → 0 ≤ e → b mod p = 1 → b ^ e mod p = 1.
Proof.
  intros Hp He Hb. rewrite <-Z.mod_pow_l, Hb, Z.pow_1_l by lia.
  apply Z.mod_small; lia.
Qed.

Lemma pock_line_order (n q a p : Z) :
  1 < n → Z.prime q → Z.prime p → (p | n) →
  pock_line n (q, a) = true → (q | p - 1).
Proof.
  intros Hn Hq Hp Hpn Hl. unfold pock_line in Hl.
  apply andb_prop in Hl as [[Hdiv Ha]%andb_prop Hgcd].
  apply Z.eqb_eq in Hdiv, Ha, Hgcd.
  pose proof (Z.prime_ge_2 _ Hq). pose proof (Z.prime_ge_2 _ Hp).
  rewrite Zpow_mod_correct in Ha, Hgcd by lia.
  apply Z.mod_divide in Hdiv as [m Hm]; [|lia].
  assert (Hm0 : 0 ≤ m) by nia.
  replace ((n - 1) / q) with m in Hgcd by (rewrite Hm, Z.div_mul; lia).
  set (b := a ^ m) in *.
  assert (Hbq : b ^ q mod p = 1).
  { unfold b. rewrite <-Z.pow_mul_r, <-Hm by lia.
    rewrite <-(Z.mod_mod_divide _ n p) by done. rewrite Ha.
    apply Z.mod_small; lia. }
  destruct (decide (b mod p = 0)) as [Hb0|Hb0].
  { exfalso. rewrite <-Z.mod_pow_l, Hb0, Z.pow_0_l, Z.mod_0_l in Hbq by lia. lia. }
  pose proof (Z.fermat_nz p b Hp Hb0) as Hferm.
  destruct (Z.BoolSpec_divide q (p - 1)) as [?|Hndiv]; [done|exfalso].
  destruct (Z.Bezout_coprime _ _ (Z.coprime_prime_l q (p - 1) Hq Hndiv))
    as (u & v & Huv).
  assert (Hb1 : b mod p = 1).
  { set (w := u mod (p - 1)).
    destruct (decide (p = 2)) as [->|].
    { pose proof (Z.mod_pos_bound b 2). lia. }
    pose proof (Z.mod_pos_bound u (p - 1) ltac:(lia)) as Hw.
    set (k := - v - q * (u / (p - 1))) in *.
    assert (Hk : q * w = 1 + (p - 1) * k).
    { unfold w, k. rewrite (Z.mod_eq u (p - 1)), Z.mul_sub_distr_l by lia.
      replace (q * u) with (1 - v * (p - 1)) by lia. ring. }
    fold w in Hw. assert (0 ≤ k) by nia. assert (0 ≤ (p - 1) * k) by nia.
    pose proof (mod_pow_one _ w p ltac:(lia) ltac:(unfold w; lia) Hbq) as Hpow.
    rewrite <-Z.pow_mul_r, Hk, Z.pow_add_r, Z.pow_1_r, Z.pow_mul_r in Hpow
      by lia.
    pose proof (mod_pow_one _ k p ltac:(lia) ltac:(lia) Hferm) as Hone.
    by rewrite <-Z.mul_mod_idemp_r, Hone, Z.mul_1_r in Hpow by lia. }
  assert (Hp1 : (p | 1)).
  { rewrite <-Hgcd. apply Z.gcd_greatest; [|done].
    apply Z.mod_divide; [lia|].
    rewrite <-Zminus_mod_idemp_l, Z.mod_mod_divide, Hb1 by done.
    by rewrite Z.sub_diag. }
  apply Z.divide_1_r_nonneg in Hp1; lia.
Qed.

Lemma distinct_primes_product_divides (qs : list Z) (m : Z) :
  NoDup qs → Forall Z.prime qs → Forall (λ q, (q | m)) qs →
  (foldr Z.mul 1 qs | m).
Proof.
  induction qs as [|q qs IH]; intros Hnd Hpr Hdv; simpl; [apply Z.divide_1_l|].
  apply NoDup_cons in Hnd as [Hq Hnd].
  apply Forall_cons in Hpr as [Hqp Hpr], Hdv as [Hqm Hdv].
  specialize (IH Hnd Hpr Hdv) as [k Hk].
  assert (Hcop : Z.coprime q (foldr Z.mul 1 qs)).
  { clear Hdv Hk Hnd. induction qs as [|r rs IHrs]; simpl; [apply Z.coprime_1_r|].
    apply Forall_cons in Hpr as [Hr Hrs]. apply Z.coprime_mul_r; [|apply IHrs; set_solver].
    apply Z.coprime_prime_l; [done|]. intros Hdiv.
    apply Z.divide_prime_r in Hdiv; [|done].
    pose proof (Z.prime_ge_2 _ Hqp). pose proof (Z.prime_ge_2 _ Hr).
    apply Hq. replace q with r by lia. left. }
  destruct (Z.Bezout_coprime _ _ Hcop) as (u & v & Huv).
  destruct Hqm as [j Hj].
  exists (u * k + v * j). set (F := foldr Z.mul 1 qs) in *.
  assert (H1 : (u * q + v * F) * m = m) by (rewrite Huv; ring).
  assert (H2 : u * q * m = u * k * (q * F)) by (rewrite Hk; ring).
  assert (H3 : v * F * m = v * j * (q * F)) by (rewrite Hj; ring).
  lia.
Qed.

Lemma pocklington n ls :
  pock_check n ls = true → Forall Z.prime (fst <$> ls) → Z.prime n.
Proof.
  unfold pock_check. intros Hc Hpr.
  apply andb_prop in Hc as [[[Hn Hnd]%andb_prop HF]%andb_prop Hls].
  apply Z.ltb_lt in Hn, HF. apply bool_decide_eq_true in Hnd.
  destruct (Znumtheory.prime_dec n) as [?|Hp]; [by apply prime_alt|].
  destruct (composite_small_prime n Hn) as (p & Hp' & Hpn & Hpp).
  { intros H. apply Hp. by apply prime_alt. }
  exfalso. pose proof (Z.prime_ge_2 _ Hp').
  assert (Hdiv : (foldr Z.mul 1 (fst <$> ls) | p - 1)).
  { apply distinct_primes_product_divides; [done|done|].
    apply Forall_forall. intros q Hq.
    apply list_elem_of_fmap in Hq as ([q' a] & -> & Hin). simpl.
    apply (pock_line_order n q' a p); try done.
    - eapply Forall_forall in Hpr; [exact Hpr|].
      apply list_elem_of_fmap. by exists (q', a).
    - rewrite forallb_forall in Hls. apply Hls. by apply list_elem_of_In. }
  apply Z.divide_pos_le in Hdiv; [|lia].
  assert (HF0 : 0 < foldr Z.mul 1 (fst <$> ls)).
  { clear -Hpr. induction Hpr as [|q qs Hq _ IH]; simpl; [lia|].
    pose proof (Z.prime_ge_2 _ Hq). nia. }
  nia.
Qed.

(** ** The certificate *)

Definition PRIME : Z := 2 ^ 256 - 189.

Ltac by_trial := apply trial_prime_sound; vm_compute; reflexivity.
Ltac by_pocklington ls :=
  apply (pocklington _ ls);
    [vm_compute; reflexivity | repeat apply List.Forall_cons; try apply List.Forall_nil].

Lemma prime_246301047193 : Z.prime 246301047193.
Proof. by_pocklington [(10262543633, 2)]. by_pocklington [(702529, 2)]. by_trial. Qed.

Lemma prime_68964293214041 : Z.prime 68964293214041.
Proof. by_pocklington [(246301047193, 2)]. exact prime_246301047193. Qed.

Lemma prime_23236691026952546459 : Z.prime 23236691026952546459.
Proof. by_pocklington [(68964293214041, 2)]. exact prime_68964293214041. Qed.

Lemma prime_14220365526706201077871 : Z.prime 14220365526706201077871.
Proof. by_pocklington [(973591, 2); (87881, 2); (36151, 2)]; by_trial. Qed.

Lemma prime_189_bits :
  Z.prime 440208639276132997491800604758226661590679912188273141493.
Proof.
  by_pocklington [(14220365526706201077871, 2); (23236691026952546459, 2)].
  - exact prime_14220365526706201077871.
  - exact prime_23236691026952546459.
Qed.

(** The modulus of the secret-sharing field is prime. *)
Lemma PRIME_prime : Z.prime PRIME.
Proof.
  by_pocklington [(440208639276132997491800604758226661590679912188273141493, 2)].
  exact prime_189_bits.
Qed.
