(* ===== verification/PyData.v ===== *)
(** * Python data: text, bytes, hexadecimal and big-endian integers

    The built-in conversions the modelled code relies on, as executable
    functions with their round trips.  A Python [str] whose characters matter
    is a [pystr], the list of its code points; [bytes] is a list of integers in
    [0..255].  [string] (Rocq's own) is used elsewhere for identifiers and
    hashes, whose characters the code never inspects. *)

From Stdlib Require Import Ascii String.
From stdpp Require Import pretty.
From S2P Require Import Prelude.

Abbreviation pystr := (list Z).
Abbreviation bytes := (list Z).

Definition is_byte (b : Z) : Prop := 0 ≤ b < 256.
#[global] Instance is_byte_dec b : Decision (is_byte b).
Proof. unfold is_byte. apply _. Defined.

(** ASCII literals as [pystr]. *)
Definition str (s : string) : pystr :=
  (λ c, Z.of_N (N_of_ascii c)) <$> String.list_ascii_of_string s.

(** ** [int.from_bytes(data, 'big')] and [num.to_bytes(length, 'big')] *)

Definition from_bytes (data : bytes) : Z := foldl (λ acc b, acc * 256 + b) 0 data.

Fixpoint be_bytes (length : nat) (num : Z) : bytes :=
  match length with
  | O => []
  | S n => be_bytes n (num / 256) ++ [num mod 256]
  end.

(** [to_bytes] raises [OverflowError] for a negative or too large number. *)
Definition to_bytes (num : Z) (length : nat) : result bytes :=
  if (num <? 0) || (256 ^ Z.of_nat length <=? num) then Raise OverflowError
  else Ok (be_bytes length num).

Lemma from_bytes_app_one data b : from_bytes (data ++ [b]) = from_bytes data * 256 + b.
Proof. unfold from_bytes. by rewrite foldl_app. Qed.

Lemma length_be_bytes n num : length (be_bytes n num) = n.
Proof.
  revert num; induction n as [|n IH]; intros num; simpl; [done|].
  rewrite length_app, IH. simpl. lia.
Qed.

Lemma be_bytes_bytes n num : Forall is_byte (be_bytes n num).
Proof.
  revert num; induction n as [|n IH]; intros num; simpl; [constructor|].
  apply Forall_app. split; [apply IH|]. constructor; [|constructor].
  apply Z.mod_pos_bound; lia.
Qed.

Lemma be_bytes_from_bytes data :
  Forall is_byte data → be_bytes (length data) (from_bytes data) = data.
Proof.
  induction data as [|b data IH] using rev_ind; intros Hb; [done|].
  apply Forall_app in Hb as [Hd Hb]. apply Forall_cons in Hb as [Hb _].
  rewrite length_app, Nat.add_1_r. simpl. rewrite from_bytes_app_one.
  unfold is_byte in Hb.
  replace ((from_bytes data * 256 + b) / 256) with (from_bytes data)
    by (apply Z.div_unique with b; lia).
  replace ((from_bytes data * 256 + b) mod 256) with b
    by (apply Z.mod_unique with (from_bytes data); lia).
  by rewrite IH.
Qed.

Lemma from_bytes_be_bytes n num :
  0 ≤ num < 256 ^ Z.of_nat n → from_bytes (be_bytes n num) = num.
Proof.
  revert num; induction n as [|n IH]; intros num Hn.
  - simpl in Hn. unfold from_bytes. simpl. lia.
  - simpl. rewrite from_bytes_app_one, IH.
    + pose proof (Z.div_mod num 256). lia.
    + rewrite Nat2Z.inj_succ, Z.pow_succ_r in Hn by lia.
      split; [apply Z.div_pos; lia | apply Z.div_lt_upper_bound; lia].
Qed.

Lemma from_bytes_bound data :
  Forall is_byte data → 0 ≤ from_bytes data < 256 ^ Z.of_nat (length data).
Proof.
  induction data as [|b data IH] using rev_ind; intros Hb.
  - unfold from_bytes; simpl; lia.
  - apply Forall_app in Hb as [Hd Hb]. apply Forall_cons in Hb as [Hb _].
    specialize (IH Hd). unfold is_byte in Hb.
    rewrite from_bytes_app_one, length_app, Nat2Z.inj_add, Z.pow_add_r by lia.
    change (256 ^ Z.of_nat (length [b])) with 256. lia.
Qed.

Lemma to_bytes_from_bytes data :
  Forall is_byte data → to_bytes (from_bytes data) (length data) = Ok data.
Proof.
  intros Hd. pose proof (from_bytes_bound data Hd) as [H0 H1]. unfold to_bytes.
  rewrite (proj2 (Z.ltb_ge _ _)), (proj2 (Z.leb_gt _ _)) by lia. simpl.
  by rewrite be_bytes_from_bytes.
Qed.

(** ** Hexadecimal digits *)

(** The digit's code point, lower case. *)
Definition hexdigit (d : Z) : Z := if d <? 10 then 48 + d else 87 + d.

(** The value of a hexadecimal digit of either case. *)
Definition hexval (c : Z) : option Z :=
  if (48 <=? c) && (c <=? 57) then Some (c - 48)
  else if (97 <=? c) && (c <=? 102) then Some (c - 87)
  else if (65 <=? c) && (c <=? 70) then Some (c - 55)
  else None.

Lemma hexval_hexdigit d : 0 ≤ d < 16 → hexval (hexdigit d) = Some d.
Proof.
  intros Hd. unfold hexdigit, hexval.
  destruct (Z.ltb_spec d 10).
  - rewrite !(proj2 (Z.leb_le _ _)) by lia. simpl. f_equal; lia.
  - rewrite (proj2 (Z.leb_le 48 _)), (proj2 (Z.leb_gt _ 57)) by lia. simpl.
    rewrite !(proj2 (Z.leb_le _ _)) by lia. simpl. f_equal; lia.
Qed.

(** ** [bytes.hex()] and [bytes.fromhex(s)]

    [fromhex] skips ASCII white space between bytes and raises [ValueError] on
    anything else that is not a pair of digits. *)

Definition is_ascii_space (c : Z) : bool := (c =? 32) || ((9 <=? c) && (c <=? 13)).

Fixpoint bytes_hex (data : bytes) : pystr :=
  match data with
  | [] => []
  | b :: data => hexdigit (b / 16) :: hexdigit (b mod 16) :: bytes_hex data
  end.

Fixpoint bytes_fromhex (s : pystr) : result bytes :=
  match s with
  | [] => Ok []
  | c :: s' =>
      if is_ascii_space c then bytes_fromhex s'
      else match s' with
           | [] => Raise ValueError
           | d :: s'' =>
               match hexval c, hexval d with
               | Some h, Some l => cons (h * 16 + l) <$> bytes_fromhex s''
               | _, _ => Raise ValueError
               end
           end
  end.

Lemma hexdigit_not_space d : 0 ≤ d < 16 → is_ascii_space (hexdigit d) = false.
Proof.
  intros Hd. unfold hexdigit, is_ascii_space. destruct (Z.ltb_spec d 10);
  rewrite (proj2 (Z.eqb_neq _ _)), (proj2 (Z.leb_gt _ 13)), andb_false_r by lia; done.
Qed.

Lemma bytes_fromhex_raise s e : bytes_fromhex s = Raise e → e = ValueError.
Proof.
  remember (length s) as n eqn:Hn. revert s Hn e.
  induction n as [n IH] using lt_wf_ind. intros s -> e. destruct s as [|c s]; [done|]. cbn. destruct (is_ascii_space c); [by eapply IH; [|reflexivity]; cbn; lia|].
  destruct s as [|d s]; [by intros [= <-]|]. destruct (hexval c), (hexval d); try by intros [= <-].
  destruct (bytes_fromhex s) eqn:E; [done|]. intros [= <-]. eapply IH; [|reflexivity|exact E]. cbn. lia.
Qed.

Lemma bytes_fromhex_hex data :
  Forall is_byte data → bytes_fromhex (bytes_hex data) = Ok data.
Proof.
  induction 1 as [|b data Hb _ IH]; [done|].
  unfold is_byte in Hb. cbn -[hexdigit is_ascii_space].
  pose proof (Z.mod_pos_bound b 16 ltac:(lia)).
  assert (0 ≤ b / 16 < 16) by (split; [apply Z.div_pos|apply Z.div_lt_upper_bound]; lia).
  rewrite hexdigit_not_space, !hexval_hexdigit by lia.
  rewrite IH. simpl. do 2 f_equal.
  pose proof (Z.div_mod b 16). lia.
Qed.

(** The white space Python knows. *)
Definition is_space (c : Z) : bool :=
  ((9 <=? c) && (c <=? 13)) || ((28 <=? c) && (c <=? 32)) || (c =? 133) || (c =? 160) ||
  (c =? 5760) || ((8192 <=? c) && (c <=? 8202)) || (c =? 8232) || (c =? 8233) || (c =? 8239) ||
  (c =? 8287) || (c =? 12288).

(** ** [hex(n)] and [int(s, 16)]

    [int16] reads the white space around the number, a sign, a [0x] prefix and
    single underscores between digits (one after the prefix too); decimal digits
    and white space of other scripts count as their ASCII forms. *)

(** The digits of [n], most significant first; [fuel] bounds their number. *)
Fixpoint hexdigits (fuel : nat) (n : Z) : pystr :=
  match fuel with
  | O => []
  | S fuel => (if n / 16 =? 0 then [] else hexdigits fuel (n / 16)) ++ [hexdigit (n mod 16)]
  end.

Definition hex (n : Z) : pystr :=
  let ds m := hexdigits (S (Z.to_nat (Z.log2 m))) m in
  if n <? 0 then str "-0x" ++ ds (- n) else str "0x" ++ ds n.

Fixpoint parse_hexdigits (acc : Z) (s : pystr) : result Z :=
  match s with
  | [] => Ok acc
  | c :: s =>
      match hexval c with
      | Some d => parse_hexdigits (acc * 16 + d) s
      | None => Raise ValueError
      end
  end.

(** The zeros of the decimal digits outside ASCII (Unicode 14). *)
Definition decimal_zeros : list Z :=
  [1632; 1776; 1984; 2406; 2534; 2662; 2790; 2918; 3046; 3174; 3302; 3430; 3558; 3664; 3792;
   3872; 4160; 4240; 6112; 6160; 6470; 6608; 6784; 6800; 6992; 7088; 7232; 7248; 42528; 43216;
   43264; 43472; 43504; 43600; 44016; 65296; 66720; 68912; 69734; 69872; 69942; 70096; 70384;
   70736; 70864; 71248; 71360; 71472; 71904; 72016; 72784; 73040; 73120; 92768; 92864; 93008;
   120782; 120792; 120802; 120812; 120822; 123200; 123632; 125264; 130032].

(** The ASCII form [int] reads a character as; [?] when there is none. *)
Definition to_ascii (c : Z) : Z :=
  if c <? 127 then c
  else if is_space c then 32
  else match list_find (λ z, z ≤ c < z + 10) decimal_zeros with
       | Some (_, z) => 48 + (c - z)
       | None => 63
       end.

Fixpoint ltrim (s : pystr) : pystr :=
  match s with c :: s' => if is_ascii_space c then ltrim s' else s | [] => [] end.

Definition trim (s : pystr) : pystr := reverse (ltrim (reverse (ltrim s))).

(** At least one digit, and every underscore stands between two digits;
    [digit] says whether the character before was one. *)
Fixpoint underscores_ok (digit : bool) (s : pystr) : bool :=
  match s with
  | [] => digit
  | c :: s => if c =? 95 then digit && underscores_ok false s else underscores_ok true s
  end.

Definition parse_grouped (s : pystr) : result Z :=
  if underscores_ok false s then parse_hexdigits 0 (filter (λ c, c ≠ 95) s) else Raise ValueError.

Definition parse_hex_unsigned (s : pystr) : result Z :=
  match s with
  | c :: d :: s' =>
      if (c =? 48) && ((d =? 120) || (d =? 88))
      then parse_grouped (match s' with u :: s'' => if u =? 95 then s'' else s' | [] => [] end)
      else parse_grouped s
  | _ => parse_grouped s
  end.

Definition int16 (s : pystr) : result Z :=
  match trim (to_ascii <$> s) with
  | c :: s' =>
      if c =? 45 then Z.opp <$> parse_hex_unsigned s'
      else if c =? 43 then parse_hex_unsigned s'
      else parse_hex_unsigned (c :: s')
  | [] => Raise ValueError
  end.

Example int16_accepts :
  int16 (str " +0X_1_f ") = Ok 31 ∧ int16 [12288; 1633; 102] = Ok 31 ∧ int16 (str "-a") = Ok (-10).
Proof. done. Qed.
Example int16_refuses : Forall (λ s, int16 (str s) = Raise ValueError)
  ["0x"; "1_"; "_1"; "1__2"; "- 1"; "0_x1"; "+-1"; "0x__1"; ""; "1g"].
Proof. repeat constructor. Qed.

(** Text that [int] reads as it stands: no white space, underscores or
    characters outside ASCII. *)
Definition hex_text (s : pystr) : Prop := Forall (λ c, 48 ≤ c ≤ 57 ∨ 97 ≤ c ≤ 120) s.

Lemma hex_char_plain c : 48 ≤ c ≤ 57 ∨ 97 ≤ c ≤ 120 →
  to_ascii c = c ∧ is_ascii_space c = false ∧ c ≠ 95.
Proof.
  intros Hc. unfold to_ascii, is_ascii_space. rewrite (proj2 (Z.ltb_lt _ _)) by lia.
  split; [done|]. split; [|lia].
  rewrite (proj2 (Z.eqb_neq c 32)), (proj2 (Z.leb_gt c 13)), andb_false_r by lia. done.
Qed.

Lemma ltrim_plain s : hex_text s → ltrim s = s.
Proof. intros [|c l Hc _]; [done|]. simpl. by destruct (hex_char_plain c Hc) as (_ & -> & _). Qed.

Lemma trim_plain s : hex_text s → trim (to_ascii <$> s) = s.
Proof.
  intros Hs. assert (to_ascii <$> s = s) as ->.
  { induction Hs as [|c s Hc _ IH]; [done|]. csimpl. destruct (hex_char_plain c Hc) as [-> _]. by rewrite IH. }
  unfold trim. rewrite (ltrim_plain s) by done. rewrite ltrim_plain by (by apply Forall_reverse).
  apply reverse_involutive.
Qed.

Lemma parse_grouped_plain s : s ≠ [] → hex_text s → parse_grouped s = parse_hexdigits 0 s.
Proof.
  intros Hne Hs. unfold parse_grouped.
  assert (∀ b, b = true ∨ s ≠ [] → underscores_ok b s = true) as Hu.
  { clear Hne. induction Hs as [|c s Hc _ IH]; intros b Hb; [by destruct Hb|]. cbn.
    destruct (hex_char_plain c Hc) as (_ & _ & Hn). rewrite (proj2 (Z.eqb_neq c 95)) by done. apply IH. by left. }
  rewrite Hu by by right. f_equal. clear Hne Hu. induction Hs as [|c s Hc _ IH]; [done|].
  rewrite filter_cons_True by by apply hex_char_plain. by rewrite IH.
Qed.

Lemma parse_hexdigits_app acc s t :
  parse_hexdigits acc (s ++ t) = v ← parse_hexdigits acc s; parse_hexdigits v t.
Proof.
  revert acc; induction s as [|c s IH]; intros acc; simpl; [done|].
  destruct (hexval c); [apply IH|done].
Qed.

Lemma parse_hexdigits_hexdigits fuel n :
  0 ≤ n < 16 ^ Z.of_nat fuel → parse_hexdigits 0 (hexdigits fuel n) = Ok n.
Proof.
  revert n; induction fuel as [|fuel IH]; intros n Hn.
  { simpl in *. f_equal. lia. }
  pose proof (Z.mod_pos_bound n 16 ltac:(lia)). pose proof (Z.div_mod n 16 ltac:(lia)).
  cbn [hexdigits]. rewrite parse_hexdigits_app.
  assert (Hhi : parse_hexdigits 0 (if n / 16 =? 0 then [] else hexdigits fuel (n / 16))
                = Ok (n / 16)).
  { destruct (Z.eqb_spec (n / 16) 0) as [->|?]; [done|]. apply IH.
    rewrite Nat2Z.inj_succ, Z.pow_succ_r in Hn by lia.
    split; [apply Z.div_pos|apply Z.div_lt_upper_bound]; lia. }
  rewrite Hhi. simpl. rewrite hexval_hexdigit by lia. f_equal. lia.
Qed.

Lemma hexdigits_cons fuel n : ∃ c s, hexdigits (S fuel) n = c :: s.
Proof.
  cbn [hexdigits].
  destruct (if n / 16 =? 0 then [] else hexdigits fuel (n / 16)); simpl; eauto.
Qed.

(** Every character of [hex n] is a lower-case digit, [x] or [-]. *)
Lemma hexdigits_chars fuel n c :
  c ∈ hexdigits fuel n → (48 ≤ c ≤ 57) ∨ (97 ≤ c ≤ 102).
Proof.
  revert n; induction fuel as [|fuel IH]; intros n; cbn [hexdigits]; [by intros ?%elem_of_nil|].
  rewrite elem_of_app, list_elem_of_singleton. intros [Hin| ->].
  - destruct (n / 16 =? 0); [by apply elem_of_nil in Hin|]. eauto.
  - pose proof (Z.mod_pos_bound n 16 ltac:(lia)). unfold hexdigit.
    destruct (Z.ltb_spec (n mod 16) 10); lia.
Qed.

Lemma int16_hex n : 0 ≤ n → int16 (hex n) = Ok n.
Proof.
  intros Hn. unfold hex. rewrite (proj2 (Z.ltb_ge _ _)) by lia.
  set (fuel := Z.to_nat (Z.log2 n)).
  assert (Hb : 0 ≤ n < 16 ^ Z.of_nat (S fuel)).
  { split; [done|]. unfold fuel.
    rewrite Nat2Z.inj_succ, Z2Nat.id by apply Z.log2_nonneg.
    destruct (decide (n = 0)) as [->|]; [done|].
    pose proof (Z.log2_spec n ltac:(lia)) as [_ Hl].
    pose proof (Z.log2_nonneg n). eapply Z.lt_le_trans; [exact Hl|].
    apply Z.pow_le_mono_l. lia. }
  destruct (hexdigits_cons fuel n) as (c & s & Hs).
  pose proof (parse_hexdigits_hexdigits (S fuel) n Hb) as Hp.
  assert (hex_text (hexdigits (S fuel) n)) as Ht.
  { apply Forall_forall. intros d Hd%hexdigits_chars. lia. }
  rewrite Hs in Hp, Ht |- *. unfold int16. change (str "0x") with [48; 120]. cbn [app].
  rewrite trim_plain by (do 2 (apply Forall_cons; split; [lia|]); done).
  change (parse_hex_unsigned (48 :: 120 :: c :: s)) with (parse_grouped (if c =? 95 then s else c :: s)).
  rewrite (proj2 (Z.eqb_neq c 95)) by (apply Forall_cons in Ht as [Hc _]; lia).
  by rewrite parse_grouped_plain.
Qed.

Lemma hex_chars n c : c ∈ hex n → (48 ≤ c ≤ 57) ∨ (97 ≤ c ≤ 102) ∨ c = 120 ∨ c = 45.
Proof.
  unfold hex. change (str "-0x") with [45; 48; 120]. change (str "0x") with [48; 120].
  destruct (n <? 0); rewrite elem_of_app, !elem_of_cons, elem_of_nil;
    intros [Hin|Hin%hexdigits_chars]; lia.
Qed.

(** ** [sep.join(parts)] and [s.split(sep)] for a one-character separator *)

Fixpoint join (sep : Z) (parts : list pystr) : pystr :=
  match parts with
  | [] => []
  | [p] => p
  | p :: parts => p ++ sep :: join sep parts
  end.

(** [cur] accumulates the current field in reverse. *)
Fixpoint split_aux (sep : Z) (cur s : pystr) : list pystr :=
  match s with
  | [] => [reverse cur]
  | c :: s => if c =? sep then reverse cur :: split_aux sep [] s else split_aux sep (c :: cur) s
  end.

Definition split (sep : Z) (s : pystr) : list pystr := split_aux sep [] s.

Lemma split_aux_app sep cur p s :
  sep ∉ p → split_aux sep cur (p ++ s) = split_aux sep (reverse p ++ cur) s.
Proof.
  revert cur; induction p as [|c p IH]; intros cur Hp; [done|]. simpl.
  apply not_elem_of_cons in Hp as [Hc Hp].
  rewrite (proj2 (Z.eqb_neq c sep)) by done.
  rewrite IH by done. by rewrite reverse_cons, <-(assoc_L (++)).
Qed.

Lemma split_join sep parts :
  parts ≠ [] → Forall (λ p, sep ∉ p) parts → split sep (join sep parts) = parts.
Proof.
  unfold split. induction parts as [|p parts IH]; [done|]. intros _ Hf.
  apply Forall_cons in Hf as [Hp Hf]. destruct parts as [|q parts].
  - cbn [join]. rewrite <-(app_nil_r p) at 1. rewrite split_aux_app by done.
    simpl. by rewrite app_nil_r, reverse_involutive.
  - cbn [join]. rewrite split_aux_app by done. cbn [split_aux].
    rewrite Z.eqb_refl, app_nil_r, reverse_involutive. f_equal. by apply IH.
Qed.

(** ** [s.strip()], [s.lstrip()], [s.rstrip()] *)

Fixpoint lstrip (s : pystr) : pystr :=
  match s with c :: s' => if is_space c then lstrip s' else s | [] => [] end.

Definition strip (s : pystr) : pystr := reverse (lstrip (reverse (lstrip s))).

Definition rstrip (s : pystr) : pystr := reverse (lstrip (reverse s)).

(** ** UTF-8: [s.encode('utf-8')] and the strict [data.decode('utf-8')]

    Encoding refuses surrogates; decoding refuses overlong forms, surrogates,
    values above U+10FFFF and truncated or stray continuation bytes. *)

Definition is_surrogate (c : Z) : bool := (55296 <=? c) && (c <=? 57343).

(** The code points Python can encode. *)
Definition is_scalar (c : Z) : Prop := 0 ≤ c < 1114112 ∧ is_surrogate c = false.
#[global] Instance is_scalar_dec c : Decision (is_scalar c).
Proof. unfold is_scalar. apply _. Defined.

Definition utf8_char (c : Z) : result bytes :=
  if c <? 128 then Ok [c]
  else if c <? 2048 then Ok [192 + c / 64; 128 + c mod 64]
  else if c <? 65536 then
    if is_surrogate c then Raise UnicodeError
    else Ok [224 + c / 4096; 128 + c / 64 mod 64; 128 + c mod 64]
  else Ok [240 + c / 262144; 128 + c / 4096 mod 64; 128 + c / 64 mod 64; 128 + c mod 64].

Definition utf8_encode (s : pystr) : result bytes :=
  bs ← mapR utf8_char s; Ok (concat bs).

Definition is_cont (b : Z) : bool := (128 <=? b) && (b <? 192).

Fixpoint utf8_decode (data : bytes) : result pystr :=
  match data with
  | [] => Ok []
  | b0 :: r0 =>
      if b0 <? 128 then cons b0 <$> utf8_decode r0
      else if b0 <? 194 then Raise UnicodeError
      else match r0 with
      | b1 :: r1 =>
          if negb (is_cont b1) then Raise UnicodeError
          else if b0 <? 224 then cons ((b0 - 192) * 64 + (b1 - 128)) <$> utf8_decode r1
          else match r1 with
          | b2 :: r2 =>
              if negb (is_cont b2) then Raise UnicodeError
              else if b0 <? 240 then
                let c := (b0 - 224) * 4096 + (b1 - 128) * 64 + (b2 - 128) in
                if (c <? 2048) || is_surrogate c then Raise UnicodeError
                else cons c <$> utf8_decode r2
              else match r2 with
              | b3 :: r3 =>
                  let c := (b0 - 240) * 262144 + (b1 - 128) * 4096 + (b2 - 128) * 64 + (b3 - 128) in
                  if negb (is_cont b3) || (c <? 65536) || (1114112 <=? c) then Raise UnicodeError
                  else cons c <$> utf8_decode r3
              | [] => Raise UnicodeError
              end
          | [] => Raise UnicodeError
          end
      | [] => Raise UnicodeError
      end
  end.

Lemma is_cont_add r : 0 ≤ r < 64 → is_cont (128 + r) = true.
Proof. intros. unfold is_cont. case_cmp; done. Qed.

Lemma utf8_decode_2 a b rest :
  2 ≤ a < 32 → 0 ≤ b < 64 →
  utf8_decode (192 + a :: 128 + b :: rest) = cons (a * 64 + b) <$> utf8_decode rest.
Proof.
  intros Ha Hb. cbn -[Z.mul Z.add Z.sub is_cont]. rewrite is_cont_add by done.
  case_cmp. do 2 f_equal. lia.
Qed.

Lemma utf8_decode_3 a b d rest :
  0 ≤ a < 16 → 0 ≤ b < 64 → 0 ≤ d < 64 →
  2048 ≤ a * 4096 + b * 64 + d → is_surrogate (a * 4096 + b * 64 + d) = false →
  utf8_decode (224 + a :: 128 + b :: 128 + d :: rest)
    = cons (a * 4096 + b * 64 + d) <$> utf8_decode rest.
Proof.
  intros Ha Hb Hd Hc Hs. cbn -[Z.mul Z.add Z.sub is_cont is_surrogate].
  rewrite !is_cont_add by done.
  replace ((224 + a - 224) * 4096 + (128 + b - 128) * 64 + (128 + d - 128))
    with (a * 4096 + b * 64 + d) by lia.
  rewrite Hs, orb_false_r. case_cmp. done.
Qed.

Lemma utf8_decode_4 a b d e rest :
  0 ≤ a < 5 → 0 ≤ b < 64 → 0 ≤ d < 64 → 0 ≤ e < 64 →
  65536 ≤ a * 262144 + b * 4096 + d * 64 + e < 1114112 →
  utf8_decode (240 + a :: 128 + b :: 128 + d :: 128 + e :: rest)
    = cons (a * 262144 + b * 4096 + d * 64 + e) <$> utf8_decode rest.
Proof.
  intros Ha Hb Hd He Hc. cbn -[Z.mul Z.add Z.sub is_cont].
  rewrite !is_cont_add by done.
  replace ((240 + a - 240) * 262144 + (128 + b - 128) * 4096 + (128 + d - 128) * 64
           + (128 + e - 128)) with (a * 262144 + b * 4096 + d * 64 + e) by lia.
  case_cmp. done.
Qed.

Lemma utf8_decode_char c bs rest :
  is_scalar c → utf8_char c = Ok bs →
  utf8_decode (bs ++ rest) = cons c <$> utf8_decode rest ∧ Forall is_byte bs.
Proof.
  intros [Hc Hs]. unfold utf8_char. rewrite Hs.
  repeat case_match; rewrite ?Z.ltb_lt, ?Z.ltb_ge in *; intros [= <-];
    (split; [|repeat constructor; unfold is_byte; dlia]); cbn [app].
  - cbn. case_cmp. done.
  - rewrite utf8_decode_2 by dlia. do 2 f_equal. dlia.
  - rewrite utf8_decode_3; [do 2 f_equal; dlia | dlia.. |].
    rewrite <-Hs. f_equal. dlia.
  - rewrite utf8_decode_4 by dlia. do 2 f_equal. dlia.
Qed.

Lemma utf8_encode_cons c s bs :
  utf8_encode (c :: s) = Ok bs →
  ∃ b1 b2, utf8_char c = Ok b1 ∧ utf8_encode s = Ok b2 ∧ bs = b1 ++ b2.
Proof.
  unfold utf8_encode. simpl. destruct (utf8_char c) as [b1|]; [|done]. simpl.
  destruct (mapR utf8_char s) as [bb|]; [|done]. simpl. intros [= <-]. eauto.
Qed.

(** The characters of a literal. *)
Lemma str_scalar_char (a : ascii) : is_scalar (Z.of_N (N_of_ascii a)).
Proof.
  pose proof (N_ascii_bounded a). split; [lia|]. unfold is_surrogate. case_cmp; (done || lia).
Qed.

Lemma ascii_is_scalar c : 0 ≤ c < 128 → is_scalar c.
Proof. intros ?. split; [lia|]. unfold is_surrogate. by case_cmp. Qed.

Lemma utf8_encode_ascii s : Forall (λ c, 0 ≤ c < 128) s → utf8_encode s = Ok s.
Proof.
  unfold utf8_encode. induction 1 as [|c s Hc _ IH]; [done|]. cbn [mapR]. assert (utf8_char c = Ok [c]) as -> by (unfold utf8_char; by case_cmp).
  cbn.
  destruct (mapR utf8_char s) as [bs|]; cbn in *; [|done]. by injection IH as ->.
Qed.

Lemma utf8_decode_encode s bs :
  Forall is_scalar s → utf8_encode s = Ok bs → utf8_decode bs = Ok s.
Proof.
  intros Hs. revert bs. induction Hs as [|c s Hc _ IH]; intros bs.
  - by intros [= <-].
  - intros (b1 & b2 & Hb1 & Hb2 & ->)%utf8_encode_cons.
    rewrite (proj1 (utf8_decode_char c b1 b2 Hc Hb1)), (IH b2 Hb2). done.
Qed.

Lemma utf8_encode_bytes s bs :
  Forall is_scalar s → utf8_encode s = Ok bs → Forall is_byte bs.
Proof.
  intros Hs. revert bs. induction Hs as [|c s Hc _ IH]; intros bs.
  - by intros [= <-].
  - intros (b1 & b2 & Hb1 & Hb2 & ->)%utf8_encode_cons.
    apply Forall_app. split; [by eapply (utf8_decode_char c b1 [])|by apply IH].
Qed.

Lemma utf8_encode_total s : Forall is_scalar s → ∃ bs, utf8_encode s = Ok bs.
Proof.
  induction 1 as [|c s [Hc Hsur] _ [bs Hbs]]; [by eexists|].
  assert (∃ b1, utf8_char c = Ok b1) as [b1 Hb1].
  { unfold utf8_char. rewrite Hsur. repeat case_match; eauto. }
  exists (b1 ++ bs). unfold utf8_encode in *. simpl. rewrite Hb1. simpl.
  destruct (mapR utf8_char s); [|done]. simpl in *. by simplify_eq.
Qed.

(** ** Text built from fields

    [sep.join(parts)] and f-strings with delimiters, on [string]; the fields
    can be read back when none of them contains the delimiter. *)

#[global] Instance str_inj : Inj (=) (=) str.
Proof.
  intros s t Heq. unfold str in Heq.
  apply list_fmap_eq_inj in Heq.
  - by rewrite <-(String.string_of_list_ascii_of_string s), Heq,
      String.string_of_list_ascii_of_string.
  - intros a b Hab. apply N2Z.inj in Hab.
    by rewrite <-(ascii_N_embedding a), Hab, ascii_N_embedding.
Qed.

Lemma str_app s t : str (s +:+ t) = str s ++ str t.
Proof.
  unfold str. rewrite <-fmap_app. f_equal. induction s as [|c s IH]; simpl; [done|]. by rewrite IH.
Qed.

(** [sep.join(parts)] for a one-character separator. *)
Definition join_with (sep : ascii) (parts : list string) : string :=
  String.concat (String sep "") parts.

Lemma str_join_with sep parts :
  str (join_with sep parts) = join (Z.of_N (N_of_ascii sep)) (str <$> parts).
Proof.
  unfold join_with. induction parts as [|p [|q parts] IH]; [done|done|].
  change (String.concat (String sep "") (p :: q :: parts))
    with (p +:+ String sep "" +:+ String.concat (String sep "") (q :: parts)).
  rewrite !str_app, IH. done.
Qed.

Definition no_char (c : ascii) (s : string) : Prop := Z.of_N (N_of_ascii c) ∉ str s.
#[global] Instance no_char_dec c s : Decision (no_char c s).
Proof. unfold no_char. apply _. Defined.

Lemma join_with_inj sep parts parts' :
  parts ≠ [] → parts' ≠ [] → Forall (no_char sep) parts → Forall (no_char sep) parts' →
  join_with sep parts = join_with sep parts' → parts = parts'.
Proof.
  intros Hne Hne' Hp Hp' Heq. apply (f_equal str) in Heq. rewrite !str_join_with in Heq.
  apply (f_equal (split (Z.of_N (N_of_ascii sep)))) in Heq.
  rewrite !split_join in Heq; [|by destruct parts'|apply Forall_fmap; exact Hp'
                               |by destruct parts|apply Forall_fmap; exact Hp].
  by apply list_fmap_eq_inj in Heq; [|apply _].
Qed.

(** Decimal text has digits and a sign only. *)
Lemma pretty_N_go_chars n s :
  Forall (λ c, 45 ≤ c ≤ 57) (str s) → Forall (λ c, 45 ≤ c ≤ 57) (str (pretty_N_go n s)).
Proof.
  revert s. induction (N.lt_wf_0 n) as [n _ IH]; intros s Hs.
  destruct (decide (n = 0)%N) as [->|]; [done|].
  rewrite pretty_N_go_step by lia. apply IH; [apply N.div_lt; lia|].
  change (String ?c s) with (String c "" +:+ s). rewrite str_app. apply Forall_app. split; [|done].
  constructor; [|constructor]. unfold pretty_N_char. repeat case_match; simpl; lia.
Qed.

Lemma pretty_Z_chars (z : Z) : Forall (λ c, 45 ≤ c ≤ 57) (str (pretty z)).
Proof.
  assert (∀ n : N, Forall (λ c, 45 ≤ c ≤ 57) (str (pretty n))) as HN.
  { intros n. unfold pretty, pretty_N. case_decide; [repeat constructor; done|].
    apply pretty_N_go_chars. constructor. }
  destruct z; simpl.
  - repeat constructor; done.
  - apply HN.
  - change (pretty (Z.neg p)) with ("-" +:+ pretty (N.pos p)). rewrite str_app.
    apply Forall_app. split; [repeat constructor; done|apply HN].
Qed.

Lemma pretty_Z_no_char c (z : Z) :
  Z.of_N (N_of_ascii c) < 45 ∨ 57 < Z.of_N (N_of_ascii c) → no_char c (pretty z).
Proof.
  intros Hc Hin. pose proof (pretty_Z_chars z) as H. rewrite Forall_forall in H.
  specialize (H _ Hin). simpl in H. lia.
Qed.
