(* ===== verification/DateTime.v ===== *)
(** * UTC date-times and their ISO 8601 text

    The part of Python's [datetime] the framework uses: [isoformat] of an
    aware UTC date-time, [fromisoformat] of such text, and adding seconds.  A
    date-time is the number of microseconds since 0001-01-01T00:00:00+00:00.
    [fromisoformat] covers the text [isoformat] writes; any other text (other
    offsets, shortened fractions) is refused. *)

From Stdlib Require Import ZArith Lia Ascii String.
From S2P Require Import Prelude PyData.

(** ** The proleptic Gregorian calendar *)

Definition is_leap (y : Z) : bool :=
  (y mod 4 =? 0) && (negb (y mod 100 =? 0) || (y mod 400 =? 0)).

Definition days_before_year (y : Z) : Z :=
  let y := y - 1 in y * 365 + y / 4 - y / 100 + y / 400.

(** Days before month [m] of a year that is leap or not. *)
Definition days_before_month (leap : bool) (m : Z) : Z :=
  nth (Z.to_nat m) [0; 0; 31; 59; 90; 120; 151; 181; 212; 243; 273; 304; 334; 365] 0
  + (if leap && (2 <? m) then 1 else 0).

Definition ymd2ord (y m d : Z) : Z := days_before_year y + days_before_month (is_leap y) m + d.

(** The month and day of the zero-based day [k] of a year. *)
Definition month_day (leap : bool) (k : Z) : Z * Z :=
  let month := (k + 50) / 32 in
  let month := if k <? days_before_month leap month then month - 1 else month in
  (month, k - days_before_month leap month + 1).

Definition ord2ymd (n : Z) : Z * Z * Z :=
  let n := n - 1 in
  let n400 := n / 146097 in let n := n mod 146097 in
  let n100 := n / 36524 in let n := n mod 36524 in
  let n4 := n / 1461 in let n := n mod 1461 in
  let n1 := n / 365 in let n := n mod 365 in
  let year := n400 * 400 + 1 + n100 * 100 + n4 * 4 + n1 in
  if (n1 =? 4) || (n100 =? 4) then (year - 1, 12, 31)
  else
    let leapyear := (n1 =? 3) && (negb (n4 =? 24) || (n100 =? 3)) in
    let '(m, d) := month_day leapyear n in (year, m, d).

Definition days_in_month (y m : Z) : Z :=
  days_before_month (is_leap y) (m + 1) - days_before_month (is_leap y) m.

(** A valid calendar date. *)
Definition valid_date (y m d : Z) : bool :=
  (1 <=? y) && (y <=? 9999) && (1 <=? m) && (m <=? 12) && (1 <=? d) && (d <=? days_in_month y m).

Definition max_ord : Z := 3652059.

Lemma month_day_spec leap k :
  0 ≤ k < (if leap : bool then 366 else 365) →
  let '(m, d) := month_day leap k in
  1 ≤ m ≤ 12 ∧ 1 ≤ d ≤ days_before_month leap (m + 1) - days_before_month leap m ∧
  days_before_month leap m + d = k + 1.
Proof.
  set (ok := λ leap k, let '(m, d) := month_day leap k in
    (1 <=? m) && (m <=? 12) && (1 <=? d) &&
    (d <=? days_before_month leap (m + 1) - days_before_month leap m) &&
    (days_before_month leap m + d =? k + 1)).
  assert (forallb (λ n, ok true (Z.of_nat n)) (seq 0 366) = true) as Ht by (vm_compute; reflexivity).
  assert (forallb (λ n, ok false (Z.of_nat n)) (seq 0 365) = true) as Hf by (vm_compute; reflexivity).
  rewrite forallb_forall in Ht, Hf. intros Hk.
  assert (ok leap k = true) as Hok.
  { rewrite <-(Z2Nat.id k) by lia. destruct leap; [apply Ht|apply Hf]; apply in_seq; lia. }
  unfold ok in Hok. destruct (month_day leap k) as [m d].
  rewrite !andb_true_iff, !Z.leb_le, Z.eqb_eq in Hok. lia.
Qed.

Lemma ord2ymd_year a b c d k :
  0 ≤ a → 0 ≤ b < 4 → 0 ≤ c < 25 → 0 ≤ d < 4 → 
  let y := a * 400 + 1 + b * 100 + c * 4 + d in
  days_before_year y = 146097 * a + 36524 * b + 1461 * c + 365 * d ∧
  is_leap y = (d =? 3) && (negb (c =? 24) || (b =? 3)) ∧
  days_before_year y + k = 146097 * a + (36524 * b + (1461 * c + (365 * d + k))).
Proof.
  intros Ha Hb Hc Hd y. unfold days_before_year, is_leap. subst y.
  assert (days_before_year (a * 400 + 1 + b * 100 + c * 4 + d)
    = 146097 * a + 36524 * b + 1461 * c + 365 * d) as Hdby.
  { unfold days_before_year. dlia. }
  unfold days_before_year in Hdby. split; [done|]. split; [|lia].
  destruct (Z.eqb_spec d 3), (Z.eqb_spec c 24), (Z.eqb_spec b 3); cbn [andb orb negb];
    repeat match goal with |- context [?u mod ?v =? 0] =>
      destruct (Z.eqb_spec (u mod v) 0) end; cbn [andb orb negb]; try reflexivity; exfalso; dlia.
Qed.

Lemma dec31_spec y n :
  1 ≤ y ≤ 9999 → n - 1 = days_before_year y + (if is_leap y then 365 else 364) →
  valid_date y 12 31 = true ∧ ymd2ord y 12 31 = n.
Proof.
  intros Hy Hn. unfold valid_date, days_in_month, ymd2ord.
  destruct (is_leap y);
    [change (days_before_month true (12 + 1)) with 366; change (days_before_month true 12) with 335
    |change (days_before_month false (12 + 1)) with 365; change (days_before_month false 12) with 334];
    case_cmp; split; done || lia.
Qed.

Lemma ord2ymd_spec n :
  1 ≤ n ≤ max_ord →
  let '(y, m, d) := ord2ymd n in valid_date y m d = true ∧ ymd2ord y m d = n.
Proof.
  unfold max_ord. intros Hn. unfold ord2ymd.
  set (a := (n - 1) / 146097). set (n400 := (n - 1) mod 146097).
  set (b := n400 / 36524). set (n100 := n400 mod 36524).
  set (c := n100 / 1461). set (n4 := n100 mod 1461).
  set (d := n4 / 365). set (k := n4 mod 365).
  assert (0 ≤ a < 25 ∧ 0 ≤ b ≤ 4 ∧ 0 ≤ c ≤ 24 ∧ 0 ≤ d ≤ 4 ∧ 0 ≤ k < 365 ∧
    n - 1 = 146097 * a + (36524 * b + (1461 * c + (365 * d + k))) ∧
    (b = 4 → c = 0 ∧ d = 0 ∧ k = 0) ∧ (d = 4 → k = 0 ∧ c < 24) ∧
    (c = 24 → b < 3 → 365 * d + k < 1460))
    as (Ha & Hb & Hc & Hd & Hk & Heq & Hb4 & Hd4 & Hc24).
  { unfold a, n400, b, n100, c, n4, d, k. dlia. }
  clearbody a b c d k. clear n400 n100 n4.
  destruct (Z.eqb_spec d 4) as [->|Hd']; [|destruct (Z.eqb_spec b 4) as [->|Hb']]; cbn [orb].
  - (* the last day of a leap year inside a four-year cycle *)
    destruct (ord2ymd_year a b c 3 366) as (H1 & H2 & H3); try lia.
    replace (a * 400 + 1 + b * 100 + c * 4 + 4 - 1) with (a * 400 + 1 + b * 100 + c * 4 + 3) by lia.
    apply dec31_spec; [lia|]. rewrite H2, H1. rewrite (proj2 (Z.eqb_neq c 24)) by lia. simpl. lia.
  - (* the last day of a 400-year cycle *)
    destruct (Hb4 eq_refl) as (-> & -> & ->).
    destruct (ord2ymd_year a 3 24 3 366) as (H1 & H2 & H3); try lia.
    replace (a * 400 + 1 + 4 * 100 + 0 * 4 + 0 - 1) with (a * 400 + 1 + 3 * 100 + 24 * 4 + 3) by lia.
    apply dec31_spec; [lia|]. rewrite H2, H1. simpl. lia.
  - destruct (ord2ymd_year a b c d k) as (H1 & H2 & H3); try lia.
    set (y := a * 400 + 1 + b * 100 + c * 4 + d) in *. rewrite <-H2.
    pose proof (month_day_spec (is_leap y) k) as Hmd.
    destruct (month_day (is_leap y) k) as [m md].
    destruct Hmd as (Hm & Hmd & Hday); [destruct (is_leap y); lia|].
    assert (1 ≤ y ≤ 9999) by (unfold y; lia).
    split; [|unfold ymd2ord; lia]. unfold valid_date, days_in_month. case_cmp; done.
Qed.

(** ** Fixed-width decimal fields *)

Fixpoint digits (w : nat) (n : Z) : pystr :=
  match w with
  | O => []
  | S w => digits w (n / 10) ++ [48 + n mod 10]
  end.

Fixpoint parse_num (w : nat) (acc : Z) (s : pystr) : option (Z * pystr) :=
  match w, s with
  | O, _ => Some (acc, s)
  | S w, c :: s => if (48 <=? c) && (c <=? 57) then parse_num w (acc * 10 + (c - 48)) s else None
  | S _, [] => None
  end.

Definition expect (c : Z) (s : pystr) : option pystr :=
  match s with x :: s => if x =? c then Some s else None | [] => None end.

(** Lexicographic order on code points: Python's and SQLite's [<] on text. *)
Fixpoint lex_lt (a b : pystr) : bool :=
  match a, b with
  | _, [] => false
  | [], _ :: _ => true
  | x :: a, y :: b => (x <? y) || ((x =? y) && lex_lt a b)
  end.

Lemma length_digits w n : length (digits w n) = w.
Proof. revert n; induction w as [|w IH]; intros n; simpl; [done|]. rewrite length_app, IH. simpl. lia. Qed.

Lemma parse_num_app w w' acc acc' s s' :
  parse_num w acc s = Some (acc', s') → parse_num (w + w') acc s = parse_num w' acc' s'.
Proof.
  revert acc s; induction w as [|w IH]; intros acc s; simpl; [by intros [= -> ->]|].
  destruct s as [|c s]; [done|]. destruct (_ && _); [apply IH|done].
Qed.

Lemma parse_num_digits w n acc r :
  0 ≤ n < 10 ^ Z.of_nat w →
  parse_num w acc (digits w n ++ r) = Some (acc * 10 ^ Z.of_nat w + n, r).
Proof.
  revert n acc r; induction w as [|w IH]; intros n acc r Hn.
  - simpl in *. do 2 f_equal. lia.
  - rewrite Nat2Z.inj_succ, Z.pow_succ_r in * by lia. cbn [digits]. rewrite <-app_assoc.
    replace (S w) with (w + 1)%nat by lia.
    erewrite parse_num_app; [|apply IH; dlia]. simpl. pose proof (Z.mod_pos_bound n 10).
    case_cmp. do 2 f_equal. pose proof (Z.div_mod n 10). lia.
Qed.

Lemma lex_lt_app_same l a b : lex_lt (l ++ a) (l ++ b) = lex_lt a b.
Proof. induction l as [|x l IH]; simpl; [done|]. by rewrite Z.ltb_irrefl, Z.eqb_refl. Qed.

Lemma lex_lt_irrefl a : lex_lt a a = false.
Proof. induction a as [|x a IH]; simpl; [done|]. by rewrite Z.ltb_irrefl, Z.eqb_refl. Qed.

Lemma lex_lt_total a b : lex_lt a b = false → lex_lt b a = false → a = b.
Proof.
  revert b; induction a as [|x a IH]; intros [|y b]; simpl; try done.
  destruct (Z.ltb_spec x y), (Z.ltb_spec y x); try done; try lia.
  destruct (Z.eqb_spec x y) as [->|]; [|lia]. rewrite Z.eqb_refl. simpl. intros. f_equal. auto.
Qed.

Lemma lex_lt_app a b r s :
  length a = length b → lex_lt (a ++ r) (b ++ s) = lex_lt a b || (bool_decide (a = b) && lex_lt r s).
Proof.
  revert b; induction a as [|x a IH]; intros [|y b] Hlen; try done; simpl.
  rewrite IH by (simpl in Hlen; lia). destruct (Z.ltb_spec x y); [done|].
  destruct (Z.eqb_spec x y) as [->|Hne]; simpl.
  - do 2 f_equal. apply bool_decide_ext. split; congruence.
  - rewrite bool_decide_false; [done|congruence].
Qed.

Lemma lex_lt_digits w n m r s :
  0 ≤ n < 10 ^ Z.of_nat w → 0 ≤ m < 10 ^ Z.of_nat w →
  lex_lt (digits w n ++ r) (digits w m ++ s) = (n <? m) || ((n =? m) && lex_lt r s).
Proof.
  revert n m r s; induction w as [|w IH]; intros n m r s Hn Hm.
  - simpl in *. case_cmp; done.
  - rewrite Nat2Z.inj_succ, Z.pow_succ_r in * by lia. cbn [digits]. rewrite <-!app_assoc.
    rewrite IH by dlia. cbn [app lex_lt].
    pose proof (Z.div_mod n 10 ltac:(lia)). pose proof (Z.div_mod m 10 ltac:(lia)).
    pose proof (Z.mod_pos_bound n 10 ltac:(lia)). pose proof (Z.mod_pos_bound m 10 ltac:(lia)).
    case_cmp; try reflexivity; exfalso; lia.
Qed.

(** ** Text of a date-time *)

Definition pystring (l : pystr) : string :=
  String.string_of_list_ascii ((λ c, ascii_of_N (Z.to_N c)) <$> l).

Lemma str_pystring l : Forall (λ c, 0 ≤ c < 256) l → str (pystring l) = l.
Proof.
  intros Hl. unfold str, pystring. rewrite String.list_ascii_of_string_of_list_ascii.
  rewrite <-list_fmap_compose. induction Hl as [|c l Hc _ IH]; csimpl; [done|].
  rewrite IH. f_equal. simpl in *. rewrite N_ascii_embedding by lia. lia.
Qed.

(** Text in UTF-8 as a [string], and back; lone surrogates cannot be encoded. *)
Definition text_of (s : pystr) : result string := pystring <$> utf8_encode s.
Definition code_points (s : string) : result pystr := utf8_decode (str s).

Lemma code_points_text_of s t : Forall is_scalar s → text_of s = Ok t → code_points t = Ok s.
Proof.
  intros Hs. unfold text_of, code_points. destruct (utf8_encode s) as [bs|] eqn:Hb; [|done].
  intros [= <-]. rewrite str_pystring; [by eapply utf8_decode_encode|]. by eapply utf8_encode_bytes.
Qed.

Definition us_per_day : Z := 86400000000.
Definition max_datetime : Z := max_ord * us_per_day.

(** [datetime.isoformat()] of an aware UTC date-time. *)
Definition iso_codes (t : Z) : pystr :=
  let '(y, m, d) := ord2ymd (t / us_per_day + 1) in
  let us := t mod us_per_day in
  let secs := us / 1000000 in
  digits 4 y ++ str "-" ++ digits 2 m ++ str "-" ++ digits 2 d ++ str "T" ++
  digits 2 (secs / 3600) ++ str ":" ++ digits 2 (secs / 60 mod 60) ++ str ":" ++
  digits 2 (secs mod 60) ++
  (if us mod 1000000 =? 0 then [] else str "." ++ digits 6 (us mod 1000000)) ++ str "+00:00".

Definition isoformat (t : Z) : string := pystring (iso_codes t).

Definition iso_parse (s : pystr) : option Z :=
  '(y, s) ← parse_num 4 0 s; s ← expect 45 s;
  '(m, s) ← parse_num 2 0 s; s ← expect 45 s;
  '(d, s) ← parse_num 2 0 s; s ← expect 84 s;
  '(hh, s) ← parse_num 2 0 s; s ← expect 58 s;
  '(mm, s) ← parse_num 2 0 s; s ← expect 58 s;
  '(ss, s) ← parse_num 2 0 s;
  '(us, s) ← match s with
             | c :: s' => if c =? 46 then parse_num 6 0 s' else Some (0, s)
             | [] => Some (0, s)
             end;
  guard (s = str "+00:00");;
  guard (valid_date y m d && (hh <? 24) && (mm <? 60) && (ss <? 60));;
  Some ((ymd2ord y m d - 1) * us_per_day + ((hh * 60 + mm) * 60 + ss) * 1000000 + us).

(** [datetime.fromisoformat(s.replace('Z', '+00:00'))]. *)
Definition replace_Z (s : pystr) : pystr := s ≫= λ c, if c =? 90 then str "+00:00" else [c].
Definition fromisoformat (s : string) : option Z := iso_parse (replace_Z (str s)).

(** [t + timedelta(seconds=s)]. *)
Definition add_seconds (t s : Z) : result Z :=
  let t' := t + s * 1000000 in
  if (t' <? 0) || (max_datetime <=? t') then Raise OverflowError else Ok t'.

Lemma add_seconds_Ok t s t' : add_seconds t s = Ok t' → t' = t + s * 1000000.
Proof. unfold add_seconds. destruct (_ || _); naive_solver. Qed.

Lemma valid_date_bounds y m d :
  valid_date y m d = true → 1 ≤ y ≤ 9999 ∧ 1 ≤ m ≤ 12 ∧ 1 ≤ d ≤ 31 ∧ d ≤ days_in_month y m.
Proof.
  unfold valid_date. rewrite !andb_true_iff, !Z.leb_le. intros (((((?&?)&?)&?)&?)&?).
  enough (days_in_month y m ≤ 31) by lia. unfold days_in_month.
  assert (m = 1 ∨ m = 2 ∨ m = 3 ∨ m = 4 ∨ m = 5 ∨ m = 6 ∨ m = 7 ∨ m = 8 ∨ m = 9 ∨ m = 10 ∨
    m = 11 ∨ m = 12) as Hm by lia.
  destruct (is_leap y); repeat destruct Hm as [->|Hm]; subst; vm_compute; discriminate.
Qed.

(** The fields of a date-time, and how they determine it. *)
Lemma iso_fields t : 0 ≤ t < max_datetime →
  ∃ y m d hh mm ss us,
    valid_date y m d = true ∧ 0 ≤ hh < 24 ∧ 0 ≤ mm < 60 ∧ 0 ≤ ss < 60 ∧ 0 ≤ us < 1000000 ∧
    t = (ymd2ord y m d - 1) * us_per_day + ((hh * 60 + mm) * 60 + ss) * 1000000 + us ∧
    iso_codes t = digits 4 y ++ str "-" ++ digits 2 m ++ str "-" ++ digits 2 d ++ str "T" ++
      digits 2 hh ++ str ":" ++ digits 2 mm ++ str ":" ++ digits 2 ss ++
      (if us =? 0 then [] else str "." ++ digits 6 us) ++ str "+00:00".
Proof.
  unfold max_datetime, max_ord, us_per_day. intros Ht.
  pose proof (ord2ymd_spec (t / 86400000000 + 1) ltac:(unfold max_ord; dlia)) as Hymd.
  unfold iso_codes, us_per_day. destruct (ord2ymd _) as [[y m] d]. destruct Hymd as [Hv Ho].
  set (us := t mod 86400000000).
  exists y, m, d, (us / 1000000 / 3600), (us / 1000000 / 60 mod 60), (us / 1000000 mod 60),
    (us mod 1000000).
  split; [done|]. rewrite Ho. unfold us. repeat split; dlia.
Qed.

Lemma expect_cons c s : expect c (c :: s) = Some s.
Proof. simpl. by rewrite Z.eqb_refl. Qed.

Lemma iso_parse_codes t : 0 ≤ t < max_datetime → iso_parse (iso_codes t) = Some t.
Proof.
  intros Ht. destruct (iso_fields t Ht) as (y & m & d & hh & mm & ss & us & Hv & Hh & Hm & Hs & Hu & Ht' & ->).
  pose proof (valid_date_bounds _ _ _ Hv) as (Hy & Hmo & Hd & _).
  unfold iso_parse.
  change (str "-") with [45]. change (str "T") with [84]. change (str ":") with [58]. cbn [app].
  do 6 (rewrite parse_num_digits by (simpl; lia); cbn [mbind option_bind];
        rewrite Z.mul_0_l, Z.add_0_l; rewrite ?expect_cons; cbn [mbind option_bind]).
  assert (∀ r, (match (if us =? 0 then [] else str "." ++ digits 6 us) ++ str "+00:00" with
    | c :: s' => if c =? 46 then parse_num 6 0 s' else Some (0, (if us =? 0 then [] else str "." ++ digits 6 us) ++ str "+00:00")
    | [] => r end) = Some (us, str "+00:00")) as Hus.
  { intros r. destruct (Z.eqb_spec us 0) as [->|]; [done|].
    rewrite <-app_assoc. change (str "." ++ digits 6 us ++ str "+00:00") with (46 :: digits 6 us ++ str "+00:00").
    cbn [Z.eqb Pos.eqb]. rewrite parse_num_digits by (simpl; lia). done. }
  rewrite Hus. cbn [mbind option_bind]. rewrite option_guard_True by done. cbn.
  rewrite Hv. case_cmp. rewrite option_guard_True by done. cbn. by rewrite <-Ht'.
Qed.

Lemma digits_codes w n : 0 ≤ n → Forall (λ c, 48 ≤ c ≤ 57) (digits w n).
Proof.
  revert n; induction w as [|w IH]; intros n Hn; simpl; [constructor|].
  apply Forall_app. split; [apply IH; dlia|]. constructor; [dlia|constructor].
Qed.

Lemma iso_codes_range t : 0 ≤ t < max_datetime → Forall (λ c, 43 ≤ c ≤ 84) (iso_codes t).
Proof.
  intros Ht. destruct (iso_fields t Ht) as (y & m & d & hh & mm & ss & us & Hv & Hh & Hm & Hs & Hu & _ & ->).
  pose proof (valid_date_bounds _ _ _ Hv) as (Hy & Hmo & Hd & _).
  assert (∀ w n, 0 ≤ n → Forall (λ c, 43 ≤ c ≤ 84) (digits w n)) as Hdig.
  { intros w n Hn. eapply Forall_impl; [by apply digits_codes|]. simpl. lia. }
  repeat match goal with
  | |- Forall _ (_ ++ _) => apply Forall_app; split
  | |- Forall _ (digits _ _) => apply Hdig; lia
  | |- Forall _ (if ?b then _ else _) => destruct b
  end; apply (bool_decide_unpack _); exact I.
Qed.

(** Parsing the text of a date-time gives the date-time. *)
Lemma fromisoformat_isoformat t : 0 ≤ t < max_datetime → fromisoformat (isoformat t) = Some t.
Proof.
  intros Ht. unfold fromisoformat, isoformat. pose proof (iso_codes_range t Ht) as Hr.
  rewrite str_pystring by (eapply Forall_impl; [exact Hr|]; simpl; lia).
  enough (replace_Z (iso_codes t) = iso_codes t) as -> by by apply iso_parse_codes.
  unfold replace_Z. induction Hr as [|c l Hc _ IH]; csimpl; [done|]. simpl in Hc.
  case_cmp. simpl. by rewrite IH.
Qed.

(** ** Text order is time order *)

Lemma days_before_year_lt y y' :
  1 ≤ y → y < y' → days_before_year y + (if is_leap y then 366 else 365) ≤ days_before_year y'.
Proof.
  intros Hy Hlt. unfold days_before_year, is_leap.
  repeat match goal with |- context [?u mod ?v =? 0] =>
    destruct (Z.eqb_spec (u mod v) 0) end; cbn [andb orb negb]; dlia.
Qed.

Lemma days_before_month_lt leap m m' :
  1 ≤ m → m < m' ≤ 13 → days_before_month leap (m + 1) ≤ days_before_month leap m'.
Proof.
  assert (forallb (λ leap, forallb (λ m, forallb (λ m',
      negb (m <? m')%nat || (days_before_month leap (Z.of_nat m + 1) <=? days_before_month leap (Z.of_nat m')))
    (seq 1 13)) (seq 1 12)) [true; false] = true) as H by (vm_compute; reflexivity).
  rewrite forallb_forall in H. intros Hm Hlt. specialize (H leap ltac:(destruct leap; simpl; auto)).
  rewrite forallb_forall in H. specialize (H (Z.to_nat m) ltac:(apply in_seq; lia)).
  rewrite forallb_forall in H. specialize (H (Z.to_nat m') ltac:(apply in_seq; lia)).
  rewrite !Z2Nat.id in H by lia. rewrite (proj2 (Nat.ltb_lt _ _)) in H by lia.
  by apply Z.leb_le in H.
Qed.

Lemma days_before_month_range leap m d :
  1 ≤ m ≤ 12 → 1 ≤ d ≤ days_before_month leap (m + 1) - days_before_month leap m →
  0 < days_before_month leap m + d ≤ (if leap : bool then 366 else 365).
Proof.
  intros Hm Hd. assert (days_before_month leap (m + 1) ≤ days_before_month leap 13).
  { by destruct (decide (m = 12)) as [->|]; [|apply days_before_month_lt; lia]. }
  assert (days_before_month leap 13 = if leap then 366 else 365) by (by destruct leap).
  split; [|lia]. destruct (decide (m = 1)) as [->|].
  { assert (days_before_month leap 1 = 0) by (by destruct leap). lia. }
  pose proof (days_before_month_lt leap 1 m ltac:(lia) ltac:(lia)).
  assert (0 ≤ days_before_month leap (1 + 1)) by (by destruct leap). lia.
Qed.

Lemma ymd2ord_lt y m d y' m' d' :
  valid_date y m d = true → valid_date y' m' d' = true →
  (y < y' ∨ y = y' ∧ (m < m' ∨ m = m' ∧ d < d')) → ymd2ord y m d < ymd2ord y' m' d'.
Proof.
  intros (By & Bm & Bd & Bdim)%valid_date_bounds (By' & Bm' & Bd' & Bdim')%valid_date_bounds.
  unfold days_in_month in *. unfold ymd2ord.
  intros [Hy|[<- [Hm|[<- Hd]]]]; [| |lia].
  - pose proof (days_before_year_lt y y' ltac:(lia) Hy).
    pose proof (days_before_month_range (is_leap y) m d ltac:(lia) ltac:(lia)).
    pose proof (days_before_month_range (is_leap y') m' d' ltac:(lia) ltac:(lia)). lia.
  - pose proof (days_before_month_lt (is_leap y) m m' ltac:(lia) ltac:(lia)). lia.
Qed.

(** A field that is smaller decides; otherwise the next one does. *)
Lemma iso_codes_lt_true a b :
  0 ≤ a < max_datetime → 0 ≤ b < max_datetime → lex_lt (iso_codes a) (iso_codes b) = true → a < b.
Proof.
  intros Ha Hb.
  destruct (iso_fields a Ha) as (y & m & d & hh & mm & ss & us & Hv & Hh & Hm & Hs & Hu & Hta & ->).
  destruct (iso_fields b Hb) as (y' & m' & d' & hh' & mm' & ss' & us' & Hv' & Hh' & Hm' & Hs' & Hu' & Htb & ->).
  pose proof (valid_date_bounds _ _ _ Hv) as (By & Bm & Bd & _).
  pose proof (valid_date_bounds _ _ _ Hv') as (By' & Bm' & Bd' & _).
  pose proof (ymd2ord_lt _ _ _ _ _ _ Hv Hv') as Hord. unfold us_per_day in *.
  do 5 (rewrite lex_lt_digits by (simpl; lia); rewrite lex_lt_app_same).
  rewrite lex_lt_digits by (simpl; lia).
  assert (lex_lt ((if us =? 0 then [] else str "." ++ digits 6 us) ++ str "+00:00")
    ((if us' =? 0 then [] else str "." ++ digits 6 us') ++ str "+00:00") = (us <? us')) as ->.
  { destruct (Z.eqb_spec us 0) as [->|], (Z.eqb_spec us' 0) as [->|]; cbn [app].
    - done.
    - simpl. case_cmp. done.
    - simpl. case_cmp. done.
    - rewrite <-!app_assoc, lex_lt_app_same, lex_lt_digits by (simpl; lia).
      by rewrite lex_lt_irrefl, andb_false_r, orb_false_r. }
  repeat rewrite ?orb_true_iff, ?andb_true_iff, ?Z.ltb_lt, ?Z.eqb_eq.
  intros H. destruct (decide (y < y' ∨ y = y' ∧ (m < m' ∨ m = m' ∧ d < d'))) as [Hlt|Hlt].
  - specialize (Hord Hlt). nia.
  - assert (y = y' ∧ m = m' ∧ d = d') as (<- & <- & <-) by lia. lia.
Qed.

(** [isoformat] is strictly increasing, also between a text with and one
    without a fraction: "+" sorts before ".". *)
Lemma iso_codes_lt a b :
  0 ≤ a < max_datetime → 0 ≤ b < max_datetime → lex_lt (iso_codes a) (iso_codes b) = (a <? b).
Proof.
  intros Ha Hb. pose proof (iso_codes_lt_true a b Ha Hb) as Hab.
  pose proof (iso_codes_lt_true b a Hb Ha) as Hba.
  destruct (lex_lt (iso_codes a) (iso_codes b)) eqn:E1.
  - symmetry. apply Z.ltb_lt. auto.
  - symmetry. apply Z.ltb_ge. destruct (lex_lt (iso_codes b) (iso_codes a)) eqn:E2; [lia|].
    assert (iso_codes a = iso_codes b) as Heq by (by apply lex_lt_total).
    pose proof (iso_parse_codes a Ha) as Hpa. rewrite Heq, iso_parse_codes in Hpa by done. naive_solver lia.
Qed.
