(* ===== verification/IsoFormat.v ===== *)
(** * [datetime.fromisoformat]

    The date-time texts the standard library reads (Python 3.11): calendar and
    week dates with and without separators, any one-character separator before
    the time, fractions of any length, [Z] and offsets down to the microsecond.
    The algorithm is that of CPython's [_datetimemodule.c]: it walks over the
    UTF-8 bytes, which end with a zero byte. *)

From Stdlib Require Import ZArith Lia String.
From S2P Require Import Prelude PyData DateTime.

(** [*p], and [p + 1]. *)
Definition peek (s : bytes) : Z := default 0 (head s).
Definition byte_at (i : nat) (s : bytes) : Z := default 0 (s !! i).

Definition is_digit_code (c : Z) : bool := (48 <=? c) && (c <=? 57).

Fixpoint skip_digits (s : bytes) : bytes :=
  match s with c :: s' => if is_digit_code c then skip_digits s' else s | [] => [] end.

(** [iso_to_ymd]: the ordinal of a week date. *)
Definition iso_week1_monday (year : Z) : Z :=
  let first_day := ymd2ord year 1 1 in
  let first_weekday := (first_day + 6) mod 7 in
  let monday := first_day - first_weekday in
  if 3 <? first_weekday then monday + 7 else monday.

Definition week_ord (year week day : Z) : option Z :=
  guard ((1 <=? year) && (year <=? 9999));;
  (let first_weekday := (ymd2ord year 1 1 + 6) mod 7 in
   guard (((0 <? week) && (week <? 53)) ||
          ((week =? 53) && ((first_weekday =? 3) || ((first_weekday =? 2) && is_leap year)))));;
  guard ((0 <? day) && (day <? 8));;
  (let ord := iso_week1_monday year + (week - 1) * 7 + (day - 1) in
   guard ((1 <=? ord) && (ord <=? max_ord));; Some ord).

(** [_find_isoformat_datetime_separator]. *)
Definition find_separator (s : bytes) : option nat :=
  let len := length s in
  if decide (len = 7%nat) then Some 7%nat
  else if byte_at 4 s =? 45 then
    if byte_at 5 s =? 87 then
      if decide (len < 8)%nat then None
      else if bool_decide (8 < len)%nat && (byte_at 8 s =? 45) then
        if decide (len = 9%nat) then None
        else if bool_decide (10 < len)%nat && is_digit_code (byte_at 10 s) then Some 8%nat
        else Some 10%nat
      else Some 8%nat
    else Some 10%nat
  else if byte_at 4 s =? 87 then
    let pos := (len - length (skip_digits (drop 7 s)))%nat in
    if decide (pos < 9)%nat then Some pos
    else if Nat.even pos then Some 7%nat else Some 8%nat
  else Some 8%nat.

(** [parse_isoformat_date] of the first [len] bytes: the ordinal. *)
Definition parse_iso_date (len : nat) (s : bytes) : option Z :=
  '(y, p) ← parse_num 4 0 s;
  let sep := peek p =? 45 in
  let p := if sep then tail p else p in
  if peek p =? 87 then
    '(week, p) ← parse_num 2 0 (tail p);
    if decide (length s - length p < len)%nat then
      guard (sep = false ∨ peek p = 45);;
      '(day, _) ← parse_num 1 0 (if sep then tail p else p);
      week_ord y week day
    else week_ord y week 1
  else
    '(m, p) ← parse_num 2 0 p;
    guard (sep = false ∨ peek p = 45);;
    '(d, p) ← parse_num 2 0 (if sep then tail p else p);
    guard (length s - length p = len)%nat;;
    guard (valid_date y m d);;
    Some (ymd2ord y m d).

(** The fraction of a second: its first six digits, and whether bytes follow. *)
Definition parse_fraction (s : bytes) (remains : Z) : option (Z * bool) :=
  let to_parse := Z.to_nat (Z.min remains 6) in
  '(us, p) ← parse_num to_parse 0 s;
  Some (us * 10 ^ (6 - Z.of_nat to_parse), negb (peek (skip_digits p) =? 0)).

(** [parse_hh_mm_ss_ff]: [k] fields are left, [remains] is [p_end - p]. *)
Fixpoint parse_hms (k : nat) (first sep : bool) (s : bytes) (remains : Z) : option (list Z * Z * bool) :=
  match k with
  | O => '(us, more) ← parse_fraction s remains; Some ([], us, more)
  | S k =>
      '(v, p) ← parse_num 2 0 s;
      let c := peek p in
      let sep := if first then c =? 58 else sep in
      if remains - 3 <=? 0 then Some ([v], 0, negb (c =? 0))
      else if sep && (c =? 58) then
        '(vs, us, more) ← parse_hms k false sep (tail p) (remains - 3); Some (v :: vs, us, more)
      else if (c =? 46) || (c =? 44) then
        '(us, more) ← parse_fraction (tail p) (remains - 3); Some ([v], us, more)
      else if negb sep then
        '(vs, us, more) ← parse_hms k false sep p (remains - 2); Some (v :: vs, us, more)
      else None
  end.

Definition field (vs : list Z) (i : nat) : Z := default 0 (vs !! i).
Definition is_zone_mark (c : Z) : bool := (c =? 43) || (c =? 45) || (c =? 90).

(** The bytes before the first zone mark after the start, as C's [do] loop
    finds it. *)
Fixpoint zone_pos (s : bytes) : nat :=
  match s with c :: s => if is_zone_mark c then 0 else S (zone_pos s) | [] => 0 end.

(** [parse_isoformat_time]: microseconds of the day and the offset. *)
Definition parse_iso_time (s : bytes) : option (Z * option Z) :=
  let zone := match s with [] => 1%nat | _ => zone_pos s end in
  '(vs, us, more) ← parse_hms 3 true true s (Z.of_nat zone);
  guard ((field vs 0 <? 24) && (field vs 1 <? 60) && (field vs 2 <? 60));;
  (let t := ((field vs 0 * 60 + field vs 1) * 60 + field vs 2) * 1000000 + us in
   match drop zone s with
   | [] => guard (more = false);; Some (t, None)
   | c :: p =>
       if c =? 90 then guard (peek p = 0);; Some (t, Some 0)
       else
         '(vs, us, more) ← parse_hms 3 true true p (Z.of_nat (length p));
         guard (more = false);;
         (let seconds := (field vs 0 * 60 + field vs 1) * 60 + field vs 2 in
          let offset := seconds * 1000000 + us in
          if seconds =? 0 then Some (t, Some 0)
          else guard (offset < us_per_day);; Some (t, Some (if c =? 45 then - offset else offset)))
   end).

(** Where a surrogate can stand for the separator. *)
Definition sanitize (s : pystr) : pystr :=
  let surrogate_at i := match s !! i with Some c => is_surrogate c | None => false end in
  match filter (λ i, surrogate_at i = true) [7; 8; 10]%nat with
  | i :: _ => <[i := 84]> s
  | [] => s
  end.

(** The bytes of the character a UTF-8 sequence begins with. *)
Definition skip_char (s : bytes) : bytes :=
  let c := peek s in
  if c <? 128 then tail s
  else if Z.land c 240 =? 224 then drop 3 s
  else if Z.land c 240 =? 240 then drop 4 s
  else drop 2 s.

(** [datetime.fromisoformat(s)]: the local time and, when the text has one, the
    UTC offset, both in microseconds; [None] for [ValueError]. *)
Definition from_iso (s : pystr) : option (Z * option Z) :=
  guard (7 ≤ length s)%nat;;
  match utf8_encode (sanitize s) with
  | Raise _ => None
  | Ok b =>
      sep ← find_separator b;
      ord ← parse_iso_date sep b;
      let midnight := (ord - 1) * us_per_day in
      if decide (sep < length b)%nat then
        '(t, offset) ← parse_iso_time (skip_char (drop sep b));
        Some (midnight + t, offset)
      else Some (midnight, None)
  end.

(** ** Reading what [isoformat] writes *)

(** A decimal field of [w] digits with value [n], as the parsers meet it. *)
Lemma digits_field w n : 0 ≤ n < 10 ^ Z.of_nat w →
  (∀ r, parse_num w 0 (digits w n ++ r) = Some (n, r)) ∧ length (digits w n) = w ∧
  Forall (λ c, 48 ≤ c ≤ 57) (digits w n).
Proof.
  intros Hn. split; [|split; [apply length_digits|apply digits_codes; lia]].
  intros r. rewrite parse_num_digits by done. by rewrite Z.mul_0_l, Z.add_0_l.
Qed.

Lemma digit_zone_mark c : 48 ≤ c ≤ 57 → is_zone_mark c = false.
Proof. intros Hc. unfold is_zone_mark. rewrite !(proj2 (Z.eqb_neq c _)) by lia. done. Qed.

Lemma zone_pos_digits l r : Forall (λ c, 48 ≤ c ≤ 57) l → zone_pos (l ++ r) = (length l + zone_pos r)%nat.
Proof. induction 1 as [|c l Hc _ IH]; [done|]. cbn. by rewrite digit_zone_mark, IH. Qed.

Lemma parse_iso_time_codes hh mm ss us :
  0 ≤ hh < 24 → 0 ≤ mm < 60 → 0 ≤ ss < 60 → 0 ≤ us < 1000000 →
  parse_iso_time (digits 2 hh ++ 58 :: digits 2 mm ++ 58 :: digits 2 ss ++
    (if us =? 0 then [] else 46 :: digits 6 us) ++ str "+00:00")
  = Some (((hh * 60 + mm) * 60 + ss) * 1000000 + us, Some 0).
Proof.
  intros Hh Hm Hs Hu. unfold parse_iso_time.
  destruct (digits_field 2 hh) as (Ph & Lh & Dh); [cbn; lia|].
  destruct (digits_field 2 mm) as (Pm & Lm & Dm); [cbn; lia|].
  destruct (digits_field 2 ss) as (Ps & Ls & Ds); [cbn; lia|].
  destruct (digits_field 6 us) as (Pu & Lu & Du); [cbn; lia|].
  set (tailz := (if us =? 0 then [] else 46 :: digits 6 us) ++ str "+00:00").
  set (s := digits 2 hh ++ _).
  assert (zone_pos s = (8 + (if (us =? 0)%Z then 0 else 7))%nat) as Hz.
  { unfold s. rewrite zone_pos_digits, Lh by done. cbn [zone_pos is_zone_mark Z.eqb Pos.eqb orb].
    rewrite zone_pos_digits, Lm by done. cbn [zone_pos is_zone_mark Z.eqb Pos.eqb orb].
    rewrite zone_pos_digits, Ls by done. unfold tailz. destruct (us =? 0); [done|]. cbn [app].
    cbn [zone_pos is_zone_mark Z.eqb Pos.eqb orb]. rewrite zone_pos_digits, Lu by done. done. }
  assert (match s with [] => 1%nat | _ => zone_pos s end = zone_pos s) as ->.
  { unfold s. by destruct (digits 2 hh). }
  assert (drop (zone_pos s) s = str "+00:00") as Hd.
  { rewrite Hz. unfold s, tailz. rewrite !(app_comm_cons _ _ 58), !(assoc_L (++)).
    apply drop_app_length'. repeat (rewrite length_app || cbn [length]). rewrite Lh, Lm, Ls.
    destruct (us =? 0); cbn [length]; rewrite ?Lu; done. }
  assert (parse_hms 3 true true s (Z.of_nat (zone_pos s)) = Some ([hh; mm; ss], us, true)) as ->.
  { rewrite Hz. unfold s. cbn [parse_hms]. rewrite Ph. cbn [mbind option_bind peek head default from_option id tail].
    cbn [Z.eqb Pos.eqb]. rewrite (proj2 (Z.leb_gt _ _)) by (destruct (us =? 0); lia). cbn [andb].
    rewrite Pm. cbn [mbind option_bind peek head default from_option id tail Z.eqb Pos.eqb].
    rewrite (proj2 (Z.leb_gt _ _)) by (destruct (us =? 0); lia). cbn [andb].
    rewrite Ps. cbn [mbind option_bind]. unfold tailz. destruct (Z.eqb_spec us 0) as [->|Hne].
    - done.
    - cbn -[parse_fraction digits]. unfold parse_fraction. cbn [Z.min Z.compare Pos.compare Pos.compare_cont].
      change (Z.to_nat 6) with 6%nat. rewrite Pu. cbn. by rewrite Z.mul_1_r. }
  cbn [mbind option_bind field lookup list_lookup default from_option id]. rewrite Hd.
  rewrite option_guard_True by (unfold field; cbn; case_cmp; done). cbn. done.
Qed.

Lemma from_iso_codes t : 0 ≤ t < max_datetime → from_iso (iso_codes t) = Some (t, Some 0).
Proof.
  intros Ht. pose proof (iso_codes_range t Ht) as Hr. unfold from_iso.
  assert (∀ i c, iso_codes t !! i = Some c → is_surrogate c = false) as Hns.
  { intros i c Hi. pose proof (Forall_lookup_1 _ _ _ _ Hr Hi) as Hc. cbn in Hc. unfold is_surrogate. by case_cmp. }
  assert (sanitize (iso_codes t) = iso_codes t) as ->.
  { unfold sanitize. cbn zeta. rewrite !filter_cons_False; [done|..];
      (destruct (iso_codes t !! _) as [c|] eqn:Hi; [by rewrite (Hns _ c Hi)|done]). }
  rewrite utf8_encode_ascii by (eapply Forall_impl; [exact Hr|]; cbn; lia).
  destruct (iso_fields t Ht) as (y & m & d & hh & mm & ss & us & Hv & Hh & Hm & Hs & Hu & Ht' & ->).
  pose proof (valid_date_bounds _ _ _ Hv) as (Hy & Hmo & Hd & _).
  change (str "-") with [45]. change (str "T") with [84]. change (str ":") with [58]. change (str ".") with [46].
  cbn [app]. pose proof (parse_iso_time_codes hh mm ss us Hh Hm Hs Hu) as Htime. revert Htime.
  set (time := digits 2 hh ++ _). intros Htime.
  destruct (digits_field 4 y) as (Py & Ly & Dy); [cbn; lia|].
  destruct (digits_field 2 m) as (Pm & Lm & Dm); [cbn; lia|].
  destruct (digits_field 2 d) as (Pd & Ld & Dd); [cbn; lia|].
  revert Py Ly Dy Pm Lm Dm Pd Ld Dd. generalize (digits 4 y) (digits 2 m) (digits 2 d).
  intros [|y1 [|y2 [|y3 [|y4 [|]]]]] [|m1 [|m2 [|]]] [|d1 [|d2 [|]]]; try done. intros Py _ _ Pm _ Dm Pd _ _.
  cbn [app] in *. rewrite option_guard_True by (cbn; lia). cbn [mbind option_bind].
  assert (find_separator (y1 :: y2 :: y3 :: y4 :: 45 :: m1 :: m2 :: 45 :: d1 :: d2 :: 84 :: time) = Some 10%nat) as ->.
  { unfold find_separator. rewrite decide_False by (cbn; lia). cbn [byte_at lookup list_lookup default from_option id].
    apply Forall_cons in Dm as [Hm1 _]. unfold byte_at. cbn. by rewrite (proj2 (Z.eqb_neq m1 87)) by lia. }
  cbn [mbind option_bind].
  assert (parse_iso_date 10 (y1 :: y2 :: y3 :: y4 :: 45 :: m1 :: m2 :: 45 :: d1 :: d2 :: 84 :: time) = Some (ymd2ord y m d)) as ->.
  { unfold parse_iso_date. rewrite Py. cbn [mbind option_bind peek head default from_option id tail Z.eqb Pos.eqb].
    apply Forall_cons in Dm as [Hm1 _]. rewrite (proj2 (Z.eqb_neq m1 87)) by lia.
    rewrite Pm. cbn [mbind option_bind peek head default from_option id tail Z.eqb Pos.eqb].
    rewrite option_guard_True by by right. cbn [mbind option_bind]. rewrite Pd. cbn [mbind option_bind].
    rewrite option_guard_True by (cbn [length]; lia). cbn [mbind option_bind].
    rewrite option_guard_True by (by rewrite Hv). done. }
  cbn [mbind option_bind]. rewrite decide_True by (cbn [length]; lia).
  change (skip_char (drop 10 _)) with time. rewrite Htime. cbn [mbind option_bind]. do 2 f_equal. lia.
Qed.

Example from_iso_reads :
  from_iso (str "0001-01-02") = Some (us_per_day, None) ∧
  from_iso (str "00010102T0130+0030") = Some (us_per_day + 5400000000, Some 1800000000) ∧
  from_iso (str "0001-W01-2 00:00:01,5Z") = Some (us_per_day + 1500000, Some 0).
Proof. done. Qed.
Example from_iso_refuses : Forall (λ s, from_iso (str s) = None)
  ["2023-02-29"; "2024-1-1"; "2024-01-01T"; "2024-01-01T24:00"; "2024-01-01T12:00+24:00"; "2021-W53-1"]%string.
Proof. repeat constructor. Qed.
