(* ===== verification/Json.v ===== *)
(** * The [json] module

    What the framework uses of Python's [json]: [dumps] with its default
    [ensure_ascii] escapes and either separators, [sort_keys], and [loads].
    Text is a list of code points.  A float is kept as the literal [repr]
    prints for it; an object is its items in insertion order.  The digit limit
    on [int] (4300 digits) and the interpreter's nesting limit are outside the
    model. *)

From Stdlib Require Import ZArith Lia String.
From stdpp Require Import sorting.
From S2P Require Import Prelude PyData.

#[local] Set Warnings "-register-all".

Inductive json :=
  | JNull
  | JBool (b : bool)
  | JInt (n : Z)
  | JFloat (literal : pystr)
  | JStr (s : pystr)
  | JArr (l : list json)
  | JObj (items : list (pystr * json)).

(** ** Dicts as items in insertion order *)

(** [d[k] = v]: an existing key keeps its place. *)
Fixpoint set_item {A} (k : pystr) (v : A) (d : list (pystr * A)) : list (pystr * A) :=
  match d with
  | [] => [(k, v)]
  | (k', v') :: d => if decide (k = k') then (k', v) :: d else (k', v') :: set_item k v d
  end.

Definition dict_items {A} (kvs : list (pystr * A)) : list (pystr * A) :=
  foldl (λ d kv, set_item kv.1 kv.2 d) [] kvs.

Fixpoint get_item {A} (k : pystr) (d : list (pystr * A)) : option A :=
  match d with
  | [] => None
  | (k', v) :: d => if decide (k = k') then Some v else get_item k d
  end.

(** ** [dumps] *)

Definition hex4 (c : Z) : pystr :=
  [hexdigit (c / 4096 mod 16); hexdigit (c / 256 mod 16);
   hexdigit (c / 16 mod 16); hexdigit (c mod 16)].

Definition escape_char (c : Z) : pystr :=
  if c =? 34 then [92; 34]
  else if c =? 92 then [92; 92]
  else if c =? 10 then [92; 110]
  else if c =? 13 then [92; 114]
  else if c =? 9 then [92; 116]
  else if c =? 12 then [92; 102]
  else if c =? 8 then [92; 98]
  else if (32 <=? c) && (c <=? 126) then [c]
  else if c <? 65536 then 92 :: 117 :: hex4 c
  else 92 :: 117 :: hex4 (55296 + (c - 65536) / 1024) ++
       92 :: 117 :: hex4 (56320 + (c - 65536) mod 1024).

Definition quote (s : pystr) : pystr := 34 :: concat (escape_char <$> s) ++ [34].

(** The decimal digits of [n]; [fuel] bounds their number. *)
Fixpoint decdigits (fuel : nat) (n : Z) : pystr :=
  match fuel with
  | O => []
  | S fuel => (if n / 10 =? 0 then [] else decdigits fuel (n / 10)) ++ [48 + n mod 10]
  end.

Definition dec (n : Z) : pystr := decdigits (S (Z.to_nat (Z.log2 n))) n.

Definition repr_int (n : Z) : pystr := if n <? 0 then 45 :: dec (- n) else dec n.

(** [sep.join(parts)] for any separator. *)
Fixpoint join_str (sep : pystr) (parts : list pystr) : pystr :=
  match parts with
  | [] => []
  | [p] => p
  | p :: parts => p ++ sep ++ join_str sep parts
  end.

Section dumps.
Variables item_sep key_sep : pystr.

Fixpoint dumps_with (v : json) : pystr :=
  match v with
  | JNull => str "null"
  | JBool b => str (if b then "true" else "false")
  | JInt n => repr_int n
  | JFloat l => l
  | JStr s => quote s
  | JArr l => 91 :: join_str item_sep (map dumps_with l) ++ [93]
  | JObj items =>
      123 :: join_str item_sep (map (λ '(k, v), quote k ++ key_sep ++ dumps_with v) items) ++ [125]
  end.
End dumps.

Definition dumps : json → pystr := dumps_with (str ", ") (str ": ").

(** [sort_keys=True], at every level; keys compare by code points. *)
Fixpoint key_le (a b : pystr) : bool :=
  match a, b with
  | [], _ => true
  | _, [] => false
  | x :: a, y :: b => (x <? y) || ((x =? y) && key_le a b)
  end.

Definition item_le (a b : pystr * json) : Prop := key_le a.1 b.1 = true.
#[global] Instance item_le_dec : RelDecision item_le.
Proof. intros a b. unfold item_le. apply _. Defined.

Fixpoint sort_keys (v : json) : json :=
  match v with
  | JArr l => JArr (map sort_keys l)
  | JObj items =>
      JObj (merge_sort item_le (map (λ '(k, v), (k, sort_keys v)) items))
  | _ => v
  end.

(** ** [loads] *)

Definition is_ws (c : Z) : bool := (c =? 32) || (c =? 9) || (c =? 10) || (c =? 13).

Fixpoint skip_ws (s : pystr) : pystr :=
  match s with
  | c :: s' => if is_ws c then skip_ws s' else s
  | [] => []
  end.

Definition expect_char (c : Z) (s : pystr) : result pystr :=
  match s with
  | d :: s => if d =? c then Ok s else Raise JSONDecodeError
  | [] => Raise JSONDecodeError
  end.

(** Four hexadecimal digits. *)
Definition scan_hex4 (s : pystr) : option (Z * pystr) :=
  match s with
  | a :: b :: c :: d :: s =>
      a ← hexval a; b ← hexval b; c ← hexval c; d ← hexval d;
      Some (a * 4096 + b * 256 + c * 16 + d, s)
  | _ => None
  end.

Definition is_high (u : Z) : bool := (55296 <=? u) && (u <=? 56319).
Definition is_low (u : Z) : bool := (56320 <=? u) && (u <=? 57343).

(** A [\uXXXX] escape after its [\u], joined with a following low surrogate. *)
Definition scan_unicode (s : pystr) : option (Z * pystr) :=
  '(u, r) ← scan_hex4 s;
  if is_high u then
    match r with
    | b :: e :: r' =>
        if (b =? 92) && (e =? 117) then
          '(u2, r'') ← scan_hex4 r';
          if is_low u2 then Some (65536 + (u - 55296) * 1024 + (u2 - 56320), r'')
          else Some (u, r)
        else Some (u, r)
    | _ => Some (u, r)
    end
  else Some (u, r).

(** What a one-letter escape stands for. *)
Definition backslash (e : Z) : option Z :=
  if (e =? 34) || (e =? 92) || (e =? 47) then Some e
  else if e =? 98 then Some 8
  else if e =? 102 then Some 12
  else if e =? 110 then Some 10
  else if e =? 114 then Some 13
  else if e =? 116 then Some 9
  else None.

(** The rest of a string literal after its opening quote. *)
Fixpoint scanstring (fuel : nat) (s : pystr) : result (pystr * pystr) :=
  match fuel, s with
  | S fuel, c :: s =>
      if c =? 34 then Ok ([], s)
      else if c <? 32 then Raise JSONDecodeError
      else if negb (c =? 92) then '(t, r) ← scanstring fuel s; Ok (c :: t, r)
      else
        match s with
        | e :: s =>
            '(u, s) ← from_option_exn JSONDecodeError
              (if e =? 117 then scan_unicode s else u ← backslash e; Some (u, s));
            '(t, r) ← scanstring fuel s; Ok (u :: t, r)
        | [] => Raise JSONDecodeError
        end
  | _, _ => Raise JSONDecodeError
  end.

Definition is_digit (c : Z) : bool := (48 <=? c) && (c <=? 57).

Fixpoint take_digits (s : pystr) : pystr * pystr :=
  match s with
  | c :: s' => if is_digit c then let '(ds, r) := take_digits s' in (c :: ds, r) else ([], s)
  | [] => ([], [])
  end.

Definition digits_value (ds : pystr) : Z := foldl (λ n c, n * 10 + (c - 48)) 0 ds.

(** An integer without leading zeros, then an optional fraction and exponent. *)
Definition scan_int (s : pystr) : option (pystr * pystr) :=
  match s with
  | c :: s' => if c =? 48 then Some ([48], s') else if is_digit c then Some (take_digits s) else None
  | [] => None
  end.

Definition scan_frac (s : pystr) : pystr * pystr :=
  match s with
  | c :: s' =>
      if c =? 46 then
        match take_digits s' with ([], _) => ([], s) | (ds, r) => (46 :: ds, r) end
      else ([], s)
  | [] => ([], [])
  end.

Definition scan_exp (s : pystr) : pystr * pystr :=
  match s with
  | e :: s' =>
      if (e =? 101) || (e =? 69) then
        let '(sign, s'') :=
          match s' with
          | c :: s'' => if (c =? 43) || (c =? 45) then ([c], s'') else ([], s')
          | [] => ([], [])
          end in
        match take_digits s'' with ([], _) => ([], s) | (ds, r) => (e :: sign ++ ds, r) end
      else ([], s)
  | [] => ([], [])
  end.

Definition scan_number (s : pystr) : option (json * pystr) :=
  let '(neg, s1) :=
    match s with c :: s' => if c =? 45 then (true, s') else (false, s) | [] => (false, s) end in
  '(ip, s2) ← scan_int s1;
  let '(fp, s3) := scan_frac s2 in
  let '(ep, s4) := scan_exp s3 in
  let v := digits_value ip in
  Some (match fp, ep with
        | [], [] => JInt (if neg : bool then - v else v)
        | _, _ => JFloat ((if neg : bool then [45] else []) ++ ip ++ fp ++ ep)
        end, s4).

Fixpoint strip_prefix (p s : pystr) : option pystr :=
  match p, s with
  | [], _ => Some s
  | c :: p, d :: s => if c =? d then strip_prefix p s else None
  | _, [] => None
  end.

(** The constants, tried in order. *)
Definition constants : list (pystr * json) :=
  [(str "null", JNull); (str "true", JBool true); (str "false", JBool false);
   (str "NaN", JFloat (str "NaN")); (str "Infinity", JFloat (str "Infinity"));
   (str "-Infinity", JFloat (str "-Infinity"))].

Fixpoint scan_constant (cs : list (pystr * json)) (s : pystr) : option (json * pystr) :=
  match cs with
  | [] => None
  | (p, v) :: cs => match strip_prefix p s with Some r => Some (v, r) | None => scan_constant cs s end
  end.

Definition scan_atom (s : pystr) : result (json * pystr) :=
  match scan_number s with
  | Some r => Ok r
  | None => from_option_exn JSONDecodeError (scan_constant constants s)
  end.

Fixpoint scan_once (fuel : nat) (s : pystr) : result (json * pystr) :=
  match fuel with
  | O => Raise RecursionError
  | S fuel =>
      match s with
      | [] => Raise JSONDecodeError
      | c :: s1 =>
          if c =? 34 then '(t, r) ← scanstring (length s) s1; Ok (JStr t, r)
          else if c =? 123 then
            match skip_ws s1 with
            | d :: r =>
                if d =? 125 then Ok (JObj [], r)
                else if d =? 34 then '(kvs, r) ← scan_members fuel r; Ok (JObj (dict_items kvs), r)
                else Raise JSONDecodeError
            | [] => Raise JSONDecodeError
            end
          else if c =? 91 then
            match skip_ws s1 with
            | d :: r =>
                if d =? 93 then Ok (JArr [], r)
                else '(vs, r) ← scan_elements fuel (d :: r); Ok (JArr vs, r)
            | [] => Raise JSONDecodeError
            end
          else scan_atom s
      end
  end
with scan_members (fuel : nat) (s : pystr) : result (list (pystr * json) * pystr) :=
  match fuel with
  | O => Raise RecursionError
  | S fuel =>
      '(k, s) ← scanstring (S (length s)) s;
      s ← expect_char 58 (skip_ws s);
      '(v, s) ← scan_once fuel (skip_ws s);
      match skip_ws s with
      | c :: s =>
          if c =? 125 then Ok ([(k, v)], s)
          else if c =? 44 then
            s ← expect_char 34 (skip_ws s);
            '(kvs, r) ← scan_members fuel s; Ok ((k, v) :: kvs, r)
          else Raise JSONDecodeError
      | [] => Raise JSONDecodeError
      end
  end
with scan_elements (fuel : nat) (s : pystr) : result (list json * pystr) :=
  match fuel with
  | O => Raise RecursionError
  | S fuel =>
      '(v, s) ← scan_once fuel s;
      match skip_ws s with
      | c :: s =>
          if c =? 93 then Ok ([v], s)
          else if c =? 44 then '(vs, r) ← scan_elements fuel (skip_ws s); Ok (v :: vs, r)
          else Raise JSONDecodeError
      | [] => Raise JSONDecodeError
      end
  end.

Definition loads (s : pystr) : result json :=
  '(v, r) ← scan_once (2 * length s + 1) (skip_ws s);
  match skip_ws r with [] => Ok v | _ => Raise JSONDecodeError end.

(** ** Induction on nested values *)

Section json_ind.
Variable Φ : json → Prop.
Hypothesis (Hnull : Φ JNull) (Hbool : ∀ b, Φ (JBool b)) (Hint : ∀ n, Φ (JInt n))
  (Hfloat : ∀ l, Φ (JFloat l)) (Hstr : ∀ s, Φ (JStr s)) (Harr : ∀ l, Forall Φ l → Φ (JArr l))
  (Hobj : ∀ items, Forall (λ kv, Φ kv.2) items → Φ (JObj items)).

Fixpoint json_nested_ind (v : json) : Φ v :=
  match v with
  | JNull => Hnull
  | JBool b => Hbool b
  | JInt n => Hint n
  | JFloat l => Hfloat l
  | JStr s => Hstr s
  | JArr l =>
      Harr l ((fix go l : Forall Φ l :=
        match l with
        | [] => List.Forall_nil Φ
        | v :: l => List.Forall_cons Φ v l (json_nested_ind v) (go l)
        end) l)
  | JObj items =>
      Hobj items ((fix go l : Forall (λ kv, Φ kv.2) l :=
        match l with
        | [] => List.Forall_nil (λ kv, Φ kv.2)
        | kv :: l => List.Forall_cons (λ kv, Φ kv.2) kv l (json_nested_ind kv.2) (go l)
        end) items)
  end.
End json_ind.

(** ** Dict lemmas *)

Lemma set_item_new {A} k (v : A) d : k ∉ d.*1 → set_item k v d = d ++ [(k, v)].
Proof.
  induction d as [|[k' v'] d IH]; [done|]. csimpl. intros [? ?]%not_elem_of_cons.
  rewrite decide_False by done. by rewrite IH.
Qed.

Lemma dict_items_id {A} (kvs : list (pystr * A)) : NoDup kvs.*1 → dict_items kvs = kvs.
Proof.
  unfold dict_items. intros Hnd.
  enough (∀ d, NoDup (d ++ kvs).*1 → foldl (λ d kv, set_item kv.1 kv.2 d) d kvs = d ++ kvs) as H
    by by apply (H []).
  clear Hnd. induction kvs as [|[k v] kvs IH]; intros d Hnd; [by rewrite app_nil_r|]. simpl.
  assert ((d ++ (k, v) :: kvs) = (d ++ [(k, v)]) ++ kvs) as Heq by by rewrite <-(assoc_L (++)).
  rewrite set_item_new, Heq; [by apply IH; rewrite <-Heq|].
  rewrite fmap_app in Hnd. apply NoDup_app in Hnd as (_ & Hd & _). intros Hk. apply (Hd k Hk).
  csimpl. left.
Qed.

(** ** String literals *)

Lemma scan_hex4_hex4 c r : 0 ≤ c < 65536 → scan_hex4 (hex4 c ++ r) = Some (c, r).
Proof.
  intros Hc. unfold hex4. cbn [app scan_hex4].
  rewrite !hexval_hexdigit by (apply Z.mod_pos_bound; lia). cbn. do 2 f_equal.
  pose proof (Z.div_lt_upper_bound c 4096 16). dlia.
Qed.

Lemma scan_unicode_pair n r :
  0 ≤ n < 1048576 →
  scan_unicode (hex4 (55296 + n / 1024) ++ 92 :: 117 :: hex4 (56320 + n mod 1024) ++ r)
  = Some (65536 + n, r).
Proof.
  intros Hn. assert (0 ≤ n / 1024 < 1024) by dlia.
  pose proof (Z.mod_pos_bound n 1024 ltac:(lia)). unfold scan_unicode.
  rewrite scan_hex4_hex4 by lia. cbn [mbind option_bind]. unfold is_high, is_low.
  case_cmp. rewrite scan_hex4_hex4 by lia. cbn. case_cmp. do 2 f_equal. dlia.
Qed.

Lemma scan_unicode_single c r :
  0 ≤ c < 65536 → is_surrogate c = false → scan_unicode (hex4 c ++ r) = Some (c, r).
Proof.
  intros Hc Hs. unfold scan_unicode. rewrite scan_hex4_hex4 by done. cbn [mbind option_bind].
  unfold is_surrogate in Hs. unfold is_high. revert Hs. by case_cmp.
Qed.

Lemma scanstring_unicode fuel s :
  scanstring (S fuel) (92 :: 117 :: s) =
  '(u, s) ← from_option_exn JSONDecodeError (scan_unicode s);
  '(t, r) ← scanstring fuel s; Ok (u :: t, r).
Proof. reflexivity. Qed.

(** One source character, whatever its escape. *)
Lemma scanstring_char fuel c s :
  is_scalar c →
  scanstring (S fuel) (escape_char c ++ s) = '(t, r) ← scanstring fuel s; Ok (c :: t, r).
Proof.
  intros [Hc Hs]. unfold escape_char.
  repeat match goal with
  | |- context [if ?a =? ?b then _ else _] =>
      destruct (Z.eqb_spec a b) as [->|]; [by cbn; destruct (scanstring fuel s) as [[]|]|]
  end.
  destruct ((32 <=? c) && (c <=? 126)) eqn:Hp.
  { cbn. apply andb_true_iff in Hp as [?%Z.leb_le ?%Z.leb_le]. by case_cmp. }
  destruct (Z.ltb_spec c 65536).
  - rewrite <-!app_comm_cons, scanstring_unicode, scan_unicode_single by (done || lia). done.
  - rewrite <-!app_comm_cons, <-(assoc_L (++)), <-!app_comm_cons, scanstring_unicode,
      scan_unicode_pair by lia. cbn -[scanstring Z.sub]. by replace (65536 + (c - 65536)) with c by lia.
Qed.

Lemma escape_char_nonempty c : escape_char c ≠ [].
Proof. unfold escape_char. repeat case_match; done. Qed.

Lemma scanstring_quote fuel s r :
  Forall is_scalar s → (length s < fuel)%nat →
  scanstring fuel (concat (escape_char <$> s) ++ 34 :: r) = Ok (s, r).
Proof.
  intros Hs. revert fuel. induction Hs as [|c s Hc _ IH]; intros [|fuel] Hf; simpl in Hf; try lia; [done|].
  rewrite fmap_cons, concat_cons, <-(assoc_L (++)), scanstring_char by done. by rewrite IH by lia.
Qed.

Lemma quote_length s : (length s + 2 ≤ length (quote s))%nat.
Proof.
  unfold quote. simpl. rewrite length_app. simpl.
  induction s as [|c s IH]; [simpl; lia|]. rewrite fmap_cons, concat_cons, length_app. simpl.
  pose proof (escape_char_nonempty c). destruct (escape_char c); simpl in *; [done|lia].
Qed.

(** ** Numbers *)

(** What may follow a number: nothing a number could go on with. *)
Definition ends_number (r : pystr) : Prop :=
  match r with [] => True | c :: _ => is_digit c = false ∧ c ≠ 46 ∧ c ≠ 101 ∧ c ≠ 69 end.

Lemma take_digits_app ds r :
  Forall (λ c, is_digit c = true) ds → match r with [] => True | c :: _ => is_digit c = false end →
  take_digits (ds ++ r) = (ds, r).
Proof.
  intros Hds Hr. induction Hds as [|c ds Hc _ IH]; simpl.
  - destruct r as [|c r]; [done|]. simpl. by rewrite Hr.
  - by rewrite Hc, IH.
Qed.

Lemma decdigits_digits fuel n : Forall (λ c, is_digit c = true) (decdigits fuel n).
Proof.
  revert n; induction fuel as [|fuel IH]; intros n; [constructor|]. cbn [decdigits].
  apply Forall_app. split; [destruct (n / 10 =? 0); [constructor|apply IH]|].
  apply Forall_singleton. pose proof (Z.mod_pos_bound n 10 ltac:(lia)). unfold is_digit. by case_cmp.
Qed.

Lemma decdigits_value fuel n : 0 ≤ n < 10 ^ Z.of_nat fuel → digits_value (decdigits fuel n) = n.
Proof.
  revert n; induction fuel as [|fuel IH]; intros n Hn; [simpl in *; unfold digits_value; simpl; lia|].
  cbn [decdigits]. unfold digits_value. rewrite foldl_app. simpl.
  assert (foldl (λ m c, m * 10 + (c - 48)) 0 (if n / 10 =? 0 then [] else decdigits fuel (n / 10))
          = n / 10) as ->.
  { destruct (Z.eqb_spec (n / 10) 0) as [->|]; [done|]. apply IH.
    rewrite Nat2Z.inj_succ, Z.pow_succ_r in Hn by lia.
    split; [apply Z.div_pos|apply Z.div_lt_upper_bound]; lia. }
  dlia.
Qed.

(** No leading zero: the first digit of a positive number is not [0]. *)
Lemma decdigits_head fuel n :
  0 < n < 10 ^ Z.of_nat fuel → ∃ c s, decdigits fuel n = c :: s ∧ is_digit c = true ∧ c ≠ 48.
Proof.
  revert n; induction fuel as [|fuel IH]; intros n Hn; [simpl in Hn; lia|]. cbn [decdigits].
  destruct (Z.eqb_spec (n / 10) 0) as [Hz|Hz].
  - exists (48 + n mod 10), []. split; [done|]. assert (n mod 10 ≠ 0) by dlia.
    pose proof (Z.mod_pos_bound n 10 ltac:(lia)). unfold is_digit. case_cmp; split; (done || lia).
  - rewrite Nat2Z.inj_succ, Z.pow_succ_r in Hn by lia.
    destruct (IH (n / 10)) as (c & s & -> & ? & ?).
    { split; [pose proof (Z.div_pos n 10); lia|apply Z.div_lt_upper_bound; lia]. }
    by exists c, (s ++ [48 + n mod 10]).
Qed.

Lemma dec_fuel n : 0 ≤ n → n < 10 ^ Z.of_nat (S (Z.to_nat (Z.log2 n))).
Proof.
  intros Hn. rewrite Nat2Z.inj_succ, Z2Nat.id by apply Z.log2_nonneg.
  destruct (decide (n = 0)) as [->|]; [done|]. pose proof (Z.log2_spec n ltac:(lia)) as [_ Hl].
  pose proof (Z.log2_nonneg n). eapply Z.lt_le_trans; [exact Hl|]. apply Z.pow_le_mono_l. lia.
Qed.

Lemma scan_int_dec n r :
  0 ≤ n → match r with [] => True | c :: _ => is_digit c = false end →
  scan_int (dec n ++ r) = Some (dec n, r).
Proof.
  intros Hn Hr. destruct (decide (n = 0)) as [->|]; [done|].
  pose proof (dec_fuel n Hn). unfold dec in *. set (fuel := S _) in *.
  destruct (decdigits_head fuel n) as (c & s & Heq & Hc & Hne); [lia|].
  pose proof (take_digits_app (decdigits fuel n) r (decdigits_digits _ _) Hr) as Ht.
  rewrite Heq in Ht |- *. cbn [app scan_int] in Ht |- *. rewrite (proj2 (Z.eqb_neq _ _)), Hc by done.
  by rewrite Ht.
Qed.

Lemma dec_cons n : 0 ≤ n → ∃ c s, dec n = c :: s ∧ is_digit c = true.
Proof.
  intros Hn. destruct (decide (n = 0)) as [->|]; [by eexists _, _|].
  pose proof (dec_fuel n Hn). destruct (decdigits_head (S (Z.to_nat (Z.log2 n))) n) as (c & s & ? & ? & ?);
    [lia|]. by exists c, s.
Qed.

Lemma dec_value n : 0 ≤ n → digits_value (dec n) = n.
Proof. intros Hn. apply decdigits_value. split; [done|]. by apply dec_fuel. Qed.

Lemma scan_frac_none r : ends_number r → scan_frac r = ([], r).
Proof. destruct r as [|c r]; [done|]. intros (_ & ? & _). simpl. by case_cmp. Qed.
Lemma scan_exp_none r : ends_number r → scan_exp r = ([], r).
Proof. destruct r as [|c r]; [done|]. intros (_ & _ & ? & ?). simpl. by case_cmp. Qed.
Lemma ends_number_digit r :
  ends_number r → match r with [] => True | c :: _ => is_digit c = false end.
Proof. destruct r; naive_solver. Qed.

Lemma scan_number_int n r : ends_number r → scan_number (repr_int n ++ r) = Some (JInt n, r).
Proof.
  intros Hr. unfold repr_int, scan_number. destruct (Z.ltb_spec n 0).
  - cbn [app Z.eqb Pos.eqb]. rewrite scan_int_dec by (lia || by apply ends_number_digit). cbn -[dec digits_value].
    rewrite scan_frac_none, scan_exp_none by done. rewrite dec_value by lia. do 3 f_equal. lia.
  - destruct (dec_cons n) as (c & s & Heq & Hc); [done|].
    pose proof (scan_int_dec n r ltac:(done) (ends_number_digit _ Hr)) as Hi.
    assert (digits_value (dec n) = n) as Hv by by apply dec_value.
    rewrite Heq in Hi, Hv |- *. cbn [app] in Hi |- *.
    rewrite (proj2 (Z.eqb_neq c 45)) by (unfold is_digit in Hc; revert Hc; case_cmp; lia || done).
    rewrite Hi. cbn -[digits_value]. rewrite scan_frac_none, scan_exp_none by done. by rewrite Hv.
Qed.

(** The literals [repr] prints for a time stamp: [digits.digits]. *)
Definition float_literal (l : pystr) : Prop :=
  ∃ n ds, 0 ≤ n ∧ ds ≠ [] ∧ Forall (λ c, is_digit c = true) ds ∧ l = dec n ++ 46 :: ds.

Lemma scan_number_float l r :
  float_literal l → ends_number r → scan_number (l ++ r) = Some (JFloat l, r).
Proof.
  intros (n & ds & Hn & Hne & Hds & ->) Hr. unfold scan_number. rewrite <-(assoc_L (++)).
  destruct (dec_cons n) as (c & s & Heq & Hc); [done|].
  pose proof (scan_int_dec n ((46 :: ds) ++ r) ltac:(done) ltac:(done)) as Hi.
  rewrite Heq in Hi |- *. cbn [app] in Hi |- *.
  rewrite (proj2 (Z.eqb_neq c 45)) by (unfold is_digit in Hc; revert Hc; case_cmp; lia || done).
  rewrite Hi. cbn [mbind option_bind scan_frac Z.eqb Pos.eqb].
  rewrite take_digits_app by (done || by apply ends_number_digit).
  destruct ds as [|d ds]; [done|]. rewrite scan_exp_none by done. by rewrite app_nil_r.
Qed.

(** ** [loads] after [dumps] *)

Inductive wf_json : json → Prop :=
  | wf_null : wf_json JNull
  | wf_bool b : wf_json (JBool b)
  | wf_int n : wf_json (JInt n)
  | wf_float l : float_literal l → wf_json (JFloat l)
  | wf_str s : Forall is_scalar s → wf_json (JStr s)
  | wf_arr l : Forall wf_json l → wf_json (JArr l)
  | wf_obj items :
      NoDup items.*1 → Forall (λ kv, Forall is_scalar kv.1 ∧ wf_json kv.2) items →
      wf_json (JObj items).

Section round_trip.
Variables item_ws key_ws : pystr.
Hypotheses (Hitem : Forall (λ c, is_ws c = true) item_ws) (Hkey : Forall (λ c, is_ws c = true) key_ws).

Abbreviation D := (dumps_with (44 :: item_ws) (58 :: key_ws)).
Abbreviation Jelems l := (join_str (44 :: item_ws) (map D l)).
Abbreviation Jmembers items :=
  (join_str (44 :: item_ws) (map (λ '(k, v), quote k ++ (58 :: key_ws) ++ D v) items)).

Lemma skip_ws_app w s : Forall (λ c, is_ws c = true) w → skip_ws (w ++ s) = skip_ws s.
Proof. induction 1 as [|c w Hc _ IH]; simpl; [done|]. by rewrite Hc. Qed.

Lemma is_digit_plain c : is_digit c = true →
  is_ws c = false ∧ c ≠ 93 ∧ (c =? 34) = false ∧ (c =? 123) = false ∧ (c =? 91) = false.
Proof. unfold is_digit, is_ws. case_cmp; intros; try done; repeat split; (done || lia). Qed.

(** A number never looks like another kind of value. *)
Lemma repr_int_cons n : ∃ c s, repr_int n = c :: s ∧
  is_ws c = false ∧ c ≠ 93 ∧ (c =? 34) = false ∧ (c =? 123) = false ∧ (c =? 91) = false.
Proof.
  unfold repr_int. destruct (Z.ltb_spec n 0); [by eexists _, _|].
  destruct (dec_cons n) as (c & s & -> & Hc); [done|]. exists c, s. split; [done|]. by apply is_digit_plain.
Qed.

Lemma float_literal_cons l : float_literal l → ∃ c s, l = c :: s ∧
  is_ws c = false ∧ c ≠ 93 ∧ (c =? 34) = false ∧ (c =? 123) = false ∧ (c =? 91) = false.
Proof.
  intros (n & ds & Hn & _ & _ & ->). destruct (dec_cons n) as (c & s & -> & Hc); [done|].
  exists c, (s ++ 46 :: ds). split; [done|]. by apply is_digit_plain.
Qed.

Lemma dumps_cons v : wf_json v → ∃ c s, D v = c :: s ∧ is_ws c = false ∧ c ≠ 93.
Proof.
  destruct 1 as [|b|n|l Hl|s|l|items]; cbn; try by eexists _, _.
  - by destruct b; eexists _, _.
  - destruct (repr_int_cons n) as (c & s & -> & ? & ? & _). by exists c, s.
  - destruct (float_literal_cons l Hl) as (c & s & -> & ? & ? & _). by exists c, s.
Qed.

Definition scans v : Prop :=
  ∀ fuel r, ends_number r → (length (D v) ≤ fuel)%nat → scan_once fuel (D v ++ r) = Ok (v, r).

Lemma scan_number_once (v : json) (t r : pystr) fuel :
  (∃ c s, t = c :: s ∧
    is_ws c = false ∧ c ≠ 93 ∧ (c =? 34) = false ∧ (c =? 123) = false ∧ (c =? 91) = false) →
  scan_number (t ++ r) = Some (v, r) → (length t ≤ fuel)%nat → scan_once fuel (t ++ r) = Ok (v, r).
Proof.
  intros (c & s & -> & _ & _ & H1 & H2 & H3) Hs Hf. destruct fuel as [|fuel]; [simpl in Hf; lia|].
  cbn [app scan_once] in *. rewrite H1, H2, H3. unfold scan_atom. by rewrite Hs.
Qed.

Lemma skip_value v s : wf_json v → skip_ws (D v ++ s) = D v ++ s.
Proof. intros (c & t & -> & Hc & _)%dumps_cons. simpl. by rewrite Hc. Qed.

Lemma join_str_head sep p l : ∃ t, join_str sep (p :: l) = p ++ t.
Proof. destruct l; simpl; eauto. exists []. by rewrite app_nil_r. Qed.

Lemma scan_elements_dumps v l : Forall wf_json (v :: l) → Forall scans (v :: l) → ∀ fuel r,
  (length (Jelems (v :: l)) < fuel)%nat →
  scan_elements fuel (Jelems (v :: l) ++ 93 :: r) = Ok (v :: l, r).
Proof.
  revert v. induction l as [|w l IH]; intros v [Hwf Hwfs]%Forall_cons [Hv Hs]%Forall_cons [|fuel] r Hf; try lia.
  - cbn [map join_str scan_elements] in *. rewrite Hv by (done || lia). done.
  - change (Jelems (v :: w :: l)) with (D v ++ (44 :: item_ws) ++ Jelems (w :: l)) in *.
    specialize (IH w Hwfs Hs fuel r). apply Forall_cons in Hwfs as [Hw _].
    destruct (join_str_head (44 :: item_ws) (D w) (map D l)) as [t Ht].
    change (join_str _ _) with (Jelems (w :: l)) in Ht. set (J := Jelems (w :: l)) in *.
    rewrite !length_app in Hf. cbn [scan_elements]. rewrite <-!(assoc_L (++)).
    rewrite Hv by (done || lia). cbn [mbind result_bind skip_ws is_ws Z.eqb Pos.eqb orb app].
    rewrite skip_ws_app by done.
    assert (skip_ws (J ++ 93 :: r) = J ++ 93 :: r) as ->.
    { rewrite Ht, <-(assoc_L (++)). by apply skip_value. }
    rewrite IH by (simpl in Hf; lia). done.
Qed.

Lemma scan_member k v fuel s :
  Forall is_scalar k → wf_json v → scans v → ends_number s → (length (D v) ≤ fuel)%nat →
  scan_members (S fuel) (concat (escape_char <$> k) ++ [34] ++ (58 :: key_ws) ++ D v ++ s) =
  match skip_ws s with
  | c :: s =>
      if c =? 125 then Ok ([(k, v)], s)
      else if c =? 44 then
        s ← expect_char 34 (skip_ws s);
        '(kvs, r) ← scan_members fuel s; Ok ((k, v) :: kvs, r)
      else Raise JSONDecodeError
  | [] => Raise JSONDecodeError
  end.
Proof.
  intros Hk Hwf Hv Hs Hf. cbn [scan_members app]. pose proof (quote_length k) as Hq.
  unfold quote in Hq. simpl in Hq. rewrite length_app in Hq. simpl in Hq.
  rewrite scanstring_quote; [|done|rewrite length_app; simpl; lia].
  cbn [mbind result_bind skip_ws is_ws Z.eqb Pos.eqb orb expect_char].
  rewrite skip_ws_app, skip_value, Hv by done. done.
Qed.

Lemma scan_members_dumps k v items :
  Forall (λ kv, Forall is_scalar kv.1 ∧ wf_json kv.2) ((k, v) :: items) →
  Forall (λ kv, scans kv.2) ((k, v) :: items) → ∀ fuel r,
  (length (Jmembers ((k, v) :: items)) ≤ fuel)%nat →
  ∃ t, Jmembers ((k, v) :: items) = 34 :: t ∧
    scan_members fuel (t ++ 125 :: r) = Ok ((k, v) :: items, r).
Proof.
  revert k v. induction items as [|[k' v'] items IH];
    intros k v [[Hk Hwf] Hwfs]%Forall_cons [Hv Hs]%Forall_cons fuel r Hf; cbn [fst snd] in *;
    pose proof (quote_length k).
  - change (Jmembers [(k, v)]) with (quote k ++ (58 :: key_ws) ++ D v) in *.
    rewrite !length_app in Hf. destruct fuel as [|fuel]; [lia|].
    exists ((concat (escape_char <$> k) ++ [34]) ++ (58 :: key_ws) ++ D v). split; [reflexivity|].
    rewrite <-!(assoc_L (++)).
    rewrite scan_member by (done || (simpl in Hf; lia)). done.
  - change (Jmembers ((k, v) :: (k', v') :: items)) with
      ((quote k ++ (58 :: key_ws) ++ D v) ++ (44 :: item_ws) ++ Jmembers ((k', v') :: items)) in *.
    rewrite !length_app in Hf. destruct fuel as [|fuel]; [lia|].
    destruct (IH k' v' Hwfs Hs fuel r) as (t & Ht & Hscan); [cbn [length] in Hf; lia|]. rewrite Ht.
    exists (((concat (escape_char <$> k) ++ [34]) ++ (58 :: key_ws) ++ D v) ++ (44 :: item_ws) ++ 34 :: t).
    split; [reflexivity|]. rewrite <-!(assoc_L (++)).
    rewrite scan_member by (done || (simpl in Hf; lia)).
    cbn [app skip_ws is_ws Z.eqb Pos.eqb orb]. rewrite skip_ws_app by done. cbn. by rewrite Hscan.
Qed.

Lemma scan_once_dumps v : wf_json v → scans v.
Proof.
  induction v as [|b|n|l|s|l IH|items IH] using json_nested_ind; inversion 1 as [| | |?|?|? Hl|? Hnd Hl];
    subst; intros fuel r Hr Hf; (destruct fuel as [|fuel]; [exfalso; revert Hf; cbn|]).
  all: try (by rewrite ?length_app; simpl; lia).
  - done.
  - destruct b; simpl; lia.
  - by destruct b.
  - destruct (repr_int_cons n) as (? & ? & -> & _). simpl. lia.
  - apply scan_number_once; [apply repr_int_cons|by apply scan_number_int|done].
  - destruct (float_literal_cons l) as (? & ? & -> & _); [done|]. simpl. lia.
  - apply scan_number_once; [by apply float_literal_cons|by apply scan_number_float|done].
  - cbn [dumps_with]. unfold quote. cbn [app scan_once Z.eqb Pos.eqb]. rewrite <-(assoc_L (++)).
    change ([34] ++ r) with (34 :: r). rewrite scanstring_quote; [done|done|]. pose proof (quote_length s) as Hq. unfold quote in Hq.
    simpl in Hq |- *. rewrite !length_app in Hq |- *. simpl in *. lia.
  - destruct l as [|v l]; [done|]. assert (Forall scans (v :: l)) as Hs.
    { apply Forall_forall. intros w Hw. rewrite !Forall_forall in IH, Hl. auto. }
    pose proof (scan_elements_dumps v l Hl Hs fuel r) as Hscan. apply Forall_cons in Hl as [Hv _].
    change (D (JArr (v :: l))) with (91 :: Jelems (v :: l) ++ [93]) in *.
    destruct (join_str_head (44 :: item_ws) (D v) (map D l)) as [t Ht].
    change (join_str _ _) with (Jelems (v :: l)) in Ht. set (J := Jelems (v :: l)) in *.
    cbn [length] in Hf. rewrite length_app in Hf. cbn [length app] in *. rewrite <-(assoc_L (++)).
    destruct (dumps_cons v Hv) as (c & s & Hc & Hws & Hne). rewrite Hc in Ht. cbn [app] in Ht.
    cbn [scan_once Z.eqb Pos.eqb app]. rewrite Ht in *. cbn [app skip_ws]. rewrite Hws.
    rewrite (proj2 (Z.eqb_neq _ _)) by done. cbn [app] in Hscan. by rewrite Hscan by lia.
  - destruct items as [|[k v] items]; [done|].
    assert (Forall (λ kv, scans kv.2) ((k, v) :: items)) as Hs.
    { apply Forall_forall. intros kv Hkv. rewrite !Forall_forall in IH, Hl. naive_solver. }
    change (D (JObj ((k, v) :: items))) with (123 :: Jmembers ((k, v) :: items) ++ [125]) in *.
    cbn [length] in Hf. rewrite length_app in Hf.
    destruct (scan_members_dumps k v items Hl Hs fuel r) as (t & -> & Hscan); [cbn [length] in Hf; lia|].
    cbn [app scan_once Z.eqb Pos.eqb skip_ws is_ws orb]. rewrite <-(assoc_L (++)). cbn [app].
    rewrite Hscan. cbn [mbind result_bind]. by rewrite dict_items_id.
Qed.

Lemma loads_dumps_with v : wf_json v → loads (D v) = Ok v.
Proof.
  intros Hv. unfold loads. rewrite <-(app_nil_r (D v)) at 2. rewrite skip_value by done.
  rewrite (scan_once_dumps v Hv); [done..|lia].
Qed.
End round_trip.

(** [json.loads(json.dumps(v))] is [v]. *)
Lemma loads_dumps v : wf_json v → loads (dumps v) = Ok v.
Proof. apply loads_dumps_with; by repeat constructor. Qed.

Lemma dumps_nonempty v : wf_json v → dumps v ≠ [].
Proof.
  intros Hv. destruct (dumps_cons [32] [32] v Hv) as (c & s & Heq & _). unfold dumps.
  change (str ", ") with (44 :: [32]). change (str ": ") with (58 :: [32]). by rewrite Heq.
Qed.

(** ** [dumps] writes printable ASCII *)

Definition printable (c : Z) : Prop := 32 ≤ c ≤ 126.

Lemma hexdigit_printable d : 0 ≤ d < 16 → printable (hexdigit d).
Proof. intros Hd. unfold printable, hexdigit. case_cmp; lia. Qed.

Lemma hex4_printable c : Forall printable (hex4 c).
Proof. unfold hex4. repeat constructor; apply hexdigit_printable, Z.mod_pos_bound; lia. Qed.

Lemma escape_char_printable c : Forall printable (escape_char c).
Proof.
  assert (∀ n, Forall printable (92 :: 117 :: hex4 n)) as Hu.
  { intros n. constructor; [done|]. constructor; [done|]. apply hex4_printable. }
  unfold escape_char. repeat (case_match; [by repeat constructor|]).
  destruct ((32 <=? c) && (c <=? 126)) eqn:Hp.
  { apply andb_true_iff in Hp as [?%Z.leb_le ?%Z.leb_le]. by repeat constructor. }
  case_match; [apply Hu|]. rewrite !app_comm_cons. apply Forall_app. split; apply Hu.
Qed.

Lemma quote_printable s : Forall printable (quote s).
Proof.
  constructor; [done|]. apply Forall_app. split; [|by repeat constructor].
  apply Forall_concat, Forall_fmap, Forall_forall. intros c _. apply escape_char_printable.
Qed.

Lemma is_digit_printable ds : Forall (λ c, is_digit c = true) ds → Forall printable ds.
Proof.
  intros H. eapply Forall_impl; [exact H|]. intros c. unfold is_digit, printable.
  case_cmp; intros; (done || lia).
Qed.

Lemma join_str_Forall (P : Z → Prop) sep parts :
  Forall P sep → Forall (Forall P) parts → Forall P (join_str sep parts).
Proof.
  intros Hsep. induction 1 as [|p parts Hp Hps IH]; [constructor|].
  destruct parts as [|q parts]; [done|]. cbn [join_str]. rewrite !Forall_app. auto.
Qed.

Lemma dumps_printable v : wf_json v → Forall printable (dumps v).
Proof.
  unfold dumps. induction v as [|b|n|l|s|l IH|items IH] using json_nested_ind;
    inversion 1 as [| | |? Hfl|?|? Hl|? Hnd Hl]; subst; cbn [dumps_with].
  - by repeat constructor.
  - destruct b; by repeat constructor.
  - unfold repr_int. destruct (n <? 0); [constructor; [done|]|];
      apply is_digit_printable, decdigits_digits.
  - destruct Hfl as (n & ds & _ & _ & Hds & ->). apply Forall_app.
    split; [apply is_digit_printable, decdigits_digits|]. constructor; [done|]. by apply is_digit_printable.
  - apply quote_printable.
  - constructor; [done|]. apply Forall_app. split; [|by repeat constructor].
    apply join_str_Forall; [by repeat constructor|]. apply Forall_fmap, Forall_forall. intros w Hw.
    rewrite !Forall_forall in IH, Hl. apply IH; auto.
  - constructor; [done|]. apply Forall_app. split; [|by repeat constructor].
    apply join_str_Forall; [by repeat constructor|]. apply Forall_fmap, Forall_forall.
    intros [k w] Hw. rewrite !Forall_forall in IH, Hl. cbn [compose]. cbv beta iota. rewrite !Forall_app.
    split; [apply quote_printable|]. split; [by repeat constructor|].
    apply (IH _ Hw). by apply (Hl _ Hw).
Qed.

(** ** The fuel of [loads] is enough *)

Lemma skip_ws_length s : (length (skip_ws s) ≤ length s)%nat.
Proof. induction s as [|c s IH]; simpl; [done|]. destruct (is_ws c); simpl; lia. Qed.

Lemma scan_hex4_shorter s u r : scan_hex4 s = Some (u, r) → (length r < length s)%nat.
Proof.
  unfold scan_hex4. destruct s as [|a [|b [|c [|d s]]]]; try done.
  destruct (hexval a), (hexval b), (hexval c), (hexval d); cbn; try done. intros [= <- <-]. lia.
Qed.

Lemma scan_unicode_shorter s u r : scan_unicode s = Some (u, r) → (length r < length s)%nat.
Proof.
  unfold scan_unicode. destruct (scan_hex4 s) as [[u1 r1]|] eqn:H1; [|done]. apply scan_hex4_shorter in H1.
  cbn [mbind option_bind]. destruct (is_high u1); [|by intros [= <- <-]].
  destruct r1 as [|b [|e r1]]; [by intros [= <- <-]..|]. destruct (_ && _); [|by intros [= <- <-]].
  destruct (scan_hex4 r1) as [[u2 r2]|] eqn:H2; [|done]. apply scan_hex4_shorter in H2.
  cbn [mbind option_bind]. destruct (is_low u2); intros [= <- <-]; simpl in *; lia.
Qed.

Lemma scanstring_shorter fuel s t r : scanstring fuel s = Ok (t, r) → (length r < length s)%nat.
Proof.
  revert s t r; induction fuel as [|fuel IH]; intros [|c s] t r; try done. cbn [scanstring].
  destruct (c =? 34); [intros [= <- <-]; simpl; lia|]. destruct (c <? 32); [done|].
  destruct (negb _).
  - destruct (scanstring fuel s) as [[t' r']|] eqn:Hs; cbn; [|done]. intros [= <- <-].
    apply IH in Hs. lia.
  - destruct s as [|e s]; [done|].
    destruct (if e =? 117 then _ else _) as [[u s']|] eqn:Hu; cbn [from_option_exn mbind result_bind]; [|done].
    destruct (scanstring fuel s') as [[t' r']|] eqn:Hs; cbn; [|done]. intros [= <- <-].
    apply IH in Hs. destruct (e =? 117).
    + apply scan_unicode_shorter in Hu. lia.
    + destruct (backslash e); cbn in Hu; simplify_eq. lia.
Qed.

Lemma scanstring_no_recursion fuel s : scanstring fuel s ≠ Raise RecursionError.
Proof.
  revert s; induction fuel as [|fuel IH]; intros [|c s]; try done. cbn [scanstring].
  destruct (c =? 34); [done|]. destruct (c <? 32); [done|]. destruct (negb _).
  - specialize (IH s). destruct (scanstring fuel s) as [[]|]; cbn; congruence.
  - destruct s as [|e s]; [done|]. destruct (if e =? 117 then _ else _) as [[u s']|]; cbn; [|done].
    specialize (IH s'). destruct (scanstring fuel s') as [[]|]; cbn; congruence.
Qed.

Lemma take_digits_length s : (length (take_digits s).2 ≤ length s)%nat.
Proof.
  induction s as [|c s IH]; simpl; [done|]. destruct (is_digit c); [|done].
  destruct (take_digits s). simpl in *. lia.
Qed.

Lemma scan_frac_length s : (length (scan_frac s).2 ≤ length s)%nat.
Proof.
  destruct s as [|c s]; simpl; [done|]. destruct (c =? 46); [|done].
  pose proof (take_digits_length s). destruct (take_digits s) as [[|d ds] r]; simpl in *; lia.
Qed.

Lemma scan_exp_length s : (length (scan_exp s).2 ≤ length s)%nat.
Proof.
  destruct s as [|c s]; cbn [scan_exp]; [done|]. destruct (_ || _); [|done].
  assert (∃ sg s', match s with
    | c0 :: s'' => if (c0 =? 43) || (c0 =? 45) then ([c0], s'') else ([], s)
    | [] => ([], [])
    end = (sg, s') ∧ (length s' ≤ length s)%nat) as (sg & s' & -> & Hle).
  { destruct s as [|c0 s]; [by eexists _, _|]. destruct (_ || _); eexists _, _; split; try done. simpl. lia. }
  pose proof (take_digits_length s'). destruct (take_digits s') as [[|d ds] r]; simpl in *; lia.
Qed.

Lemma scan_int_shorter s ip r : scan_int s = Some (ip, r) → (length r < length s)%nat.
Proof.
  destruct s as [|c s]; cbn [scan_int]; [done|]. destruct (c =? 48); [intros [= <- <-]; simpl; lia|].
  destruct (is_digit c) eqn:Hc; [|done]. simpl. rewrite Hc. pose proof (take_digits_length s).
  destruct (take_digits s). intros [= <- <-]. simpl in *. lia.
Qed.

Lemma scan_number_shorter s v r : scan_number s = Some (v, r) → (length r < length s)%nat.
Proof.
  unfold scan_number. assert (∃ neg s1, match s with
    | c :: s' => if c =? 45 then (true, s') else (false, s)
    | [] => (false, s)
    end = (neg, s1) ∧ (length s1 ≤ length s)%nat) as (neg & s1 & -> & Hle).
  { destruct s as [|c s]; [by eexists _, _|]. destruct (_ =? _); eexists _, _; split; try done. simpl. lia. }
  destruct (scan_int s1) as [[ip s2]|] eqn:Hi; [|done]. apply scan_int_shorter in Hi. cbn.
  pose proof (scan_frac_length s2). destruct (scan_frac s2) as [fp s3].
  pose proof (scan_exp_length s3). destruct (scan_exp s3) as [ep s4]. intros [= _ <-]. simpl in *. lia.
Qed.

Lemma strip_prefix_length p s r :
  strip_prefix p s = Some r → length s = (length p + length r)%nat.
Proof.
  revert s; induction p as [|c p IH]; intros s; cbn; [by intros [= <-]|].
  destruct s as [|d s]; [done|]. destruct (c =? d); [|done]. intros Hs%IH. simpl. lia.
Qed.

Lemma scan_atom_shorter s v r : scan_atom s = Ok (v, r) → (length r < length s)%nat.
Proof.
  unfold scan_atom. destruct (scan_number s) as [[v' r']|] eqn:Hn.
  { intros [= <- <-]. by eapply scan_number_shorter. }
  assert (Forall (λ pv, pv.1 ≠ []) constants) as Hc by by repeat constructor.
  induction Hc as [|[p w] cs Hp _ IH]; cbn [scan_constant]; [done|].
  destruct (strip_prefix p s) as [r'|] eqn:Hs; [|done]. cbn. intros [= <- <-].
  apply strip_prefix_length in Hs. destruct p; simpl in *; [done|lia].
Qed.

Lemma expect_char_shorter c s r : expect_char c s = Ok r → length s = S (length r).
Proof. destruct s as [|d s]; simpl; [done|]. destruct (d =? c); [|done]. by intros [= <-]. Qed.

Lemma scan_shorter fuel :
  (∀ s v r, scan_once fuel s = Ok (v, r) → (length r < length s)%nat) ∧
  (∀ s v r, scan_members fuel s = Ok (v, r) → (length r < length s)%nat) ∧
  (∀ s v r, scan_elements fuel s = Ok (v, r) → (length r < length s)%nat).
Proof.
  induction fuel as [|fuel (IHo & IHm & IHe)]; [done|]. split; [|split]; intros s v r.
  - destruct s as [|c s]; [done|]. cbn [scan_once].
    destruct (c =? 34).
    { destruct (scanstring _ s) as [[t r']|] eqn:Hs; cbn; [|done]. intros [= <- <-].
      apply scanstring_shorter in Hs. lia. }
    pose proof (skip_ws_length s) as Hws. destruct (c =? 123).
    { destruct (skip_ws s) as [|d r']; [done|]. destruct (d =? 125); [intros [= <- <-]; simpl in *; lia|].
      destruct (d =? 34); [|done]. destruct (scan_members fuel r') as [[]|] eqn:Hs; cbn; [|done].
      intros [= <- <-]. apply IHm in Hs. simpl in *. lia. }
    destruct (c =? 91); [|by apply scan_atom_shorter].
    destruct (skip_ws s) as [|d r']; [done|]. destruct (d =? 93); [intros [= <- <-]; simpl in *; lia|].
    destruct (scan_elements fuel (d :: r')) as [[]|] eqn:Hs; cbn; [|done].
    intros [= <- <-]. apply IHe in Hs. simpl in *. lia.
  - cbn [scan_members]. destruct (scanstring _ s) as [[k s1]|] eqn:Hs; [|done]. cbn [mbind result_bind].
    apply scanstring_shorter in Hs. pose proof (skip_ws_length s1).
    destruct (expect_char 58 _) as [s2|] eqn:He; [|done]. cbn [mbind result_bind].
    apply expect_char_shorter in He. pose proof (skip_ws_length s2).
    destruct (scan_once fuel _) as [[w s3]|] eqn:Ho; [|done]. cbn [mbind result_bind].
    apply IHo in Ho. pose proof (skip_ws_length s3).
    destruct (skip_ws s3) as [|c s4]; [done|]. simpl in *. destruct (c =? 125); [intros [= <- <-]; lia|].
    destruct (c =? 44); [|done]. pose proof (skip_ws_length s4).
    destruct (expect_char 34 _) as [s5|] eqn:He2; [|done]. cbn [mbind result_bind].
    apply expect_char_shorter in He2.
    destruct (scan_members fuel s5) as [[]|] eqn:Hm; [|done]. cbn. intros [= <- <-]. apply IHm in Hm. lia.
  - cbn [scan_elements]. destruct (scan_once fuel s) as [[w s3]|] eqn:Ho; [|done]. cbn [mbind result_bind].
    apply IHo in Ho. pose proof (skip_ws_length s3).
    destruct (skip_ws s3) as [|c s4]; [done|]. simpl in *. destruct (c =? 93); [intros [= <- <-]; lia|].
    destruct (c =? 44); [|done]. pose proof (skip_ws_length s4).
    destruct (scan_elements fuel _) as [[]|] eqn:Hm; [|done]. cbn. intros [= <- <-]. apply IHe in Hm. lia.
Qed.

(** Every recursive call is on a shorter text, so the text's length is fuel
    enough: [loads] only fails the way the source does. *)
Lemma scan_no_recursion fuel :
  (∀ s, (2 * length s < fuel)%nat → scan_once fuel s ≠ Raise RecursionError) ∧
  (∀ s, (2 * length s < fuel)%nat → scan_members fuel s ≠ Raise RecursionError) ∧
  (∀ s, (2 * length s + 1 < fuel)%nat → scan_elements fuel s ≠ Raise RecursionError).
Proof.
  induction fuel as [|fuel (IHo & IHm & IHe)]; [by repeat split; intros; lia|].
  destruct (scan_shorter fuel) as (Ho & Hm & He). split; [|split]; intros s Hf.
  - destruct s as [|c s]; [done|]. cbn [scan_once]. simpl in Hf. pose proof (skip_ws_length s).
    destruct (c =? 34).
    { pose proof (scanstring_no_recursion (length (c :: s)) s). destruct (scanstring _ s) as [[]|]; cbn; congruence. }
    destruct (c =? 123).
    { destruct (skip_ws s) as [|d r]; [done|]. destruct (d =? 125); [done|]. destruct (d =? 34); [|done].
      specialize (IHm r). destruct (scan_members fuel r) as [[]|]; [done|]. simpl in *.
      intros [= ->]. apply IHm; [lia|done]. }
    destruct (c =? 91).
    { destruct (skip_ws s) as [|d r]; [done|]. destruct (d =? 93); [done|].
      specialize (IHe (d :: r)). destruct (scan_elements fuel (d :: r)) as [[]|]; [done|]. simpl in *.
      intros [= ->]. apply IHe; [lia|done]. }
    unfold scan_atom. destruct (scan_number _); [done|]. by destruct (scan_constant _ _).
  - cbn [scan_members]. pose proof (scanstring_no_recursion (S (length s)) s).
    destruct (scanstring _ s) as [[k s1]|] eqn:Hs; cbn [mbind result_bind]; [|congruence].
    apply scanstring_shorter in Hs. pose proof (skip_ws_length s1).
    destruct (expect_char 58 _) as [s2|e] eqn:He1; cbn [mbind result_bind].
    2: { destruct (skip_ws s1) as [|d ?]; simpl in He1; [by simplify_eq|]. destruct (d =? 58); by simplify_eq. }
    apply expect_char_shorter in He1. pose proof (skip_ws_length s2).
    specialize (IHo (skip_ws s2)).
    destruct (scan_once fuel _) as [[w s3]|] eqn:Ho1; cbn [mbind result_bind].
    2: { intros [= ->]. apply IHo; [lia|done]. }
    apply Ho in Ho1. pose proof (skip_ws_length s3).
    destruct (skip_ws s3) as [|c s4]; [done|]. simpl in *. destruct (c =? 125); [done|].
    destruct (c =? 44); [|done]. pose proof (skip_ws_length s4).
    destruct (expect_char 34 _) as [s5|e] eqn:He2; cbn [mbind result_bind].
    2: { destruct (skip_ws s4) as [|d ?]; simpl in He2; [by simplify_eq|]. destruct (d =? 34); by simplify_eq. }
    apply expect_char_shorter in He2. specialize (IHm s5).
    destruct (scan_members fuel s5) as [[]|]; cbn; [done|]. intros [= ->]. apply IHm; [lia|done].
  - cbn [scan_elements]. specialize (IHo s).
    destruct (scan_once fuel s) as [[w s3]|] eqn:Ho1; cbn [mbind result_bind].
    2: { intros [= ->]. apply IHo; [lia|done]. }
    apply Ho in Ho1. pose proof (skip_ws_length s3).
    destruct (skip_ws s3) as [|c s4]; [done|]. simpl in *. destruct (c =? 93); [done|].
    destruct (c =? 44); [|done]. pose proof (skip_ws_length s4). specialize (IHe (skip_ws s4)).
    destruct (scan_elements fuel _) as [[]|]; cbn; [done|]. intros [= ->]. apply IHe; [lia|done].
Qed.

Lemma loads_no_recursion s : loads s ≠ Raise RecursionError.
Proof.
  unfold loads. pose proof (skip_ws_length s).
  pose proof (proj1 (scan_no_recursion (2 * length s + 1)) (skip_ws s)) as Hn.
  destruct (scan_once _ _) as [[v r]|]; cbn [mbind result_bind].
  - by destruct (skip_ws r).
  - intros [= ->]. apply Hn; [lia|done].
Qed.

(** ** The value of a float literal *)

(** [num / den], or one of the special values [loads] also accepts.  The
    decimal is exact: binary rounding is not modelled. *)
Inductive fvalue := FNum (num den : Z) | FNaN | FPosInf | FNegInf.

Definition exponent_value (s : pystr) : Z :=
  match s with
  | c :: ds => if c =? 45 then - digits_value ds else if c =? 43 then digits_value ds else digits_value s
  | [] => 0
  end.

Definition float_value (l : pystr) : fvalue :=
  if decide (l = str "NaN") then FNaN
  else if decide (l = str "Infinity") then FPosInf
  else if decide (l = str "-Infinity") then FNegInf
  else
    let '(sign, l) := match l with c :: l' => if c =? 45 then (-1, l') else (1, l) | [] => (1, l) end in
    let '(ip, r) := take_digits l in
    let '(fp, r) := match r with c :: r' => if c =? 46 then take_digits r' else ([], r) | [] => ([], r) end in
    let e := match r with _ :: r' => exponent_value r' | [] => 0 end - Z.of_nat (length fp) in
    let n := sign * digits_value (ip ++ fp) in
    if 0 <=? e then FNum (n * 10 ^ e) 1 else FNum n (10 ^ (- e)).

(** A number as Python compares it; [bool] is an [int]. *)
Definition number_value (v : json) : option fvalue :=
  match v with
  | JInt n => Some (FNum n 1)
  | JBool b => Some (FNum (if b then 1 else 0) 1)
  | JFloat l => Some (float_value l)
  | _ => None
  end.

(** [bool(v)]. *)
Definition truthy (v : json) : bool :=
  match v with
  | JNull => false
  | JBool b => b
  | JInt n => negb (n =? 0)
  | JFloat l => match float_value l with FNum n _ => negb (n =? 0) | _ => true end
  | JStr s => bool_decide (s ≠ [])
  | JArr l => bool_decide (length l ≠ 0%nat)
  | JObj items => bool_decide (length items ≠ 0%nat)
  end.

(** ** Values as dict keys *)

(** A JSON value as a key: numbers that compare equal are one key.  A float
    that is no integer is its literal, which [repr] determines. *)
Inductive pykey := KStr (s : pystr) | KNone | KInt (n : Z) | KFloat (literal : pystr).

#[global] Instance pykey_eq_dec : EqDecision pykey.
Proof. solve_decision. Defined.
#[global] Instance pykey_countable : Countable pykey.
Proof.
  refine (inj_countable'
    (λ k, match k with KStr s => inl (inl s) | KFloat l => inl (inr l) | KInt n => inr (Some n) | KNone => inr None end)
    (λ k, match k with inl (inl s) => KStr s | inl (inr l) => KFloat l | inr (Some n) => KInt n | inr None => KNone end)
    _). by intros [].
Defined.

Definition hash_key (v : json) : result pykey :=
  match v with
  | JNull => Ok KNone
  | JBool b => Ok (KInt (if b then 1 else 0))
  | JInt n => Ok (KInt n)
  | JFloat l => Ok match float_value l with
                   | FNum n d => if n mod d =? 0 then KInt (n / d) else KFloat l
                   | _ => KFloat l
                   end
  | JStr s => Ok (KStr s)
  | JArr _ | JObj _ => Raise TypeError
  end.

(** The text that [v] is, for a dict whose keys are text; a list or a dict is
    unhashable. *)
Definition text_key (v : json) : result (option pystr) :=
  k ← hash_key v; Ok (match k with KStr s => Some s | _ => None end).

(** ** Dict lookups *)

Lemma get_item_set_item {A} k k' (v : A) d :
  get_item k (set_item k' v d) = if decide (k = k') then Some v else get_item k d.
Proof.
  induction d as [|[k1 v1] d IH]; cbn [set_item get_item]; [done|].
  destruct (decide (k' = k1)) as [->|]; cbn [get_item]; [by case_decide|].
  rewrite IH. repeat case_decide; naive_solver.
Qed.

Lemma get_item_in {A} k (v : A) d : NoDup d.*1 → (k, v) ∈ d → get_item k d = Some v.
Proof.
  induction d as [|[k1 v1] d IH]; [by intros _ ?%elem_of_nil|]. csimpl.
  intros [Hn Hnd]%NoDup_cons [[= -> ->]|Hin]%elem_of_cons; [by rewrite decide_True|].
  rewrite decide_False; [by apply IH|]. intros ->. apply Hn. apply list_elem_of_fmap. by exists (k1, v).
Qed.

Lemma get_item_Some_in {A} k (v : A) d : get_item k d = Some v → (k, v) ∈ d.
Proof.
  induction d as [|[k1 v1] d IH]; cbn [get_item]; [done|].
  case_decide as Hk; [intros [= ->]; rewrite Hk; left|right; auto].
Qed.
