(* ===== verification/Shamir.v ===== *)
(** * Shamir's scheme over a prime field

    The arithmetic core of [coc_framework/core/secret_sharing.py]
    ([_mod_inverse], [_evaluate_polynomial], [_lagrange_interpolation]) and the
    theorem that interpolation at 0 returns the constant coefficient of the
    polynomial that was evaluated.  Everything is stated for an arbitrary
    prime modulus; [SecretSharing] instantiates it with [PRIME]. *)

From Stdlib Require Import ZArith Znumtheory Lia Setoid Morphisms.
From S2P Require Import Prelude.

(** ** The code *)

(** The nested [extended_gcd] of [_mod_inverse]; [depth] is the number of
    stack frames available to the recursion, [None] that they run out. *)
Fixpoint extended_gcd (depth : nat) (a b : Z) : option (Z * Z * Z) :=
  match depth with
  | O => None
  | S depth =>
      if a =? 0 then Some (b, 0, 1)
      else
        '(gcd, x1, y1) ← extended_gcd depth (b mod a) a;
        Some (gcd, y1 - (b / a) * x1, x1)
  end.

(** Frames that suffice for a modulus [p] (proved below). *)
Definition gcd_depth (p : Z) : nat := S (S (S (2 * Z.to_nat (Z.log2 p)))).

Definition mod_inverse (a p : Z) : Z :=
  match extended_gcd (gcd_depth p) (a mod p) p with
  | Some (_, x, _) => (x mod p + p) mod p
  | None => 0
  end.

Definition enumerate {A} (l : list A) : list (Z * A) := zip (seqZ 0 (Z.of_nat (length l))) l.

Definition evaluate_polynomial (coefficients : list Z) (x prime : Z) : Z :=
  foldl (λ result '(i, coeff), (result + coeff * (x ^ i mod prime)) mod prime)
    0 (enumerate coefficients).

(** The inner loop over [j] of [_lagrange_interpolation] for a fixed [i]. *)
Definition lagrange_num_den (shares : list (Z * Z)) (prime : Z) (i : nat) : Z * Z :=
  let xi := (nth i shares (0, 0)).1 in
  foldl (λ '(numerator, denominator) j,
      if decide (i = j) then (numerator, denominator)
      else
        let xj := (nth j shares (0, 0)).1 in
        ((numerator * (- xj)) mod prime, (denominator * (xi - xj)) mod prime))
    (1, 1) (seq 0 (length shares)).

Definition lagrange_interpolation (shares : list (Z * Z)) (prime : Z) : Z :=
  foldl (λ secret i,
      let yi := (nth i shares (0, 0)).2 in
      let '(numerator, denominator) := lagrange_num_den shares prime i in
      let lagrange_coeff := (numerator * mod_inverse denominator prime) mod prime in
      (secret + yi * lagrange_coeff) mod prime)
    0 (seq 0 (length shares)).

(** ** Congruence modulo [p] as a setoid *)

Definition zeqm (p a b : Z) : Prop := (p | a - b).
Declare Scope modp_scope.
Notation "a ≡[ p ] b" := (zeqm p a b) (at level 70, p at level 60) : modp_scope.
#[global] Open Scope modp_scope.

#[global] Instance zeqm_equiv p : Equivalence (zeqm p).
Proof.
  unfold zeqm. split.
  - intros a. exists 0. lia.
  - intros a b [k Hk]. exists (- k). lia.
  - intros a b c [k Hk] [l Hl]. exists (k + l). lia.
Qed.
#[global] Instance zeqm_add p : Proper (zeqm p ==> zeqm p ==> zeqm p) Z.add.
Proof. intros a b [k Hk] c d [l Hl]. exists (k + l). lia. Qed.
#[global] Instance zeqm_mul p : Proper (zeqm p ==> zeqm p ==> zeqm p) Z.mul.
Proof.
  intros a b [k Hk] c d [l Hl]. exists (k * c + b * l).
  replace (a * c - b * d) with ((a - b) * c + b * (c - d)) by ring. rewrite Hk, Hl. ring.
Qed.
#[global] Instance zeqm_opp p : Proper (zeqm p ==> zeqm p) Z.opp.
Proof. intros a b [k Hk]. exists (- k). lia. Qed.
#[global] Instance zeqm_sub p : Proper (zeqm p ==> zeqm p ==> zeqm p) Z.sub.
Proof. intros a b [k Hk] c d [l Hl]. exists (k - l). lia. Qed.

Lemma zeqm_mod p a : a mod p ≡[p] a.
Proof.
  unfold zeqm. destruct (decide (p = 0)) as [->|].
  - rewrite Z.mod_0_r, Z.sub_diag. apply Z.divide_0_r.
  - exists (- (a / p)). rewrite Z.mod_eq by done. ring.
Qed.
Lemma zeqm_self p : p ≡[p] 0.
Proof. exists 1. ring. Qed.
Lemma zeqm_0 p a : a ≡[p] 0 ↔ (p | a).
Proof. unfold zeqm. by rewrite Z.sub_0_r. Qed.
Lemma zeqm_eq p a b : 0 ≤ a < p → 0 ≤ b < p → a ≡[p] b → a = b.
Proof. intros Ha Hb [k Hk]. assert (k = 0) by nia. lia. Qed.

Create Rewrite HintDb modp.
#[export] Hint Rewrite zeqm_mod : modp.
(** Drop every inner [mod p] of a congruence. *)
Ltac drop_mods := repeat setoid_rewrite zeqm_mod.

(** ** The modular inverse *)

Lemma extended_gcd_bezout depth a b g x y :
  0 ≤ a → 0 < b → extended_gcd depth a b = Some (g, x, y) →
  a * x + b * y = g ∧ g = Z.gcd a b.
Proof.
  revert a b g x y; induction depth as [|depth IH]; intros a b g x y Ha Hb; simpl; [done|].
  destruct (Z.eqb_spec a 0) as [->|Ha0].
  - intros [= <- <- <-]. rewrite Z.gcd_0_l, Z.abs_eq by lia. lia.
  - destruct (extended_gcd depth (b mod a) a) as [[[g' x1] y1]|] eqn:Hrec; [|done].
    simpl. intros [= <- <- <-].
    pose proof (Z.mod_pos_bound b a ltac:(lia)).
    apply IH in Hrec as [Hbez ->]; [|lia..].
    rewrite Z.gcd_mod, Z.gcd_comm in * by lia. split; [|done].
    rewrite <-Hbez. rewrite (Z.mod_eq b a) by done. ring.
Qed.

(** Two steps halve the first argument, so the recursion is logarithmic. *)
Lemma extended_gcd_depth (n : nat) a b :
  0 ≤ a < 2 ^ Z.of_nat n → a ≤ b → is_Some (extended_gcd (S (2 * n)) a b).
Proof.
  revert a b; induction n as [|n IH]; intros a b Ha Hab.
  - simpl in Ha. replace a with 0 by lia. simpl. by eexists.
  - replace (2 * S n)%nat with (S (S (2 * n))) by lia.
    remember (S (2 * n)) as fuel eqn:Hf. cbn [extended_gcd].
    destruct (Z.eqb_spec a 0) as [->|Ha0]; [by eexists|].
    pose proof (Z.mod_pos_bound b a ltac:(lia)) as Hr.
    destruct (Z.eqb_spec (b mod a) 0) as [Hr0|Hr0]; [by eexists|].
    destruct (IH (a mod (b mod a)) (b mod a)) as [[[g x] y] Heq].
    { pose proof (Z.mod_pos_bound a (b mod a) ltac:(lia)).
      rewrite Nat2Z.inj_succ, Z.pow_succ_r in Ha by lia. split; [lia|].
      pose proof (Z.div_mod a (b mod a) ltac:(lia)).
      assert (1 ≤ a / (b mod a)) by (apply Z.div_le_lower_bound; lia). nia. }
    { pose proof (Z.mod_pos_bound a (b mod a) ltac:(lia)). lia. }
    subst fuel. rewrite Heq. simpl. by eexists.
Qed.

Lemma extended_gcd_total a p :
  0 < p → is_Some (extended_gcd (gcd_depth p) (a mod p) p).
Proof.
  intros Hp. pose proof (Z.mod_pos_bound a p Hp).
  unfold gcd_depth. pose proof (Z.log2_nonneg p).
  replace (S (S (S (2 * Z.to_nat (Z.log2 p))))) with (S (2 * S (Z.to_nat (Z.log2 p))))%nat by lia.
  apply extended_gcd_depth; [|lia]. rewrite Nat2Z.inj_succ, Z2Nat.id by lia.
  pose proof (Z.log2_spec p Hp). lia.
Qed.

Lemma mod_inverse_spec a p :
  1 < p → Z.coprime a p → a * mod_inverse a p ≡[p] 1.
Proof.
  intros Hp Hcop. unfold mod_inverse.
  destruct (extended_gcd_total a p ltac:(lia)) as [[[g x] y] Heq]. rewrite Heq.
  pose proof (Z.mod_pos_bound a p ltac:(lia)).
  apply extended_gcd_bezout in Heq as [Hbez ->]; [|lia..].
  rewrite Z.gcd_mod_l in Hbez. unfold Z.coprime in Hcop. rewrite Hcop in Hbez.
  assert ((x mod p + p) mod p ≡[p] x) as ->.
  { rewrite zeqm_mod. exists ((x mod p - x) / p + 1).
    rewrite Z.mod_eq by lia. replace (x - p * (x / p) - x) with ((- (x / p)) * p) by ring.
    rewrite Z.div_mul by lia. ring. }
  rewrite <-(zeqm_mod p a). exists (- y). lia.
Qed.

(** ** Polynomials *)

Fixpoint peval (cs : list Z) (x : Z) : Z :=
  match cs with [] => 0 | c :: cs => c + x * peval cs x end.

(** [f] is given by a polynomial with at most [k] coefficients. *)
Definition is_poly (k : nat) (f : Z → Z) : Prop :=
  ∃ cs, (length cs ≤ k)%nat ∧ ∀ z, peval cs z = f z.

Fixpoint padd (cs ds : list Z) : list Z :=
  match cs, ds with
  | [], _ => ds
  | _, [] => cs
  | c :: cs, d :: ds => (c + d) :: padd cs ds
  end.

Lemma peval_padd cs ds z : peval (padd cs ds) z = peval cs z + peval ds z.
Proof.
  revert ds; induction cs as [|c cs IH]; intros [|d ds]; simpl; try lia. rewrite IH. ring.
Qed.
Lemma length_padd cs ds : length (padd cs ds) = Nat.max (length cs) (length ds).
Proof. revert ds; induction cs as [|c cs IH]; intros [|d ds]; simpl; auto. Qed.
Lemma peval_scale a cs z : peval (Z.mul a <$> cs) z = a * peval cs z.
Proof. induction cs as [|c cs IH]; csimpl; [lia|]. rewrite IH. ring. Qed.

Lemma is_poly_peval cs : is_poly (length cs) (peval cs).
Proof. by exists cs. Qed.
Lemma is_poly_ext k f g : (∀ z, f z = g z) → is_poly k f → is_poly k g.
Proof. intros Hfg (cs & ? & Hcs). exists cs. split; [done|]. intros z. by rewrite Hcs. Qed.
Lemma is_poly_weaken k k' f : (k ≤ k')%nat → is_poly k f → is_poly k' f.
Proof. intros ? (cs & ? & ?). exists cs. split; [lia|done]. Qed.
Lemma is_poly_0 k : is_poly k (λ _, 0).
Proof. exists []. simpl. split; [lia|done]. Qed.
Lemma is_poly_add k f g : is_poly k f → is_poly k g → is_poly k (λ z, f z + g z).
Proof.
  intros (cs & ? & Hcs) (ds & ? & Hds). exists (padd cs ds). split.
  - rewrite length_padd. lia.
  - intros z. by rewrite peval_padd, Hcs, Hds.
Qed.
Lemma is_poly_scale k a f : is_poly k f → is_poly k (λ z, a * f z).
Proof.
  intros (cs & ? & Hcs). exists (Z.mul a <$> cs). split.
  - by rewrite length_fmap.
  - intros z. by rewrite peval_scale, Hcs.
Qed.
Lemma is_poly_mul_root k r f : is_poly k f → is_poly (S k) (λ z, (z - r) * f z).
Proof.
  intros (cs & ? & Hcs). exists (padd (0 :: cs) (Z.mul (- r) <$> cs)). split.
  - rewrite length_padd, length_fmap. simpl. lia.
  - intros z. rewrite peval_padd, peval_scale. simpl. rewrite Hcs. ring.
Qed.
Create HintDb poly.
#[local] Hint Resolve is_poly_peval is_poly_0 is_poly_add is_poly_scale is_poly_mul_root : poly.

(** Synthetic division by [z - x]. *)
Lemma peval_div cs x :
  ∃ q, (length q ≤ pred (length cs))%nat ∧
    ∀ z, peval cs z - peval cs x = (z - x) * peval q z.
Proof.
  induction cs as [|c cs (q & Hlen & Hq)]; simpl.
  - exists []. simpl. split; [lia|]. intros. lia.
  - exists (padd cs (Z.mul x <$> q)). split.
    + rewrite length_padd, length_fmap. lia.
    + intros z. rewrite peval_padd, peval_scale.
      replace (c + z * peval cs z - (c + x * peval cs x))
        with ((z - x) * peval cs z + x * (peval cs z - peval cs x)) by ring.
      rewrite Hq. ring.
Qed.

Definition distinct_points (p : Z) (xs : list Z) : Prop :=
  NoDup xs ∧ Forall (λ x, 0 ≤ x < p) xs.

Lemma points_coprime p x y :
  Z.prime p → 0 ≤ x < p → 0 ≤ y < p → x ≠ y → Z.coprime p (x - y).
Proof.
  intros Hp Hx Hy Hne. apply Z.coprime_prime_l; [done|].
  intros [k Hk]. assert (k = 0) by nia. lia.
Qed.

(** A polynomial with no more coefficients than roots modulo [p] vanishes. *)
Lemma peval_roots p xs cs :
  Z.prime p → distinct_points p xs → (length cs ≤ length xs)%nat →
  Forall (λ x, (p | peval cs x)) xs → ∀ z, (p | peval cs z).
Proof.
  intros Hp. revert cs; induction xs as [|x xs IH]; intros cs [Hnd Hrange] Hlen Hroots z.
  - destruct cs; simpl in *; [apply Z.divide_0_r|lia].
  - apply NoDup_cons in Hnd as [Hx Hnd]. apply Forall_cons in Hrange as [Hxr Hrange].
    apply Forall_cons in Hroots as [Hrx Hroots].
    destruct (peval_div cs x) as (q & Hq & Hdiv).
    replace (peval cs z) with ((z - x) * peval q z + peval cs x) by (rewrite <-Hdiv; ring).
    apply Z.divide_add_r; [|done]. apply Z.divide_mul_r.
    apply IH; [done|simpl in Hlen; lia|].
    rewrite Forall_forall in Hrange, Hroots |- *. intros y Hy.
    apply (Z.gauss p (y - x)).
    + rewrite <-Hdiv. apply Z.divide_sub_r; auto.
    + apply points_coprime; auto. intros ->. done.
Qed.

(** ** Indexed loops, sums and products *)

Lemma foldl_ext_in {A B} (f g : B → A → B) (l : list A) (acc : B) :
  (∀ b x, x ∈ l → f b x = g b x) → foldl f acc l = foldl g acc l.
Proof.
  revert acc; induction l as [|a l IH]; intros acc Hfg; simpl; [done|].
  rewrite Hfg by set_solver. apply IH. set_solver.
Qed.

Lemma foldl_range {A B} (f : B → A → B) (d : A) (l : list A) (acc : B) :
  foldl (λ acc j, f acc (nth j l d)) acc (seq 0 (length l)) = foldl f acc l.
Proof.
  revert acc; induction l as [|a l IH]; intros acc; [done|].
  cbn [length seq foldl]. rewrite <-fmap_S_seq, foldl_fmap. simpl. by rewrite IH.
Qed.

(** Skipping position [i] of an indexed loop is deleting it from the list. *)
Lemma foldl_range_skip {A B} (f : B → A → B) (d : A) (l : list A) (i : nat) (acc : B) :
  foldl (λ acc j, if decide (i = j) then acc else f acc (nth j l d)) acc (seq 0 (length l))
  = foldl f acc (delete i l).
Proof.
  revert i acc; induction l as [|a l IH]; intros i acc; [by destruct i|].
  cbn [length seq foldl]. rewrite <-fmap_S_seq, foldl_fmap.
  destruct i as [|i]; [by rewrite <-(foldl_range f d)|]. simpl. rewrite <-IH.
  apply foldl_ext_in. intros b j _. by destruct (decide (i = j)), (decide (S i = S j)); try lia.
Qed.

Definition zprod {A} (f : A → Z) (l : list A) : Z := foldr (λ x acc, f x * acc) 1 l.
Definition zsum {A} (f : A → Z) (l : list A) : Z := foldr (λ x acc, f x + acc) 0 l.

Lemma zprod_zero {A} (f : A → Z) l x : x ∈ l → f x = 0 → zprod f l = 0.
Proof.
  intros Hx Hf. induction l as [|y l IH]; simpl; [by apply not_elem_of_nil in Hx|].
  apply elem_of_cons in Hx as [->|Hx]; [rewrite Hf|rewrite IH by done]; ring.
Qed.

Lemma zprod_not_divide {A} p (f : A → Z) l :
  Z.prime p → Forall (λ x, Z.coprime p (f x)) l → ¬ (p | zprod f l).
Proof.
  intros Hp. induction 1 as [|x l Hx _ IH]; simpl.
  - intros H1. apply Z.divide_1_r_nonneg in H1; destruct Hp; lia.
  - intros Hdiv. apply IH. by apply (Z.gauss p (f x)).
Qed.

Lemma zsum_single p (g : nat → Z) l m :
  NoDup l → m ∈ l → (∀ i, i ∈ l → i ≠ m → g i = 0) → zsum g l ≡[p] g m.
Proof.
  induction l as [|i l IH]; intros Hnd Hm Hz; [set_solver|].
  apply NoDup_cons in Hnd as [Hi Hnd]. simpl. destruct (decide (i = m)) as [->|Hne].
  - assert (zsum g l = 0) as ->; [|by rewrite Z.add_0_r].
    clear IH Hm. induction l as [|j l IH]; simpl; [done|].
    apply NoDup_cons in Hnd as [? ?]. rewrite IH, Hz by set_solver. done.
  - rewrite (Hz i) by set_solver. rewrite Z.add_0_l. apply IH; set_solver.
Qed.

Lemma is_poly_zprod rs : is_poly (S (length rs)) (λ z, zprod (λ r, z - r) rs).
Proof.
  induction rs as [|r rs IH]; simpl; [|auto with poly].
  exists [1]. split; [done|]. intros. simpl. lia.
Qed.
Lemma is_poly_zsum {A} k (f : A → Z → Z) l :
  (∀ x, x ∈ l → is_poly k (f x)) → is_poly k (λ z, zsum (λ x, f x z) l).
Proof.
  induction l as [|x l IH]; intros Hf; simpl; [auto with poly|].
  apply (is_poly_add _ (f x)); [apply Hf|apply IH]; set_solver.
Qed.

Lemma foldl_sum_mod {A} p (g : A → Z) l acc :
  foldl (λ s x, (s + g x) mod p) acc l ≡[p] acc + zsum g l.
Proof.
  revert acc; induction l as [|x l IH]; intros acc; simpl; [by rewrite Z.add_0_r|].
  rewrite IH, zeqm_mod. by rewrite Z.add_assoc.
Qed.
Lemma foldl_mod_range {A} p (g : Z → A → Z) l acc :
  0 < p → 0 ≤ acc < p → 0 ≤ foldl (λ s x, g s x mod p) acc l < p.
Proof.
  intros Hp. revert acc; induction l as [|x l IH]; intros acc Hacc; simpl; [done|].
  apply IH. by apply Z.mod_pos_bound.
Qed.

(** ** Interpolation at zero *)

Lemma length_enumerate {A} (l : list A) : length (enumerate l) = length l.
Proof. unfold enumerate. rewrite length_zip_with, length_seqZ. lia. Qed.

Lemma evaluate_polynomial_peval cs x p :
  evaluate_polynomial cs x p ≡[p] peval cs x.
Proof.
  unfold evaluate_polynomial, enumerate.
  enough (∀ n acc, foldl (λ result '(i, coeff), (result + coeff * (x ^ i mod p)) mod p) acc
      (zip (seqZ (Z.of_nat n) (Z.of_nat (length cs))) cs) ≡[p] acc + x ^ Z.of_nat n * peval cs x) as H.
  { specialize (H 0%nat 0). change (Z.of_nat 0) with 0 in H.
    by rewrite Z.pow_0_r, Z.mul_1_l, Z.add_0_l in H. }
  induction cs as [|c cs IH]; intros n acc; simpl.
  - by rewrite Z.mul_0_r, Z.add_0_r.
  - rewrite seqZ_cons by lia. cbn [zip_with foldl].
    replace (Z.succ (Z.of_nat n)) with (Z.of_nat (S n)) by lia.
    match goal with |- context [seqZ _ ?m] => replace m with (Z.of_nat (length cs)) by lia end.
    rewrite IH, !zeqm_mod. rewrite Nat2Z.inj_succ, Z.pow_succ_r by lia.
    match goal with |- ?a ≡[p] ?b => replace a with b by ring end. done.
Qed.

Lemma evaluate_polynomial_range cs x p : 0 < p → 0 ≤ evaluate_polynomial cs x p < p.
Proof.
  intros Hp. unfold evaluate_polynomial.
  rewrite (foldl_ext_in _ (λ s ic, (s + ic.2 * (x ^ ic.1 mod p)) mod p)).
  - by apply foldl_mod_range.
  - by intros s [i c] _.
Qed.

Lemma lagrange_num_den_spec shares p i :
  let '(numerator, denominator) := lagrange_num_den shares p i in
  numerator ≡[p] zprod (λ x, 0 - x) (delete i shares.*1) ∧
  denominator ≡[p] zprod (λ x, (nth i shares (0, 0)).1 - x) (delete i shares.*1).
Proof.
  unfold lagrange_num_den. set (xi := (nth i shares (0, 0)).1).
  set (f := λ (nd : Z * Z) (s : Z * Z), ((nd.1 * (- s.1)) mod p, (nd.2 * (xi - s.1)) mod p)).
  rewrite (foldl_ext_in _ (λ nd j, if decide (i = j) then nd else f nd (nth j shares (0, 0))))
    by (by intros [n d] j _).
  rewrite (foldl_range_skip f), <-!list_fmap_delete. generalize (delete i shares) as l.
  intros l. enough (∀ n d, let '(n', d') := foldl f (n, d) l in
    n' ≡[p] n * zprod (λ x, 0 - x) l.*1 ∧ d' ≡[p] d * zprod (λ x, xi - x) l.*1) as H.
  { specialize (H 1 1). by rewrite !Z.mul_1_l in H. }
  induction l as [|[x y] l IH]; intros n d; csimpl; [by rewrite !Z.mul_1_r|].
  specialize (IH ((n * - x) mod p) ((d * (xi - x)) mod p)). unfold f at 2. simpl.
  destruct (foldl f _ l) as [n' d']. destruct IH as [-> ->].
  split; rewrite zeqm_mod; by match goal with |- ?a ≡[p] ?b => replace a with b by ring end.
Qed.

Section interpolation.
Context (p : Z) (Hp : Z.prime p).

(** The [i]-th summand of the interpolation as a function of the point. *)
Definition summand (shares : list (Z * Z)) (i : nat) (z : Z) : Z :=
  (nth i shares (0, 0)).2 * mod_inverse (lagrange_num_den shares p i).2 p
  * zprod (λ x, z - x) (delete i shares.*1).

Lemma lagrange_interpolation_sum shares :
  lagrange_interpolation shares p
  ≡[p] zsum (λ i, summand shares i 0) (seq 0 (length shares)).
Proof.
  unfold lagrange_interpolation.
  rewrite (foldl_ext_in _ (λ secret i, (secret + (nth i shares (0, 0)).2 *
    (((lagrange_num_den shares p i).1 * mod_inverse (lagrange_num_den shares p i).2 p) mod p))
    mod p)) by (intros s i _; by destruct (lagrange_num_den shares p i)).
  rewrite foldl_sum_mod, Z.add_0_l.
  induction (seq 0 (length shares)) as [|i l IH]; simpl; [done|]. rewrite IH, zeqm_mod.
  pose proof (lagrange_num_den_spec shares p i) as Hnd. unfold summand at 2.
  destruct (lagrange_num_den shares p i) as [n d]. destruct Hnd as [Hn _]. simpl. rewrite Hn.
  match goal with |- ?a + _ ≡[p] ?b + _ => replace a with b by ring end. done.
Qed.

Lemma summand_own shares m x y :
  distinct_points p shares.*1 → shares !! m = Some (x, y) → summand shares m x ≡[p] y.
Proof.
  intros [Hnd Hrange] Hm. unfold summand. pose proof (lagrange_num_den_spec shares p m) as Hspec.
  rewrite (nth_lookup_Some shares m (0, 0) _ Hm) in Hspec |- *.
  destruct (lagrange_num_den shares p m) as [n d]. destruct Hspec as [_ Hd]. simpl in *.
  set (P := zprod _ _) in *. assert (¬ (p | P)) as HP.
  { apply zprod_not_divide; [done|]. rewrite Forall_forall in Hrange |- *.
    intros x' [k Hk]%list_elem_of_lookup.
    assert (shares.*1 !! m = Some x) as Hmx by (by rewrite list_lookup_fmap, Hm).
    assert (∃ j, j ≠ m ∧ shares.*1 !! j = Some x') as (j & Hj & Hjx).
    { destruct (decide (k < m)%nat).
      - exists k. rewrite list_lookup_delete_lt in Hk by lia. split; [lia|done].
      - exists (S k). rewrite list_lookup_delete_ge in Hk by lia. split; [lia|done]. }
    apply points_coprime; [done|apply Hrange; by eapply list_elem_of_lookup_2..|].
    intros ->. by apply Hj, (NoDup_lookup _ _ _ _ Hnd Hjx). }
  assert (d * mod_inverse d p ≡[p] 1) as Hinv.
  { apply mod_inverse_spec; [by destruct Hp|]. unfold Z.coprime; rewrite Z.gcd_comm; apply Z.coprime_prime_l; [done|].
    intros Hdiv. apply HP. apply zeqm_0. rewrite <-Hd. by apply zeqm_0. }
  rewrite <-Hd. replace (y * mod_inverse d p * d) with (y * (d * mod_inverse d p)) by ring.
  by rewrite Hinv, Z.mul_1_r.
Qed.

Lemma summand_other shares i m x y :
  shares !! m = Some (x, y) → i ≠ m → summand shares i x = 0.
Proof.
  intros Hm Hne. unfold summand.
  rewrite (zprod_zero _ _ x), Z.mul_0_r; [done| |lia].
  assert (shares.*1 !! m = Some x) as Hmx by (by rewrite list_lookup_fmap, Hm).
  destruct (decide (m < i)%nat).
  - apply list_elem_of_lookup_2 with m. by rewrite list_lookup_delete_lt.
  - apply list_elem_of_lookup_2 with (pred m). rewrite list_lookup_delete_ge by lia.
    by replace (S (pred m)) with m by lia.
Qed.

Lemma is_poly_summands shares :
  is_poly (length shares) (λ z, zsum (λ i, summand shares i z) (seq 0 (length shares))).
Proof.
  apply (is_poly_zsum _ (summand shares)). intros i [_ Hi]%elem_of_seq. unfold summand.
  apply is_poly_scale. eapply is_poly_weaken; [|apply is_poly_zprod].
  rewrite length_delete, length_fmap; [lia|].
  apply lookup_lt_is_Some. rewrite length_fmap. lia.
Qed.

(** The interpolation formula of [_lagrange_interpolation] returns the value at
    0 of any polynomial through the given points. *)
Lemma lagrange_interpolation_peval cs shares :
  distinct_points p shares.*1 → (length cs ≤ length shares)%nat →
  Forall (λ s, s.2 ≡[p] peval cs s.1) shares →
  lagrange_interpolation shares p ≡[p] peval cs 0.
Proof.
  intros Hdist Hlen Hon. rewrite lagrange_interpolation_sum.
  set (F := λ z, zsum (λ i, summand shares i z) (seq 0 (length shares))).
  assert (is_poly (length shares) (λ z, F z + (-1) * peval cs z)) as (q & Hq & Hqe).
  { apply is_poly_add; [apply is_poly_summands|]. apply is_poly_scale.
    eapply is_poly_weaken; [exact Hlen|]. apply is_poly_peval. }
  assert (∀ z, (p | peval q z)) as Hzero.
  { apply (peval_roots p shares.*1); [done..|by rewrite length_fmap|].
    apply Forall_forall. intros x' ([x y] & -> & [m Hm]%list_elem_of_lookup)%list_elem_of_fmap.
    simpl. rewrite Hqe. apply zeqm_0. unfold F.
    rewrite (zsum_single p _ _ m); [|apply NoDup_seq| |].
    - rewrite summand_own by done. rewrite Forall_lookup in Hon. specialize (Hon _ _ Hm).
      simpl in Hon. rewrite Hon. by match goal with |- ?a ≡[p] 0 => replace a with 0 by ring end.
    - apply elem_of_seq. apply lookup_lt_Some in Hm. lia.
    - intros i _ Hne. by eapply summand_other. }
  specialize (Hzero 0). rewrite Hqe in Hzero. unfold zeqm. unfold F in Hzero.
  match type of Hzero with (_ | ?a) => replace a with (zsum (λ i, summand shares i 0) (seq 0 (length shares)) - peval cs 0) in Hzero by ring end.
  done.
Qed.

Lemma lagrange_interpolation_range shares : 0 ≤ lagrange_interpolation shares p < p.
Proof.
  assert (1 < p) by (by destruct Hp). unfold lagrange_interpolation.
  rewrite (foldl_ext_in _ (λ secret i, (secret + (nth i shares (0, 0)).2 *
    (((lagrange_num_den shares p i).1 * mod_inverse (lagrange_num_den shares p i).2 p) mod p))
    mod p)) by (intros s i _; by destruct (lagrange_num_den shares p i)).
  apply foldl_mod_range; lia.
Qed.

End interpolation.

(** ** Fewer points than coefficients determine nothing about the secret *)

Section secrecy.
Context (p : Z) (Hp : Z.prime p).

Lemma peval_reduce_pad q n z :
  peval ((λ c, c mod p) <$> q ++ replicate n 0) z ≡[p] peval q z.
Proof.
  induction q as [|c q IH]; csimpl.
  - induction n as [|n IH]; csimpl; [done|]. rewrite IH, zeqm_mod. by rewrite Z.mul_0_r.
  - by rewrite IH, zeqm_mod.
Qed.

(** A reduced polynomial with [length pts] coefficients through given points. *)
Lemma interpolant_exists pts :
  distinct_points p pts.*1 →
  ∃ cs, length cs = length pts ∧ Forall (λ c, 0 ≤ c < p) cs ∧
    Forall (λ s, peval cs s.1 ≡[p] s.2) pts.
Proof.
  intros Hdist. assert (1 < p) by (by destruct Hp).
  destruct (is_poly_summands p pts) as (q & Hq & Hqe).
  exists ((λ c, c mod p) <$> q ++ replicate (length pts - length q) 0). split; [|split].
  - rewrite length_fmap, length_app, length_replicate. lia.
  - apply Forall_fmap, Forall_forall. intros c _. apply Z.mod_pos_bound. lia.
  - apply Forall_forall. intros [x y] [m Hm]%list_elem_of_lookup. cbn [fst snd].
    rewrite peval_reduce_pad, Hqe.
    rewrite (zsum_single p _ _ m); [by apply summand_own|apply NoDup_seq| |].
    + apply elem_of_seq. apply lookup_lt_Some in Hm. lia.
    + intros i _ Hne. by eapply summand_other.
Qed.

(** All but one of distinct points are non-zero. *)
Lemma nonzero_points xs :
  distinct_points p xs →
  ∃ ys, distinct_points p ys ∧ (pred (length xs) ≤ length ys)%nat ∧ ys ⊆ xs ∧ 0 ∉ ys.
Proof.
  intros [Hnd Hr]. destruct (decide (0 ∈ xs)) as [[ys Hys]%elem_of_Permutation|H0].
  - rewrite Hys in Hnd, Hr. apply NoDup_cons in Hnd as [? ?]. apply Forall_cons in Hr as [_ ?].
    exists ys. rewrite Hys. split; [done|]. split; [simpl; lia|]. split; [set_solver|done].
  - exists xs. repeat split; try done; lia.
Qed.

(** The coefficients of a polynomial with enough roots are all multiples of [p]. *)
Lemma peval_roots_coeffs xs cs :
  distinct_points p xs → (length cs ≤ length xs)%nat →
  Forall (λ x, (p | peval cs x)) xs → Forall (λ c, (p | c)) cs.
Proof.
  revert xs; induction cs as [|c cs IH]; intros xs Hdist Hlen Hroots; constructor.
  - pose proof (peval_roots p xs (c :: cs) Hp Hdist Hlen Hroots 0) as H0.
    simpl in H0. by rewrite Z.add_0_r in H0.
  - destruct (nonzero_points xs Hdist) as (ys & Hys & Hl & Hsub & H0).
    apply (IH ys); [done|simpl in Hlen; lia|]. apply Forall_forall. intros y Hy.
    apply (Z.gauss p y).
    + replace (y * peval cs y) with (peval (c :: cs) y - peval (c :: cs) 0) by (simpl; ring).
      apply Z.divide_sub_r; by apply (peval_roots p xs).
    + destruct Hys as [_ Hr]. rewrite Forall_forall in Hr. specialize (Hr y Hy).
      apply Z.coprime_prime_l; [done|]. intros [k Hk].
      assert (y ≠ 0) by (by intros ->). assert (k = 0) by nia. lia.
Qed.

Lemma reduced_eq cs ds :
  length cs = length ds → Forall (λ c, 0 ≤ c < p) cs → Forall (λ c, 0 ≤ c < p) ds →
  Forall (λ c, (p | c)) (padd cs (Z.mul (-1) <$> ds)) → cs = ds.
Proof.
  revert ds; induction cs as [|c cs IH]; intros [|d ds] Hlen Hcs Hds Hdiv; try done.
  apply Forall_cons in Hcs as [Hc Hcs]. apply Forall_cons in Hds as [Hd Hds].
  csimpl in Hdiv. apply Forall_cons in Hdiv as [[k Hk] Hdiv]. f_equal.
  - assert (k = 0) by nia. lia.
  - apply IH; auto.
Qed.

Lemma interpolant_unique cs ds xs :
  distinct_points p xs → length cs = length ds → (length cs ≤ length xs)%nat →
  Forall (λ c, 0 ≤ c < p) cs → Forall (λ c, 0 ≤ c < p) ds →
  Forall (λ x, peval cs x ≡[p] peval ds x) xs → cs = ds.
Proof.
  intros Hdist Heq Hlen Hcs Hds Hev. apply reduced_eq; [done..|].
  apply (peval_roots_coeffs xs); [done|rewrite length_padd, length_fmap; lia|].
  eapply Forall_impl; [exact Hev|]. intros x Hx. simpl. rewrite peval_padd, peval_scale.
  apply zeqm_0. rewrite Hx. by match goal with |- ?a ≡[p] 0 => replace a with 0 by ring end.
Qed.

(** For every value of the secret there is exactly one choice of the remaining
    coefficients that explains the values at fewer points than coefficients. *)
Lemma secret_undetermined (secret : Z) (pts : list (Z * Z)) :
  distinct_points p (0 :: pts.*1) → 0 ≤ secret < p → Forall (λ s, 0 ≤ s.2 < p) pts →
  exists! rs, length rs = length pts ∧ Forall (λ c, 0 ≤ c < p) rs ∧
    Forall (λ s, evaluate_polynomial (secret :: rs) s.1 p = s.2) pts.
Proof.
  intros Hdist Hsec Hys. assert (1 < p) by (by destruct Hp).
  destruct (interpolant_exists ((0, secret) :: pts)) as (cs & Hlen & Hr & Hev); [done|].
  destruct cs as [|c rs]; [done|]. injection Hlen as Hlen.
  apply Forall_cons in Hr as [Hc Hr]. apply Forall_cons in Hev as [Hc0 Hev].
  simpl in Hc0. rewrite Z.add_0_r in Hc0.
  assert (c = secret) as -> by (by apply (zeqm_eq p)).
  exists rs. split.
  - split; [done|]. split; [done|]. rewrite Forall_forall in Hys, Hev |- *. intros s Hs.
    apply (zeqm_eq p); [by apply evaluate_polynomial_range; lia|by apply Hys|].
    rewrite evaluate_polynomial_peval. by apply Hev.
  - intros rs' (Hlen' & Hr' & Hev').
    enough (secret :: rs = secret :: rs') as [= ?] by done.
    apply (interpolant_unique _ _ (0 :: pts.*1)); cbn [length]; rewrite ?length_fmap; auto with lia.
    constructor; [done|]. apply Forall_fmap. rewrite Forall_forall in Hev, Hev' |- *.
    intros s Hs. change (peval (secret :: rs) s.1 ≡[p] peval (secret :: rs') s.1). rewrite (Hev s Hs), <-(Hev' s Hs). apply evaluate_polynomial_peval.
Qed.
End secrecy.
