(* ===== verification/SecretSharing.v ===== *)
(** * Secret sharing ([coc_framework/core/secret_sharing.py])

    [split_secret], [reconstruct_secret], the share MACs and
    [SecretSharingEngine], on top of the field arithmetic of [Shamir] and the
    byte and text conversions of [PyData].  SHA-256, HMAC and AES-GCM are the
    operations of the class [SharingPrims]; what the code relies on is
    [SharingLaws].  Randomness is drawn from an [entropy] record, so every
    theorem holds for every outcome of the draws. *)

From Stdlib Require Import ZArith Znumtheory Lia Ascii.
From stdpp Require Import pretty.
From S2P Require Import Prelude Primality PyData Shamir.

(** ** Primitives from [hashlib], [hmac] and [cryptography] *)

Class SharingPrims := {
  sha256_hexdigest : bytes → pystr;
  hmac_sha256_hexdigest : bytes → bytes → pystr;
  aesgcm_encrypt : bytes → bytes → bytes → bytes;        (* key, nonce, data *)
  aesgcm_decrypt : bytes → bytes → bytes → result bytes; (* key, nonce, ciphertext *)
}.

(** Documented behaviour: authenticated decryption undoes encryption under the
    same key and nonce, ciphertexts are bytes, hex digests are ASCII and a MAC
    is not empty. *)
Class SharingLaws (P : SharingPrims) := {
  aesgcm_decrypt_encrypt key nonce data :
    Forall is_byte data →
    aesgcm_decrypt key nonce (aesgcm_encrypt key nonce data) = Ok data;
  aesgcm_encrypt_bytes key nonce data :
    Forall is_byte data → Forall is_byte (aesgcm_encrypt key nonce data);
  sha256_ascii data : Forall (λ c, 0 ≤ c < 128) (sha256_hexdigest data);
  hmac_nonempty key data : hmac_sha256_hexdigest key data ≠ [];
  hmac_ascii key data : Forall (λ c, 0 ≤ c < 128) (hmac_sha256_hexdigest key data);
}.

(** What one call of [split_secret] draws: [secrets.token_bytes(32)],
    [AESGCM.generate_key], [os.urandom(12)], the successive
    [secrets.randbelow(PRIME)] (by chunk and position) and
    [secrets.token_hex(8)]. *)
Record entropy := Entropy {
  e_hmac_key : bytes;
  e_aes_key : bytes;
  e_nonce : bytes;
  e_randbelow : nat → nat → Z;
  e_share_id : pystr;
}.

(** The lengths and ranges those functions document. *)
Record entropy_ok (e : entropy) : Prop := {
  eok_aes_key : Forall is_byte e.(e_aes_key);
  eok_aes_key_length : length e.(e_aes_key) = 32%nat;
  eok_nonce : Forall is_byte e.(e_nonce);
  eok_randbelow c k : 0 ≤ e.(e_randbelow) c k < PRIME;
}.

(** ** The code *)

Record Share := mkShare {
  index : Z;
  value : pystr;
  share_id : pystr;
  content_hash : pystr;
  threshold : Z;
  total_shares : Z;
  mac : pystr;
  is_hybrid : bool;
  ciphertext : pystr;
  nonce : pystr;
}.

#[global] Instance Share_eq_dec : EqDecision Share.
Proof. solve_decision. Defined.

Definition bar : Z := 124. (* "|" *)

(** A Python slice [l[:n]]: a negative bound counts from the end. *)
Definition slice_to {A} (n : Z) (l : list A) : list A :=
  if n <? 0 then take (Z.to_nat (Z.of_nat (length l) + n)) l else take (Z.to_nat n) l.

Definition HYBRID_THRESHOLD_BYTES : Z := 256.

Definition split_into_chunks (data : bytes) : result (list bytes) :=
  let chunk_size := 31%nat in
  let chunks :=
    (λ k, let chunk := take chunk_size (drop (chunk_size * k) data) in
          chunk ++ replicate (chunk_size - length chunk) 0)
    <$> seq 0 (Z.to_nat ((Z.of_nat (length data) + 30) / 31)) in
  length_header ← to_bytes (Z.of_nat (length data)) 4;
  Ok ((length_header ++ replicate (chunk_size - 4) 0) :: chunks).

Section code.
Context {P : SharingPrims}.

Definition mac_data (share_value : pystr) (index : Z) (content_hash : pystr) : pystr :=
  str (pretty index) ++ bar :: share_value ++ bar :: content_hash.

Definition compute_share_mac (share_value : pystr) (index : Z) (content_hash : pystr)
    (hmac_key : bytes) : result pystr :=
  data ← utf8_encode (mac_data share_value index content_hash);
  Ok (hmac_sha256_hexdigest hmac_key data).

(** [hmac.compare_digest] on two [str]: a non-ASCII one raises [TypeError]. *)
Definition compare_digest (a b : pystr) : result bool :=
  if decide (Forall (λ c, 0 ≤ c < 128) (a ++ b)) then Ok (bool_decide (a = b))
  else Raise TypeError.

Definition verify_share_mac (share : Share) (hmac_key : bytes) : result bool :=
  if decide (share.(mac) = []) then Ok false
  else
    expected_mac ← compute_share_mac share.(value) share.(index) share.(content_hash) hmac_key;
    compare_digest share.(mac) expected_mac.

(** The loop body over [chunks]: the points of one random polynomial. *)
Definition chunk_points (e : entropy) (threshold num_shares : Z) (chunk_idx : nat)
    (chunk : bytes) : list (Z * Z) :=
  let secret := from_bytes chunk in
  let coefficients :=
    secret :: (e.(e_randbelow) chunk_idx <$> seq 0 (Z.to_nat (threshold - 1))) in
  (λ x, (x, evaluate_polynomial coefficients x PRIME)) <$> seqZ 1 num_shares.

(** The loop body over [range(num_shares)]. *)
Definition make_share (e : entropy) (thr num_shares : Z) (content_hash : pystr)
    (use_hybrid : bool) (ciphertext : bytes) (all_shares_data : list (list (Z * Z)))
    (i : nat) : result Share :=
  let combined_value := join bar ((λ points, hex (nth i points (0, 0)).2) <$> all_shares_data) in
  mac ← compute_share_mac combined_value (Z.of_nat i + 1) content_hash e.(e_hmac_key);
  Ok {| index := Z.of_nat i + 1;
        value := combined_value;
        share_id := e.(e_share_id) ++ 95 :: str (pretty (Z.of_nat i + 1));
        content_hash := content_hash;
        threshold := thr;
        total_shares := num_shares;
        mac := mac;
        is_hybrid := use_hybrid;
        ciphertext := if use_hybrid then bytes_hex ciphertext else [];
        nonce := if use_hybrid then bytes_hex e.(e_nonce) else [] |}.

Definition split_secret (e : entropy) (content : pystr) (threshold num_shares : Z)
    : result (list Share * bytes) :=
  if num_shares <? threshold then Raise ValueError
  else if threshold <? 2 then Raise ValueError
  else if num_shares <? 2 then Raise ValueError
  else
    content_bytes ← utf8_encode content;
    let content_hash := sha256_hexdigest content_bytes in
    let use_hybrid := HYBRID_THRESHOLD_BYTES <? Z.of_nat (length content_bytes) in
    let '(secret_bytes, ciphertext) :=
      if use_hybrid
      then (e.(e_aes_key), aesgcm_encrypt e.(e_aes_key) e.(e_nonce) content_bytes)
      else (content_bytes, []) in
    chunks ← split_into_chunks secret_bytes;
    let all_shares_data := imap (chunk_points e threshold num_shares) chunks in
    shares ← mapR (make_share e threshold num_shares content_hash use_hybrid ciphertext
                     all_shares_data) (seq 0 (Z.to_nat num_shares));
    Ok (shares, e.(e_hmac_key)).

(** [hmac_key is None or verify_share_mac(share, hmac_key)]. *)
Definition mac_acceptable (hmac_key : option bytes) (share : Share) : result bool :=
  match hmac_key with
  | Some key => verify_share_mac share key
  | None => Ok true
  end.

(** The validation loop of [reconstruct_secret]. *)
Fixpoint check_shares (thr : Z) (hash : pystr) (hybrid : bool) (hmac_key : option bytes)
    (shares : list Share) : result unit :=
  match shares with
  | [] => Ok ()
  | share :: shares =>
      if decide (share.(content_hash) ≠ hash) then Raise ValueError
      else if decide (share.(threshold) ≠ thr) then Raise ValueError
      else if decide (share.(is_hybrid) ≠ hybrid) then Raise ValueError
      else
        valid ← mac_acceptable hmac_key share;
        if (valid : bool) then check_shares thr hash hybrid hmac_key shares
        else Raise ShareIntegrityError
  end.

(** One iteration of the loop over [chunk_idx]. *)
Definition reconstruct_chunk (selected : list Share) (chunk_idx : nat) : result bytes :=
  chunk_shares ← mapR (λ share,
      chunk_value ← from_option_exn IndexError (split bar share.(value) !! chunk_idx);
      y ← int16 chunk_value;
      Ok (share.(index), y)) selected;
  to_bytes (lagrange_interpolation chunk_shares PRIME) 31.

Definition reconstruct_secret (shares : list Share) (hmac_key : option bytes)
    : result (option pystr) :=
  match shares with
  | [] => Raise ValueError
  | share0 :: _ =>
      let thr := share0.(threshold) in
      if Z.of_nat (length shares) <? thr then Raise ValueError
      else
        _ ← check_shares thr share0.(content_hash) share0.(is_hybrid) hmac_key shares;
        let num_chunks := length (split bar share0.(value)) in
        reconstructed_chunks ←
          mapR (reconstruct_chunk (slice_to thr shares)) (seq 0 num_chunks);
        let length_chunk := nth 0 reconstructed_chunks [] in
        let original_length := from_bytes (take 4 length_chunk) in
        let combined := concat (drop 1 reconstructed_chunks) in
        let secret_bytes := take (Z.to_nat original_length) combined in
        content_bytes ←
          (if share0.(is_hybrid) then
             ciphertext ← bytes_fromhex share0.(ciphertext);
             nonce ← bytes_fromhex share0.(nonce);
             Ok (catch (Some <$> aesgcm_decrypt secret_bytes nonce ciphertext) (λ _, None))
           else Ok (Some secret_bytes));
        match content_bytes with
        | None => Ok None
        | Some content_bytes =>
            match utf8_decode content_bytes with
            | Raise _ => Ok None
            | Ok content =>
                if decide (sha256_hexdigest content_bytes ≠ share0.(content_hash)) then Ok None
                else Ok (Some content)
            end
        end
  end.

Definition verify_share (share : Share) (hash : pystr) : bool :=
  bool_decide (share.(content_hash) = hash).

End code.

(** ** Chunking *)

Lemma length_pad_chunk (data : bytes) k :
  length (take 31 (drop k data) ++ replicate (31 - length (take 31 (drop k data))) 0) = 31%nat.
Proof. rewrite length_app, length_replicate, length_take. lia. Qed.

Lemma chunks_prefix (data : bytes) n :
  (length data ≤ 31 * n)%nat →
  take (length data) (concat ((λ k, let chunk := take 31 (drop (31 * k) data) in
    chunk ++ replicate (31 - length chunk) 0) <$> seq 0 n)) = data.
Proof.
  revert data; induction n as [|n IH]; intros data Hlen.
  - destruct data; [done|simpl in Hlen; lia].
  - cbn [seq]. rewrite <-fmap_S_seq, fmap_cons, <-list_fmap_compose. cbn [concat].
    rewrite Nat.mul_0_r, drop_0. cbv zeta.
    rewrite (list_fmap_ext _ (λ k, let chunk := take 31 (drop (31 * k) (drop 31 data)) in
      chunk ++ replicate (31 - length chunk) 0)); cycle 1.
    { intros _ k _. cbn [compose]. rewrite drop_drop. by replace (31 * S k)%nat with (31 + 31 * k)%nat by lia. }
    destruct (decide (length data ≤ 31)%nat).
    + rewrite take_app_le by (rewrite length_app, length_replicate, length_take; lia).
      rewrite take_app_le by (rewrite length_take; lia). rewrite take_take. by rewrite take_ge by lia.
    + replace (31 - length (take 31 data))%nat with 0%nat by (rewrite length_take; lia).
      rewrite app_nil_r, take_app, length_take, take_ge by (rewrite length_take; lia).
      replace (length data - 31 `min` length data)%nat with (length (drop 31 data))
        by (rewrite length_drop; lia).
      rewrite IH by (rewrite length_drop; lia). apply take_drop.
Qed.

(** [split_into_chunks] yields a length header and 31-byte chunks from which the
    data is read back; it raises exactly when the length needs more than the
    header's four bytes. *)
Lemma split_into_chunks_spec (data : bytes) :
  Forall is_byte data → Z.of_nat (length data) < 2 ^ 32 →
  ∃ header chunks, split_into_chunks data = Ok (header :: chunks) ∧
    Forall (λ c, length c = 31%nat ∧ Forall is_byte c) (header :: chunks) ∧
    from_bytes (take 4 header) = Z.of_nat (length data) ∧
    take (length data) (concat chunks) = data.
Proof.
  intros Hb Hlen. unfold split_into_chunks, to_bytes.
  change (256 ^ Z.of_nat 4) with (2 ^ 32).
  rewrite (proj2 (Z.ltb_ge _ _)), (proj2 (Z.leb_gt _ _)) by lia. cbn [orb mbind result_bind].
  eexists _, _. split; [done|]. split; [|split].
  - constructor.
    + rewrite length_app, length_be_bytes. split; [done|].
      apply Forall_app. split; [apply be_bytes_bytes|]. by apply Forall_replicate.
    + apply Forall_fmap, Forall_forall. intros k _. split; [apply length_pad_chunk|].
      apply Forall_app. split; [by apply Forall_take, Forall_drop|]. by apply Forall_replicate.
  - rewrite take_app_le by (by rewrite length_be_bytes).
    rewrite take_ge by (by rewrite length_be_bytes).
    apply from_bytes_be_bytes. change (256 ^ Z.of_nat 4) with (2 ^ 32). lia.
  - apply chunks_prefix. dlia.
Qed.

(** ** From shares back to the content *)

Section roundtrip.
Context {P : SharingPrims} {L : SharingLaws P}.
Context (e : entropy) (He : entropy_ok e).

Lemma hex_no_bar n : bar ∉ hex n.
Proof. intros Hin%hex_chars. unfold bar in Hin. lia. Qed.

Section shares.
Context (thr num : Z) (hash : pystr) (hybrid : bool) (ct : bytes) (chunks : list bytes).
Context (Hthr : 2 ≤ thr ≤ num) (Hnum : num < PRIME) (Hchunks : chunks ≠ []).
Context (Hsize : Forall (λ c, length c = 31%nat ∧ Forall is_byte c) chunks).

Abbreviation points := (imap (chunk_points e thr num) chunks).
Abbreviation made := (make_share e thr num hash hybrid ct points).

Lemma made_fields i s : made i = Ok s →
  s.(index) = Z.of_nat i + 1 ∧ s.(content_hash) = hash ∧ s.(threshold) = thr ∧
  s.(is_hybrid) = hybrid ∧
  s.(ciphertext) = (if hybrid then bytes_hex ct else []) ∧
  s.(nonce) = (if hybrid then bytes_hex e.(e_nonce) else []) ∧
  compute_share_mac s.(value) s.(index) hash e.(e_hmac_key) = Ok s.(mac).
Proof.
  unfold make_share. destruct (compute_share_mac _ _ _ _) as [m|] eqn:Hm; [|done].
  intros [= <-]. done.
Qed.

Lemma made_value i s : made i = Ok s →
  split bar s.(value) = (λ pts, hex (nth i pts (0, 0)).2) <$> points.
Proof.
  unfold make_share. destruct (compute_share_mac _ _ _ _) as [m|]; [|done].
  intros [= <-]. simpl. apply split_join.
  - clear Hsize. destruct chunks; [done|]. done.
  - apply Forall_fmap, Forall_forall. intros pts _. apply hex_no_bar.
Qed.

Lemma made_mac_ok i s key : made i = Ok s →
  key = None ∨ key = Some e.(e_hmac_key) → mac_acceptable key s = Ok true.
Proof.
  intros (Hi & Hh & _ & _ & _ & _ & Hm)%made_fields [->| ->]; [done|]. cbn.
  unfold verify_share_mac. rewrite Hh, Hm. unfold compute_share_mac in Hm.
  destruct (utf8_encode _) as [data|]; [|done]. injection Hm as Hm.
  rewrite decide_False by (rewrite <-Hm; apply hmac_nonempty). cbn.
  unfold compare_digest. rewrite decide_True.
  - by rewrite bool_decide_true.
  - rewrite <-Hm. apply Forall_app. split; apply hmac_ascii.
Qed.

Abbreviation coeffs k c :=
  (from_bytes c :: (e.(e_randbelow) k <$> seq 0 (Z.to_nat (thr - 1)))).

Lemma made_point i s k c : made i = Ok s → (i < Z.to_nat num)%nat → chunks !! k = Some c →
  (chunk_value ← from_option_exn IndexError (split bar s.(value) !! k);
   y ← int16 chunk_value; Ok (s.(index), y))
  = Ok (s.(index), evaluate_polynomial (coeffs k c) s.(index) PRIME).
Proof.
  intros Hs Hi Hk. rewrite (made_value _ _ Hs), list_lookup_fmap, list_lookup_imap, Hk. simpl.
  pose proof (made_fields _ _ Hs) as [-> _].
  unfold chunk_points. rewrite (nth_lookup_Some _ _ _ (Z.of_nat i + 1,
    evaluate_polynomial (coeffs k c) (Z.of_nat i + 1) PRIME)).
  - simpl. rewrite int16_hex by (apply evaluate_polynomial_range; done). done.
  - rewrite list_lookup_fmap, lookup_seqZ_lt by lia. simpl. by rewrite Z.add_comm.
Qed.

(** Any [thr] shares with distinct indices interpolate every chunk exactly. *)
Lemma reconstruct_chunk_made (selected : list Share) k c :
  Forall (λ s, ∃ i, (i < Z.to_nat num)%nat ∧ made i = Ok s) selected →
  NoDup (index <$> selected) → length selected = Z.to_nat thr →
  chunks !! k = Some c → reconstruct_chunk selected k = Ok c.
Proof.
  intros Hsel Hnd Hlen Hk. unfold reconstruct_chunk.
  rewrite (mapR_Ok_fmap _ (λ s, (s.(index), evaluate_polynomial (coeffs k c) s.(index) PRIME))).
  2:{ rewrite Forall_forall in Hsel. intros s (i & Hi & Hs)%Hsel. by eapply made_point. }
  cbn [mbind result_bind].
  rewrite Forall_lookup in Hsize. destruct (Hsize _ _ Hk) as [Hl Hb].
  pose proof (from_bytes_bound c Hb) as Hc. rewrite Hl in Hc.
  assert (lagrange_interpolation
    ((λ s, (s.(index), evaluate_polynomial (coeffs k c) s.(index) PRIME)) <$> selected) PRIME
    = from_bytes c) as ->.
  2:{ rewrite <-Hl. by apply to_bytes_from_bytes. }
  apply (zeqm_eq PRIME); [by apply lagrange_interpolation_range, PRIME_prime|unfold PRIME; lia|].
  rewrite (lagrange_interpolation_peval PRIME PRIME_prime (coeffs k c)).
  - simpl. by rewrite Z.add_0_r.
  - rewrite <-list_fmap_compose. split; [done|]. apply Forall_fmap.
    eapply Forall_impl; [exact Hsel|]. intros s (i & Hi & [Hs _]%made_fields). simpl. lia.
  - simpl. rewrite !length_fmap, length_seq. lia.
  - apply Forall_fmap, Forall_forall. intros s _. simpl. apply evaluate_polynomial_peval.
Qed.

Lemma check_shares_made key (sel : list Share) :
  key = None ∨ key = Some e.(e_hmac_key) →
  Forall (λ s, ∃ i, (i < Z.to_nat num)%nat ∧ made i = Ok s) sel →
  check_shares thr hash hybrid key sel = Ok ().
Proof.
  intros Hkey. induction 1 as [|s sel (i & Hi & Hs) _ IH]; [done|]. cbn [check_shares].
  pose proof (made_fields _ _ Hs) as (_ & -> & -> & -> & _).
  rewrite !decide_False by tauto. rewrite (made_mac_ok _ _ _ Hs Hkey). done.
Qed.

End shares.

Lemma ascii_scalar c : 0 ≤ c < 256 → is_scalar c.
Proof. intros. split; [lia|]. unfold is_surrogate. case_cmp; done. Qed.

Lemma str_scalar s : Forall is_scalar (str s).
Proof.
  unfold str. apply Forall_fmap, Forall_forall. intros a _. apply ascii_scalar. simpl.
  pose proof (N_ascii_bounded a). lia.
Qed.

Lemma join_scalar parts : Forall (Forall is_scalar) parts → Forall is_scalar (join bar parts).
Proof.
  induction 1 as [|p parts Hp Hps IH]; [constructor|]. destruct parts; [done|].
  change (Forall is_scalar (p ++ bar :: join bar (l :: parts))).
  apply Forall_app. split; [done|]. constructor; [by apply ascii_scalar|done].
Qed.

Lemma compute_share_mac_total parts i data key :
  Forall (Forall is_scalar) parts →
  ∃ m, compute_share_mac (join bar parts) i (sha256_hexdigest data) key = Ok m.
Proof.
  intros Hparts. unfold compute_share_mac.
  destruct (utf8_encode_total (mac_data (join bar parts) i (sha256_hexdigest data))) as [bs ->].
  - unfold mac_data. apply Forall_app. split; [apply str_scalar|].
    constructor; [by apply ascii_scalar|]. apply Forall_app. split; [by apply join_scalar|].
    constructor; [by apply ascii_scalar|].
    eapply Forall_impl; [apply sha256_ascii|]. intros c Hc. apply ascii_scalar. simpl in Hc. lia.
  - by eexists.
Qed.

Lemma hex_scalar n : Forall is_scalar (hex n).
Proof. apply Forall_forall. intros c Hc%hex_chars. apply ascii_scalar. lia. Qed.

Lemma make_share_total thr num data hybrid ct pts i :
  ∃ s, make_share e thr num (sha256_hexdigest data) hybrid ct pts i = Ok s.
Proof.
  unfold make_share.
  destruct (compute_share_mac_total ((λ points, hex (nth i points (0, 0)).2) <$> pts)
    (Z.of_nat i + 1) data (e_hmac_key e)) as [m ->].
  - apply Forall_fmap, Forall_forall. intros ? _. apply hex_scalar.
  - by eexists.
Qed.

(** What [split_secret] hides behind the shares: the bytes it splits. *)
Definition payload (content_bytes : bytes) : bytes * bytes :=
  if HYBRID_THRESHOLD_BYTES <? Z.of_nat (length content_bytes)
  then (e.(e_aes_key), aesgcm_encrypt e.(e_aes_key) e.(e_nonce) content_bytes)
  else (content_bytes, []).

Lemma payload_small content_bytes :
  Forall is_byte content_bytes →
  Forall is_byte (payload content_bytes).1 ∧
  Z.of_nat (length (payload content_bytes).1) < 2 ^ 32.
Proof.
  intros Hb. unfold payload, HYBRID_THRESHOLD_BYTES. destruct He as [Hk Hl _ _].
  case_cmp; simpl; [rewrite Hl|]; split; done || lia.
Qed.

(** The shares [split_secret] makes of the chunks of the payload. *)
Definition made_shares (thr num : Z) (content_bytes : bytes) (chunks : list bytes)
    (shares : list Share) : Prop :=
  Forall2 (λ i s, make_share e thr num (sha256_hexdigest content_bytes)
      (HYBRID_THRESHOLD_BYTES <? Z.of_nat (length content_bytes)) (payload content_bytes).2
      (imap (chunk_points e thr num) chunks) i = Ok s)
    (seq 0 (Z.to_nat num)) shares.

Lemma split_secret_shape content content_bytes thr num :
  utf8_encode content = Ok content_bytes → Forall is_byte content_bytes → 2 ≤ thr ≤ num →
  ∃ header chunks shares,
    split_secret e content thr num = Ok (shares, e.(e_hmac_key)) ∧
    split_into_chunks (payload content_bytes).1 = Ok (header :: chunks) ∧
    made_shares thr num content_bytes (header :: chunks) shares.
Proof.
  intros Henc Hb Hthr. pose proof (payload_small _ Hb) as [Hpb Hpl].
  destruct (split_into_chunks_spec _ Hpb Hpl) as (header & chunks & Hsplit & _).
  set (mk := make_share e thr num (sha256_hexdigest content_bytes)
      (HYBRID_THRESHOLD_BYTES <? Z.of_nat (length content_bytes)) (payload content_bytes).2
      (imap (chunk_points e thr num) (header :: chunks))).
  assert (∃ shares, mapR mk (seq 0 (Z.to_nat num)) = Ok shares) as [shares Hshares].
  { induction (seq 0 (Z.to_nat num)) as [|i l [r IH]]; simpl; [by eexists|].
    assert (∃ s, mk i = Ok s) as [s ->] by apply make_share_total.
    simpl. rewrite IH. by eexists. }
  exists header, chunks, shares. split; [|split; [done|by apply mapR_Ok_Forall2]].
  unfold split_secret. case_cmp. rewrite Henc. cbn [mbind result_bind].
  replace (if HYBRID_THRESHOLD_BYTES <? Z.of_nat (length content_bytes)
    then (e_aes_key e, aesgcm_encrypt (e_aes_key e) (e_nonce e) content_bytes)
    else (content_bytes, [])) with (payload content_bytes) by done.
  unfold mk in Hshares. destruct (payload content_bytes) as [secret_bytes ct]. cbn [fst snd] in *.
  rewrite Hsplit. cbn [mbind result_bind]. by rewrite Hshares.
Qed.

Lemma made_shares_indices thr num content_bytes chunks shares :
  0 ≤ num → made_shares thr num content_bytes chunks shares →
  index <$> shares = seqZ 1 num.
Proof.
  intros Hnum Hmade. apply list_eq_same_length with (length shares); rewrite ?length_fmap; [|done|].
  - rewrite length_seqZ, <-(Forall2_length _ _ _ Hmade), length_seq. done.
  - intros k x y Hk. rewrite list_lookup_fmap. intros (s & Hs & ->)%fmap_Some.
    destruct (Forall2_lookup_r _ _ _ _ _ Hmade Hs) as (i & [-> Hi]%lookup_seq & Hok).
    apply made_fields in Hok as [-> _]. intros [-> _]%lookup_seqZ. lia.
Qed.

Lemma made_shares_selection thr num content_bytes chunks shares sel :
  0 ≤ num → made_shares thr num content_bytes chunks shares → sel ⊆+ shares →
  NoDup (index <$> sel) ∧
  Forall (λ s, ∃ i, (i < Z.to_nat num)%nat ∧
    make_share e thr num (sha256_hexdigest content_bytes)
      (HYBRID_THRESHOLD_BYTES <? Z.of_nat (length content_bytes)) (payload content_bytes).2
      (imap (chunk_points e thr num) chunks) i = Ok s) sel.
Proof.
  intros Hnum Hmade Hsel. split.
  - assert (NoDup (index <$> shares)) as Hnd.
    { rewrite (made_shares_indices _ _ _ _ _ Hnum Hmade). apply NoDup_seqZ. }
    destruct (submseteq_Permutation _ _ Hsel) as [k Hk].
    rewrite Hk, fmap_app in Hnd. by apply NoDup_app in Hnd as [? _].
  - apply Forall_forall. intros s Hs. eapply elem_of_submseteq in Hs; [|exact Hsel].
    apply list_elem_of_lookup in Hs as [j Hj].
    destruct (Forall2_lookup_r _ _ _ _ _ Hmade Hj) as (i & Hi & Hok).
    apply lookup_seq in Hi as [-> ?]. eauto.
Qed.

Lemma slice_to_nonneg {A} n (l : list A) : 0 ≤ n → slice_to n l = take (Z.to_nat n) l.
Proof. intros. unfold slice_to. by case_cmp. Qed.

Lemma reconstruct_made thr num content content_bytes shares header chunks key sel :
  Forall is_scalar content → utf8_encode content = Ok content_bytes →
  2 ≤ thr ≤ num → num < PRIME →
  split_into_chunks (payload content_bytes).1 = Ok (header :: chunks) →
  made_shares thr num content_bytes (header :: chunks) shares →
  sel ⊆+ shares → thr ≤ Z.of_nat (length sel) →
  key = None ∨ key = Some e.(e_hmac_key) →
  reconstruct_secret sel key = Ok (Some content).
Proof.
  intros Hsc Henc Hthr Hnum Hsplit Hmade Hsel Hlen Hkey.
  pose proof (utf8_encode_bytes _ _ Hsc Henc) as Hb.
  pose proof (payload_small _ Hb) as [Hpb Hpl].
  destruct (split_into_chunks_spec _ Hpb Hpl) as (h' & c' & Hs' & Hsize & Hhead & Hbody).
  rewrite Hsplit in Hs'. injection Hs' as <- <-.
  destruct (made_shares_selection thr num _ _ _ _ ltac:(lia) Hmade Hsel) as [Hnd Hall].
  destruct sel as [|share0 sel]; [simpl in Hlen; lia|].
  pose proof Hall as Hall'. apply Forall_cons in Hall' as [(i0 & Hi0 & Hs0) _].
  pose proof (made_fields _ _ _ _ _ _ _ _ Hs0) as (_ & Hh0 & Ht0 & Hy0 & Hc0 & Hn0 & _).
  pose proof (made_value _ _ _ _ _ (header :: chunks) ltac:(done) _ _ Hs0) as Hv0.
  unfold reconstruct_secret. rewrite Ht0, Hh0, Hy0, Hv0.
  rewrite (proj2 (Z.ltb_ge _ _)) by lia.
  erewrite check_shares_made by eassumption. cbn [mbind result_bind].
  rewrite length_fmap, length_imap, (mapR_seq _ (header :: chunks)); cycle 1.
  { intros k c Hk. rewrite slice_to_nonneg by lia.
    apply (reconstruct_chunk_made thr num (sha256_hexdigest content_bytes)
      (HYBRID_THRESHOLD_BYTES <? Z.of_nat (length content_bytes)) (payload content_bytes).2
      (header :: chunks)); try done.
    - by apply Forall_take.
    - rewrite fmap_take. eapply sublist_NoDup; [exact Hnd|apply sublist_take].
    - rewrite length_take. lia. }
  cbn [mbind result_bind nth drop]. rewrite drop_0, Hhead, Nat2Z.id, Hbody.
  rewrite Hc0, Hn0. unfold payload. destruct He as [_ _ Hnon _].
  destruct (HYBRID_THRESHOLD_BYTES <? Z.of_nat (length content_bytes)); cbn [fst snd].
  - rewrite !bytes_fromhex_hex by (by apply aesgcm_encrypt_bytes || done). cbn.
    rewrite aesgcm_decrypt_encrypt by done. cbn.
    rewrite (utf8_decode_encode _ _ Hsc Henc). by rewrite decide_False by tauto.
  - cbn. rewrite (utf8_decode_encode _ _ Hsc Henc). by rewrite decide_False by tauto.
Qed.
End roundtrip.

(** ** [SecretSharingEngine] *)

Record SecretSharingEngine := mkEngine {
  default_threshold : Z;
  default_shares : Z;
  share_registry : gmap pystr (list string);
  hmac_keys : gmap pystr bytes;
  authorized_recipients : gmap pystr (gset string);
  thresholds : gmap pystr Z;
}.

Definition init_engine (default_threshold default_shares : Z) : SecretSharingEngine :=
  mkEngine default_threshold default_shares ∅ ∅ ∅ ∅.

Section engine_code.
Context {P : SharingPrims}.

Definition split_content (e : entropy) (self : SecretSharingEngine) (content : pystr)
    (recipient_ids : list string) (threshold : option Z)
    : result (gmap string Share * SecretSharingEngine) :=
  let num_shares := Z.of_nat (length recipient_ids) in
  let threshold := default (Z.max 2 (num_shares / 2 + 1)) threshold in
  if num_shares <? 2 then Raise ValueError
  else
    '(shares, hmac_key) ← split_secret e content threshold num_shares;
    let share_map := dict_of (zip recipient_ids shares) in
    share0 ← from_option_exn IndexError (shares !! 0%nat);
    let hash := share0.(content_hash) in
    Ok (share_map,
        mkEngine self.(default_threshold) self.(default_shares)
          (<[hash := recipient_ids]> self.(share_registry))
          (<[hash := hmac_key]> self.(hmac_keys))
          (<[hash := list_to_set recipient_ids]> self.(authorized_recipients))
          (<[hash := threshold]> self.(thresholds))).

Definition reconstruct_content (self : SecretSharingEngine) (shares : list Share)
    (verify_integrity : bool) : result (option pystr) :=
  match shares with
  | [] => Ok None
  | share0 :: _ =>
      let hmac_key :=
        if verify_integrity then self.(hmac_keys) !! share0.(content_hash) else None in
      reconstruct_secret shares hmac_key
  end.

Definition get_share_holders (self : SecretSharingEngine) (hash : pystr) : list string :=
  default [] (self.(share_registry) !! hash).

Definition get_hmac_key (self : SecretSharingEngine) (hash : pystr) : option bytes :=
  self.(hmac_keys) !! hash.

Definition is_authorized (self : SecretSharingEngine) (hash : pystr) (peer_id : string) : bool :=
  bool_decide (peer_id ∈ default ∅ (self.(authorized_recipients) !! hash)).

Definition with_authorized (self : SecretSharingEngine) (a : gmap pystr (gset string)) :=
  mkEngine self.(default_threshold) self.(default_shares) self.(share_registry)
    self.(hmac_keys) a self.(thresholds).

Definition add_authorized_recipient (self : SecretSharingEngine) (hash : pystr)
    (peer_id : string) : SecretSharingEngine :=
  let entry := default ∅ (self.(authorized_recipients) !! hash) in
  with_authorized self (<[hash := entry ∪ {[peer_id]}]> self.(authorized_recipients)).

Definition remove_authorized_recipient (self : SecretSharingEngine) (hash : pystr)
    (peer_id : string) : SecretSharingEngine :=
  match self.(authorized_recipients) !! hash with
  | Some entry =>
      with_authorized self (<[hash := entry ∖ {[peer_id]}]> self.(authorized_recipients))
  | None => self
  end.

Definition can_reconstruct (self : SecretSharingEngine) (hash : pystr)
    (available_peers : option (list string)) : bool :=
  let holders := default [] (self.(share_registry) !! hash) in
  let threshold := default self.(default_threshold) (self.(thresholds) !! hash) in
  let available_holders :=
    match available_peers with
    | Some available => filter (λ p, p ∈ available) holders
    | None => holders
    end in
  threshold <=? Z.of_nat (length available_holders).

Definition get_threshold (self : SecretSharingEngine) (hash : pystr) : Z :=
  default self.(default_threshold) (self.(thresholds) !! hash).

End engine_code.

(** The shares the available holders can bring together. *)
Definition gather (share_map : gmap string Share) (holders : list string) : list Share :=
  omap (λ p, share_map !! p) holders.

Lemma gather_filter (recipients available : list string) (shares : list Share) :
  NoDup recipients → length recipients = length shares →
  gather (dict_of (zip recipients shares)) (filter (λ p, p ∈ available) recipients)
  = (filter (λ ps, ps.1 ∈ available) (zip recipients shares)).*2.
Proof.
  intros Hnd Hlen. unfold gather.
  assert (∀ p s, (p, s) ∈ zip recipients shares →
    dict_of (zip recipients shares) !! p = Some s) as H.
  { intros p s Hin. apply dict_of_in; [by rewrite fst_zip by lia|done]. }
  revert H. generalize (dict_of (zip recipients shares)) as m. intros m. clear Hnd.
  revert shares Hlen; induction recipients as [|p ps IH]; intros [|s ss] Hlen Hm; try done.
  csimpl in *. rewrite !filter_cons. simpl. specialize (IH ss ltac:(lia)).
  assert (∀ p s, (p, s) ∈ zip ps ss → m !! p = Some s) as Hm' by set_solver.
  specialize (IH Hm'). case_decide; [|done]. csimpl. rewrite (Hm p s) by set_solver. by rewrite IH.
Qed.

Lemma length_filter_zip {A} (l available : list string) (k : list A) :
  length l = length k →
  length (filter (λ ps, ps.1 ∈ available) (zip l k)) = length (filter (λ p, p ∈ available) l).
Proof.
  revert k; induction l as [|x l IH]; intros [|a k] Hl; try done. csimpl.
  rewrite !filter_cons. simpl. case_decide; simpl; auto.
Qed.

(** ** Properties *)

(** C3: splitting any encodable text with [2 <= threshold <= num_shares] returns
    one share per index, and any [threshold] or more of these shares, in any
    order, reconstruct exactly the text, with or without MAC verification, on
    the direct and on the hybrid path, whatever the random draws. *)
Theorem split_reconstruct_roundtrip {P : SharingPrims} {L : SharingLaws P}
    (e : entropy) (content : pystr) (threshold num_shares : Z) :
  entropy_ok e → Forall is_scalar content →
  2 ≤ threshold ≤ num_shares → num_shares < PRIME →
  ∃ shares, split_secret e content threshold num_shares = Ok (shares, e.(e_hmac_key)) ∧
    index <$> shares = seqZ 1 num_shares ∧
    ∀ sel, sel ⊆+ shares → threshold ≤ Z.of_nat (length sel) →
      reconstruct_secret sel None = Ok (Some content) ∧
      reconstruct_secret sel (Some e.(e_hmac_key)) = Ok (Some content).
Proof.
  intros He Hsc Hthr Hnum. destruct (utf8_encode_total _ Hsc) as [bs Henc].
  pose proof (utf8_encode_bytes _ _ Hsc Henc) as Hb.
  destruct (split_secret_shape e He _ _ _ _ Henc Hb Hthr) as (h & c & shares & -> & Hc & Hmade).
  exists shares. split; [done|]. split; [eapply made_shares_indices; [lia|done]|].
  intros sel Hsel Hlen. split; eapply reconstruct_made; eauto.
Qed.

(** A toy instance of the primitives: no encryption, one-digit digests. *)
Definition toy_prims : SharingPrims := {|
  sha256_hexdigest data := [48 + from_bytes data mod 10];
  hmac_sha256_hexdigest key data := [48 + from_bytes data mod 10];
  aesgcm_encrypt _ _ data := data;
  aesgcm_decrypt _ _ data := Ok data;
|}.

Lemma toy_laws : SharingLaws toy_prims.
Proof.
  assert (∀ n, Forall (λ c, 0 ≤ c < 128) [48 + n mod 10]).
  { intros n. constructor; [|done]. pose proof (Z.mod_pos_bound n 10). lia. }
  split; simpl; auto.
Qed.

Definition toy_entropy : entropy := {|
  e_hmac_key := [1; 2; 3]; e_aes_key := replicate 32 7; e_nonce := [];
  e_randbelow c k := 5; e_share_id := [] |}.

Lemma toy_entropy_ok : entropy_ok toy_entropy.
Proof. split; simpl; try done; repeat constructor; done. Qed.

Lemma split_reconstruct_roundtrip_witness :
  ∃ shares, split_secret (P := toy_prims) toy_entropy (str "hi") 2 3 = Ok (shares, [1; 2; 3]) ∧
    index <$> shares = seqZ 1 3 ∧
    ∀ sel, sel ⊆+ shares → 2 ≤ Z.of_nat (length sel) →
      reconstruct_secret (P := toy_prims) sel None = Ok (Some (str "hi")) ∧
      reconstruct_secret (P := toy_prims) sel (Some [1; 2; 3]) = Ok (Some (str "hi")).
Proof.
  apply (split_reconstruct_roundtrip (P := toy_prims) (L := toy_laws) toy_entropy (str "hi") 2 3).
  - exact toy_entropy_ok.
  - apply str_scalar.
  - lia.
  - reflexivity.
Defined.

(** C4: [threshold - 1] shares of a chunk reveal nothing: whatever field values
    they carry at their (distinct, non-zero) indices, each candidate secret is
    explained by exactly one choice of the [threshold - 1] random coefficients,
    so all candidates are equally likely under uniform draws. *)
Theorem below_threshold_secrecy (secret : Z) (points : list (Z * Z)) :
  NoDup points.*1 → Forall (λ s, 1 ≤ s.1 < PRIME ∧ 0 ≤ s.2 < PRIME) points →
  0 ≤ secret < PRIME →
  exists! coefficients, length coefficients = length points ∧
    Forall (λ c, 0 ≤ c < PRIME) coefficients ∧
    Forall (λ s, evaluate_polynomial (secret :: coefficients) s.1 PRIME = s.2) points.
Proof.
  intros Hnd Hpts Hsec. apply (secret_undetermined PRIME PRIME_prime); [|done|].
  - rewrite Forall_forall in Hpts. split.
    + apply NoDup_cons. split; [|done].
      intros (s & Hs & Hin)%list_elem_of_fmap. apply Hpts in Hin. lia.
    + constructor; [done|]. apply Forall_fmap, Forall_forall. intros s Hs. simpl.
      apply Hpts in Hs. lia.
  - eapply Forall_impl; [exact Hpts|]. by intros s [_ ?].
Qed.

Lemma below_threshold_secrecy_witness :
  exists! coefficients, length coefficients = 2%nat ∧
    Forall (λ c, 0 ≤ c < PRIME) coefficients ∧
    Forall (λ s, evaluate_polynomial (42 :: coefficients) s.1 PRIME = s.2) [(1, 9); (3, 8)].
Proof.
  apply (below_threshold_secrecy 42 [(1, 9); (3, 8)]).
  - apply NoDup_cons; split; [set_solver|]. apply NoDup_singleton.
  - repeat constructor; done.
  - done.
Defined.

(** C5: [_mod_inverse] over the field never recurses deeper than 513 frames,
    well within the interpreter's default limit of 1000, and returns the
    reduced inverse of every non-zero residue. *)
Theorem mod_inverse_correct (a : Z) :
  a mod PRIME ≠ 0 →
  is_Some (extended_gcd 513 (a mod PRIME) PRIME) ∧
  0 ≤ mod_inverse a PRIME < PRIME ∧ (a * mod_inverse a PRIME) mod PRIME = 1.
Proof.
  intros Ha. pose proof PRIME_prime as Hp. assert (1 < PRIME) by done.
  split; [apply (extended_gcd_total a PRIME); done|]. split.
  - unfold mod_inverse. case_match; [|lia]. destruct p as [[??]?]. apply Z.mod_pos_bound. lia.
  - apply (zeqm_eq PRIME); [apply Z.mod_pos_bound; lia|lia|]. rewrite zeqm_mod.
    apply mod_inverse_spec; [done|]. unfold Z.coprime. rewrite Z.gcd_comm.
    apply Z.coprime_prime_l; [done|]. intros Hd. apply Ha. by apply Z.mod_divide.
Qed.

Lemma mod_inverse_correct_witness :
  12 mod PRIME ≠ 0 ∧ (12 * mod_inverse 12 PRIME) mod PRIME = 1.
Proof. split; [done|]. apply (mod_inverse_correct 12). done. Defined.

(** ** What a successful reconstruction guarantees *)

Section soundness.
Context {P : SharingPrims}.

Lemma verify_share_mac_true share key :
  verify_share_mac share key = Ok true ↔
  share.(mac) ≠ [] ∧ Forall (λ c, 0 ≤ c < 128) share.(mac) ∧
  compute_share_mac share.(value) share.(index) share.(content_hash) key = Ok share.(mac).
Proof.
  unfold verify_share_mac. destruct (decide (mac share = [])) as [|Hne]; [naive_solver|].
  destruct (compute_share_mac _ _ _ _) as [m|]; [|naive_solver]. cbn.
  unfold compare_digest. case_decide as Hasc.
  - apply Forall_app in Hasc as [Ha Hb]. split.
    + intros [= Heq%bool_decide_eq_true]. by rewrite Heq in *.
    + intros (_ & _ & [= <-]). by rewrite bool_decide_true.
  - split; [done|]. intros (_ & Ha & [= ->]). destruct Hasc. by apply Forall_app.
Qed.

Lemma check_shares_Ok thr hash hybrid key shares :
  check_shares thr hash hybrid key shares = Ok () ↔
  Forall (λ s, s.(content_hash) = hash ∧ s.(threshold) = thr ∧ s.(is_hybrid) = hybrid ∧
    mac_acceptable key s = Ok true) shares.
Proof.
  induction shares as [|s shares IH]; cbn [check_shares]; [by split|].
  rewrite Forall_cons, <-IH. repeat case_decide; try naive_solver.
  destruct (mac_acceptable key s) as [[]|]; cbn; naive_solver.
Qed.

(** C6: whatever shares it is given, when [reconstruct_secret] returns a text
    then there were at least [threshold] shares, all of the same secret,
    threshold and mode, every MAC verified under the given key, and the text is
    the decoding of bytes whose SHA-256 is the shares' content hash. *)
Theorem reconstruct_secret_sound (shares : list Share) (key : bytes) (content : pystr) :
  reconstruct_secret shares (Some key) = Ok (Some content) →
  ∃ share0 content_bytes, head shares = Some share0 ∧
    share0.(threshold) ≤ Z.of_nat (length shares) ∧
    Forall (λ s, s.(content_hash) = share0.(content_hash) ∧
      s.(threshold) = share0.(threshold) ∧ s.(is_hybrid) = share0.(is_hybrid) ∧
      verify_share_mac s key = Ok true) shares ∧
    utf8_decode content_bytes = Ok content ∧
    sha256_hexdigest content_bytes = share0.(content_hash).
Proof.
  unfold reconstruct_secret. destruct shares as [|share0 rest]; [done|].
  destruct (Z.ltb_spec (Z.of_nat (length (share0 :: rest))) (threshold share0)); [done|].
  destruct (check_shares _ _ _ _ _) as [[]|] eqn:Hcheck; [|done]. cbn [mbind result_bind].
  apply check_shares_Ok in Hcheck.
  destruct (mapR _ _) as [cs|]; [|done]. cbn [mbind result_bind].
  match goal with |- (?m ≫= _) = _ → _ => destruct m as [[bs|]|]; [|done..] end.
  cbn [mbind result_bind]. destruct (utf8_decode bs) as [c|] eqn:Hdec; [|done].
  case_decide as Hh; [done|]. intros [= <-].
  exists share0, bs. auto.
Qed.

(** A share whose MAC does not verify makes [reconstruct_secret] raise
    [ShareIntegrityError], provided the shares are otherwise consistent and
    enough, and no earlier share raises first. *)
Theorem reconstruct_secret_tampered (good bad : list Share) (tampered : Share) (key : bytes) :
  let shares := good ++ tampered :: bad in
  let share0 := default tampered (head good) in
  share0.(threshold) ≤ Z.of_nat (length shares) →
  Forall (λ s, s.(content_hash) = share0.(content_hash) ∧ s.(threshold) = share0.(threshold) ∧
    s.(is_hybrid) = share0.(is_hybrid)) (good ++ [tampered]) →
  Forall (λ s, verify_share_mac s key = Ok true) good →
  verify_share_mac tampered key = Ok false →
  reconstruct_secret shares (Some key) = Raise ShareIntegrityError.
Proof.
  intros shares share0 Hlen Hcons Hgood Hbad.
  assert (∃ rest, shares = share0 :: rest) as [rest Hrest].
  { unfold shares, share0. destruct good; simpl; eauto. }
  unfold reconstruct_secret. rewrite Hrest. cbn [head]. rewrite <-Hrest.
  rewrite (proj2 (Z.ltb_ge _ _)) by lia.
  assert (check_shares (threshold share0) (content_hash share0) (is_hybrid share0) (Some key) shares
    = Raise ShareIntegrityError) as ->; [|done].
  unfold shares. clearbody share0. clear Hlen Hrest shares.
  induction good as [|s good IH]; cbn [app check_shares] in *.
  - apply Forall_cons in Hcons as [(Hh & Ht & Hy) _]. rewrite !decide_False by tauto. cbn. by rewrite Hbad.
  - apply Forall_cons in Hcons as [(Hh & Ht & Hy) Hcons]. apply Forall_cons in Hgood as [Hs Hgood].
    rewrite !decide_False by tauto. cbn. rewrite Hs. cbn. by apply IH.
Qed.

(** The parameter checks and the encoding are the only ways [split_secret]
    can fail: it raises [ValueError] exactly for an invalid threshold or share
    count, and [UnicodeError] exactly for text with a surrogate, so the
    four-byte length header never overflows. *)
Theorem split_secret_errors {L : SharingLaws P} (e : entropy) (content : pystr)
    (thr num : Z) (ex : pyexn) :
  entropy_ok e → Forall (λ c, 0 ≤ c < 1114112) content →
  split_secret e content thr num = Raise ex ↔
  (num < thr ∨ thr < 2 ∨ num < 2) ∧ ex = ValueError ∨
  2 ≤ thr ≤ num ∧ Exists (λ c, is_surrogate c = true) content ∧ ex = UnicodeError.
Proof.
  intros He Hc. destruct (decide (2 ≤ thr ≤ num)) as [Hthr|Hthr]; cycle 1.
  { unfold split_secret. case_cmp; split; try naive_solver lia; intros; left; split; naive_solver lia. }
  destruct (decide (Exists (λ c, is_surrogate c = true) content)) as [Hsur|Hsur].
  - assert (utf8_encode content = Raise UnicodeError) as Henc.
    { unfold utf8_encode. enough (mapR utf8_char content = Raise UnicodeError) as -> by done.
      clear He Hthr. induction content as [|c s IH]; [by apply Exists_nil in Hsur|].
      apply Forall_cons in Hc as [Hc0 Hc]. cbn [mapR].
      destruct (is_surrogate c) eqn:Hs.
      - unfold utf8_char. rewrite Hs. unfold is_surrogate in Hs. case_cmp; done.
      - assert (∃ b, utf8_char c = Ok b) as [b ->]
          by (unfold utf8_char; rewrite Hs; repeat case_match; eauto).
        cbn. rewrite IH; [done|done|]. apply Exists_cons in Hsur as [?|?]; congruence. }
    unfold split_secret. case_cmp. rewrite Henc. cbn. split; [|naive_solver lia].
    intros [= <-]. right. auto.
  - assert (Forall is_scalar content) as Hsc.
    { rewrite <-Forall_Exists_neg in Hsur || apply not_Exists_Forall in Hsur; try apply _.
      rewrite Forall_forall in *. intros c Hin. split; [by apply Hc|]. apply not_true_is_false. by apply Hsur. }
    destruct (utf8_encode_total _ Hsc) as [bs Henc].
    destruct (split_secret_shape e He _ _ _ _ Henc (utf8_encode_bytes _ _ Hsc Henc) Hthr)
      as (h & c & shares & -> & _). split; [done|]. naive_solver lia.
Qed.

End soundness.

(** Two shares of the text "hi", as [split_secret] makes them. *)
Definition toy_shares : list Share := Eval vm_compute in
  match split_secret (P := toy_prims) toy_entropy (str "hi") 2 3 with
  | Ok (shares, _) => take 2 shares
  | Raise _ => []
  end.

Definition toy_tampered : Share :=
  mkShare 3 (str "0x2a|0x2a") [] [48 + from_bytes (str "hi") mod 10] 2 3 (str "?") false [] [].

Lemma reconstruct_secret_sound_witness :
  ∃ share0 content_bytes, head toy_shares = Some share0 ∧
    share0.(threshold) ≤ Z.of_nat (length toy_shares) ∧
    Forall (λ s, s.(content_hash) = share0.(content_hash) ∧
      s.(threshold) = share0.(threshold) ∧ s.(is_hybrid) = share0.(is_hybrid) ∧
      verify_share_mac (P := toy_prims) s [1; 2; 3] = Ok true) toy_shares ∧
    utf8_decode content_bytes = Ok (str "hi") ∧
    sha256_hexdigest (SharingPrims := toy_prims) content_bytes = share0.(content_hash).
Proof.
  apply (reconstruct_secret_sound (P := toy_prims) toy_shares [1; 2; 3] (str "hi")).
  vm_compute. reflexivity.
Defined.

Lemma reconstruct_secret_tampered_witness :
  reconstruct_secret (P := toy_prims) (toy_shares ++ toy_tampered :: []) (Some [1; 2; 3])
  = Raise ShareIntegrityError.
Proof.
  apply (reconstruct_secret_tampered (P := toy_prims) toy_shares [] toy_tampered [1; 2; 3]).
  - done.
  - repeat (apply Forall_cons; split; [done|]). apply Forall_nil. done.
  - repeat (apply Forall_cons; split; [vm_compute; reflexivity|]). apply Forall_nil. done.
  - vm_compute. reflexivity.
Defined.

Lemma split_secret_errors_witness :
  split_secret (P := toy_prims) toy_entropy [55296] 2 3 = Raise UnicodeError.
Proof.
  apply (split_secret_errors (P := toy_prims) (L := toy_laws) toy_entropy [55296] 2 3 UnicodeError).
  - exact toy_entropy_ok.
  - repeat constructor; done.
  - right. split; [done|]. split; [|done]. by apply Exists_cons_hd.
Defined.

(** Once [split_content] has run, [can_reconstruct] is an exact promise: if
    it says yes for the available peers, the shares those holders received
    reconstruct the content through the engine; if it says no, their shares
    are refused. *)
Theorem can_reconstruct_correct {P : SharingPrims} {L : SharingLaws P} (e : entropy)
    (self self' : SecretSharingEngine) (content : pystr) (recipients : list string)
    (thr : option Z) (share_map : gmap string Share) (hash : pystr)
    (available : list string) (verify_integrity : bool) :
  entropy_ok e → Forall is_scalar content → NoDup recipients →
  Z.of_nat (length recipients) < PRIME →
  split_content e self content recipients thr = Ok (share_map, self') →
  sha256_hexdigest <$> utf8_encode content = Ok hash →
  let shares := gather share_map (filter (λ p, p ∈ available) (get_share_holders self' hash)) in
  reconstruct_content self' shares verify_integrity =
    if can_reconstruct self' hash (Some available) then Ok (Some content)
    else match shares with [] => Ok None | _ => Raise ValueError end.
Proof.
  intros He Hsc Hnd Hlen Hsplit Hhash. unfold split_content in Hsplit.
  set (num := Z.of_nat (length recipients)) in *.
  set (t := default (Z.max 2 (num / 2 + 1)) thr) in *.
  destruct (Z.ltb_spec num 2) as [|Hnum]; [done|].
  destruct (utf8_encode_total _ Hsc) as [bs Henc]. rewrite Henc in Hhash. injection Hhash as <-.
  destruct (decide (2 ≤ t ≤ num)) as [Ht|Ht]; cycle 1.
  { unfold split_secret in Hsplit. revert Hsplit. case_cmp; done. }
  destruct (split_secret_shape e He _ _ _ _ Henc (utf8_encode_bytes _ _ Hsc Henc) Ht)
    as (h & c & shares & Hok & Hc & Hmade). rewrite Hok in Hsplit. cbn [mbind result_bind] in Hsplit.
  assert (length recipients = length shares) as Hl.
  { rewrite <-(Forall2_length _ _ _ Hmade), length_seq. lia. }
  destruct (shares !! 0%nat) as [share0|] eqn:Hs0; [|done]. cbn [from_option_exn mbind result_bind] in Hsplit.
  injection Hsplit as <- <-.
  destruct (Forall2_lookup_r _ _ _ _ _ Hmade Hs0) as (i0 & _ & Hi0).
  pose proof (made_fields _ _ _ _ _ _ _ _ _ Hi0) as (_ & Hh0 & _). rewrite Hh0.
  unfold get_share_holders, can_reconstruct, reconstruct_content.
  cbn [share_registry thresholds hmac_keys default_threshold].
  rewrite !lookup_insert_eq. cbn [default].
  rewrite gather_filter by done. set (sel := _.*2).
  assert (sel ⊆+ shares) as Hsel.
  { unfold sel. rewrite <-(snd_zip recipients shares) at 2 by lia.
    apply sublist_submseteq, fmap_sublist, sublist_filter. }
  assert (length sel = length (filter (λ p, p ∈ available) recipients)) as Hsl.
  { unfold sel. by rewrite length_fmap, length_filter_zip. }
  unfold id. rewrite <-Hsl. pose proof (made_shares_selection e t num _ _ _ _ ltac:(lia) Hmade Hsel) as [_ Hall].
  clearbody sel. destruct sel as [|s sel]; [simpl; case_cmp; done|].
  pose proof Hall as Hall'. apply Forall_cons in Hall' as [(i & _ & Hi) _].
  pose proof (made_fields _ _ _ _ _ _ _ _ _ Hi) as (_ & Hh & Hthr & _). rewrite Hh, lookup_insert_eq.
  destruct (Z.leb_spec t (Z.of_nat (length (s :: sel)))).
  - eapply reconstruct_made; eauto. by destruct verify_integrity; [right|left].
  - unfold reconstruct_secret. rewrite Hthr, (proj2 (Z.ltb_lt _ _)) by lia. done.
Qed.

Lemma can_reconstruct_correct_witness :
  ∃ share_map self',
    split_content (P := toy_prims) toy_entropy (init_engine 3 5) (str "hi")
      ["ann"; "bob"; "cyd"]%string None = Ok (share_map, self') ∧
    ∀ available, let shares := gather share_map (filter (λ p, p ∈ available)
        (get_share_holders self' [48 + from_bytes (str "hi") mod 10])) in
    reconstruct_content (P := toy_prims) self' shares true =
      if can_reconstruct self' [48 + from_bytes (str "hi") mod 10] (Some available)
      then Ok (Some (str "hi"))
      else match shares with [] => Ok None | _ => Raise ValueError end.
Proof.
  destruct (split_content (P := toy_prims) toy_entropy (init_engine 3 5) (str "hi")
    ["ann"; "bob"; "cyd"]%string None) as [[m self']|] eqn:Hs; [|vm_compute in Hs; discriminate].
  exists m, self'. split; [reflexivity|]. intros available.
  apply (can_reconstruct_correct (P := toy_prims) (L := toy_laws) toy_entropy (init_engine 3 5)
    self' (str "hi") ["ann"; "bob"; "cyd"]%string None m [48 + from_bytes (str "hi") mod 10]
    available true toy_entropy_ok (str_scalar "hi")); [|done|exact Hs|reflexivity].
  apply (bool_decide_unpack _). vm_compute. exact I.
Defined.
