(* ===== verification/Crypto.v ===== *)
(** * Hashes and signatures ([coc_framework/core/crypto_core.py])

    [CryptoCore]'s operations as the class [Crypto]; SHA-256 and Ed25519
    (PyNaCl) stay abstract.  [CryptoLaws] is what the framework relies on:
    a signature verifies under the signer's key.  Text is a [string] (its
    UTF-8 bytes), a signature or key a list of bytes. *)

From Stdlib Require Import ZArith Lia Ascii String.
From stdpp Require Import sorting.
From S2P Require Import Prelude PyData DateTime.

Class Crypto := {
  hash_content : string → string;
  sign_message : bytes → string → bytes;
  verify_key : bytes → bytes;
  verify_signature : bytes → string → bytes → bool;
}.

Class CryptoLaws (C : Crypto) := {
  verify_sign sk m : verify_signature (verify_key sk) m (sign_message sk m) = true;
  sign_bytes sk m : Forall is_byte (sign_message sk m);
  sign_nonempty sk m : sign_message sk m ≠ [];
}.

(** [data.hex()] and [bytes.fromhex(s)] on text. *)
Definition hex_of (data : bytes) : string := pystring (bytes_hex data).
Definition fromhex (s : string) : result bytes := bytes_fromhex (str s).

Lemma bytes_hex_range data : Forall is_byte data → Forall (λ c, 0 ≤ c < 256) (bytes_hex data).
Proof.
  induction 1 as [|b data Hb _ IH]; simpl; [constructor|]. unfold is_byte in Hb.
  assert (∀ d, 0 ≤ d < 16 → 0 ≤ hexdigit d < 256) as Hd.
  { intros d Hd. unfold hexdigit. case_cmp; lia. }
  repeat constructor; try done; apply Hd; dlia.
Qed.

Lemma fromhex_hex_of data : Forall is_byte data → fromhex (hex_of data) = Ok data.
Proof.
  intros Hd. unfold fromhex, hex_of. rewrite str_pystring by by apply bytes_hex_range.
  by apply bytes_fromhex_hex.
Qed.

Lemma hex_of_nonempty data : data ≠ [] → hex_of data ≠ "".
Proof. by destruct data. Qed.

(** ** [sorted] on text *)

Definition string_le (a b : string) : Prop := String.leb a b = true.
#[global] Instance string_le_dec a b : Decision (string_le a b).
Proof. unfold string_le. apply _. Defined.

Definition sorted (l : list string) : list string := merge_sort string_le l.

Lemma string_leb_cons a s b t :
  String.leb (String a s) (String b t) = true ↔
  (N_of_ascii a < N_of_ascii b)%N ∨ (a = b ∧ String.leb s t = true).
Proof.
  unfold String.leb. simpl. unfold Ascii.compare.
  destruct (N.compare_spec (N_of_ascii a) (N_of_ascii b)) as [Heq|Hlt|Hgt].
  - assert (a = b) as -> by (rewrite <-(ascii_N_embedding a), Heq; apply ascii_N_embedding).
    split; [by right|]. intros [?|[_ ?]]; [lia|done].
  - split; [by left|done].
  - split; [done|]. intros [?|[-> _]]; lia.
Qed.

#[global] Instance string_le_trans : Transitive string_le.
Proof.
  unfold string_le. intros a. induction a as [|x a IH]; intros [|y b] [|z c]; try done.
  rewrite !string_leb_cons. intros [?|[-> ?]] [?|[-> ?]]; [left; lia|by left|by left|].
  right. eauto.
Qed.
#[global] Instance string_le_total : Total string_le.
Proof. intros a b. unfold string_le. destruct (String.leb_total a b); auto. Qed.
#[global] Instance string_le_antisymm : AntiSymm (=) string_le.
Proof. intros a b. unfold string_le. apply String.leb_antisym. Qed.

Lemma sorted_Permutation l : sorted l ≡ₚ l.
Proof. apply merge_sort_Permutation. Qed.

Lemma sorted_idemp l : sorted (sorted l) = sorted l.
Proof.
  apply (Sorted_unique string_le).
  - apply Sorted_merge_sort, _.
  - apply Sorted_merge_sort, _.
  - apply sorted_Permutation.
Qed.

(** ** A toy instance

    A key signs by prefixing itself to the text; hashes are marked text.  It
    satisfies the laws, and every definition can be evaluated with it. *)

Definition toy_crypto : Crypto := {|
  hash_content s := "#" +:+ s;
  sign_message sk m := ((λ b, b mod 256) <$> sk) ++ 1 :: str m;
  verify_key sk := sk;
  verify_signature vk m sig := bool_decide (sig = ((λ b, b mod 256) <$> vk) ++ 1 :: str m);
|}.

Lemma toy_crypto_laws : CryptoLaws toy_crypto.
Proof.
  split; simpl.
  - intros sk m. by apply bool_decide_eq_true.
  - intros sk m. apply Forall_app. split.
    + apply Forall_fmap, Forall_forall. intros b _. simpl. apply Z.mod_pos_bound. lia.
    + constructor; [done|]. unfold str. apply Forall_fmap, Forall_forall. intros a _. simpl.
      unfold is_byte. pose proof (N_ascii_bounded a). lia.
  - intros sk m. by destruct sk.
Qed.
