(* ===== verification/CoCNode.v ===== *)
(** * Chain-of-custody nodes ([coc_framework/core/coc_node.py])

    [CoCNode]: construction with a signature over the canonical signing data,
    the dictionary form, signature verification for both schema versions, the
    parent/child link and [get_all_descendants].  Only [from_dict] builds a
    node without a signing key, and it overwrites the hash at once, so
    [node_hash] is always text here.  The current time is an argument. *)

From Stdlib Require Import ZArith Lia Ascii String.
From stdpp Require Import pretty.
From S2P Require Import Prelude PyData DateTime Crypto.

Definition NODE_SCHEMA_VERSION : Z := 2.
Definition SIG_DELIMITER : ascii := "|".

Record CoCNode := mkNode {
  schema_version : Z;
  content_hash : string;
  parent_hash : option string;
  owner_id : string;
  recipient_ids : list string;
  timestamp : string;
  children_hashes : gset string;
  depth : Z;
  signature : option bytes;
  node_hash : string;
}.

#[global] Instance CoCNode_eq_dec : EqDecision CoCNode.
Proof. solve_decision. Defined.

(** [x or ""] for an optional text. *)
Definition or_empty (o : option string) : string := default "" o.

Definition get_signing_data (n : CoCNode) : string :=
  join_with SIG_DELIMITER
    [pretty n.(schema_version); n.(content_hash); or_empty n.(parent_hash); n.(owner_id);
     join_with "," n.(recipient_ids); n.(timestamp)].

(** The format of schema version 1: no version, no delimiters. *)
Definition legacy_signing_data (n : CoCNode) : string :=
  n.(content_hash) +:+ or_empty n.(parent_hash) +:+ n.(owner_id) +:+
  join_with "," n.(recipient_ids) +:+ n.(timestamp).

Section node_code.
Context {C : Crypto}.

(** [CoCNode(content_hash, owner_id, signing_key, recipient_ids, parent_hash)]. *)
Definition new_node (now : Z) (content_hash owner_id : string) (signing_key : bytes)
    (recipient_ids : list string) (parent_hash : option string) (depth : Z) : CoCNode :=
  let unsigned :=
    mkNode NODE_SCHEMA_VERSION content_hash parent_hash owner_id (sorted recipient_ids)
      (isoformat now) ∅ depth None "" in
  let signature := sign_message signing_key (get_signing_data unsigned) in
  mkNode NODE_SCHEMA_VERSION content_hash parent_hash owner_id (sorted recipient_ids)
    (isoformat now) ∅ depth (Some signature)
    (hash_content (hex_of signature +:+ "|" +:+ content_hash)).

Definition verify_node (n : CoCNode) (key : bytes) : bool :=
  match n.(signature) with
  | None | Some [] => false
  | Some sig =>
      let signature_data :=
        if 2 <=? n.(schema_version) then get_signing_data n else legacy_signing_data n in
      verify_signature key signature_data sig
  end.

End node_code.

(** [parent.add_child(child)] updates both objects: the parent's children and
    the child's depth. *)
Definition add_child (parent child : CoCNode) : CoCNode * CoCNode :=
  (mkNode parent.(schema_version) parent.(content_hash) parent.(parent_hash) parent.(owner_id)
     parent.(recipient_ids) parent.(timestamp)
     (parent.(children_hashes) ∪ {[child.(node_hash)]})
     parent.(depth) parent.(signature) parent.(node_hash),
   mkNode child.(schema_version) child.(content_hash) child.(parent_hash) child.(owner_id)
     child.(recipient_ids) child.(timestamp) child.(children_hashes)
     (parent.(depth) + 1) child.(signature) child.(node_hash)).

(** The dictionary form; [None] in an optional field is a missing key. *)
Record NodeDict := mkNodeDict {
  d_schema_version : option Z;
  d_node_hash : option string;
  d_content_hash : option string;
  d_parent_hash : option string;
  d_owner_id : option string;
  d_recipient_ids : option (list string);
  d_timestamp : option string;
  d_children_hashes : option (list string);
  d_depth : option Z;
  d_signature : option string;
}.

Definition to_dict (n : CoCNode) : NodeDict := {|
  d_schema_version := Some n.(schema_version);
  d_node_hash := Some n.(node_hash);
  d_content_hash := Some n.(content_hash);
  d_parent_hash := n.(parent_hash);
  d_owner_id := Some n.(owner_id);
  d_recipient_ids := Some n.(recipient_ids);
  d_timestamp := Some n.(timestamp);
  d_children_hashes := Some (elements n.(children_hashes));
  d_depth := Some n.(depth);
  d_signature := match n.(signature) with
                 | None | Some [] => None
                 | Some sig => Some (hex_of sig)
                 end |}.

Definition from_dict (data : NodeDict) : result CoCNode :=
  content_hash ← from_option_exn KeyError data.(d_content_hash);
  owner_id ← from_option_exn KeyError data.(d_owner_id);
  node_hash ← from_option_exn KeyError data.(d_node_hash);
  signature ← match data.(d_signature) with
              | None | Some ""%string => Ok None
              | Some s => Some <$> fromhex s
              end;
  timestamp ← from_option_exn KeyError data.(d_timestamp);
  Ok (mkNode (default 1 data.(d_schema_version)) content_hash data.(d_parent_hash) owner_id
        (sorted (default [] data.(d_recipient_ids))) timestamp
        (list_to_set (default [] data.(d_children_hashes))) (default 0 data.(d_depth))
        signature node_hash).

(** [get_all_descendants]; [depth] is the number of stack frames available. *)
Fixpoint get_all_descendants (get_node : string → option CoCNode) (frames : nat)
    (self : CoCNode) : result (list CoCNode) :=
  match frames with
  | O => Raise RecursionError
  | S frames =>
      parts ← mapR (λ child_hash,
          match get_node child_hash with
          | Some child => rest ← get_all_descendants get_node frames child; Ok (child :: rest)
          | None => Ok []
          end) (elements self.(children_hashes));
      Ok (concat parts)
  end.

(** ** Well-formed nodes *)

(** What every node built by [new_node] or [from_dict] satisfies. *)
Record wf_node (n : CoCNode) : Prop := {
  wf_recipients : sorted n.(recipient_ids) = n.(recipient_ids);
  wf_signature sig : n.(signature) = Some sig → Forall is_byte sig ∧ sig ≠ [];
}.

Section node_lemmas.
Context {C : Crypto} {L : CryptoLaws C}.

Lemma new_node_wf now ch o sk rs ph d : wf_node (new_node now ch o sk rs ph d).
Proof.
  split; [apply sorted_idemp|]. intros sig [= <-]. split; [apply sign_bytes|apply sign_nonempty].
Qed.

Lemma from_dict_to_dict n : wf_node n → from_dict (to_dict n) = Ok n.
Proof.
  intros [Hr Hs]. unfold from_dict, to_dict. cbn -[sorted elements].
  assert (match match signature n with None | Some [] => None | Some sig => Some (hex_of sig) end with
    | None | Some ""%string => Ok None | Some s => Some <$> fromhex s end = Ok (signature n)) as Hsig.
  { destruct (signature n) as [[|b sig]|] eqn:E; [by destruct (Hs [] eq_refl)| |done].
    destruct (Hs _ eq_refl) as [Hb Hne]. destruct (hex_of (b :: sig)) eqn:Eh;
      [by destruct (hex_of_nonempty _ Hne)|]. by rewrite <-Eh, fromhex_hex_of. }
  rewrite Hsig. cbn -[sorted elements list_to_set]. rewrite Hr, list_to_set_elements_L. by destruct n.
Qed.

Lemma verify_node_new now ch o sk rs ph d :
  verify_node (new_node now ch o sk rs ph d) (verify_key sk) = true.
Proof.
  unfold verify_node, new_node. cbn [signature schema_version].
  match goal with |- context [sign_message sk ?m] => set (data := m) end.
  pose proof (verify_sign sk data). pose proof (sign_nonempty sk data).
  by destruct (sign_message sk data).
Qed.

Lemma add_child_wf p c : wf_node p → wf_node c →
  wf_node (add_child p c).1 ∧ wf_node (add_child p c).2.
Proof. intros [??] [??]. split; constructor; simpl; auto. Qed.

(** Adding a child changes neither the signed fields nor the hashes, so
    signatures stay valid. *)
Lemma add_child_verify p c key :
  verify_node (add_child p c).1 key = verify_node p key ∧
  verify_node (add_child p c).2 key = verify_node c key.
Proof. done. Qed.
End node_lemmas.

(** ** What a signature binds *)

(** The fields that go into the signing data can be told apart when none of
    them contains a delimiter. *)
Record delimiter_free (n : CoCNode) : Prop := {
  df_content : no_char SIG_DELIMITER n.(content_hash);
  df_parent : ∀ h, n.(parent_hash) = Some h → no_char SIG_DELIMITER h ∧ h ≠ "";
  df_owner : no_char SIG_DELIMITER n.(owner_id);
  df_recipients : Forall (λ r, no_char SIG_DELIMITER r ∧ no_char "," r) n.(recipient_ids);
  df_some_recipient : n.(recipient_ids) ≠ [];
  df_timestamp : no_char SIG_DELIMITER n.(timestamp);
}.

Lemma join_with_no_char c sep parts :
  c ≠ sep → Forall (no_char c) parts → no_char c (join_with sep parts).
Proof.
  intros Hne Hp. unfold no_char. rewrite str_join_with.
  induction Hp as [|p parts Hp Hps IH]; [by apply not_elem_of_nil|].
  destruct parts as [|q parts]; [done|]. csimpl.
  change (join ?s (?x :: ?y :: ?l)) with (x ++ s :: join s (y :: l)).
  rewrite not_elem_of_app, not_elem_of_cons. split; [done|]. split; [|done].
  intros Heq. apply Hne. apply N2Z.inj in Heq.
  by rewrite <-(ascii_N_embedding c), Heq, ascii_N_embedding.
Qed.

Lemma signing_fields_no_bar n : delimiter_free n →
  Forall (no_char SIG_DELIMITER)
    [pretty n.(schema_version); n.(content_hash); or_empty n.(parent_hash); n.(owner_id);
     join_with "," n.(recipient_ids); n.(timestamp)].
Proof.
  intros [Hc Hp Ho Hr _ Ht]. repeat constructor; try done.
  - apply pretty_Z_no_char. right. reflexivity.
  - destruct (parent_hash n) as [h|]; [by apply Hp|]. by apply not_elem_of_nil.
  - apply join_with_no_char; [done|]. eapply Forall_impl; [exact Hr|]. by intros r [? _].
Qed.

#[global] Instance pretty_Z_injective : Inj (=) (=) (pretty : Z → string) := _.

(** Signing data determines the signed fields. *)
Lemma get_signing_data_inj n n' :
  delimiter_free n → delimiter_free n' → get_signing_data n = get_signing_data n' →
  n.(schema_version) = n'.(schema_version) ∧ n.(content_hash) = n'.(content_hash) ∧
  n.(parent_hash) = n'.(parent_hash) ∧ n.(owner_id) = n'.(owner_id) ∧
  n.(recipient_ids) = n'.(recipient_ids) ∧ n.(timestamp) = n'.(timestamp).
Proof.
  intros Hn Hn' Heq.
  apply join_with_inj in Heq; [|done|done|by apply signing_fields_no_bar..].
  destruct Hn as [_ Hp _ Hr Hne _], Hn' as [_ Hp' _ Hr' Hne' _].
  injection Heq as Hv Hc Hpar Ho Hrec Ht. apply (inj pretty) in Hv.
  apply join_with_inj in Hrec; [|done|done|eapply Forall_impl; [eassumption|by intros ? [_ ?]]..].
  repeat split; try done.
  destruct (parent_hash n) as [h|], (parent_hash n') as [h'|]; simpl in Hpar; try congruence.
  - by destruct (Hp h eq_refl) as [_ ?].
  - symmetry in Hpar. by destruct (Hp' h' eq_refl) as [_ ?].
Qed.

(** ** Descendants *)

Section descendants.
Context (get_node : string → option CoCNode).

Definition child_of (n c : CoCNode) : Prop :=
  ∃ h, h ∈ n.(children_hashes) ∧ get_node h = Some c.

Inductive descendant_of : CoCNode → CoCNode → Prop :=
  | descendant_child n c : child_of n c → descendant_of n c
  | descendant_step n c m : child_of n c → descendant_of c m → descendant_of n m.

Context (rank : CoCNode → nat) (Hrank : ∀ n c, child_of n c → (rank c < rank n)%nat).

Lemma get_all_descendants_spec frames n :
  (rank n < frames)%nat →
  ∃ l, get_all_descendants get_node frames n = Ok l ∧ ∀ m, m ∈ l ↔ descendant_of n m.
Proof.
  revert n; induction frames as [|frames IH]; intros n Hf; [lia|]. cbn [get_all_descendants].
  set (body := λ child_hash, match get_node child_hash with
    | Some child => rest ← get_all_descendants get_node frames child; Ok (child :: rest)
    | None => Ok [] end).
  assert (∀ h, h ∈ n.(children_hashes) → ∃ part, body h = Ok part ∧
    ∀ m, m ∈ part ↔ ∃ c, get_node h = Some c ∧ (m = c ∨ descendant_of c m)) as Hbody.
  { intros h Hh. unfold body. destruct (get_node h) as [c|] eqn:Hc.
    - destruct (IH c) as (l & -> & Hl).
      { enough (rank c < rank n)%nat by lia. apply Hrank. by exists h. }
      eexists; split; [done|]. intros m. rewrite elem_of_cons, Hl. naive_solver.
    - exists []. split; [done|]. intros m. rewrite elem_of_nil. naive_solver. }
  assert (∀ hs, (∀ h, h ∈ hs → h ∈ n.(children_hashes)) → ∃ parts, mapR body hs = Ok parts ∧
    ∀ m, m ∈ concat parts ↔ ∃ h c, h ∈ hs ∧ get_node h = Some c ∧ (m = c ∨ descendant_of c m)) as Hmap.
  { induction hs as [|h hs IHhs]; intros Hsub; cbn [mapR].
    - exists []. split; [done|]. intros m. simpl. rewrite elem_of_nil. set_solver.
    - destruct (Hbody h) as (part & -> & Hpart); [set_solver|].
      destruct IHhs as (parts & -> & Hparts); [set_solver|].
      eexists; split; [done|]. intros m. simpl. rewrite elem_of_app, Hpart, Hparts. set_solver. }
  destruct (Hmap (elements n.(children_hashes))) as (parts & -> & Hparts).
  { intros h. by rewrite elem_of_elements. }
  eexists; split; [done|]. intros m. rewrite Hparts. setoid_rewrite elem_of_elements. split.
  - intros (h & c & Hh & Hc & [->|Hd]); [apply descendant_child|apply descendant_step with c];
      try done; by exists h.
  - intros [n' c (h & Hh & Hc)|n' c m' (h & Hh & Hc) Hd]; eauto 10.
Qed.
End descendants.

(** ** Properties *)

(** C7: a node built and signed by its owner survives the dictionary form
    unchanged and verifies under the owner's key on the receiving side. *)
Theorem node_dict_roundtrip_verifies {C : Crypto} {L : CryptoLaws C} (now : Z)
    (content_hash owner_id : string) (signing_key : bytes) (recipients : list string)
    (parent_hash : option string) (depth : Z) :
  let n := new_node now content_hash owner_id signing_key recipients parent_hash depth in
  ∃ n', from_dict (to_dict n) = Ok n' ∧ n' = n ∧ verify_node n' (verify_key signing_key) = true.
Proof.
  intros n. exists n. split; [apply from_dict_to_dict, new_node_wf|].
  split; [done|apply verify_node_new].
Qed.

(** The delimited signing data of schema version 2 determines every signed
    field, so one signature cannot stand for two different nodes (fields
    without a delimiter character, at least one recipient). *)
Theorem signing_data_binds_fields (n n' : CoCNode) :
  delimiter_free n → delimiter_free n' → get_signing_data n = get_signing_data n' →
  n.(schema_version) = n'.(schema_version) ∧ n.(content_hash) = n'.(content_hash) ∧
  n.(parent_hash) = n'.(parent_hash) ∧ n.(owner_id) = n'.(owner_id) ∧
  n.(recipient_ids) = n'.(recipient_ids) ∧ n.(timestamp) = n'.(timestamp).
Proof. apply get_signing_data_inj. Qed.

(** C8: on a store whose child links are acyclic (some rank decreases along
    them) [get_all_descendants] terminates within rank + 1 stack frames and
    returns exactly the transitive children present in the store. *)
Theorem get_all_descendants_correct (get_node : string → option CoCNode)
    (rank : CoCNode → nat) (n : CoCNode) :
  (∀ n c, child_of get_node n c → (rank c < rank n)%nat) →
  ∃ l, get_all_descendants get_node (S (rank n)) n = Ok l ∧
    ∀ m, m ∈ l ↔ descendant_of get_node n m.
Proof. intros Hrank. apply (get_all_descendants_spec _ rank Hrank). lia. Qed.

Definition toy_node (name : string) (children : list string) : CoCNode :=
  mkNode 2 "c" None "ann" ["bob"] "t" (list_to_set children) 0 (Some [7; 1]) name.

Lemma signing_data_binds_fields_witness :
  delimiter_free (toy_node "x" []) ∧ (toy_node "x" []).(owner_id) = (toy_node "y" []).(owner_id).
Proof.
  assert (∀ s, delimiter_free (toy_node s [])) as Hd.
  { intros s. split; simpl; try (apply (bool_decide_unpack _); vm_compute; exact I); done. }
  split; [apply Hd|].
  apply (signing_data_binds_fields (toy_node "x" []) (toy_node "y" [])); [apply Hd..|reflexivity].
Defined.

Definition toy_tree (h : string) : option CoCNode :=
  if decide (h = "leaf") then Some (toy_node "leaf" []) else None.

Definition toy_rank (n : CoCNode) : nat := if decide (n.(children_hashes) = ∅) then 0 else 1.

Lemma get_all_descendants_correct_witness :
  ∃ l, get_all_descendants toy_tree (S (toy_rank (toy_node "root" ["leaf"; "lost"])))
         (toy_node "root" ["leaf"; "lost"]) = Ok l ∧
    ∀ m, m ∈ l ↔ descendant_of toy_tree (toy_node "root" ["leaf"; "lost"]) m.
Proof.
  apply (get_all_descendants_correct toy_tree toy_rank (toy_node "root" ["leaf"; "lost"])).
  intros n c (h & Hh & Hc). unfold toy_tree in Hc. case_decide; [|done]. injection Hc as <-.
  unfold toy_rank. rewrite decide_True by reflexivity. rewrite decide_False by set_solver. lia.
Defined.

Lemma node_dict_roundtrip_verifies_witness :
  let n := new_node (C := toy_crypto) 0 "c" "ann" [7] ["cyd"; "bob"] None 0 in
  ∃ n', from_dict (to_dict n) = Ok n' ∧ n' = n ∧
    verify_node (C := toy_crypto) n' (verify_key (Crypto := toy_crypto) [7]) = true.
Proof.
  exact (node_dict_roundtrip_verifies (C := toy_crypto) (L := toy_crypto_laws) 0 "c" "ann" [7]
    ["cyd"; "bob"] None 0).
Defined.
