(* ===== verification/Storage.v ===== *)
(** * Storage backends ([coc_framework/interfaces/storage_backend.py])

    [StorageBackend] is the interface: the operations a peer calls, with an
    abstraction function to plain maps and the laws clients rely on.
    [InMemory] (dictionaries plus the reverse index [_content_refs]) and
    [SQLite] (tables of rows holding the dictionary form) implement it; their
    [Instance]s are the refinement theorems.  Times are microseconds, passed
    in as [now]. *)

From Stdlib Require Import ZArith Lia String.
From S2P Require Import Prelude PyData DateTime Crypto CoCNode.

Definition DEFAULT_TOMBSTONE_GRACE_SECONDS : Z := 300.

Record ContentTombstone := mkTombstone {
  ts_content_hash : string;
  ts_deleted_at : string;
  ts_delete_after : string;
  ts_originator_id : string;
  ts_node_hash : string;
}.

(** [is_expired]: text that does not parse counts as expired. *)
Definition is_expired (now : Z) (ts : ContentTombstone) : bool :=
  match fromisoformat ts.(ts_delete_after) with
  | Some expiry => expiry <? now
  | None => true
  end.

(** ** What a backend holds, abstractly *)

Record Store := mkStore {
  s_nodes : gmap string CoCNode;
  s_content : gmap string string;
  s_tombstones : gmap string ContentTombstone;
}.

Definition references (nodes : gmap string CoCNode) (c : string) : Prop :=
  ∃ h n, nodes !! h = Some n ∧ n.(content_hash) = c.

Definition with_nodes (f : gmap string CoCNode → gmap string CoCNode) (s : Store) : Store :=
  mkStore (f s.(s_nodes)) s.(s_content) s.(s_tombstones).
Definition with_content (f : gmap string string → gmap string string) (s : Store) : Store :=
  mkStore s.(s_nodes) (f s.(s_content)) s.(s_tombstones).
Definition with_tombstones
    (f : gmap string ContentTombstone → gmap string ContentTombstone) (s : Store) : Store :=
  mkStore s.(s_nodes) s.(s_content) (f s.(s_tombstones)).

Definition with_depth (d : Z) (n : CoCNode) : CoCNode :=
  mkNode n.(schema_version) n.(content_hash) n.(parent_hash) n.(owner_id) n.(recipient_ids)
    n.(timestamp) n.(children_hashes) d n.(signature) n.(node_hash).

Lemma with_depth_wf d n : wf_node n → wf_node (with_depth d n).
Proof. by intros [??]. Qed.

(** ** The interface *)

Class StorageBackend (S : Type) := {
  add_node : Z → CoCNode → S → S;
  get_node : string → S → result (option CoCNode);
  remove_node : string → S → S;
  add_content : Z → string → string → S → S;
  get_content : string → S → option string;
  remove_content : string → S → S;
  is_content_referenced : string → S → bool;
  add_tombstone : ContentTombstone → S → S;
  get_tombstone : Z → string → S → option ContentTombstone * S;
  cleanup_expired_tombstones : Z → S → Z * S;
  (** What assigning [depth] on a node object that was passed to [add_node]
      does to the store: visible where the store keeps the object itself. *)
  alias_depth : string → Z → S → S;
}.

(** A tombstone written by the framework: its expiry is the text of a
    date-time. *)
Definition canonical_tombstone (ts : ContentTombstone) : Prop :=
  ∃ t, 0 ≤ t < max_datetime ∧ ts.(ts_delete_after) = isoformat t.

Class StorageSpec (S : Type) `{StorageBackend S} := {
  store : S → Store;
  storage_inv : S → Prop;
  add_node_ok now n s : storage_inv s → wf_node n →
    storage_inv (add_node now n s) ∧
    store (add_node now n s) = with_nodes (<[n.(node_hash) := n]>) (store s);
  get_node_ok h s : storage_inv s → get_node h s = Ok ((store s).(s_nodes) !! h);
  remove_node_ok h s : storage_inv s →
    storage_inv (remove_node h s) ∧ store (remove_node h s) = with_nodes (delete h) (store s);
  add_content_ok now c txt s : storage_inv s →
    storage_inv (add_content now c txt s) ∧
    store (add_content now c txt s) = with_content (<[c := txt]>) (store s);
  get_content_ok c s : storage_inv s → get_content c s = (store s).(s_content) !! c;
  remove_content_ok c s : storage_inv s →
    storage_inv (remove_content c s) ∧
    store (remove_content c s) = with_content (delete c) (store s);
  is_content_referenced_ok c s : storage_inv s →
    is_content_referenced c s = true ↔ references (store s).(s_nodes) c;
  add_tombstone_ok ts s : storage_inv s → canonical_tombstone ts →
    storage_inv (add_tombstone ts s) ∧
    store (add_tombstone ts s) = with_tombstones (<[ts.(ts_content_hash) := ts]>) (store s);
  get_tombstone_ok now c s : storage_inv s →
    storage_inv (get_tombstone now c s).2 ∧
    match (store s).(s_tombstones) !! c with
    | Some ts =>
        if is_expired now ts
        then get_tombstone now c s = (None, (get_tombstone now c s).2) ∧
             store (get_tombstone now c s).2 = with_tombstones (delete c) (store s)
        else get_tombstone now c s = (Some ts, s)
    | None => get_tombstone now c s = (None, s)
    end;
  cleanup_ok now s : storage_inv s → 0 ≤ now < max_datetime →
    let '(count, s') := cleanup_expired_tombstones now s in
    storage_inv s' ∧
    store s' = with_tombstones (filter (λ cts, is_expired now cts.2 = false)) (store s) ∧
    count = Z.of_nat (size (filter (λ cts, is_expired now cts.2 = true) (store s).(s_tombstones)));
  alias_depth_ok h d s : storage_inv s →
    storage_inv (alias_depth h d s) ∧
    (store (alias_depth h d s) = store s ∨
     store (alias_depth h d s) = with_nodes (alter (with_depth d) h) (store s));
  stored_node_wf h n s : storage_inv s → (store s).(s_nodes) !! h = Some n →
    wf_node n ∧ n.(node_hash) = h;
}.

(** [is_tombstoned] is the same in both backends. *)
Definition is_tombstoned {St : Type} `{StorageBackend St} (now : Z) (c : string) (s : St)
    : bool * St :=
  let '(ts, s) := get_tombstone now c s in (bool_decide (is_Some ts), s).

Lemma size_filter {A} (P : string * A → Prop) `{∀ x, Decision (P x)} (m : gmap string A) :
  size (filter P m) = length (filter P (map_to_list m)).
Proof.
  rewrite map_filter_alt, map_size_list_to_map; [done|].
  eapply sublist_NoDup; [apply (NoDup_fst_map_to_list m)|]. apply fmap_sublist, sublist_filter.
Qed.

(** ** [InMemoryStorage] *)

Module InMemory.

Record storage := mk {
  nodes : gmap string CoCNode;
  content : gmap string string;
  content_refs : gmap string (gset string);
  tombstones : gmap string ContentTombstone;
}.

Definition init : storage := mk ∅ ∅ ∅ ∅.

(** Drop [h] from the index entry of [c], and the entry when it empties. *)
Definition discard_ref (c h : string) (refs : gmap string (gset string))
    : gmap string (gset string) :=
  match refs !! c with
  | Some hs =>
      let hs := hs ∖ {[h]} in
      if decide (hs = ∅) then delete c refs else <[c := hs]> refs
  | None => refs
  end.

Definition add_ref (c h : string) (refs : gmap string (gset string))
    : gmap string (gset string) :=
  <[c := default ∅ (refs !! c) ∪ {[h]}]> refs.

Definition add_node (n : CoCNode) (s : storage) : storage :=
  let refs :=
    match s.(nodes) !! n.(node_hash) with
    | Some old_node => discard_ref old_node.(content_hash) n.(node_hash) s.(content_refs)
    | None => s.(content_refs)
    end in
  mk (<[n.(node_hash) := n]> s.(nodes)) s.(content)
     (add_ref n.(content_hash) n.(node_hash) refs) s.(tombstones).

Definition get_node (h : string) (s : storage) : option CoCNode := s.(nodes) !! h.

Definition remove_node (h : string) (s : storage) : storage :=
  match s.(nodes) !! h with
  | Some node =>
      mk (delete h s.(nodes)) s.(content)
         (discard_ref node.(content_hash) h s.(content_refs)) s.(tombstones)
  | None => s
  end.

Definition get_all_nodes (s : storage) : list CoCNode := (map_to_list s.(nodes)).*2.

Definition add_content (c txt : string) (s : storage) : storage :=
  mk s.(nodes) (<[c := txt]> s.(content)) s.(content_refs) s.(tombstones).

Definition get_content (c : string) (s : storage) : option string := s.(content) !! c.

Definition remove_content (c : string) (s : storage) : storage :=
  mk s.(nodes) (delete c s.(content)) s.(content_refs) s.(tombstones).

Definition is_content_referenced (c : string) (s : storage) : bool :=
  match s.(content_refs) !! c with
  | Some hs => 0 <? Z.of_nat (size hs)
  | None => false
  end.

Definition get_nodes_by_content (c : string) (s : storage) : list CoCNode :=
  match s.(content_refs) !! c with
  | Some hs => omap (λ h, s.(nodes) !! h) (elements hs)
  | None => []
  end.

Definition add_tombstone (ts : ContentTombstone) (s : storage) : storage :=
  mk s.(nodes) s.(content) s.(content_refs) (<[ts.(ts_content_hash) := ts]> s.(tombstones)).

Definition get_tombstone (now : Z) (c : string) (s : storage) : option ContentTombstone * storage :=
  match s.(tombstones) !! c with
  | Some ts =>
      if is_expired now ts
      then (None, mk s.(nodes) s.(content) s.(content_refs) (delete c s.(tombstones)))
      else (Some ts, s)
  | None => (None, s)
  end.

Definition cleanup_expired_tombstones (now : Z) (s : storage) : Z * storage :=
  let expired := (filter (λ cts, is_expired now cts.2 = true) (map_to_list s.(tombstones))).*1 in
  (Z.of_nat (length expired),
   mk s.(nodes) s.(content) s.(content_refs) (foldr delete s.(tombstones) expired)).

Definition get_all_tombstones (now : Z) (s : storage) : list ContentTombstone * storage :=
  let '(_, s) := cleanup_expired_tombstones now s in ((map_to_list s.(tombstones)).*2, s).

(** The dictionary holds the node object itself, so its depth changes too. *)
Definition alias_depth (h : string) (d : Z) (s : storage) : storage :=
  mk (alter (with_depth d) h s.(nodes)) s.(content) s.(content_refs) s.(tombstones).

(** The reverse index lists exactly the stored nodes of each content, and
    keeps no empty entry. *)
Record inv (s : storage) : Prop := {
  inv_index c h : h ∈ default ∅ (s.(content_refs) !! c) ↔
    ∃ n, s.(nodes) !! h = Some n ∧ n.(content_hash) = c;
  inv_nonempty c : s.(content_refs) !! c ≠ Some ∅;
  inv_nodes h n : s.(nodes) !! h = Some n → wf_node n ∧ n.(node_hash) = h;
}.

Lemma discard_ref_spec refs c h c' h' :
  h' ∈ default ∅ (discard_ref c h refs !! c') ↔
  h' ∈ default ∅ (refs !! c') ∧ ¬ (c' = c ∧ h' = h).
Proof.
  unfold discard_ref. destruct (refs !! c) as [hs|] eqn:Hc.
  - destruct (decide (c' = c)) as [->|Hne].
    + rewrite Hc. case_decide as He; [rewrite lookup_delete_eq|rewrite lookup_insert_eq]; simpl; set_solver.
    + case_decide; [rewrite lookup_delete_ne by done|rewrite lookup_insert_ne by done]; naive_solver.
  - split; [|naive_solver]. intros Hin. split; [done|]. intros [-> ->]. by rewrite Hc in Hin.
Qed.

Lemma discard_ref_nonempty refs c h :
  (∀ c', refs !! c' ≠ Some ∅) → ∀ c', discard_ref c h refs !! c' ≠ Some ∅.
Proof.
  intros Hne c'. unfold discard_ref. destruct (refs !! c) as [hs|]; [|done].
  case_decide; destruct (decide (c' = c)) as [->|]; simplify_map_eq; naive_solver.
Qed.

Lemma add_ref_spec refs c h c' h' :
  h' ∈ default ∅ (add_ref c h refs !! c') ↔ h' ∈ default ∅ (refs !! c') ∨ (c' = c ∧ h' = h).
Proof.
  unfold add_ref. destruct (decide (c' = c)) as [->|]; simplify_map_eq; [|naive_solver].
  set_solver.
Qed.

Lemma add_ref_nonempty refs c h :
  (∀ c', refs !! c' ≠ Some ∅) → ∀ c', add_ref c h refs !! c' ≠ Some ∅.
Proof.
  intros Hne c'. unfold add_ref. destruct (decide (c' = c)) as [->|]; simplify_map_eq; [|done].
  intros [= He]. set_solver.
Qed.

Lemma add_node_inv n s : inv s → wf_node n → inv (add_node n s).
Proof.
  intros [Hidx Hne Hn] Hwf. unfold add_node. split; cbn.
  - intros c h. rewrite add_ref_spec.
    destruct (nodes s !! node_hash n) as [old|] eqn:Hold; [rewrite discard_ref_spec|]; rewrite Hidx;
      (destruct (decide (h = node_hash n)) as [->|]; simplify_map_eq; naive_solver).
  - intros c. apply add_ref_nonempty. destruct (nodes s !! node_hash n); [by apply discard_ref_nonempty|done].
  - intros h m. destruct (decide (h = node_hash n)) as [->|]; simplify_map_eq; naive_solver.
Qed.

Lemma remove_node_inv h s : inv s → inv (remove_node h s).
Proof.
  intros [Hidx Hne Hn]. unfold remove_node. destruct (nodes s !! h) as [n|] eqn:Hh; [|by split].
  split; cbn.
  - intros c h'. rewrite discard_ref_spec, Hidx.
    destruct (decide (h' = h)) as [->|]; simplify_map_eq; naive_solver.
  - by apply discard_ref_nonempty.
  - intros h' m. rewrite lookup_delete_Some. naive_solver.
Qed.

Lemma alias_depth_inv h d s : inv s → inv (alias_depth h d s).
Proof.
  intros [Hidx Hne Hn]. split; cbn; [|done|].
  - intros c h'. rewrite Hidx. destruct (decide (h' = h)) as [->|].
    + rewrite lookup_alter_eq. destruct (nodes s !! h); cbn; naive_solver.
    + by rewrite lookup_alter_ne.
  - intros h' n. rewrite lookup_alter_Some. intros [(-> & n' & Hn' & ->)|[_ Hl]]; [|by apply Hn].
    destruct (Hn _ _ Hn'). split; [by apply with_depth_wf|done].
Qed.

(** Only the index and the nodes matter to the invariant. *)
Lemma inv_frame s content' tombs' :
  inv s → inv (mk s.(nodes) content' s.(content_refs) tombs').
Proof. by intros [???]. Qed.

Lemma is_content_referenced_spec c s :
  inv s → is_content_referenced c s = true ↔ references s.(nodes) c.
Proof.
  intros [Hidx Hne _]. unfold is_content_referenced, references. specialize (Hidx c).
  destruct (content_refs s !! c) as [hs|] eqn:Hc; simpl in *.
  - assert (hs ≠ ∅) as Hhs by (intros ->; by apply (Hne c)).
    apply set_choose_L in Hhs as [h Hh]. split; [naive_solver|]. intros _.
    apply Z.ltb_lt. assert (size hs ≠ 0%nat); [|lia]. intros Hz%size_empty_inv. set_solver.
  - split; [done|]. intros (h & n & Hn & Hcn). exfalso. assert (h ∈ (∅ : gset string)); [|set_solver].
    apply Hidx. eauto.
Qed.

Lemma get_nodes_by_content_spec c s n :
  inv s → n ∈ get_nodes_by_content c s ↔ ∃ h, s.(nodes) !! h = Some n ∧ n.(content_hash) = c.
Proof.
  intros [Hidx _ _]. unfold get_nodes_by_content. specialize (Hidx c).
  destruct (content_refs s !! c) as [hs|]; simpl in *.
  - rewrite list_elem_of_omap. setoid_rewrite elem_of_elements. setoid_rewrite Hidx. naive_solver.
  - rewrite elem_of_nil. split; [done|]. intros (h & Hn & Hc). assert (h ∈ (∅ : gset string)); [|set_solver].
    apply Hidx. eauto.
Qed.

Lemma cleanup_spec now s :
  cleanup_expired_tombstones now s =
  (Z.of_nat (size (filter (λ cts, is_expired now cts.2 = true) s.(tombstones))),
   mk s.(nodes) s.(content) s.(content_refs)
     (filter (λ cts, is_expired now cts.2 = false) s.(tombstones))).
Proof.
  unfold cleanup_expired_tombstones. f_equal; [|f_equal].
  - by rewrite size_filter, length_fmap.
  - apply map_eq. intros c. apply option_eq. intros ts.
    rewrite lookup_foldr_delete_Some, map_lookup_filter_Some, list_elem_of_fmap. simpl.
    setoid_rewrite list_elem_of_filter. split.
    + intros [Hn Hl]. split; [done|]. apply not_true_is_false. intros He. apply Hn.
      exists (c, ts). split; [done|]. by rewrite elem_of_map_to_list.
    + intros [Hl He]. split; [|done]. intros ([c' ts'] & -> & He' & Hl'%elem_of_map_to_list).
      simpl in *. congruence.
Qed.

#[global] Instance backend : StorageBackend storage := {|
  Storage.add_node _ := add_node;
  Storage.get_node h s := Ok (get_node h s);
  Storage.remove_node := remove_node;
  Storage.add_content _ := add_content;
  Storage.get_content := get_content;
  Storage.remove_content := remove_content;
  Storage.is_content_referenced := is_content_referenced;
  Storage.add_tombstone := add_tombstone;
  Storage.get_tombstone := get_tombstone;
  Storage.cleanup_expired_tombstones := cleanup_expired_tombstones;
  Storage.alias_depth := alias_depth;
|}.

Definition abs (s : storage) : Store := mkStore s.(nodes) s.(content) s.(tombstones).

#[global] Instance spec : StorageSpec storage.
Proof.
  refine {| store := abs; storage_inv := inv |};
    cbn [Storage.add_node Storage.get_node Storage.remove_node Storage.add_content
      Storage.get_content Storage.remove_content Storage.is_content_referenced
      Storage.add_tombstone Storage.get_tombstone Storage.cleanup_expired_tombstones Storage.alias_depth backend].
  - intros now n s Hs Hn. split; [by apply add_node_inv|done].
  - done.
  - intros h s Hs. split; [by apply remove_node_inv|]. unfold remove_node, abs, with_nodes.
    destruct (nodes s !! h) eqn:E; cbn; [done|]. by rewrite delete_id.
  - intros now c txt s Hs. split; [by apply inv_frame|done].
  - done.
  - intros c s Hs. split; [by apply inv_frame|done].
  - intros c s Hs. by apply is_content_referenced_spec.
  - intros ts s Hs _. split; [by apply inv_frame|done].
  - intros now c s Hs. unfold get_tombstone. cbn [abs s_tombstones].
    destruct (tombstones s !! c) as [ts|]; [|done].
    destruct (is_expired now ts); cbn; [|done]. split; [by apply inv_frame|done].
  - intros now s Hs _. rewrite cleanup_spec. split; [by apply inv_frame|done].
  - intros h d s Hs. split; [by apply alias_depth_inv|by right].
  - intros h n s [_ _ Hn]. apply Hn.
Defined.

End InMemory.

(** ** [SQLiteStorage]

    One map per table, keyed by the primary key ([INSERT OR REPLACE] is
    insertion).  The [data] column holds the JSON text of the dictionary form;
    [json.loads] after [json.dumps] is the identity, so the column is modelled
    by the dictionary itself. *)

Module SQLite.

Record node_row := mkNodeRow {
  r_content_hash : string;
  r_owner_id : string;
  r_data : NodeDict;
  r_created_at : string;
}.

Record tombstone_row := mkTombRow {
  r_tombstone : ContentTombstone;
  r_delete_after : string;
}.

Record storage := mk {
  nodes : gmap string node_row;
  content : gmap string (string * string);   (* content, created_at *)
  tombstones : gmap string tombstone_row;
}.

Definition init : storage := mk ∅ ∅ ∅.

Definition add_node (now : Z) (n : CoCNode) (s : storage) : storage :=
  mk (<[n.(node_hash) := mkNodeRow n.(content_hash) n.(owner_id) (to_dict n) (isoformat now)]>
        s.(nodes)) s.(content) s.(tombstones).

Definition get_node (h : string) (s : storage) : result (option CoCNode) :=
  match s.(nodes) !! h with
  | Some row => Some <$> from_dict row.(r_data)
  | None => Ok None
  end.

Definition remove_node (h : string) (s : storage) : storage :=
  mk (delete h s.(nodes)) s.(content) s.(tombstones).

Definition get_all_nodes (s : storage) : result (list CoCNode) :=
  mapR (λ hr, from_dict hr.2.(r_data)) (map_to_list s.(nodes)).

Definition add_content (now : Z) (c txt : string) (s : storage) : storage :=
  mk s.(nodes) (<[c := (txt, isoformat now)]> s.(content)) s.(tombstones).

Definition get_content (c : string) (s : storage) : option string := fst <$> s.(content) !! c.

Definition remove_content (c : string) (s : storage) : storage :=
  mk s.(nodes) (delete c s.(content)) s.(tombstones).

(** [SELECT data FROM nodes WHERE <column> = ?]. *)
Definition select_nodes (column : node_row → string) (v : string) (s : storage) : list node_row :=
  filter (λ r, column r = v) (map_to_list s.(nodes)).*2.

Definition is_content_referenced (c : string) (s : storage) : bool :=
  bool_decide (select_nodes r_content_hash c s ≠ []).

Definition get_nodes_by_content (c : string) (s : storage) : result (list CoCNode) :=
  mapR (λ r, from_dict r.(r_data)) (select_nodes r_content_hash c s).

Definition get_nodes_by_owner (o : string) (s : storage) : result (list CoCNode) :=
  mapR (λ r, from_dict r.(r_data)) (select_nodes r_owner_id o s).

Definition add_tombstone (ts : ContentTombstone) (s : storage) : storage :=
  mk s.(nodes) s.(content)
     (<[ts.(ts_content_hash) := mkTombRow ts ts.(ts_delete_after)]> s.(tombstones)).

Definition get_tombstone (now : Z) (c : string) (s : storage) : option ContentTombstone * storage :=
  match s.(tombstones) !! c with
  | Some row =>
      if is_expired now row.(r_tombstone)
      then (None, mk s.(nodes) s.(content) (delete c s.(tombstones)))
      else (Some row.(r_tombstone), s)
  | None => (None, s)
  end.

(** [WHERE delete_after < ?]: a comparison of texts, not of date-times. *)
Definition text_expired (now : Z) (row : tombstone_row) : bool :=
  lex_lt (str row.(r_delete_after)) (str (isoformat now)).

Definition cleanup_expired_tombstones (now : Z) (s : storage) : Z * storage :=
  (Z.of_nat (size (filter (λ cr, text_expired now cr.2 = true) s.(tombstones))),
   mk s.(nodes) s.(content) (filter (λ cr, text_expired now cr.2 = false) s.(tombstones))).

Definition get_all_tombstones (now : Z) (s : storage) : list ContentTombstone * storage :=
  let '(_, s) := cleanup_expired_tombstones now s in
  (r_tombstone <$> (map_to_list s.(tombstones)).*2, s).

(** Every row is the image of a well-formed node or a canonical tombstone. *)
Record inv (s : storage) : Prop := {
  inv_nodes h r : s.(nodes) !! h = Some r →
    ∃ n, wf_node n ∧ n.(node_hash) = h ∧ r.(r_data) = to_dict n ∧
      r.(r_content_hash) = n.(content_hash) ∧ r.(r_owner_id) = n.(owner_id);
  inv_tombstones c r : s.(tombstones) !! c = Some r →
    r.(r_delete_after) = r.(r_tombstone).(ts_delete_after) ∧ canonical_tombstone r.(r_tombstone);
}.

Definition decode (r : node_row) : option CoCNode :=
  match from_dict r.(r_data) with Ok n => Some n | Raise _ => None end.

Definition abs (s : storage) : Store :=
  mkStore (omap decode s.(nodes)) (fst <$> s.(content)) (r_tombstone <$> s.(tombstones)).

Lemma row_decode s h r : inv s → s.(nodes) !! h = Some r →
  ∃ n, from_dict r.(r_data) = Ok n ∧ decode r = Some n ∧ wf_node n ∧ n.(node_hash) = h ∧
    r.(r_content_hash) = n.(content_hash).
Proof.
  intros [Hn _] (n & Hwf & Hh & Hd & Hc & _)%Hn. exists n. unfold decode.
  rewrite Hd, from_dict_to_dict by done. done.
Qed.

(** Comparing the texts is comparing the date-times, because [isoformat] is
    strictly increasing. *)
Lemma text_expired_is_expired now s c r :
  inv s → 0 ≤ now < max_datetime → s.(tombstones) !! c = Some r →
  text_expired now r = is_expired now r.(r_tombstone).
Proof.
  intros [_ Ht] Hnow (Hd & t & Hr & Hts)%Ht. unfold text_expired, is_expired.
  rewrite Hd, Hts, fromisoformat_isoformat by done. unfold isoformat.
  rewrite !str_pystring by (eapply Forall_impl; [by apply iso_codes_range|]; simpl; lia).
  by apply iso_codes_lt.
Qed.

Lemma inv_content_frame s content' : inv s → inv (mk s.(nodes) content' s.(tombstones)).
Proof. by intros [??]. Qed.

Lemma inv_filter s (P : string * tombstone_row → Prop) `{∀ x, Decision (P x)} :
  inv s → inv (mk s.(nodes) s.(content) (filter P s.(tombstones))).
Proof. intros [Hn Ht]. split; [done|]. cbn. intros c r [Hl _]%map_lookup_filter_Some. by apply Ht with c. Qed.

Lemma select_referenced_spec c s :
  inv s → is_content_referenced c s = true ↔ references (omap decode s.(nodes)) c.
Proof.
  intros Hs. unfold is_content_referenced, references. rewrite bool_decide_eq_true. split.
  - intros Hne. destruct (select_nodes r_content_hash c s) as [|r l] eqn:E; [done|].
    assert (r ∈ select_nodes r_content_hash c s) as Hr by (rewrite E; set_solver).
    unfold select_nodes in Hr. apply list_elem_of_filter in Hr as [Hc Hr].
    apply list_elem_of_fmap in Hr as ([h r'] & -> & Hl%elem_of_map_to_list). simpl in *.
    destruct (row_decode _ _ _ Hs Hl) as (n & _ & Hd & _ & _ & Hc'). exists h, n.
    rewrite lookup_omap, Hl. simpl. split; [done|congruence].
  - intros (h & n & Hl & Hc). rewrite lookup_omap in Hl.
    destruct (nodes s !! h) as [r|] eqn:Hr; [|done]. simpl in Hl.
    destruct (row_decode _ _ _ Hs Hr) as (n' & _ & Hd & _ & _ & Hc'). rewrite Hd in Hl. injection Hl as ->.
    intros E. assert (r ∈ select_nodes r_content_hash c s) as Hin; [|rewrite E in Hin; set_solver].
    unfold select_nodes. apply list_elem_of_filter. split; [congruence|].
    apply list_elem_of_fmap. exists (h, r). by rewrite elem_of_map_to_list.
Qed.

Lemma cleanup_filter now s b : inv s → 0 ≤ now < max_datetime →
  r_tombstone <$> filter (λ cr, text_expired now cr.2 = b) s.(tombstones)
  = filter (λ cts, is_expired now cts.2 = b) (r_tombstone <$> s.(tombstones)).
Proof.
  intros Hs Hnow. apply map_eq. intros c. apply option_eq. intros ts.
  rewrite lookup_fmap, map_lookup_filter_Some, lookup_fmap, !fmap_Some.
  setoid_rewrite map_lookup_filter_Some. simpl. split.
  - intros (r & [Hl He] & ->). split; [by exists r|]. by erewrite <-text_expired_is_expired.
  - intros [(r & Hl & ->) He]. exists r. split; [|done]. split; [done|]. by erewrite text_expired_is_expired.
Qed.

#[global] Instance backend : StorageBackend storage := {|
  Storage.add_node := add_node;
  Storage.get_node := get_node;
  Storage.remove_node := remove_node;
  Storage.add_content := add_content;
  Storage.get_content := get_content;
  Storage.remove_content := remove_content;
  Storage.is_content_referenced := is_content_referenced;
  Storage.add_tombstone := add_tombstone;
  Storage.get_tombstone := get_tombstone;
  Storage.cleanup_expired_tombstones := cleanup_expired_tombstones;
  Storage.alias_depth _ _ s := s;
|}.

Lemma add_node_spec now n s : inv s → wf_node n →
  inv (add_node now n s) ∧ abs (add_node now n s) = with_nodes (<[n.(node_hash) := n]>) (abs s).
Proof.
  intros [Hn Ht] Hwf. split.
  - split; [|done]. cbn. intros h r. rewrite lookup_insert_Some. intros [[<- <-]|[_ Hl]]; [|eauto].
    exists n. done.
  - unfold abs, with_nodes, add_node. cbn. f_equal. rewrite (omap_insert_Some _ _ _ _ n); [done|].
    unfold decode. cbn [r_data]. by rewrite from_dict_to_dict.
Qed.

Lemma get_tombstone_spec now c s : inv s →
  inv (get_tombstone now c s).2 ∧
  match (abs s).(s_tombstones) !! c with
  | Some ts =>
      if is_expired now ts
      then get_tombstone now c s = (None, (get_tombstone now c s).2) ∧
           abs (get_tombstone now c s).2 = with_tombstones (delete c) (abs s)
      else get_tombstone now c s = (Some ts, s)
  | None => get_tombstone now c s = (None, s)
  end.
Proof.
  intros Hs. unfold get_tombstone. cbn [abs s_tombstones]. rewrite lookup_fmap.
  destruct (tombstones s !! c) as [r|]; cbn; [|done].
  destruct (is_expired now (r_tombstone r)); cbn; [|done]. split.
  - destruct Hs as [Hn Ht]. split; [done|]. cbn. intros c' r' [_ Hl]%lookup_delete_Some. by apply Ht with c'.
  - split; [done|]. unfold abs, with_tombstones. cbn. by rewrite fmap_delete.
Qed.

#[global] Instance spec : StorageSpec storage.
Proof.
  refine {| store := abs; storage_inv := inv |};
    cbn [Storage.add_node Storage.get_node Storage.remove_node Storage.add_content
      Storage.get_content Storage.remove_content Storage.is_content_referenced
      Storage.add_tombstone Storage.get_tombstone Storage.cleanup_expired_tombstones Storage.alias_depth backend].
  - apply add_node_spec.
  - intros h s Hs. unfold get_node, abs. cbn. rewrite lookup_omap.
    destruct (nodes s !! h) as [r|] eqn:Hr; cbn; [|done].
    destruct (row_decode _ _ _ Hs Hr) as (n & -> & -> & _). done.
  - intros h s [Hn Ht]. split.
    + split; [|done]. cbn. intros h' r [_ Hl]%lookup_delete_Some. eauto.
    + unfold abs, with_nodes. cbn. by rewrite omap_delete.
  - intros now c txt s Hs. split; [by apply inv_content_frame|].
    unfold abs, with_content. cbn. by rewrite fmap_insert.
  - intros c s Hs. unfold get_content, abs. cbn. by rewrite lookup_fmap.
  - intros c s Hs. split; [by apply inv_content_frame|]. unfold abs, with_content. cbn. by rewrite fmap_delete.
  - intros c s Hs. by apply select_referenced_spec.
  - intros ts s [Hn Ht] Hc. split.
    + split; [done|]. cbn. intros c r. rewrite lookup_insert_Some. intros [[_ <-]|[_ Hl]]; [done|eauto].
    + unfold abs, with_tombstones. cbn. by rewrite fmap_insert.
  - apply get_tombstone_spec.
  - intros now s Hs Hnow. unfold cleanup_expired_tombstones. split; [by apply inv_filter|].
    unfold abs, with_tombstones. cbn. rewrite <-!cleanup_filter by done. by rewrite map_size_fmap.
  - intros h d s Hs. split; [done|by left].
  - intros h n s Hs. cbn. rewrite lookup_omap. destruct (nodes s !! h) as [r|] eqn:Hr; cbn; [|done].
    destruct (row_decode _ _ _ Hs Hr) as (n' & _ & -> & Hwf & Hh & _). by intros [= <-].
Defined.

End SQLite.

(** ** Sequences of operations *)

Inductive storage_op :=
  | OpAddNode (n : CoCNode)
  | OpGetNode (h : string)
  | OpRemoveNode (h : string)
  | OpAddContent (c txt : string)
  | OpGetContent (c : string)
  | OpRemoveContent (c : string)
  | OpIsReferenced (c : string)
  | OpAddTombstone (ts : ContentTombstone)
  | OpGetTombstone (c : string)
  | OpCleanup.

Inductive storage_obs :=
  | ObsUnit
  | ObsNode (r : result (option CoCNode))
  | ObsContent (r : option string)
  | ObsReferenced (b : bool)
  | ObsTombstone (r : option ContentTombstone)
  | ObsCount (n : Z).

(** Each operation runs at its own time. *)
Definition op_ok (top : Z * storage_op) : Prop :=
  0 ≤ top.1 < max_datetime ∧
  match top.2 with
  | OpAddNode n => wf_node n
  | OpAddTombstone ts => canonical_tombstone ts
  | _ => True
  end.

Definition exec_op {St : Type} `{StorageBackend St} (top : Z * storage_op) (s : St)
    : storage_obs * St :=
  let now := top.1 in
  match top.2 with
  | OpAddNode n => (ObsUnit, add_node now n s)
  | OpGetNode h => (ObsNode (get_node h s), s)
  | OpRemoveNode h => (ObsUnit, remove_node h s)
  | OpAddContent c txt => (ObsUnit, add_content now c txt s)
  | OpGetContent c => (ObsContent (get_content c s), s)
  | OpRemoveContent c => (ObsUnit, remove_content c s)
  | OpIsReferenced c => (ObsReferenced (is_content_referenced c s), s)
  | OpAddTombstone ts => (ObsUnit, add_tombstone ts s)
  | OpGetTombstone c => let '(r, s) := get_tombstone now c s in (ObsTombstone r, s)
  | OpCleanup => let '(n, s) := cleanup_expired_tombstones now s in (ObsCount n, s)
  end.

Fixpoint run_ops {St : Type} `{StorageBackend St} (ops : list (Z * storage_op)) (s : St)
    : list storage_obs * St :=
  match ops with
  | [] => ([], s)
  | op :: ops =>
      let '(o, s) := exec_op op s in
      let '(os, s) := run_ops ops s in (o :: os, s)
  end.

Section any_backend.
Context {St : Type} `{StorageSpec St}.

Lemma exec_op_inv op s : op_ok op → storage_inv s → storage_inv (exec_op op s).2.
Proof.
  destruct op as [now op]. intros [Hnow Hop] Hs. unfold exec_op. cbn [fst snd] in *.
  destruct op; cbn [fst snd]; try done.
  - by apply add_node_ok.
  - by apply remove_node_ok.
  - by apply add_content_ok.
  - by apply remove_content_ok.
  - by apply add_tombstone_ok.
  - pose proof (get_tombstone_ok now c s Hs) as [Hi _]. revert Hi.
    by destruct (get_tombstone now c s).
  - pose proof (cleanup_ok now s Hs Hnow) as Hc. revert Hc.
    destruct (cleanup_expired_tombstones now s). by intros [? _].
Qed.

Lemma run_ops_inv ops s : Forall op_ok ops → storage_inv s → storage_inv (run_ops ops s).2.
Proof.
  intros Hops. revert s. induction Hops as [|op ops Hop _ IH]; intros s Hs; simpl; [done|].
  pose proof (exec_op_inv op s Hop Hs) as Hs'. revert Hs'. destruct (exec_op op s) as [o s']. intros Hs'.
  specialize (IH s' ltac:(done)). revert IH. by destruct (run_ops ops s').
Qed.
End any_backend.

Section two_backends.
Context {S1 S2 : Type} `{StorageSpec S1, StorageSpec S2}.

(** Backends that hold the same store stay so and answer alike. *)
Lemma exec_op_agree op (s1 : S1) (s2 : S2) :
  op_ok op → storage_inv s1 → storage_inv s2 → store s1 = store s2 →
  (exec_op op s1).1 = (exec_op op s2).1 ∧ store (exec_op op s1).2 = store (exec_op op s2).2.
Proof.
  destruct op as [now op]. intros [Hnow Hop] I1 I2 Heq. unfold exec_op. cbn [fst snd] in *.
  destruct op; cbn [fst snd].
  - rewrite (proj2 (add_node_ok now n s1 I1 Hop)), (proj2 (add_node_ok now n s2 I2 Hop)). by rewrite Heq.
  - by rewrite !get_node_ok, Heq.
  - rewrite (proj2 (remove_node_ok h s1 I1)), (proj2 (remove_node_ok h s2 I2)). by rewrite Heq.
  - rewrite (proj2 (add_content_ok now c txt s1 I1)), (proj2 (add_content_ok now c txt s2 I2)).
    by rewrite Heq.
  - by rewrite !get_content_ok, Heq.
  - rewrite (proj2 (remove_content_ok c s1 I1)), (proj2 (remove_content_ok c s2 I2)). by rewrite Heq.
  - split; [|done]. f_equal. apply eq_bool_prop_intro. rewrite !Is_true_true.
    by rewrite !is_content_referenced_ok, Heq.
  - rewrite (proj2 (add_tombstone_ok ts s1 I1 Hop)), (proj2 (add_tombstone_ok ts s2 I2 Hop)). by rewrite Heq.
  - pose proof (get_tombstone_ok now c s1 I1) as [_ G1]. pose proof (get_tombstone_ok now c s2 I2) as [_ G2].
    rewrite Heq in G1. destruct (s_tombstones (store s2) !! c) as [ts|]; [destruct (is_expired now ts)|].
    + revert G1 G2. destruct (get_tombstone now c s1), (get_tombstone now c s2). simpl.
      intros [E1 ->] [E2 ->]. split; congruence.
    + rewrite G1, G2. done.
    + rewrite G1, G2. done.
  - pose proof (cleanup_ok now s1 I1 Hnow) as G1. pose proof (cleanup_ok now s2 I2 Hnow) as G2.
    revert G1 G2. destruct (cleanup_expired_tombstones now s1), (cleanup_expired_tombstones now s2).
    intros (_ & E1 & ->) (_ & E2 & ->). cbn [fst snd]. by rewrite E1, E2, Heq.
Qed.

Lemma run_ops_agree ops (s1 : S1) (s2 : S2) :
  Forall op_ok ops → storage_inv s1 → storage_inv s2 → store s1 = store s2 →
  (run_ops ops s1).1 = (run_ops ops s2).1 ∧ store (run_ops ops s1).2 = store (run_ops ops s2).2.
Proof.
  intros Hops. revert s1 s2. induction Hops as [|op ops Hop _ IH]; intros s1 s2 I1 I2 Heq; simpl; [done|].
  pose proof (exec_op_agree op s1 s2 Hop I1 I2 Heq) as [Ho Hs].
  pose proof (exec_op_inv op s1 Hop I1) as I1'. pose proof (exec_op_inv op s2 Hop I2) as I2'.
  revert Ho Hs I1' I2'. destruct (exec_op op s1) as [o1 t1], (exec_op op s2) as [o2 t2]. simpl.
  intros Ho Hs I1' I2'. destruct (IH t1 t2 I1' I2' Hs) as [Hos Hss]. revert Hos Hss.
  destruct (run_ops ops t1), (run_ops ops t2). simpl. split; congruence.
Qed.
End two_backends.

Lemma inmemory_init_inv : InMemory.inv InMemory.init.
Proof.
  split; cbn; try set_solver.
Qed.

Lemma sqlite_init_inv : SQLite.inv SQLite.init.
Proof. by split. Qed.

(** ** Listings *)

(** Two duplicate-free listings of nodes by hash with the same members. *)
Lemma nodes_permutation (l k : list CoCNode) :
  NoDup (node_hash <$> l) → NoDup (node_hash <$> k) → (∀ n, n ∈ l ↔ n ∈ k) → l ≡ₚ k.
Proof. intros Hl%NoDup_fmap_1 Hk%NoDup_fmap_1. by apply NoDup_Permutation. Qed.

(** A store with its nodes filed under their own hashes. *)
Definition filed (m : gmap string CoCNode) : Prop := ∀ h n, m !! h = Some n → n.(node_hash) = h.

Lemma filed_listing m : filed m →
  NoDup (node_hash <$> (map_to_list m).*2) ∧ ∀ n, n ∈ (map_to_list m).*2 ↔ m !! n.(node_hash) = Some n.
Proof.
  intros Hm. split.
  - rewrite <-list_fmap_compose. erewrite list_fmap_ext; [apply (NoDup_fst_map_to_list m)|].
    intros i [h n] Hi. apply Hm, elem_of_map_to_list. by eapply list_elem_of_lookup_2.
  - intros n. rewrite list_elem_of_fmap. split.
    + intros ([h n'] & -> & Hn%elem_of_map_to_list). cbn. by rewrite (Hm h n').
    + intros Hn. exists (n.(node_hash), n). by rewrite elem_of_map_to_list.
Qed.

Lemma inmemory_by_content c s : InMemory.inv s →
  InMemory.get_nodes_by_content c s ≡ₚ filter (λ n, n.(content_hash) = c) (InMemory.get_all_nodes s).
Proof.
  intros Hs. assert (filed s.(InMemory.nodes)) as Hf by (intros h n Hn; by destruct (InMemory.inv_nodes s Hs h n Hn)).
  destruct (filed_listing _ Hf) as [Hnd Hin]. pose proof (InMemory.inv_index s Hs c) as Hidx.
  assert (∀ n, n ∈ InMemory.get_nodes_by_content c s ↔ s.(InMemory.nodes) !! n.(node_hash) = Some n ∧ n.(content_hash) = c) as Hby.
  { intros n. unfold InMemory.get_nodes_by_content. destruct (InMemory.content_refs s !! c) as [hs|]; cbn in Hidx.
    - rewrite list_elem_of_omap. setoid_rewrite elem_of_elements. setoid_rewrite Hidx. split.
      + intros (h & (n' & Hn' & Hc) & Hn). rewrite Hn in Hn'. injection Hn' as <-. by rewrite (Hf h n Hn).
      + intros [Hn Hc]. exists n.(node_hash). eauto.
    - rewrite elem_of_nil. split; [done|]. intros [Hn Hc]. exfalso. apply (not_elem_of_empty (C := gset string) n.(node_hash)), Hidx. eauto. }
  apply nodes_permutation.
  - unfold InMemory.get_nodes_by_content. destruct (InMemory.content_refs s !! c) as [hs|]; [cbn in Hidx|constructor].
    assert (node_hash <$> omap (λ h, InMemory.nodes s !! h) (elements hs) = elements hs) as ->; [|apply NoDup_elements].
    assert (∀ h, h ∈ elements hs → ∃ n, s.(InMemory.nodes) !! h = Some n) as Hall.
    { intros h (n & Hn & _)%elem_of_elements%Hidx. eauto. }
    induction (elements hs) as [|h l IH]; [done|]. destruct (Hall h) as [n Hn]; [by left|].
    csimpl. rewrite Hn. csimpl. rewrite (Hf h n Hn), IH; [done|]. intros h' Hh'. apply Hall. by right.
  - eapply sublist_NoDup; [exact Hnd|]. apply fmap_sublist, sublist_filter.
  - intros n. unfold InMemory.get_all_nodes. rewrite Hby, list_elem_of_filter, Hin. tauto.
Qed.

Lemma decode_rows (l : list SQLite.node_row) :
  (∀ r, r ∈ l → is_Some (SQLite.decode r)) →
  mapR (λ r, from_dict r.(SQLite.r_data)) l = Ok (omap SQLite.decode l).
Proof.
  intros Hl. induction l as [|r l IH]; [done|]. destruct (Hl r) as [n Hn]; [by left|]. cbn [mapR].
  unfold SQLite.decode in Hn. destruct (from_dict (SQLite.r_data r)) as [n'|] eqn:Hr; [|done].
  cbn [mbind result_bind]. rewrite IH by (intros r' Hr'; apply Hl; by right). csimpl. unfold SQLite.decode at 2. by rewrite Hr.
Qed.

(** The rows with one content hash, decoded. *)
Lemma sqlite_select c s : SQLite.inv s →
  SQLite.get_all_nodes s = Ok (omap SQLite.decode (map_to_list s.(SQLite.nodes)).*2) ∧
  SQLite.get_nodes_by_content c s =
    Ok (filter (λ n, n.(content_hash) = c) (omap SQLite.decode (map_to_list s.(SQLite.nodes)).*2)).
Proof.
  intros Hs.
  assert (∀ r, r ∈ (map_to_list s.(SQLite.nodes)).*2 → ∃ n, SQLite.decode r = Some n ∧ r.(SQLite.r_content_hash) = n.(content_hash)) as Hrow.
  { intros r ([h r'] & -> & Hr%elem_of_map_to_list)%list_elem_of_fmap.
    destruct (SQLite.row_decode s h r' Hs Hr) as (n & _ & Hn & _ & _ & Hc). eauto. }
  split.
  - unfold SQLite.get_all_nodes. rewrite <-decode_rows by (intros r (n & -> & _)%Hrow; done).
    generalize (map_to_list s.(SQLite.nodes)). intros l. induction l as [|[h r] l IH]; [done|]. csimpl.
    by destruct (from_dict _); [rewrite IH|].
  - unfold SQLite.get_nodes_by_content, SQLite.select_nodes. rewrite decode_rows.
    + f_equal. revert Hrow. generalize ((map_to_list s.(SQLite.nodes)).*2). intros l Hrow.
      induction l as [|r l IH]; [done|]. destruct (Hrow r) as (n & Hn & Hc); [by left|]. csimpl. rewrite Hn.
      rewrite filter_cons. case_decide as Hd; rewrite filter_cons, <-Hc; case_decide; try done; csimpl;
        rewrite ?Hn, IH; try done; intros r' Hr'; apply Hrow; by right.
    + intros r [_ (n & -> & _)%Hrow]%list_elem_of_filter. done.
Qed.

Lemma sqlite_listing s : SQLite.inv s →
  omap SQLite.decode (map_to_list s.(SQLite.nodes)).*2 ≡ₚ (map_to_list (SQLite.abs s).(s_nodes)).*2.
Proof.
  intros Hs. assert (filed (SQLite.abs s).(s_nodes)) as Hf.
  { intros h n. cbn. rewrite lookup_omap. intros (r & Hr & Hn)%bind_Some.
    destruct (SQLite.row_decode s h r Hs Hr) as (n' & _ & Hn' & _ & Hh & _). congruence. }
  assert (∀ h r, (h, r) ∈ map_to_list s.(SQLite.nodes) → ∃ n, SQLite.decode r = Some n ∧ n.(node_hash) = h) as Hrow.
  { intros h r Hr%elem_of_map_to_list. destruct (SQLite.row_decode s h r Hs Hr) as (n & _ & ? & _ & ? & _). eauto. }
  destruct (filed_listing _ Hf) as [Hnd Hin]. apply nodes_permutation; [|done|].
  - assert (node_hash <$> omap SQLite.decode (map_to_list s.(SQLite.nodes)).*2 = (map_to_list s.(SQLite.nodes)).*1) as ->.
    { revert Hrow. generalize (map_to_list s.(SQLite.nodes)). intros l Hrow. induction l as [|[h r] l IH]; [done|].
      destruct (Hrow h r) as (n & Hn & Hh); [by left|]. csimpl. rewrite Hn. csimpl. rewrite Hh, IH; [done|].
      intros h' r' Hr'. apply Hrow. by right. }
    apply NoDup_fst_map_to_list.
  - intros n. rewrite Hin. cbn. rewrite lookup_omap, list_elem_of_omap. split.
    + intros (r & ([h r'] & -> & Hr)%list_elem_of_fmap & Hn). destruct (Hrow h r' Hr) as (n' & Hn' & Hh).
      cbn [snd] in Hn. rewrite Hn in Hn'. injection Hn' as <-. apply elem_of_map_to_list in Hr. by rewrite Hh, Hr.
    + intros (r & Hr & Hn)%bind_Some. exists r. split; [|done]. apply list_elem_of_fmap.
      exists (n.(node_hash), r). by rewrite elem_of_map_to_list.
Qed.

(** What the listings of two stores with the same content answer. *)
Lemma listings_agree c now s1 s2 :
  InMemory.inv s1 → SQLite.inv s2 → InMemory.abs s1 = SQLite.abs s2 → 0 ≤ now < max_datetime →
  (∃ l, SQLite.get_all_nodes s2 = Ok l ∧ l ≡ₚ InMemory.get_all_nodes s1) ∧
  (∃ l, SQLite.get_nodes_by_content c s2 = Ok l ∧ l ≡ₚ InMemory.get_nodes_by_content c s1) ∧
  (SQLite.get_all_tombstones now s2).1 ≡ₚ (InMemory.get_all_tombstones now s1).1 ∧
  InMemory.abs (InMemory.get_all_tombstones now s1).2 = SQLite.abs (SQLite.get_all_tombstones now s2).2.
Proof.
  intros I1 I2 Heq Hnow. destruct (sqlite_select c s2 I2) as [Hall Hby].
  assert (omap SQLite.decode (map_to_list s2.(SQLite.nodes)).*2 ≡ₚ InMemory.get_all_nodes s1) as Hl.
  { rewrite (sqlite_listing s2 I2), <-Heq. done. }
  split; [eauto|]. split; [eexists; split; [exact Hby|]; by rewrite (inmemory_by_content c s1 I1), Hl|].
  pose proof (cleanup_ok (StorageSpec := InMemory.spec) now s1 I1 Hnow) as C1.
  pose proof (cleanup_ok (StorageSpec := SQLite.spec) now s2 I2 Hnow) as C2.
  cbn [Storage.cleanup_expired_tombstones InMemory.backend SQLite.backend] in C1, C2.
  unfold InMemory.get_all_tombstones, SQLite.get_all_tombstones.
  destruct (InMemory.cleanup_expired_tombstones now s1) as [k1 t1], (SQLite.cleanup_expired_tombstones now s2) as [k2 t2].
  destruct C1 as (_ & E1 & _), C2 as (_ & E2 & _). cbn [store InMemory.spec SQLite.spec] in E1, E2. cbn [fst snd].
  assert (InMemory.abs t1 = SQLite.abs t2) as Ht by (by rewrite E1, E2, Heq). split; [|done].
  change (InMemory.tombstones t1) with (s_tombstones (InMemory.abs t1)). rewrite Ht. cbn [SQLite.abs s_tombstones].
  rewrite map_to_list_fmap, <-!list_fmap_compose. done.
Qed.

(** ** Properties *)

(** C9: after any sequence of storage operations starting from an empty
    [InMemoryStorage], the reverse index lists, for every content hash, exactly
    the stored nodes with that hash, and has no empty entries. *)
Theorem inmemory_index_exact (ops : list (Z * storage_op)) :
  Forall op_ok ops →
  let s := (run_ops ops InMemory.init).2 in
  (∀ c h, h ∈ default ∅ (s.(InMemory.content_refs) !! c) ↔
    ∃ n, s.(InMemory.nodes) !! h = Some n ∧ n.(content_hash) = c) ∧
  (∀ c, s.(InMemory.content_refs) !! c ≠ Some ∅) ∧
  (∀ c, InMemory.is_content_referenced c s = true ↔ references s.(InMemory.nodes) c).
Proof.
  intros Hops s. pose proof (run_ops_inv ops InMemory.init Hops inmemory_init_inv) as Hinv.
  fold s in Hinv. split; [apply Hinv|]. split; [apply Hinv|].
  intros c. by apply InMemory.is_content_referenced_spec.
Qed.

(** C10: the in-memory and the SQLite backend are interchangeable: from empty,
    any sequence of operations at times of the [datetime] range, on well-formed
    nodes and on tombstones whose expiry is written as [isoformat] writes it,
    gives the same answers (nodes, contents, references, tombstones and cleanup
    counts) and the same stored data, although SQLite stores dictionaries and
    compares expiry times as text.  Afterwards the listings of all nodes, of the
    nodes of a content and of the tombstones have the same entries. *)
Theorem backends_agree (ops : list (Z * storage_op)) (c : string) (now : Z) :
  Forall op_ok ops → 0 ≤ now < max_datetime →
  let '(answers1, s1) := run_ops ops InMemory.init in
  let '(answers2, s2) := run_ops ops SQLite.init in
  answers1 = answers2 ∧ InMemory.abs s1 = SQLite.abs s2 ∧
  (∃ l, SQLite.get_all_nodes s2 = Ok l ∧ l ≡ₚ InMemory.get_all_nodes s1) ∧
  (∃ l, SQLite.get_nodes_by_content c s2 = Ok l ∧ l ≡ₚ InMemory.get_nodes_by_content c s1) ∧
  (SQLite.get_all_tombstones now s2).1 ≡ₚ (InMemory.get_all_tombstones now s1).1 ∧
  InMemory.abs (InMemory.get_all_tombstones now s1).2 = SQLite.abs (SQLite.get_all_tombstones now s2).2.
Proof.
  intros Hops Hnow.
  pose proof (run_ops_agree ops InMemory.init SQLite.init) as Hagree.
  pose proof (run_ops_inv ops InMemory.init) as I1. pose proof (run_ops_inv ops SQLite.init) as I2.
  cbn [store storage_inv InMemory.spec SQLite.spec] in Hagree, I1, I2.
  destruct (Hagree Hops inmemory_init_inv sqlite_init_inv eq_refl) as [Ho Hs].
  specialize (I1 Hops inmemory_init_inv). specialize (I2 Hops sqlite_init_inv).
  destruct (run_ops ops InMemory.init) as [a1 s1], (run_ops ops SQLite.init) as [a2 s2].
  split; [exact Ho|]. split; [exact Hs|]. by apply listings_agree.
Qed.

Definition sample_ops : list (Z * storage_op) :=
  [(5, OpAddNode (toy_node "x" [])); (6, OpIsReferenced "c");
   (7, OpAddTombstone (mkTombstone "c" "" (isoformat 10) "ann" "x")); (8, OpGetTombstone "c");
   (11, OpCleanup)].

Lemma sample_ops_ok : Forall op_ok sample_ops.
Proof.
  assert (∀ t, 0 ≤ t ≤ 20 → 0 ≤ t < max_datetime) as Hr.
  { intros t Ht. split; [lia|]. apply Z.le_lt_trans with 20; [lia|reflexivity]. }
  repeat constructor; cbn [fst snd]; try apply Hr; try lia.
  - simplify_eq/=. repeat constructor; done.
  - by simplify_eq/=.
  - exists 10. split; [apply Hr; lia|done].
Qed.

Lemma inmemory_index_exact_witness :
  InMemory.is_content_referenced "c" (run_ops sample_ops InMemory.init).2 = true ↔
  references (run_ops sample_ops InMemory.init).2.(InMemory.nodes) "c".
Proof. apply (inmemory_index_exact sample_ops sample_ops_ok). Defined.

Lemma backends_agree_witness :
  (run_ops sample_ops InMemory.init).1 = (run_ops sample_ops SQLite.init).1 ∧
  (SQLite.get_all_tombstones 9 (run_ops (take 4 sample_ops) SQLite.init).2).1 =
    [mkTombstone "c" "" (isoformat 10) "ann" "x"].
Proof.
  split; [|vm_compute; reflexivity].
  pose proof (backends_agree sample_ops "c" 9 sample_ops_ok ltac:(split; [lia|reflexivity])) as H.
  destruct (run_ops sample_ops InMemory.init), (run_ops sample_ops SQLite.init). apply H.
Defined.
