(* ===== verification/DeletionEngine.v ===== *)
(** * Deletion tokens, receipts and replay protection
      ([coc_framework/core/deletion_engine.py])

    [DeletionToken], [DeletionReceipt], [ProcessedTokenCache] and
    [DeletionTracker], and the replay and expiry guard with which
    [DeletionEngine.process_token] starts.  The rest of [process_token] acts on
    a peer and the network and is in [NetworkSim].  Clock readings are
    microseconds, as in [DateTime]. *)

From Stdlib Require Import ZArith Lia Ascii String.
From S2P Require Import Prelude PyData DateTime Crypto CoCNode.

Definition TOKEN_VALIDITY_SECONDS : Z := 300.
Definition us_per_second : Z := 1000000.

(** ** Tokens *)

Record DeletionToken := mkToken {
  tok_node_hash : string;
  tok_originator_id : string;
  tok_nonce : string;
  tok_timestamp : string;
  tok_signature : string;
}.

#[global] Instance DeletionToken_eq_dec : EqDecision DeletionToken.
Proof. solve_decision. Defined.

Definition token_signing_data (t : DeletionToken) : string :=
  join_with "|" [t.(tok_node_hash); t.(tok_originator_id); t.(tok_nonce); t.(tok_timestamp)].

Definition token_is_expired (now validity_seconds : Z) (t : DeletionToken) : bool :=
  match fromisoformat t.(tok_timestamp) with
  | Some token_time => validity_seconds * us_per_second <? now - token_time
  | None => true
  end.

Section token_code.
Context {C : Crypto}.

Definition token_sign (signing_key : bytes) (t : DeletionToken) : DeletionToken :=
  mkToken t.(tok_node_hash) t.(tok_originator_id) t.(tok_nonce) t.(tok_timestamp)
    (hex_of (sign_message signing_key (token_signing_data t))).

Definition token_get_hash (t : DeletionToken) : string :=
  hash_content (join_with "|" [t.(tok_node_hash); t.(tok_originator_id); t.(tok_nonce);
                               t.(tok_timestamp); t.(tok_signature)]).
End token_code.

(** ** Receipts *)

Record DeletionReceipt := mkReceipt {
  rcp_token_hash : string;
  rcp_peer_id : string;
  rcp_timestamp : string;
  rcp_success : bool;
  rcp_node_hash : string;
  rcp_signature : string;
  rcp_error_message : option string;
}.

Definition receipt_data_to_sign (r : DeletionReceipt) : string :=
  join_with "|" [r.(rcp_token_hash); r.(rcp_peer_id); r.(rcp_timestamp);
                 (if r.(rcp_success) then "True" else "False"); r.(rcp_node_hash);
                 or_empty r.(rcp_error_message)].

Section receipt_code.
Context {C : Crypto}.

Definition receipt_sign (signing_key : bytes) (r : DeletionReceipt) : DeletionReceipt :=
  mkReceipt r.(rcp_token_hash) r.(rcp_peer_id) r.(rcp_timestamp) r.(rcp_success)
    r.(rcp_node_hash) (hex_of (sign_message signing_key (receipt_data_to_sign r)))
    r.(rcp_error_message).

Definition receipt_verify (key : bytes) (r : DeletionReceipt) : bool :=
  if decide (r.(rcp_signature) = "") then false
  else match fromhex r.(rcp_signature) with
       | Ok sig => verify_signature key (receipt_data_to_sign r) sig
       | Raise _ => false
       end.
End receipt_code.

(** ** [ProcessedTokenCache] *)

Record ProcessedTokenCache := mkCache {
  processed : gmap string Z;
  max_age : Z;
  last_cleanup : Z;
}.

Definition cleanup_interval : Z := 60 * us_per_second.

Definition new_cache (now max_age_seconds : Z) : ProcessedTokenCache :=
  mkCache ∅ (max_age_seconds * us_per_second) now.

Definition maybe_cleanup (now : Z) (c : ProcessedTokenCache) : ProcessedTokenCache :=
  if now - c.(last_cleanup) <? cleanup_interval then c
  else
    let cutoff := now - c.(max_age) in
    mkCache (filter (λ ht, cutoff < ht.2) c.(processed)) c.(max_age) now.

Definition is_processed (now : Z) (token_hash : string) (c : ProcessedTokenCache)
    : bool * ProcessedTokenCache :=
  let c := maybe_cleanup now c in (bool_decide (is_Some (c.(processed) !! token_hash)), c).

Definition mark_processed (now : Z) (token_hash : string) (c : ProcessedTokenCache)
    : ProcessedTokenCache :=
  maybe_cleanup now (mkCache (<[token_hash := now]> c.(processed)) c.(max_age) c.(last_cleanup)).

Definition clear_cache (c : ProcessedTokenCache) : ProcessedTokenCache :=
  mkCache ∅ c.(max_age) c.(last_cleanup).

(** The guard of [process_token]: replay, expiry, then mark. *)
Definition token_guard {C : Crypto} (now validity_seconds : Z) (t : DeletionToken)
    (c : ProcessedTokenCache) : result unit * ProcessedTokenCache :=
  let token_hash := token_get_hash t in
  let '(seen, c) := is_processed now token_hash c in
  if seen : bool then (Raise ReplayAttackError, c)
  else if token_is_expired now validity_seconds t then (Raise TokenExpiredError, c)
  else (Ok (), mark_processed now token_hash c).

(** ** [DeletionTracker] *)

Record DeletionTracker := mkTracker {
  pending : gmap string DeletionToken;
  receipts : gmap string (list DeletionReceipt);
  expected_peers : gmap string (gset string);
}.

Definition init_tracker : DeletionTracker := mkTracker ∅ ∅ ∅.

Definition track_deletion {C : Crypto} (t : DeletionToken) (expected : gset string)
    (tr : DeletionTracker) : string * DeletionTracker :=
  let token_hash := token_get_hash t in
  (token_hash,
   mkTracker (<[token_hash := t]> tr.(pending)) (<[token_hash := []]> tr.(receipts))
     (<[token_hash := expected]> tr.(expected_peers))).

Definition receipt_peers (rs : list DeletionReceipt) : gset string :=
  list_to_set (rcp_peer_id <$> rs).

Definition add_receipt (r : DeletionReceipt) (tr : DeletionTracker) : DeletionTracker :=
  match tr.(receipts) !! r.(rcp_token_hash) with
  | None => tr
  | Some rs =>
      if decide (r.(rcp_peer_id) ∈ receipt_peers rs) then tr
      else mkTracker tr.(pending) (<[r.(rcp_token_hash) := rs ++ [r]]> tr.(receipts))
             tr.(expected_peers)
  end.

Definition get_receipts (token_hash : string) (tr : DeletionTracker) : list DeletionReceipt :=
  default [] (tr.(receipts) !! token_hash).

Definition is_complete (token_hash : string) (tr : DeletionTracker) : bool :=
  match tr.(expected_peers) !! token_hash with
  | None => false
  | Some expected =>
      if decide (expected = ∅) then true
      else bool_decide (expected ⊆ receipt_peers (get_receipts token_hash tr))
  end.

Definition get_pending_peers (token_hash : string) (tr : DeletionTracker) : gset string :=
  match tr.(expected_peers) !! token_hash with
  | None => ∅
  | Some expected => expected ∖ receipt_peers (get_receipts token_hash tr)
  end.

Record deletion_status := mkStatus {
  st_token : option DeletionToken;
  st_expected : gset string;
  st_receipts : list DeletionReceipt;
  st_pending : gset string;
  st_is_complete : bool;
  st_success_count : Z;
  st_failure_count : Z;
  st_total_expected : Z;
  st_total_received : Z;
}.

Definition get_deletion_status (token_hash : string) (tr : DeletionTracker) : deletion_status :=
  let rs := get_receipts token_hash tr in
  let expected := default ∅ (tr.(expected_peers) !! token_hash) in
  mkStatus (tr.(pending) !! token_hash) expected rs (get_pending_peers token_hash tr)
    (is_complete token_hash tr)
    (Z.of_nat (length (filter (λ r, r.(rcp_success) = true) rs)))
    (Z.of_nat (length (filter (λ r, r.(rcp_success) = false) rs)))
    (Z.of_nat (size expected)) (Z.of_nat (length rs)).

(** ** Replay protection *)

Section replay.
Context {C : Crypto}.

(** From the acceptance of [h] at [t1] on, [h] is remembered, or two validity
    periods have passed. *)
Definition remembers (h : string) (t1 now : Z) (c : ProcessedTokenCache) : Prop :=
  (∃ t, c.(processed) !! h = Some t ∧ t1 ≤ t) ∨ t1 + c.(max_age) ≤ now.

Lemma maybe_cleanup_remembers h t1 now now' c :
  now ≤ now' → remembers h t1 now c →
  remembers h t1 now' (maybe_cleanup now' c) ∧ (maybe_cleanup now' c).(max_age) = c.(max_age).
Proof.
  intros Hnow Hr. unfold maybe_cleanup. case_cmp; (split; [|done]).
  - destruct Hr as [?|?]; [by left|right; lia].
  - destruct Hr as [(t & Ht & Hle)|Hr]; [|right; simpl; lia].
    destruct (decide (now' - max_age c < t)).
    + left. exists t. simpl. by rewrite map_lookup_filter_Some.
    + right. simpl. lia.
Qed.

Lemma remembers_insert h h' t1 now c :
  t1 ≤ now → remembers h t1 now c →
  remembers h t1 now (mkCache (<[h' := now]> c.(processed)) c.(max_age) c.(last_cleanup)).
Proof.
  intros Hle [(t & Ht & Ht1)|Hr]; [left|by right]. simpl.
  destruct (decide (h = h')) as [->|]; simplify_map_eq; eauto.
Qed.

(** Every guard call keeps what is remembered. *)
Lemma token_guard_raise now validity t c e :
  (token_guard now validity t c).1 = Raise e → e = ReplayAttackError ∨ e = TokenExpiredError.
Proof.
  unfold token_guard. destruct (is_processed _ _ _) as [[] c']; [intros [= <-]; by left|].
  destruct (token_is_expired _ _ _); [intros [= <-]; by right|done].
Qed.

Lemma token_guard_remembers h t1 now now' validity t c :
  t1 ≤ now' → now ≤ now' → remembers h t1 now c →
  remembers h t1 now' (token_guard now' validity t c).2 ∧
  (token_guard now' validity t c).2.(max_age) = c.(max_age).
Proof.
  intros Ht1 Hnow Hr. unfold token_guard, is_processed.
  destruct (maybe_cleanup_remembers h t1 now now' c Hnow Hr) as [Hr' Hage].
  case_bool_decide; [done|]. destruct (token_is_expired _ _ _); [done|]. simpl. unfold mark_processed.
  pose proof (remembers_insert h (token_get_hash t) t1 now' _ Ht1 Hr') as Hi.
  apply (maybe_cleanup_remembers h t1 now' now') in Hi as [Hi Hage2]; [|lia].
  split; [exact Hi|]. by rewrite Hage2.
Qed.

Lemma mark_processed_remembers h now c :
  remembers h now now (mark_processed now h c) ∧
  (mark_processed now h c).(max_age) = c.(max_age).
Proof.
  unfold mark_processed.
  assert (remembers h now now (mkCache (<[h := now]> c.(processed)) c.(max_age) c.(last_cleanup))) as Hi.
  { left. exists now. simpl. by simplify_map_eq. }
  apply (maybe_cleanup_remembers h now now now) in Hi as [Hi Hage2]; [|lia]. done.
Qed.

(** A history of guard calls, each at its time, on one peer's cache. *)
Fixpoint guard_run (validity : Z) (calls : list (Z * DeletionToken)) (c : ProcessedTokenCache)
    : ProcessedTokenCache :=
  match calls with
  | [] => c
  | (now, t) :: calls => guard_run validity calls (token_guard now validity t c).2
  end.

(** Times of a history do not decrease from [from] to [upto]. *)
Fixpoint monotone_calls (from upto : Z) (calls : list (Z * DeletionToken)) : Prop :=
  match calls with
  | [] => from ≤ upto
  | (now, _) :: calls => from ≤ now ∧ monotone_calls now upto calls
  end.

Lemma monotone_calls_le from upto calls : monotone_calls from upto calls → from ≤ upto.
Proof.
  revert from; induction calls as [|[now t] calls IH]; simpl; [done|].
  intros from [? ?%IH]. lia.
Qed.

Lemma guard_run_remembers h t1 now upto validity calls c :
  t1 ≤ now → monotone_calls now upto calls → remembers h t1 now c →
  remembers h t1 upto (guard_run validity calls c) ∧
  (guard_run validity calls c).(max_age) = c.(max_age).
Proof.
  revert now c; induction calls as [|[now' t] calls IH]; intros now c Ht1 Hm Hr; simpl in *.
  - split; [|done]. destruct Hr as [?|?]; [by left|right; lia].
  - destruct Hm as [Hle Hm].
    destruct (token_guard_remembers h t1 now now' validity t c) as [Hr' <-]; [lia|lia|done|].
    apply (IH now'); [lia|done|done].
Qed.

End replay.

(** ** The tracker under any sequence of calls *)

Inductive tracker_op :=
  | OpTrack (t : DeletionToken) (expected : gset string)
  | OpReceipt (r : DeletionReceipt).

Section tracker.
Context {C : Crypto}.

Definition tracker_step (tr : DeletionTracker) (op : tracker_op) : DeletionTracker :=
  match op with
  | OpTrack t expected => (track_deletion t expected tr).2
  | OpReceipt r => add_receipt r tr
  end.

(** One receipt list per tracked token, holding receipts of that token from
    different peers. *)
Record tracker_inv (tr : DeletionTracker) : Prop := {
  tri_dom h : is_Some (tr.(receipts) !! h) ↔ is_Some (tr.(expected_peers) !! h);
  tri_receipts h rs : tr.(receipts) !! h = Some rs →
    NoDup (rcp_peer_id <$> rs) ∧ Forall (λ r, r.(rcp_token_hash) = h) rs;
  tri_pending h t : tr.(pending) !! h = Some t → token_get_hash t = h ∧ is_Some (tr.(expected_peers) !! h);
}.

Lemma tracker_inv_init : tracker_inv init_tracker.
Proof. split; cbn; try done. intros h. rewrite !lookup_empty. by split. Qed.

Lemma tracker_inv_step tr op : tracker_inv tr → tracker_inv (tracker_step tr op).
Proof.
  intros [Hd Hr Hp]. destruct op as [t expected|r]; cbn.
  - split; cbn; intros h; destruct (decide (h = token_get_hash t)) as [->|];
      simplify_map_eq; try done.
    + intros rs [= <-]. split; constructor.
    + apply Hr.
    + intros t' [= <-]. done.
    + apply Hp.
  - unfold add_receipt. destruct (receipts tr !! rcp_token_hash r) as [rs|] eqn:Hrs; [|done].
    case_decide as Hin; [done|]. split; cbn.
    + intros h. rewrite <-Hd. destruct (decide (h = rcp_token_hash r)) as [->|]; simplify_map_eq; [|done].
      by split.
    + intros h rs'. destruct (decide (h = rcp_token_hash r)) as [->|]; simplify_map_eq; [|apply Hr].
      intros [= <-]. destruct (Hr _ _ Hrs) as [Hnd Hall]. rewrite fmap_app. split.
      * apply NoDup_app. split; [done|]. split; [|apply NoDup_singleton].
        unfold receipt_peers in Hin. set_solver.
      * apply Forall_app. split; [done|]. by constructor.
    + apply Hp.
Qed.

Lemma tracker_inv_run ops tr : tracker_inv tr → tracker_inv (foldl tracker_step tr ops).
Proof.
  revert tr; induction ops as [|op ops IH]; intros tr Htr; simpl; [done|].
  by apply IH, tracker_inv_step.
Qed.

Lemma length_filter_bool (f : DeletionReceipt → bool) rs :
  (length (filter (λ r, f r = true) rs) + length (filter (λ r, f r = false) rs))%nat = length rs.
Proof.
  induction rs as [|r rs IH]; [done|]. rewrite !filter_cons.
  destruct (f r); simpl; lia.
Qed.

(** ** Properties *)

(** C11: on one peer, a token that was accepted once is never accepted again,
    whatever other tokens are presented in between and however long after, as
    long as its timestamp is not a whole validity period ahead of the clock at
    the first acceptance: the second attempt is a replay or expired. *)
Theorem token_accepted_once (validity t1 t2 ts : Z) (t : DeletionToken)
    (calls : list (Z * DeletionToken)) (c : ProcessedTokenCache) :
  c.(max_age) = 2 * validity * us_per_second →
  fromisoformat t.(tok_timestamp) = Some ts → ts < t1 + validity * us_per_second →
  (token_guard t1 validity t c).1 = Ok () → monotone_calls t1 t2 calls →
  let c' := guard_run validity calls (token_guard t1 validity t c).2 in
  (token_guard t2 validity t c').1 = Raise ReplayAttackError ∨
  (token_guard t2 validity t c').1 = Raise TokenExpiredError.
Proof.
  intros Hage Hts Hfuture Hok Hcalls c'.
  assert (remembers (token_get_hash t) t1 t1 (token_guard t1 validity t c).2 ∧
    (token_guard t1 validity t c).2.(max_age) = c.(max_age)) as [Hr Hage1].
  { revert Hok. unfold token_guard, is_processed. case_bool_decide; [done|].
    destruct (token_is_expired _ _ _); [done|]. intros _. simpl.
    destruct (mark_processed_remembers (token_get_hash t) t1 (maybe_cleanup t1 c)) as [Hr ->].
    split; [done|]. unfold maybe_cleanup. by case_cmp. }
  destruct (guard_run_remembers _ t1 t1 t2 validity calls _ ltac:(lia) Hcalls Hr) as [Hr2 Hage2].
  fold c' in Hr2, Hage2. apply monotone_calls_le in Hcalls.
  destruct (maybe_cleanup_remembers _ t1 t2 t2 c' ltac:(lia) Hr2) as [Hr3 Hage3].
  unfold token_guard, is_processed. case_bool_decide as Hseen; [by left|]. right.
  destruct Hr3 as [(u & Hu & _)|Hlate]; [destruct Hseen; by rewrite Hu|].
  unfold token_is_expired. rewrite Hts, (proj2 (Z.ltb_lt _ _)) by lia. done.
Qed.

(** The bound on the time stamp above is sharp.  A token dated a validity period or more
    ahead outlives its cache entry: accepted at [t1], it is accepted a second
    time once two validity periods have passed, while it is still unexpired. *)
Theorem future_token_replayed (validity t1 t2 ts : Z) (t : DeletionToken)
    (c : ProcessedTokenCache) :
  c.(max_age) = 2 * validity * us_per_second → 60 ≤ validity →
  fromisoformat t.(tok_timestamp) = Some ts →
  (token_guard t1 validity t c).1 = Ok () →
  (token_guard t1 validity t c).2.(last_cleanup) ≤ t1 →
  t1 + 2 * validity * us_per_second ≤ t2 ≤ ts + validity * us_per_second →
  (token_guard t2 validity t (token_guard t1 validity t c).2).1 = Ok ().
Proof.
  intros Hage Hv Hts Hok Hlast Ht2.
  assert ((token_guard t1 validity t c).2.(max_age) = c.(max_age) ∧
    ∀ u, (token_guard t1 validity t c).2.(processed) !! token_get_hash t = Some u → u ≤ t1) as [Ha Hu].
  { revert Hok. unfold token_guard, is_processed. case_bool_decide as Hs; [done|].
    destruct (token_is_expired _ _ _); [done|]. intros _. cbn [snd]. split.
    - unfold mark_processed, maybe_cleanup. case_cmp; done.
    - intros u. unfold mark_processed. unfold maybe_cleanup at 1. case_cmp; cbn.
      + rewrite lookup_insert_eq. intros [= <-]. lia.
      + rewrite map_lookup_filter_Some, lookup_insert_eq. intros [[= <-] _]. lia. }
  revert Ha Hu Hlast. generalize ((token_guard t1 validity t c).2) as c1. intros c1 Ha Hu Hlast.
  unfold token_guard, is_processed. rewrite bool_decide_false.
  - unfold token_is_expired. rewrite Hts, (proj2 (Z.ltb_ge _ _)) by lia. done.
  - intros [u Hl]. revert Hl. unfold maybe_cleanup, cleanup_interval, us_per_second in *. case_cmp.
    cbn. rewrite map_lookup_filter_Some. intros [Hl ?]. apply Hu in Hl. simpl in *. lia.
Qed.

(** Whatever sequence of [track_deletion] and [add_receipt] calls led to
    the tracker, a token is reported complete exactly when it is tracked and no
    expected peer is pending; every peer's receipt counts once; the success and
    failure counts add up to the receipts received. *)
Theorem tracker_status_correct (ops : list tracker_op) (h : string) :
  let tr := foldl tracker_step init_tracker ops in
  let st := get_deletion_status h tr in
  (is_complete h tr = true ↔
    is_Some (tr.(expected_peers) !! h) ∧ get_pending_peers h tr = ∅) ∧
  (get_pending_peers h tr ∪ (receipt_peers (get_receipts h tr) ∩ st.(st_expected)) = st.(st_expected)) ∧
  NoDup (rcp_peer_id <$> get_receipts h tr) ∧
  st.(st_success_count) + st.(st_failure_count) = st.(st_total_received).
Proof.
  intros tr st. assert (tracker_inv tr) as [Hd Hr _] by (by apply tracker_inv_run, tracker_inv_init).
  split; [|split; [|split]].
  - unfold is_complete, get_pending_peers. destruct (expected_peers tr !! h) as [ex|].
    + case_decide as He; [split; [|done]; intros _; split; [done|set_solver]|].
      rewrite bool_decide_eq_true. split; [intros; split; [done|set_solver]|].
      intros [_ Hs] x Hx. destruct (decide (x ∈ receipt_peers (get_receipts h tr))); [done|set_solver].
    + split; [done|]. by intros [[??] _].
  - unfold st, get_deletion_status, get_pending_peers. cbn.
    destruct (expected_peers tr !! h) as [ex|]; cbn; [|set_solver].
    apply set_eq. intros x. destruct (decide (x ∈ receipt_peers (get_receipts h tr))); set_solver.
  - unfold get_receipts. destruct (receipts tr !! h) as [rs|] eqn:E; [by apply (Hr h)|]. constructor.
  - unfold st, get_deletion_status. cbn. rewrite <-Nat2Z.inj_add. f_equal. apply length_filter_bool.
Qed.

End tracker.

Definition sample_token (ts : Z) : DeletionToken := mkToken "n" "ann" "0" (isoformat ts) "".

Lemma sample_token_time ts : 0 ≤ ts < max_datetime → fromisoformat (sample_token ts).(tok_timestamp) = Some ts.
Proof. apply fromisoformat_isoformat. Qed.

Lemma sample_token_fresh (now ts : Z) :
  0 ≤ ts < max_datetime → now - ts ≤ 300 * us_per_second →
  (token_guard (C := toy_crypto) now 300 (sample_token ts) (new_cache now 600)).1 = Ok ().
Proof.
  intros Hts Hnow. unfold token_guard, is_processed. rewrite bool_decide_false.
  - unfold token_is_expired. rewrite sample_token_time by done. by rewrite (proj2 (Z.ltb_ge _ _)) by lia.
  - unfold maybe_cleanup, new_cache. case_cmp; cbn; by intros [? ?].
Qed.

Lemma token_accepted_once_witness :
  let c' := guard_run (C := toy_crypto) 300 []
    (token_guard (C := toy_crypto) 5 300 (sample_token 3) (new_cache 5 600)).2 in
  (token_guard (C := toy_crypto) 10 300 (sample_token 3) c').1 = Raise ReplayAttackError ∨
  (token_guard (C := toy_crypto) 10 300 (sample_token 3) c').1 = Raise TokenExpiredError.
Proof.
  apply (token_accepted_once (C := toy_crypto) 300 5 10 3 (sample_token 3) [] (new_cache 5 600)).
  - reflexivity.
  - apply sample_token_time. split; [lia|reflexivity].
  - reflexivity.
  - apply sample_token_fresh; [split; [lia|reflexivity]|unfold us_per_second; lia].
  - simpl. lia.
Defined.

Lemma future_token_replayed_witness :
  (token_guard (C := toy_crypto) 600000000 300 (sample_token 400000000)
    (token_guard (C := toy_crypto) 0 300 (sample_token 400000000) (new_cache 0 600)).2).1 = Ok ().
Proof.
  apply (future_token_replayed (C := toy_crypto) 300 0 600000000 400000000
    (sample_token 400000000) (new_cache 0 600)).
  - reflexivity.
  - lia.
  - apply sample_token_time. split; [lia|reflexivity].
  - apply sample_token_fresh; [split; [lia|reflexivity]|unfold us_per_second; lia].
  - unfold token_guard, is_processed. case_bool_decide; [reflexivity|].
    destruct (token_is_expired _ _ _); [reflexivity|]. cbn. reflexivity.
  - unfold us_per_second. lia.
Defined.
