(* ===== verification/NetworkSim.v ===== *)
(** * Peers, the network and the deletion engine
      ([coc_framework/core/network_sim.py], [deletion_engine.py],
       [coc_framework/interfaces/peer_discovery.py])

    [World] is the state the objects of one simulation share: the registry of
    peers (each with its storage and offline queue), the deletion engine's
    token caches, the audit events, the notifications, and the messages whose
    delivery task is scheduled.  Every method is a state-and-exception
    computation; [step] is the relation between worlds in which scheduled
    deliveries complete in any order.  The storage backend is any instance of
    [StorageBackend].  A handler runs at one instant [now]; [nonce_of] gives
    the random nonce of the token issued for a node. *)

From Stdlib Require Import ZArith Lia String.
From S2P Require Import Prelude PyData DateTime Json Crypto CoCNode Storage DeletionEngine.

Inductive msg_body :=
  | CocData (node_data : NodeDict) (content : string)
  | DeletionTokenMsg (t : DeletionToken)
  | OtherMsg (kind : string) (payload : json).   (* ["secret_share"], ["timelocked_content"] *)

Record Message := mkMessage {
  msg_sender_id : string;
  msg_recipient_id : string;
  msg_body_of : msg_body;
}.

Inductive notification :=
  | DeletionRequested (peer_id msg_hash originator_id : string)
  | PeerStatusChanged (peer_id : string) (online : bool)
  | QueueProcessed (peer_id : string) (count : Z).

Record audit_event := mkEvent {
  ev_type : string;
  ev_actor : string;
  ev_target : string;
  ev_details : string;
}.

Section network.
Context {C : Crypto} {St : Type} `{SB : StorageBackend St}.
(** The engine's [token_validity_seconds] and [tombstone_grace_seconds]. *)
Context (validity grace : Z).

Record Peer := mkPeer {
  peer_id : string;
  signing_key : bytes;
  online : bool;
  storage : St;
  offline_queue : list (Z * Message);
  last_online_timestamp : Z;
  message_ttl_hours : Z;
}.

Record World := mkWorld {
  peers : gmap string Peer;
  token_caches : gmap string ProcessedTokenCache;
  audit_log : list audit_event;
  notifications : list notification;
  in_flight : list Message;
}.

(** ** Field updates *)

Definition set_peers (f : gmap string Peer → gmap string Peer) (w : World) : World :=
  mkWorld (f w.(peers)) w.(token_caches) w.(audit_log) w.(notifications) w.(in_flight).
Definition set_cache (id : string) (c : ProcessedTokenCache) (w : World) : World :=
  mkWorld w.(peers) (<[id := c]> w.(token_caches)) w.(audit_log) w.(notifications) w.(in_flight).
Definition set_storage (st : St) (p : Peer) : Peer :=
  mkPeer p.(peer_id) p.(signing_key) p.(online) st p.(offline_queue)
    p.(last_online_timestamp) p.(message_ttl_hours).
Definition set_online (b : bool) (t : Z) (p : Peer) : Peer :=
  mkPeer p.(peer_id) p.(signing_key) b p.(storage) p.(offline_queue) t p.(message_ttl_hours).
Definition set_queue (q : list (Z * Message)) (p : Peer) : Peer :=
  mkPeer p.(peer_id) p.(signing_key) p.(online) p.(storage) q
    p.(last_online_timestamp) p.(message_ttl_hours).

Definition log_event (ty actor target details : string) : M World unit :=
  modify (λ w, mkWorld w.(peers) w.(token_caches)
    (w.(audit_log) ++ [mkEvent ty actor target details]) w.(notifications) w.(in_flight)).

Definition notify (n : notification) : M World unit :=
  modify (λ w, mkWorld w.(peers) w.(token_caches) w.(audit_log)
    (w.(notifications) ++ [n]) w.(in_flight)).

(** The peer object [id]; the code holds a reference to it. *)
Definition get_peer (id : string) : M World Peer := λ w,
  (from_option_exn KeyError (w.(peers) !! id), w).

Definition update_storage (id : string) (f : St → St) : M World unit :=
  modify (set_peers (alter (λ p, set_storage (f p.(storage)) p) id)).

(** ** [RegistryPeerDiscovery] *)

Definition find_peer (id : string) (w : World) : option Peer := w.(peers) !! id.

Definition register_peer (p : Peer) : M World bool :=
  modify (set_peers (<[p.(peer_id) := p]>)) ;; mret true.

Definition unregister_peer (id : string) : M World bool :=
  known ← gets (λ w, bool_decide (is_Some (w.(peers) !! id)));
  if (known : bool) then modify (set_peers (delete id)) ;; mret true else mret false.

Definition list_online_peers (w : World) : list string :=
  peer_id <$> filter (λ p, p.(online) = true) (map_to_list w.(peers)).*2.

Definition get_peer_status (id : string) (w : World) : bool :=
  match find_peer id w with Some p => p.(online) | None => false end.

(** ** [Network.route_message] and [Peer.send_message] *)

Definition route_message (now : Z) (m : Message) : M World unit :=
  recipient ← gets (find_peer m.(msg_recipient_id));
  match recipient with
  | None => mret ()
  | Some r =>
      if r.(online)
      then modify (λ w, mkWorld w.(peers) w.(token_caches) w.(audit_log) w.(notifications)
                          (w.(in_flight) ++ [m]))
      else modify (set_peers
             (alter (λ p, set_queue (p.(offline_queue) ++ [(now, m)]) p) m.(msg_recipient_id)))
  end.

Definition send_message (now : Z) (self recipient : string) (b : msg_body) : M World unit :=
  route_message now (mkMessage self recipient b).

(** ** [DeletionEngine] *)

Definition get_token_cache (now : Z) (id : string) : M World ProcessedTokenCache :=
  cache ← gets (λ w, w.(token_caches) !! id);
  match cache with
  | Some c => mret c
  | None =>
      let c := new_cache now (validity * 2) in
      modify (set_cache id c) ;; mret c
  end.

Definition clear_token_cache (id : option string) : M World unit :=
  modify (λ w, match id with
    | Some i => if decide (i = "") then
        mkWorld w.(peers) ∅ w.(audit_log) w.(notifications) w.(in_flight)
      else mkWorld w.(peers) (alter clear_cache i w.(token_caches)) w.(audit_log)
             w.(notifications) w.(in_flight)
    | None => mkWorld w.(peers) ∅ w.(audit_log) w.(notifications) w.(in_flight)
    end).

Definition issue_token (now : Z) (nonce : string) (node : CoCNode) (originator : Peer)
    : M World DeletionToken :=
  if decide (node.(owner_id) ≠ originator.(peer_id)) then raise PermissionError
  else
    let token := token_sign originator.(signing_key)
      (mkToken node.(node_hash) originator.(peer_id) nonce (isoformat now) "") in
    log_event "DELETE_ISSUE" originator.(peer_id) ("Node: " +:+ node.(node_hash)) "" ;;
    mret token.

(** [Peer.initiate_deletion]. *)
Definition initiate_deletion (now : Z) (nonce_of : string → string) (self : string)
    (node : CoCNode) : M World unit :=
  p ← get_peer self;
  token ← issue_token now (nonce_of node.(node_hash)) node p;
  for_each node.(recipient_ids) (λ recipient_id,
    send_message now self recipient_id (DeletionTokenMsg token)).

(** The replay and expiry guard, with its audit events. *)
Definition guard_token (now : Z) (token : DeletionToken) (id : string) : M World unit :=
  cache ← get_token_cache now id;
  let '(verdict, cache) := token_guard now validity token cache in
  modify (set_cache id cache) ;;
  match verdict with
  | Raise ReplayAttackError =>
      log_event "DELETE_FAIL" id ("Node: " +:+ token.(tok_node_hash)) "Replay attack detected" ;;
      raise ReplayAttackError
  | Raise e =>
      log_event "DELETE_FAIL" id ("Node: " +:+ token.(tok_node_hash)) "Token expired" ;;
      raise e
  | Ok tt => mret ()
  end.

(** [remove_node], then content and tombstone when nothing references it. *)
Definition delete_node (now : Z) (token : DeletionToken) (id : string) (node : CoCNode)
    : M World unit :=
  update_storage id (remove_node node.(node_hash)) ;;
  p ← get_peer id;
  if is_content_referenced node.(content_hash) p.(storage) then mret ()
  else
    update_storage id (remove_content node.(content_hash)) ;;
    delete_after ← lift (add_seconds now grace);
    update_storage id (add_tombstone
      (mkTombstone node.(content_hash) (isoformat now) (isoformat delete_after)
         token.(tok_originator_id) node.(node_hash))).

(** The stored children of [node] that the peer owns. *)
Definition own_children (id : string) (st : St) (node : CoCNode) : result (list CoCNode) :=
  mapR (λ h, get_node h st) (elements node.(children_hashes)) ≫= λ found : list (option CoCNode),
  Ok (filter (λ c, c.(owner_id) = id) (omap (λ o, o) found)).

(** The end of [process_token]: delete, log, notify, cascade. *)
Definition commit_deletion (now : Z) (nonce_of : string → string) (token : DeletionToken)
    (receiving_peer : string) (node_to_delete : CoCNode) (children_to_delete : list CoCNode)
    : M World bool :=
  delete_node now token receiving_peer node_to_delete ;;
  log_event "DELETE_SUCCESS" receiving_peer ("Node: " +:+ node_to_delete.(node_hash)) "" ;;
  notify (DeletionRequested receiving_peer token.(tok_node_hash) token.(tok_originator_id)) ;;
  for_each children_to_delete (initiate_deletion now nonce_of receiving_peer) ;;
  mret true.

Definition process_token (now : Z) (nonce_of : string → string) (token : DeletionToken)
    (receiving_peer : string) : M World bool :=
  guard_token now token receiving_peer ;;
  originator ← gets (find_peer token.(tok_originator_id));
  match originator with
  | None => mret false
  | Some originator =>
      sig ← lift (fromhex token.(tok_signature));
      if negb (verify_signature (verify_key originator.(signing_key)) (token_signing_data token) sig)
      then
        log_event "DELETE_FAIL" receiving_peer ("Node: " +:+ token.(tok_node_hash))
          "Invalid signature" ;;
        mret false
      else
        p ← get_peer receiving_peer;
        found ← lift (get_node token.(tok_node_hash) p.(storage));
        match found with
        | None => mret false
        | Some node_to_delete =>
            children_to_delete ← lift (own_children receiving_peer p.(storage) node_to_delete);
            commit_deletion now nonce_of token receiving_peer node_to_delete children_to_delete
        end
  end.

(** ** [Peer] *)

Definition create_coc_root (now : Z) (self content : string) (recipient_ids : list string)
    : M World CoCNode :=
  p ← get_peer self;
  let hash := hash_content content in
  let node := new_node now hash p.(peer_id) p.(signing_key) recipient_ids None 0 in
  update_storage self (add_node now node) ;;
  update_storage self (add_content now hash content) ;;
  mret node.

(** Returns the child and the parent object, whose children changed. *)
Definition forward_coc_message (now : Z) (self : string) (parent_node : CoCNode)
    (recipient_ids : list string) : M World (CoCNode * CoCNode) :=
  p ← get_peer self;
  let child_node := new_node now parent_node.(content_hash) p.(peer_id) p.(signing_key)
                      recipient_ids (Some parent_node.(node_hash)) 0 in
  let '(parent_node, child_node) := add_child parent_node child_node in
  update_storage self (add_node now child_node) ;;
  update_storage self (add_node now parent_node) ;;
  mret (child_node, parent_node).

Definition receive_coc_data (now : Z) (self : string) (node_data : NodeDict) (content : string)
    : M World unit :=
  node ← lift (from_dict node_data);
  update_storage self (add_node now node) ;;
  update_storage self (add_content now node.(content_hash) content) ;;
  match node.(parent_hash) with
  | None | Some ""%string => mret ()
  | Some parent =>
      p ← get_peer self;
      found ← lift (get_node parent p.(storage));
      match found with
      | None => mret ()
      | Some parent_node =>
          let '(parent_node, node) := add_child parent_node node in
          update_storage self (add_node now parent_node) ;;
          update_storage self (alias_depth node.(node_hash) node.(depth))
      end
  end.

Definition receive_message (now : Z) (nonce_of : string → string) (self : string)
    (m : Message) : M World unit :=
  match m.(msg_body_of) with
  | CocData node_data content => receive_coc_data now self node_data content
  | DeletionTokenMsg token => process_token now nonce_of token self ;; mret ()
  | OtherMsg _ _ => mret ()
  end.

Definition go_offline (now : Z) (self : string) : M World unit :=
  modify (set_peers (alter (set_online false now) self)) ;;
  notify (PeerStatusChanged self false).

Definition us_per_hour : Z := 3600 * us_per_second.

(** The loop over a copy of the offline queue; returns [processed_count]. *)
Fixpoint process_queue (now : Z) (nonce_of : string → string) (self : string) (ttl_hours : Z)
    (queue : list (Z * Message)) (processed_count : Z) : M World Z :=
  match queue with
  | [] => mret processed_count
  | (timestamp, message) :: queue =>
      if now - timestamp <=? ttl_hours * us_per_hour
      then receive_message now nonce_of self message ;;
           process_queue now nonce_of self ttl_hours queue (processed_count + 1)
      else process_queue now nonce_of self ttl_hours queue processed_count
  end.

Definition go_online (now : Z) (nonce_of : string → string) (self : string) : M World unit :=
  modify (set_peers (alter (λ p, set_online true p.(last_online_timestamp) p) self)) ;;
  notify (PeerStatusChanged self true) ;;
  p ← get_peer self;
  processed_count ← process_queue now nonce_of self p.(message_ttl_hours) p.(offline_queue) 0;
  modify (set_peers (alter (set_queue []) self)) ;;
  notify (QueueProcessed self processed_count).

(** ** The world in motion *)

(** The store of a new peer. *)
Context (empty_store : St).

(** A step at time [now]: a scheduled delivery completes (even when its
    recipient went offline meanwhile), or a user action runs.  An exception
    ends the handler but not the world. *)
Inductive step (now : Z) : World → World → Prop :=
  | step_deliver w before m after nonce_of :
      w.(in_flight) = before ++ m :: after →
      step now w (receive_message now nonce_of m.(msg_recipient_id) m
        (mkWorld w.(peers) w.(token_caches) w.(audit_log) w.(notifications) (before ++ after))).2
  | step_create w self content recipients :
      is_Some (w.(peers) !! self) →
      step now w (create_coc_root now self content recipients w).2
  | step_forward w self p h parent recipients :
      w.(peers) !! self = Some p → get_node h p.(storage) = Ok (Some parent) →
      step now w (forward_coc_message now self parent recipients w).2
  | step_send_data w self node content recipient :
      is_Some (w.(peers) !! self) → wf_node node →
      step now w (send_message now self recipient (CocData (to_dict node) content) w).2
  | step_send_other w self kind payload recipient :
      is_Some (w.(peers) !! self) →
      step now w (send_message now self recipient (OtherMsg kind payload) w).2
  | step_initiate w self p h node nonce_of :
      w.(peers) !! self = Some p → get_node h p.(storage) = Ok (Some node) →
      step now w (initiate_deletion now nonce_of self node w).2
  | step_offline w self : step now w (go_offline now self w).2
  | step_online w self nonce_of : step now w (go_online now nonce_of self w).2
  | step_register w p :
      w.(peers) !! p.(peer_id) = None → p.(storage) = empty_store → p.(offline_queue) = [] →
      step now w (register_peer p w).2.

(** Steps at non-decreasing times. *)
Inductive reachable : Z → World → Prop :=
  | reach_init now : 0 ≤ now → reachable now (mkWorld ∅ ∅ [] [] [])
  | reach_step now now' w w' :
      reachable now w → now ≤ now' → step now' w w' → reachable now' w'.

End network.

Arguments Peer : clear implicits.
Arguments World : clear implicits.

(** ** What leaves the stored data alone *)

Section frame.
Context {C : Crypto} {St : Type} `{SB : StorageBackend St}.
Context (validity grace : Z).
Implicit Types (w : World St).

(** The part of a peer that bookkeeping (queues, caches, logs) never touches. *)
Definition core_of (p : Peer St) : string * bytes * St := (p.(peer_id), p.(signing_key), p.(storage)).

Definition frame w w' : Prop :=
  ∀ id, core_of <$> w.(peers) !! id = core_of <$> w'.(peers) !! id.

#[global] Instance frame_preorder : PreOrder frame.
Proof. split; [by intros w id|]. intros w1 w2 w3 H1 H2 id. by rewrite H1. Qed.

Lemma frame_lookup w w' id p : frame w w' → w.(peers) !! id = Some p →
  ∃ p', w'.(peers) !! id = Some p' ∧ core_of p' = core_of p.
Proof.
  intros Hf Hp. specialize (Hf id). rewrite Hp in Hf. simpl in Hf. symmetry in Hf.
  apply fmap_Some in Hf as (p' & Hp' & Heq). eauto.
Qed.

Lemma frame_storage w w' : frame w w' →
  ∀ id, storage <$> w.(peers) !! id = storage <$> w'.(peers) !! id.
Proof.
  intros Hf id. specialize (Hf id). destruct (peers w !! id), (peers w' !! id); try done.
  cbn in *. by injection Hf as _ _ ->.
Qed.

Definition preserves {A} (m : M (World St) A) : Prop := ∀ w, frame w (m w).2.

Lemma preserves_bind {A B} (m : M (World St) A) (f : A → M (World St) B) :
  preserves m → (∀ a, preserves (f a)) → preserves (m ≫= f).
Proof.
  intros Hm Hf w. unfold mbind, M_bind. specialize (Hm w). destruct (m w) as [[a|e] w1]; [|done].
  etrans; [exact Hm|apply Hf].
Qed.
Lemma preserves_ret {A} (a : A) : preserves (mret a).
Proof. by intros w id. Qed.
Lemma preserves_raise {A} e : preserves (raise (A := A) e).
Proof. by intros w id. Qed.
Lemma preserves_lift {A} (r : result A) : preserves (lift r).
Proof. by intros w id. Qed.
Lemma preserves_gets {A} (f : World St → A) : preserves (gets f).
Proof. by intros w id. Qed.
Lemma preserves_get_peer id : preserves (get_peer id).
Proof. by intros w id'. Qed.
Lemma preserves_log_event a b c d : preserves (log_event a b c d).
Proof. by intros w id. Qed.
Lemma preserves_notify n : preserves (notify n).
Proof. by intros w id. Qed.
Lemma preserves_set_cache id c : preserves (modify (set_cache id c)).
Proof. by intros w id'. Qed.
Lemma preserves_alter id (f : Peer St → Peer St) :
  (∀ p, core_of (f p) = core_of p) → preserves (modify (set_peers (alter f id))).
Proof.
  intros Hf w id'. simpl. destruct (decide (id' = id)) as [->|].
  - rewrite lookup_alter_eq. destruct (peers w !! id); simpl; [by rewrite Hf|done].
  - by rewrite lookup_alter_ne.
Qed.
Lemma preserves_for_each {A} (l : list A) body :
  (∀ x, preserves (body x)) → preserves (for_each l body).
Proof.
  intros Hb. induction l as [|x l IH]; simpl; [apply preserves_ret|]. by apply preserves_bind.
Qed.
Create HintDb frame.
#[local] Hint Resolve preserves_ret preserves_raise preserves_lift preserves_gets preserves_get_peer
  preserves_log_event preserves_notify preserves_set_cache preserves_for_each : frame.
#[local] Hint Resolve preserves_bind : frame.

Lemma preserves_route_message now m : preserves (route_message now m).
Proof.
  apply preserves_bind; [auto with frame|]. intros [r|]; [|auto with frame].
  destruct (online r); [by intros w id|]. by apply preserves_alter.
Qed.
Lemma preserves_issue_token now nonce node p : preserves (issue_token now nonce node p).
Proof. unfold issue_token. case_decide; auto with frame. Qed.
Lemma preserves_initiate_deletion now nonce_of self node :
  preserves (initiate_deletion now nonce_of self node).
Proof.
  apply preserves_bind; [auto with frame|]. intros p.
  apply preserves_bind; [apply preserves_issue_token|]. intros t.
  apply preserves_for_each. intros r. apply preserves_route_message.
Qed.
Lemma preserves_guard_token now token id : preserves (guard_token validity now token id).
Proof.
  apply preserves_bind.
  - unfold get_token_cache. apply preserves_bind; [auto with frame|]. intros [c|]; auto with frame.
  - intros c. destruct (token_guard now validity token c) as [verdict c'].
    apply preserves_bind; [auto with frame|]. intros _. destruct verdict as [[]|[]]; auto with frame.
Qed.
End frame.

(** ** What [process_token] does *)

Section deletion.
Context {C : Crypto} {St : Type} `{SB : StorageBackend St} `{SS : !StorageSpec St}.
Context (validity grace : Z).
Implicit Types (w : World St).

Definition world_inv w : Prop :=
  ∀ id p, w.(peers) !! id = Some p → p.(peer_id) = id ∧ storage_inv p.(storage).

(** The tombstone a deletion at [now] leaves. *)
Definition deletion_tombstone (now : Z) (token : DeletionToken) (n : CoCNode) : ContentTombstone :=
  mkTombstone n.(content_hash) (isoformat now) (isoformat (now + grace * 1000000))
    token.(tok_originator_id) n.(node_hash).

(** What deleting node [n] means on the abstract store: the node goes; its
    content goes, and a tombstone stays, when no other node references it. *)
Definition deletes (now : Z) (token : DeletionToken) (n : CoCNode) (s s' : Store) : Prop :=
  s'.(s_nodes) = delete n.(node_hash) s.(s_nodes) ∧
  (references s'.(s_nodes) n.(content_hash) ∧
     s'.(s_content) = s.(s_content) ∧ s'.(s_tombstones) = s.(s_tombstones) ∨
   ¬ references s'.(s_nodes) n.(content_hash) ∧
     s'.(s_content) = delete n.(content_hash) s.(s_content) ∧
     s'.(s_tombstones) =
       <[n.(content_hash) := deletion_tombstone now token n]> s.(s_tombstones)).

Lemma update_storage_run id f w p :
  w.(peers) !! id = Some p →
  update_storage id f w = (Ok (), set_peers (<[id := set_storage (f p.(storage)) p]>) w).
Proof.
  intros Hp. unfold update_storage, modify, set_peers. do 2 f_equal.
  apply map_eq. intros id'. destruct (decide (id' = id)) as [->|].
  - by rewrite lookup_alter_eq, lookup_insert_eq, Hp.
  - by rewrite lookup_alter_ne, lookup_insert_ne.
Qed.

Lemma delete_node_spec now token id n w p :
  0 ≤ now → 0 ≤ now + grace * 1000000 < max_datetime →
  w.(peers) !! id = Some p → storage_inv p.(storage) →
  ∃ w' st', delete_node grace now token id n w = (Ok (), w') ∧
    w'.(peers) = <[id := set_storage st' p]> w.(peers) ∧
    storage_inv st' ∧ deletes now token n (store p.(storage)) (store st').
Proof.
  intros Hnow Hgrace Hp Hinv. unfold delete_node. unfold mbind, M_bind.
  rewrite (update_storage_run _ _ _ _ Hp). cbn [fst snd].
  unfold get_peer. cbn [set_peers peers]. rewrite lookup_insert_eq. cbn [from_option_exn storage set_storage].
  destruct (remove_node_ok n.(node_hash) (storage p) Hinv) as [Hinv1 Hst1].
  set (st1 := remove_node (node_hash n) (storage p)) in *.
  destruct (is_content_referenced (content_hash n) st1) eqn:Href.
  - apply (is_content_referenced_ok _ _ Hinv1) in Href. rewrite Hst1 in Href.
    eexists _, st1. split; [reflexivity|]. split; [done|]. split; [done|]. rewrite Hst1. split; [done|]. left. done.
  - assert (¬ references (s_nodes (store st1)) (content_hash n)) as Hnref.
    { rewrite <-(is_content_referenced_ok _ _ Hinv1), Href. done. }
    rewrite (update_storage_run _ _ _ (set_storage st1 p)) by (cbn; by rewrite lookup_insert_eq).
    cbn [fst snd]. unfold lift, add_seconds.
    rewrite (proj2 (Z.ltb_ge _ _)), (proj2 (Z.leb_gt _ _)) by lia. cbn [orb].
    destruct (remove_content_ok n.(content_hash) st1 Hinv1) as [Hinv2 Hst2].
    set (st2 := remove_content (content_hash n) st1) in *.
    rewrite (update_storage_run _ _ _ (set_storage st2 p))
      by (cbn; by rewrite lookup_insert_eq).
    fold (deletion_tombstone now token n).
    destruct (add_tombstone_ok (deletion_tombstone now token n) st2 Hinv2) as [Hinv3 Hst3].
    { exists (now + grace * 1000000). done. }
    eexists _, (add_tombstone (deletion_tombstone now token n) st2).
    split; [reflexivity|]. split; [cbn; by rewrite !insert_insert_eq|]. split; [done|].
    rewrite Hst3, Hst2, Hst1 in *. split; [done|]. right. done.
Qed.

(** A stored child's owner may issue tokens for it, so cascading never raises. *)
Lemma initiate_deletion_Ok now nonce_of self node w p :
  w.(peers) !! self = Some p → p.(peer_id) = node.(owner_id) →
  (initiate_deletion now nonce_of self node w).1 = Ok ().
Proof.
  intros Hp Ho. unfold initiate_deletion. unfold mbind, M_bind, get_peer. rewrite Hp. cbn.
  unfold issue_token. rewrite decide_False by (intros Hne; by apply Hne). cbn.
  assert (∀ l w, (for_each l (λ recipient_id, send_message now self recipient_id (DeletionTokenMsg
    (token_sign p.(signing_key) (mkToken node.(node_hash) p.(peer_id) (nonce_of node.(node_hash)) (isoformat now) "")))) w).1
    = Ok ()) as Hsend.
  { induction l as [|r l IH]; intros w'; [done|]. simpl. unfold mbind, M_bind.
    destruct (send_message _ _ _ _ w') as [[[]|e] w''] eqn:E; [apply IH|].
    exfalso. revert E. unfold send_message, route_message, mbind, M_bind, gets. cbn beta iota.
    cbn [msg_recipient_id]. destruct (find_peer r w') as [q|]; [destruct (online q)|];
      unfold modify; intros E; simplify_eq. }
  apply Hsend.
Qed.

Lemma for_each_initiate_Ok now nonce_of self nodes w p :
  w.(peers) !! self = Some p → Forall (λ n, n.(owner_id) = p.(peer_id)) nodes →
  (for_each nodes (initiate_deletion now nonce_of self) w).1 = Ok ().
Proof.
  intros Hp Hall. revert w p Hp Hall. induction nodes as [|n nodes IH]; intros w p Hp Hall; [done|].
  apply Forall_cons in Hall as [Hn Hall]. simpl. unfold mbind, M_bind.
  pose proof (initiate_deletion_Ok now nonce_of self n w p Hp (eq_sym Hn)) as Hok.
  pose proof (preserves_initiate_deletion now nonce_of self n w) as Hf.
  destruct (initiate_deletion now nonce_of self n w) as [r w']. cbn [fst snd] in *. subst r.
  destruct (frame_lookup _ _ _ _ Hf Hp) as (p' & Hp' & [= Hid _ _]).
  apply (IH w' p' Hp'). by rewrite Hid.
Qed.

Lemma own_children_owner id st n cs :
  own_children id st n = Ok cs → Forall (λ c, c.(owner_id) = id) cs.
Proof.
  unfold own_children. destruct (mapR _ _) as [found|]; [|done]. intros [= <-].
  apply Forall_forall. by intros c [? _]%list_elem_of_filter.
Qed.

Lemma commit_deletion_spec now nonce_of token id n cs w p :
  0 ≤ now → 0 ≤ now + grace * 1000000 < max_datetime →
  w.(peers) !! id = Some p → storage_inv p.(storage) →
  Forall (λ c, c.(owner_id) = p.(peer_id)) cs →
  ∃ w' st', commit_deletion grace now nonce_of token id n cs w = (Ok true, w') ∧
    storage_inv st' ∧ deletes now token n (store p.(storage)) (store st') ∧
    ∀ id', storage <$> w'.(peers) !! id' =
      if decide (id' = id) then Some st' else storage <$> w.(peers) !! id'.
Proof.
  intros Hnow Hgrace Hp Hinv Hown.
  destruct (delete_node_spec now token id n w p Hnow Hgrace Hp Hinv)
    as (w2 & st' & Hdel & Hpeers & Hinv' & Hdeletes).
  unfold commit_deletion. unfold mbind at 1, M_bind at 1. rewrite Hdel.
  unfold mbind at 1, M_bind at 1. cbn [log_event modify].
  unfold mbind at 1, M_bind at 1. cbn [notify modify].
  unfold mbind at 1, M_bind at 1. set (w3 := mkWorld _ _ _ _ _).
  assert (peers w3 = <[id := set_storage st' p]> w.(peers)) as Hp3 by done.
  pose proof (for_each_initiate_Ok now nonce_of id cs w3 (set_storage st' p)) as Hok.
  rewrite Hp3, lookup_insert_eq in Hok. specialize (Hok eq_refl Hown).
  pose proof (preserves_for_each cs (initiate_deletion now nonce_of id)
    (preserves_initiate_deletion now nonce_of id) w3) as Hf3.
  destruct (for_each cs (initiate_deletion now nonce_of id) w3) as [r w4]. cbn [fst snd] in Hok, Hf3.
  subst r. exists w4, st'. split; [done|]. split; [done|]. split; [done|].
  intros id'. rewrite <-(frame_storage _ _ Hf3), Hp3. case_decide as Hid.
  - by rewrite Hid, lookup_insert_eq.
  - by rewrite lookup_insert_ne.
Qed.

(** The cache [process_token] consults for a peer. *)
Definition peer_cache (now : Z) (id : string) w : ProcessedTokenCache :=
  default (new_cache now (validity * 2)) (w.(token_caches) !! id).

Lemma guard_token_run now token id w :
  ∃ w1, w1.(peers) = w.(peers) ∧
    guard_token validity now token id w =
      (match (token_guard now validity token (peer_cache now id w)).1 with
       | Ok _ => Ok () | Raise e => Raise e end, w1).
Proof.
  unfold guard_token, peer_cache, get_token_cache. unfold mbind, M_bind, gets, modify, mret, M_ret.
  destruct (token_caches w !! id) as [c|]; cbn -[token_guard];
    match goal with |- context [token_guard now validity token ?c] =>
      destruct (token_guard now validity token c) as [[[]|[]] c'] end;
    cbn; eexists; (split; [|reflexivity]); done.
Qed.

Lemma own_children_Ok id st n : storage_inv st → ∃ cs, own_children id st n = Ok cs.
Proof.
  intros Hinv. unfold own_children.
  rewrite (mapR_Ok_fmap _ (λ h, (store st).(s_nodes) !! h)); [by eexists|].
  intros h _. by apply get_node_ok.
Qed.

(** Everything the token must satisfy for [process_token] to act on it. *)
Definition authentic w (token : DeletionToken) : Prop :=
  ∃ originator sig, w.(peers) !! token.(tok_originator_id) = Some originator ∧
    fromhex token.(tok_signature) = Ok sig ∧
    verify_signature (verify_key originator.(signing_key)) (token_signing_data token) sig = true.

(** Why [process_token] refuses a token, one case per early return and
    exception: the replay and expiry guard, a signature that is not hexadecimal
    text, an unknown originator, a signature that does not verify, a node that
    is not stored at the receiver. *)
Definition refused (now : Z) (token : DeletionToken) (id : string) w (p : Peer St) (r : result bool) : Prop :=
  (∃ e, (token_guard now validity token (peer_cache now id w)).1 = Raise e ∧ r = Raise e ∧
     (e = ReplayAttackError ∨ e = TokenExpiredError)) ∨
  (token_guard now validity token (peer_cache now id w)).1 = Ok () ∧
  ((r = Ok false ∧ w.(peers) !! token.(tok_originator_id) = None) ∨
   (∃ originator, w.(peers) !! token.(tok_originator_id) = Some originator ∧
      (r = Raise ValueError ∧ fromhex token.(tok_signature) = Raise ValueError ∨
       ∃ sig, fromhex token.(tok_signature) = Ok sig ∧ r = Ok false ∧
         (verify_signature (verify_key originator.(signing_key)) (token_signing_data token) sig = false ∨
          (store p.(storage)).(s_nodes) !! token.(tok_node_hash) = None)))).

(** C12: [process_token] is all or nothing.  Either it returns [True]; then the
    guard let the token pass, it carries a valid signature of its originator,
    the named node was stored at the receiving peer, and exactly that node is
    deleted there: its content is removed, and a tombstone left, if and only if
    no remaining node references it; no other peer's store changes.  Or no store
    changes, and the token was [refused]: a replay or expired token raises its
    exception, a signature that is not hexadecimal raises [ValueError], and an
    unknown originator, a signature that does not verify or a node that is not
    stored give [False]. *)
Theorem process_token_outcome (now : Z) (nonce_of : string → string) (token : DeletionToken)
    (id : string) w (p : Peer St) :
  world_inv w → w.(peers) !! id = Some p →
  0 ≤ now → 0 ≤ now + grace * 1000000 < max_datetime →
  let '(r, w') := process_token validity grace now nonce_of token id w in
  (r = Ok true ∧ (token_guard now validity token (peer_cache now id w)).1 = Ok () ∧ authentic w token ∧
     (∃ n p', (store p.(storage)).(s_nodes) !! token.(tok_node_hash) = Some n ∧
        w'.(peers) !! id = Some p' ∧ storage_inv p'.(storage) ∧
        deletes now token n (store p.(storage)) (store p'.(storage))) ∧
     ∀ id', id' ≠ id → storage <$> w'.(peers) !! id' = storage <$> w.(peers) !! id') ∨
  (refused now token id w p r ∧ ∀ id', storage <$> w'.(peers) !! id' = storage <$> w.(peers) !! id').
Proof.
  intros Hw Hp Hnow Hgrace. destruct (Hw _ _ Hp) as [Hid Hinv].
  unfold process_token. unfold mbind at 1, M_bind at 1.
  destruct (guard_token_run now token id w) as (w1 & Hw1 & ->).
  assert (∀ id', storage <$> w1.(peers) !! id' = storage <$> w.(peers) !! id') as Hsame by (intros; by rewrite Hw1).
  destruct (token_guard now validity token (peer_cache now id w)).1 as [[]|e] eqn:Hguard.
  2:{ right. split; [|done]. left. exists e. split; [done|]. split; [done|]. by eapply token_guard_raise. }
  unfold mbind at 1, M_bind at 1, gets at 1, find_peer. rewrite Hw1.
  destruct (peers w !! tok_originator_id token) as [orig|] eqn:Horig; [|right; split; [|done]; right; auto].
  unfold mbind at 1, M_bind at 1, lift at 1.
  destruct (fromhex (tok_signature token)) as [sg|e] eqn:Hsig.
  2:{ assert (e = ValueError) as -> by by eapply bytes_fromhex_raise.
      right. split; [|done]. right. eauto 10. }
  destruct (verify_signature _ _ _) eqn:Hver; cbn [negb]; [|right; split; [|done]; right; eauto 12].
  unfold mbind at 1, M_bind at 1, get_peer. rewrite Hw1, Hp. cbn [from_option_exn].
  unfold mbind at 1, M_bind at 1, lift at 1. rewrite (get_node_ok _ _ Hinv).
  destruct (s_nodes (store (storage p)) !! tok_node_hash token) as [n|] eqn:Hn; [|right; split; [|done]; right; eauto 12].
  unfold mbind at 1, M_bind at 1, lift at 1. destruct (own_children_Ok id _ n Hinv) as [cs Hcs]. rewrite Hcs.
  apply own_children_owner in Hcs. rewrite <-Hid in Hcs. rewrite <-Hw1 in Hp.
  destruct (commit_deletion_spec now nonce_of token id n cs w1 p Hnow Hgrace Hp Hinv Hcs)
    as (w2 & st' & -> & Hinv' & Hdel & Hpeers).
  left. split; [done|]. split; [done|]. split; [by exists orig, sg|]. split.
  - specialize (Hpeers id). rewrite decide_True in Hpeers by done.
    apply fmap_Some in Hpeers as (p2 & Hp2 & ->). by exists n, p2.
  - intros id' Hne. by rewrite Hpeers, decide_False.
Qed.
End deletion.

(** ** Invariants of every reachable world *)

Section reachable.
Context {C : Crypto} {L : CryptoLaws C} {St : Type} `{SB : StorageBackend St} `{SS : !StorageSpec St}.
Context (validity grace : Z) (empty_store : St) (Hempty : storage_inv empty_store).
Implicit Types (w : World St).

Definition issue_event (actor h : string) : audit_event :=
  mkEvent "DELETE_ISSUE" actor ("Node: " +:+ h) "".

(** A token signed by the registered peer it names as originator, with a
    [DELETE_ISSUE] event of that peer for the node in the audit log. *)
Definition issued w (t : DeletionToken) : Prop :=
  authentic w t ∧ issue_event t.(tok_originator_id) t.(tok_node_hash) ∈ w.(audit_log).

(** Chain data is a well-formed node's; a token's sender issued it. *)
Definition message_ok w (m : Message) : Prop :=
  match m.(msg_body_of) with
  | CocData nd _ => ∃ n, wf_node n ∧ nd = to_dict n
  | DeletionTokenMsg t => m.(msg_sender_id) = t.(tok_originator_id) ∧ issued w t
  | OtherMsg _ _ => True
  end.

(** Stores are consistent, everything in transit is genuine, and every
    successful deletion in the audit log was issued by some peer. *)
Record transit_inv w : Prop := {
  ti_peers : world_inv w;
  ti_flight : Forall (message_ok w) w.(in_flight);
  ti_queues id p : w.(peers) !! id = Some p → Forall (λ tm, message_ok w tm.2) p.(offline_queue);
  ti_audit e : e ∈ w.(audit_log) → e.(ev_type) = "DELETE_SUCCESS" →
    ∃ actor, mkEvent "DELETE_ISSUE" actor e.(ev_target) "" ∈ w.(audit_log);
}.

(** [w'] keeps every registered key and every audit event of [w]. *)
Definition extends w w' : Prop :=
  (∀ id p, w.(peers) !! id = Some p →
    ∃ p', w'.(peers) !! id = Some p' ∧ p'.(signing_key) = p.(signing_key)) ∧
  w.(audit_log) ⊆ w'.(audit_log).

#[local] Instance extends_preorder : PreOrder extends.
Proof.
  split; [split; [eauto|done]|]. intros w1 w2 w3 [K1 A1] [K2 A2]. split; [|set_solver].
  intros id p Hp. destruct (K1 _ _ Hp) as (p2 & Hp2 & E2), (K2 _ _ Hp2) as (p3 & Hp3 & E3).
  exists p3. split; congruence.
Qed.

Lemma message_ok_extends w w' m : extends w w' → message_ok w m → message_ok w' m.
Proof.
  intros [Hk Ha]. unfold message_ok, issued, authentic. destruct (msg_body_of m) as [|t|]; try done.
  intros (Hs & (o & sg & Ho & Hx & Hv) & Hin). split; [done|]. split; [|by apply Ha].
  destruct (Hk _ _ Ho) as (o' & Ho' & Hkey). exists o', sg. by rewrite Hkey.
Qed.

(** [m] keeps the invariant, only extends the world, and its value satisfies
    [Φ] whenever it returns. *)
Definition safe {A} (m : M (World St) A) (Φ : A → World St → Prop) w : Prop :=
  let '(r, w') := m w in
  transit_inv w' ∧ extends w w' ∧ match r with Ok a => Φ a w' | Raise _ => True end.

Lemma safe_bind {A B} (m : M (World St) A) (f : A → M (World St) B) Φ Ψ w :
  safe m Φ w →
  (∀ a w', transit_inv w' → extends w w' → Φ a w' → safe (f a) Ψ w') →
  safe (m ≫= f) Ψ w.
Proof.
  unfold safe, mbind, M_bind. destruct (m w) as [[a|e] w1]; intros (Hi & He & Hphi) Hf; [|done].
  specialize (Hf a w1 Hi He Hphi). destruct (f a w1) as [r w2]. destruct Hf as (? & ? & ?).
  split; [done|]. split; [by etrans|done].
Qed.

Lemma safe_pure {A} (m : M (World St) A) (Φ : A → World St → Prop) w :
  transit_inv w → (m w).2 = w → (∀ a, (m w).1 = Ok a → Φ a w) → safe m Φ w.
Proof.
  intros Hi Hw Hphi. unfold safe. destruct (m w) as [r w']. cbn in *. subst w'.
  split; [done|]. split; [done|]. destruct r; auto.
Qed.

Lemma safe_weaken {A} (m : M (World St) A) (Φ Ψ : A → World St → Prop) w :
  safe m Φ w → (∀ a w', Φ a w' → Ψ a w') → safe m Ψ w.
Proof. unfold safe. destruct (m w) as [[]]; naive_solver. Qed.

(** A world that extends one satisfying the invariant satisfies it when its
    stores do and what it adds is genuine. *)
Lemma transit_intro w w' :
  transit_inv w → extends w w' → world_inv w' →
  (∀ m, m ∈ w'.(in_flight) → m ∈ w.(in_flight) ∨ message_ok w' m) →
  (∀ id p' tm, w'.(peers) !! id = Some p' → tm ∈ p'.(offline_queue) →
    (∃ p, w.(peers) !! id = Some p ∧ tm ∈ p.(offline_queue)) ∨ message_ok w' tm.2) →
  (∀ e, e ∈ w'.(audit_log) → e.(ev_type) = "DELETE_SUCCESS" →
    e ∈ w.(audit_log) ∨ ∃ actor, mkEvent "DELETE_ISSUE" actor e.(ev_target) "" ∈ w'.(audit_log)) →
  transit_inv w'.
Proof.
  intros [Hp Hf Hq Ha] He Hp' Hf' Hq' Ha'. split; [done|..].
  - apply Forall_forall. intros m [Hm|Hm]%Hf'; [|done].
    eapply message_ok_extends; [exact He|]. rewrite Forall_forall in Hf. auto.
  - intros id p' Hl. apply Forall_forall. intros tm Htm.
    destruct (Hq' _ _ _ Hl Htm) as [(p & Hpl & Hin)|?]; [|done].
    eapply message_ok_extends; [exact He|]. specialize (Hq _ _ Hpl). rewrite Forall_forall in Hq. auto.
  - intros e Hin Hty. destruct (Ha' _ Hin Hty) as [Hold|?]; [|done].
    destruct (Ha _ Hold Hty) as [actor Hact]. exists actor. by apply He.
Qed.

Lemma safe_modify f w :
  transit_inv (f w) → extends w (f w) → safe (modify f) (λ _ _, True) w.
Proof. done. Qed.

Lemma extends_same w w' :
  w'.(peers) = w.(peers) → w.(audit_log) ⊆ w'.(audit_log) → extends w w'.
Proof. intros Hp Ha. split; [|done]. rewrite Hp. eauto. Qed.

Lemma safe_log_event ty actor target details w :
  transit_inv w →
  (ty = "DELETE_SUCCESS" → ∃ a, mkEvent "DELETE_ISSUE" a target "" ∈ w.(audit_log)) →
  safe (log_event ty actor target details)
    (λ _ w', w'.(peers) = w.(peers) ∧ mkEvent ty actor target details ∈ w'.(audit_log)) w.
Proof.
  intros Hi Hs. unfold safe, log_event, modify. set (w' := mkWorld _ _ _ _ _).
  assert (extends w w') as He by (apply extends_same; [done|]; cbn; set_solver).
  split; [|split; [done|cbn; set_solver]].
  apply (transit_intro w); [done|done|apply Hi|by left| |].
  - intros id p' tm Hl Hin. left. eauto.
  - cbn. intros e [Hin|He']%elem_of_app Hty; [by left|]. apply list_elem_of_singleton in He'. subst e.
    cbn in *. right. destruct (Hs Hty) as [a Ha]. exists a. set_solver.
Qed.

Lemma safe_notify n w : transit_inv w → safe (notify n) (λ _ w', w'.(peers) = w.(peers) ∧ w'.(audit_log) = w.(audit_log)) w.
Proof. intros [????]. unfold safe, notify, modify. split; [by split|]. split; [by apply extends_same|done]. Qed.

Lemma safe_set_cache id c w :
  transit_inv w → safe (modify (set_cache id c)) (λ _ w', w'.(peers) = w.(peers) ∧ w'.(audit_log) = w.(audit_log)) w.
Proof. intros [????]. unfold safe, modify. split; [by split|]. split; [by apply extends_same|done]. Qed.

(** Changing one peer, but neither its identity nor its key. *)
Lemma safe_alter_peer id (f : Peer St → Peer St) w :
  transit_inv w →
  (∀ p, (f p).(peer_id) = p.(peer_id) ∧ (f p).(signing_key) = p.(signing_key)) →
  (∀ p, storage_inv p.(storage) → storage_inv (f p).(storage)) →
  (∀ p tm, w.(peers) !! id = Some p → tm ∈ (f p).(offline_queue) →
    tm ∈ p.(offline_queue) ∨ message_ok w tm.2) →
  safe (modify (set_peers (alter f id))) (λ _ w', w'.(audit_log) = w.(audit_log)) w.
Proof.
  intros Hi Hid Hst Hq. unfold safe, modify. set (w' := set_peers _ w).
  assert (extends w w') as He.
  { split; [|done]. intros id' p Hp. cbn. destruct (decide (id' = id)) as [->|].
    - rewrite lookup_alter_eq, Hp. cbn. exists (f p). by destruct (Hid p).
    - rewrite lookup_alter_ne by done. eauto. }
  split; [|done]. apply (transit_intro w); [done|done| |by left| |by left].
  - intros id' p. cbn. rewrite lookup_alter_Some. intros [(-> & q & Hl & ->)|[_ Hl]].
    + destruct (ti_peers w Hi _ _ Hl) as [Hpid Hinv]. destruct (Hid q) as [-> _]. auto.
    + by apply (ti_peers w Hi).
  - intros id' p' tm. cbn. rewrite lookup_alter_Some. intros [(-> & q & Hl & ->)|[_ Hl]] Hin; [|eauto].
    destruct (Hq _ _ Hl Hin) as [?|Hok]; [eauto|]. right. by eapply message_ok_extends.
Qed.

Lemma safe_update_storage id f w :
  transit_inv w → (∀ st, storage_inv st → storage_inv (f st)) →
  safe (update_storage id f) (λ _ w', w'.(audit_log) = w.(audit_log)) w.
Proof. intros Hi Hf. apply safe_alter_peer; try done; cbn; auto. Qed.

Lemma safe_route_message now m w :
  transit_inv w → message_ok w m → safe (route_message now m) (λ _ _, True) w.
Proof.
  intros Hi Hm. unfold route_message.
  eapply (safe_bind _ _ (λ _ w', w' = w)); [by apply safe_pure|]. intros recipient w' _ _ ->.
  destruct recipient as [r|]; [destruct (online r)|by apply safe_pure].
  - set (f := λ w, _). assert (extends w (f w)) by (by apply extends_same).
    apply safe_modify; [|done]. apply (transit_intro w); [done|done|apply Hi| |left; eauto|by left].
    cbn. intros m' [?|Hin]%elem_of_app; [by left|]. apply list_elem_of_singleton in Hin as ->.
    right. by eapply message_ok_extends.
  - eapply safe_weaken; [apply safe_alter_peer|done]; try done; cbn.
    intros p tm _ [?|Hin]%elem_of_app; [by left|]. apply list_elem_of_singleton in Hin as ->. by right.
Qed.

Lemma safe_for_each {A} (l : list A) (body : A → M (World St) unit) w :
  transit_inv w →
  (∀ x w', x ∈ l → transit_inv w' → extends w w' → safe (body x) (λ _ _, True) w') →
  safe (for_each l body) (λ _ _, True) w.
Proof.
  revert w; induction l as [|x l IH]; intros w Hi Hb; cbn [for_each]; [by apply safe_pure|].
  eapply safe_bind; [apply Hb; [set_solver|done|done]|]. intros [] w' Hi' He _.
  apply IH; [done|]. intros y w'' Hy Hi'' He''. apply Hb; [set_solver|done|by etrans].
Qed.

Lemma safe_issue_token now nonce node p w :
  transit_inv w → w.(peers) !! p.(peer_id) = Some p →
  safe (issue_token now nonce node p)
    (λ t w', t.(tok_originator_id) = p.(peer_id) ∧ issued w' t) w.
Proof.
  intros Hi Hp. unfold issue_token. case_decide as Ho; [by apply safe_pure|].
  set (t := token_sign _ _).
  eapply safe_bind; [by apply safe_log_event|]. intros [] w' Hi' _ [Hpeers Hin].
  apply safe_pure; [done|done|]. intros a [= <-]. split; [done|]. split; [|done].
  exists p, (sign_message p.(signing_key) (token_signing_data t)). rewrite Hpeers.
  split; [done|]. split; [apply fromhex_hex_of, sign_bytes|apply verify_sign].
Qed.

Lemma safe_get_peer id w :
  transit_inv w →
  safe (get_peer id) (λ p w', w' = w ∧ w.(peers) !! id = Some p ∧ p.(peer_id) = id ∧ storage_inv p.(storage)) w.
Proof.
  intros Hi. apply safe_pure; [done|done|]. intros p. cbn.
  destruct (peers w !! id) as [q|] eqn:Hq; [|done]. intros [= <-].
  destruct (ti_peers w Hi _ _ Hq). done.
Qed.

Lemma safe_initiate_deletion now nonce_of self node w :
  transit_inv w → safe (initiate_deletion now nonce_of self node) (λ _ _, True) w.
Proof.
  intros Hi. eapply safe_bind; [by apply safe_get_peer|]. intros p w' _ _ (-> & Hp & Hid & _).
  eapply safe_bind; [apply safe_issue_token; [done|by rewrite Hid]|].
  intros t w1 Hi1 He1 [Ht Hiss]. apply safe_for_each; [done|]. intros r w2 _ Hi2 He2.
  apply safe_route_message; [done|].
  apply (message_ok_extends w1); [done|]. cbn. split; [congruence|done].
Qed.

Lemma safe_guard_token now token id w :
  transit_inv w → safe (guard_token validity now token id) (λ _ w', w'.(peers) = w.(peers) ∧ w.(audit_log) ⊆ w'.(audit_log)) w.
Proof.
  intros Hi. eapply (safe_bind _ _ (λ _ w', w'.(peers) = w.(peers) ∧ w'.(audit_log) = w.(audit_log))).
  { unfold get_token_cache. eapply (safe_bind _ _ (λ _ w', w' = w)); [by apply safe_pure|].
    intros [c|] w' _ _ ->; [by apply safe_pure|].
    eapply safe_bind; [by apply safe_set_cache|]. intros [] w1 Hi1 _ Hw1. by apply safe_pure. }
  intros c w1 Hi1 _ [Hp1 Ha1]. destruct (token_guard now validity token c) as [verdict c'].
  eapply safe_bind; [by apply safe_set_cache|]. intros [] w2 Hi2 _ [Hp2 Ha2].
  assert (∀ e d, safe (log_event (St := St) "DELETE_FAIL" id ("Node: " +:+ tok_node_hash token) d ;; raise e)
    (λ (_ : unit) w', w'.(peers) = w.(peers) ∧ w.(audit_log) ⊆ w'.(audit_log)) w2) as Hfail.
  { intros e d. eapply safe_bind; [by apply safe_log_event|]. intros [] w3 Hi3 _ _. by apply safe_pure. }
  destruct verdict as [[]|[]]; try apply Hfail. apply safe_pure; [done|done|].
  intros _ _. rewrite Hp2, Ha2, Ha1. done.
Qed.

Lemma safe_delete_node now token id n w :
  transit_inv w → 0 ≤ now → 0 ≤ now + grace * 1000000 < max_datetime →
  safe (delete_node grace now token id n) (λ _ w', w'.(audit_log) = w.(audit_log)) w.
Proof.
  intros Hi Hnow Hgrace. eapply safe_bind.
  { apply safe_update_storage; [done|]. intros st Hst. by apply remove_node_ok. }
  intros [] w1 Hi1 _ Ha1. eapply safe_bind; [by apply safe_get_peer|].
  intros p w1' _ _ (-> & _). destruct (is_content_referenced _ _); [by apply safe_pure|].
  eapply safe_bind.
  { apply safe_update_storage; [done|]. intros st Hst. by apply remove_content_ok. }
  intros [] w2 Hi2 _ Ha2.
  eapply (safe_bind _ _ (λ t w', w' = w2 ∧ t = now + grace * 1000000)).
  { apply safe_pure; [done|done|]. intros t. unfold lift, add_seconds. cbn. case_match; [done|]. intros [= <-]. done. }
  intros t w' _ _ [-> ->]. eapply safe_weaken.
  - apply safe_update_storage; [done|]. intros st Hst. apply add_tombstone_ok; [done|].
    by exists (now + grace * 1000000).
  - intros ? w3 ->. congruence.
Qed.

Lemma safe_process_token now nonce_of token id w :
  transit_inv w → issued w token → 0 ≤ now → 0 ≤ now + grace * 1000000 < max_datetime →
  safe (process_token validity grace now nonce_of token id) (λ _ _, True) w.
Proof.
  intros Hi [_ Hiss] Hnow Hgrace. eapply safe_bind; [by apply safe_guard_token|].
  intros [] w1 Hi1 _ [Hp1 Ha1]. eapply (safe_bind _ _ (λ _ w', w' = w1)); [by apply safe_pure|].
  intros [o|] w' _ _ ->; [|by apply safe_pure].
  eapply (safe_bind _ _ (λ _ w', w' = w1)); [by apply safe_pure|]. intros sg w' _ _ ->.
  destruct (negb _).
  { eapply safe_bind; [by apply safe_log_event|]. intros. by apply safe_pure. }
  eapply safe_bind; [by apply safe_get_peer|]. intros p w' _ _ (-> & _ & _ & Hinv).
  eapply (safe_bind _ _ (λ found w', w' = w1 ∧ ∀ n, found = Some n → n.(node_hash) = tok_node_hash token)).
  { apply safe_pure; [done|done|]. intros found. unfold lift. rewrite get_node_ok by done. intros [= <-].
    split; [done|]. intros n Hn. by eapply stored_node_wf in Hn as [_ ?]. }
  intros [n|] w' _ _ [-> Hn]; [|by apply safe_pure]. specialize (Hn n eq_refl).
  eapply (safe_bind _ _ (λ _ w', w' = w1)); [by apply safe_pure|]. intros cs w' _ _ ->.
  unfold commit_deletion. eapply safe_bind; [by apply safe_delete_node|]. intros [] w2 Hi2 _ Ha2.
  eapply safe_bind; [apply safe_log_event; [done|]|].
  { intros _. exists (tok_originator_id token). rewrite Hn, Ha2. by apply Ha1. }
  intros [] w3 Hi3 _ _. eapply safe_bind; [by apply safe_notify|]. intros [] w4 Hi4 _ _.
  eapply safe_bind; [apply safe_for_each; [done|]; intros; by apply safe_initiate_deletion|].
  intros. by apply safe_pure.
Qed.

Lemma safe_add_node now id n w :
  transit_inv w → wf_node n →
  safe (update_storage id (add_node now n)) (λ _ w', w'.(audit_log) = w.(audit_log)) w.
Proof. intros Hi Hn. apply safe_update_storage; [done|]. intros st Hst. by apply add_node_ok. Qed.

Lemma safe_add_content now id c txt w :
  transit_inv w →
  safe (update_storage id (add_content now c txt)) (λ _ w', w'.(audit_log) = w.(audit_log)) w.
Proof. intros Hi. apply safe_update_storage; [done|]. intros st Hst. by apply add_content_ok. Qed.

Lemma safe_receive_coc_data now self n content w :
  transit_inv w → wf_node n →
  safe (receive_coc_data now self (to_dict n) content) (λ _ _, True) w.
Proof.
  intros Hi Hwf. unfold receive_coc_data. rewrite from_dict_to_dict by done.
  eapply (safe_bind _ _ (λ a w', w' = w ∧ a = n)); [apply safe_pure; [done|done|]; by intros a [= <-]|].
  intros n' w' _ _ [-> ->].
  eapply safe_bind; [by apply safe_add_node|]. intros [] w1 Hi1 _ _.
  eapply safe_bind; [by apply safe_add_content|]. intros [] w2 Hi2 _ _.
  assert (∀ parent, safe (p ← get_peer self; found ← lift (get_node parent (storage p));
    match found with
    | None => mret ()
    | Some parent_node => let '(parent_node, node) := add_child parent_node n in
        update_storage self (add_node now parent_node) ;;
        update_storage self (alias_depth node.(node_hash) node.(depth))
    end) (λ _ _, True) w2) as Hparent.
  { intros parent. eapply safe_bind; [by apply safe_get_peer|]. intros p w' _ _ (-> & _ & _ & Hinv).
    eapply (safe_bind _ _ (λ found w', w' = w2 ∧ ∀ m, found = Some m → wf_node m)).
    { apply safe_pure; [done|done|]. intros found. unfold lift. rewrite get_node_ok by done. intros [= <-].
      split; [done|]. intros m Hm. by eapply stored_node_wf in Hm as [? _]. }
    intros [m|] w' _ _ [-> Hm]; [|by apply safe_pure]. specialize (Hm m eq_refl).
    pose proof (add_child_wf m n Hm Hwf) as [Hm' _]. destruct (add_child m n) as [m' n'']. cbn in Hm'.
    eapply safe_bind; [by apply safe_add_node|]. intros [] w3 Hi3 _ _.
    eapply safe_weaken; [apply safe_update_storage; [done|]|done].
    intros st Hst. by apply alias_depth_ok. }
  destruct (parent_hash n) as [[|a s]|]; [by apply safe_pure|apply Hparent|by apply safe_pure].
Qed.

Lemma safe_receive_message now nonce_of self m w :
  transit_inv w → message_ok w m → 0 ≤ now → 0 ≤ now + grace * 1000000 < max_datetime →
  safe (receive_message validity grace now nonce_of self m) (λ _ _, True) w.
Proof.
  intros Hi Hm Hnow Hgrace. unfold receive_message, message_ok in *.
  destruct (msg_body_of m) as [nd c|t|]; [|destruct Hm as [_ Hm]|by apply safe_pure].
  - destruct Hm as (n & Hwf & ->). by apply safe_receive_coc_data.
  - eapply safe_bind; [by apply safe_process_token|]. intros. by apply safe_pure.
Qed.

Lemma safe_process_queue now nonce_of self ttl queue count w :
  transit_inv w → Forall (λ tm, message_ok w tm.2) queue →
  0 ≤ now → 0 ≤ now + grace * 1000000 < max_datetime →
  safe (process_queue validity grace now nonce_of self ttl queue count) (λ _ _, True) w.
Proof.
  revert w count; induction queue as [|[t m] queue IH]; intros w count Hi Hq Hnow Hgrace;
    cbn [process_queue]; [by apply safe_pure|].
  apply Forall_cons in Hq as [Hm Hq]. case_match; [|by apply IH].
  eapply safe_bind; [by apply safe_receive_message|]. intros [] w' Hi' He _. apply IH; [done| |done|done].
  eapply Forall_impl; [exact Hq|]. intros tm. by apply message_ok_extends.
Qed.

Lemma safe_go_online now nonce_of self w :
  transit_inv w → 0 ≤ now → 0 ≤ now + grace * 1000000 < max_datetime →
  safe (go_online validity grace now nonce_of self) (λ _ _, True) w.
Proof.
  intros Hi Hnow Hgrace. unfold go_online.
  eapply safe_bind; [apply safe_alter_peer; try done; by left|]. intros [] w1 Hi1 _ _.
  eapply safe_bind; [by apply safe_notify|]. intros [] w2 Hi2 _ _.
  eapply safe_bind; [by apply safe_get_peer|]. intros p w' _ _ (-> & Hp & _).
  eapply safe_bind; [apply safe_process_queue; [done|by apply (ti_queues w2 Hi2 _ _ Hp)|done|done]|].
  intros n w3 Hi3 _ _. eapply safe_bind.
  { apply safe_alter_peer; try done. cbn. intros q tm _ Hin. by apply elem_of_nil in Hin. }
  intros [] w4 Hi4 _ _. by eapply safe_weaken; [apply safe_notify|].
Qed.

Lemma safe_go_offline now self w : transit_inv w → safe (go_offline now self) (λ _ _, True) w.
Proof.
  intros Hi. eapply safe_bind; [apply safe_alter_peer; try done; by left|].
  intros [] w1 Hi1 _ _. by eapply safe_weaken; [apply safe_notify|].
Qed.

Lemma safe_create_coc_root now self content recipients w :
  transit_inv w → safe (create_coc_root now self content recipients) (λ n _, wf_node n) w.
Proof.
  intros Hi. eapply safe_bind; [by apply safe_get_peer|]. intros p w' _ _ (-> & _).
  eapply safe_bind; [apply safe_add_node; [done|apply new_node_wf]|]. intros [] w1 Hi1 _ _.
  eapply safe_bind; [by apply safe_add_content|]. intros [] w2 Hi2 _ _.
  apply safe_pure; [done|done|]. intros n [= <-]. apply new_node_wf.
Qed.

Lemma safe_forward_coc_message now self parent recipients w :
  transit_inv w → wf_node parent →
  safe (forward_coc_message now self parent recipients) (λ _ _, True) w.
Proof.
  intros Hi Hwf. eapply safe_bind; [by apply safe_get_peer|]. intros p w' _ _ (-> & _).
  set (child := new_node _ _ _ _ _ _ _).
  destruct (add_child_wf parent child Hwf) as [H1 H2]; [apply new_node_wf|].
  cbv zeta. fold child.
  destruct (add_child parent child) as [parent' child'] eqn:E.
  rewrite ?E in H1, H2.
  eapply safe_bind; [by apply safe_add_node|]. intros [] w1 Hi1 _ _.
  eapply safe_bind; [by apply safe_add_node|]. intros. by apply safe_pure.
Qed.

Lemma safe_register_peer p w :
  transit_inv w → w.(peers) !! p.(peer_id) = None → p.(storage) = empty_store →
  p.(offline_queue) = [] → safe (register_peer p) (λ _ _, True) w.
Proof.
  intros Hi Hnone Hst Hq. eapply (safe_bind _ _ (λ _ _, True)); [|intros; by apply safe_pure].
  set (f := set_peers _). assert (extends w (f w)) as He.
  { split; [|done]. intros id q Hl. cbn. exists q. split; [|done]. rewrite lookup_insert_ne; [done|].
    intros <-. congruence. }
  apply safe_modify; [|done]. apply (transit_intro w); [done|done| |by left| |by left].
  - intros id q. cbn. rewrite lookup_insert_Some. intros [[<- <-]|[_ Hl]]; [|by apply (ti_peers w Hi)].
    split; [done|by rewrite Hst].
  - intros id q tm. cbn. rewrite lookup_insert_Some. intros [[<- <-]|[_ Hl]] Hin; [|eauto].
    rewrite Hq in Hin. by apply elem_of_nil in Hin.
Qed.

(** Forgetting a scheduled delivery keeps the invariant. *)
Lemma transit_drop_flight w l :
  transit_inv w → l ⊆ w.(in_flight) →
  transit_inv (mkWorld w.(peers) w.(token_caches) w.(audit_log) w.(notifications) l).
Proof.
  intros [Hp Hf Hq Ha] Hl. split; try done. cbn. rewrite Forall_forall in Hf |- *.
  intros m Hm. by apply Hf, Hl.
Qed.

Lemma step_transit_inv now w w' :
  0 ≤ now → 0 ≤ now + grace * 1000000 < max_datetime →
  step validity grace empty_store now w w' → transit_inv w → transit_inv w'.
Proof.
  intros Hnow Hgrace Hstep Hi.
  assert (∀ A (m : M (World St) A) Φ w, safe m Φ w → transit_inv (m w).2) as Hsafe.
  { intros A m Φ w0. unfold safe. destruct (m w0). by intros [? _]. }
  assert (∀ self p h n, w.(peers) !! self = Some p → get_node h p.(storage) = Ok (Some n) → wf_node n) as Hstored.
  { intros self p h n Hp. destruct (ti_peers w Hi _ _ Hp) as [_ Hinv]. rewrite get_node_ok by done.
    intros [= Hn]. by eapply stored_node_wf in Hn as [? _]. }
  destruct Hstep as [w before m after nonce_of Heq|w self content recipients _|w self p h parent rs Hp Hn
    |w self n content r _ Hwf|w self kind payload r _|w self p h n nonce_of Hp Hn|w self|w self nonce_of|w p Hnone Hst Hq];
    eapply Hsafe.
  - assert (transit_inv (mkWorld w.(peers) w.(token_caches) w.(audit_log) w.(notifications) (before ++ after))) as Hi'.
    { apply transit_drop_flight; [done|]. rewrite Heq. set_solver. }
    apply safe_receive_message; [done| |done|done].
    pose proof (ti_flight w Hi) as Hf. rewrite Heq, Forall_app, Forall_cons in Hf.
    destruct Hf as (_ & Hm & _). eapply message_ok_extends; [|exact Hm]. by apply extends_same.
  - by apply safe_create_coc_root.
  - apply safe_forward_coc_message; [done|by eapply Hstored].
  - apply safe_route_message; [done|]. cbn. by exists n.
  - by apply safe_route_message.
  - by apply safe_initiate_deletion.
  - by apply safe_go_offline.
  - by apply safe_go_online.
  - by apply safe_register_peer.
Qed.

Lemma transit_init : transit_inv (mkWorld ∅ ∅ [] [] []).
Proof.
  split; cbn; [| |by intros id p ?%lookup_empty_Some|by intros e ?%elem_of_nil].
  - intros id p Hl. cbn in Hl. by rewrite lookup_empty in Hl.
  - constructor.
Qed.

(** C13: in every world reachable by registering peers, creating, forwarding
    and sending nodes, initiating deletions, going on- and offline and
    delivering messages in any order, all stores are consistent, every deletion
    token in flight or queued carries a valid signature of the registered peer
    that sent it, which has a [DELETE_ISSUE] event for that node in the audit
    log, all chain data in flight or queued is the dictionary of a well-formed
    node, and every [DELETE_SUCCESS] audit event has a [DELETE_ISSUE] event for
    the same node.  A peer that initiates the deletion of a node it does not own
    gets [PermissionError] and the world is unchanged: nothing is logged or
    sent. *)
Theorem reachable_transit_inv (now : Z) w :
  (∀ t, 0 ≤ t ≤ now → 0 ≤ t + grace * 1000000 < max_datetime) →
  reachable validity grace empty_store now w →
  world_inv w ∧
  (∀ m, m ∈ w.(in_flight) → message_ok w m) ∧
  (∀ id p ts m, w.(peers) !! id = Some p → (ts, m) ∈ p.(offline_queue) → message_ok w m) ∧
  (∀ e, e ∈ w.(audit_log) → e.(ev_type) = "DELETE_SUCCESS" →
    ∃ actor, mkEvent "DELETE_ISSUE" actor e.(ev_target) "" ∈ w.(audit_log)) ∧
  (∀ self p node now' nonce_of, w.(peers) !! self = Some p → node.(owner_id) ≠ self →
    initiate_deletion now' nonce_of self node w = (Raise PermissionError, w)).
Proof.
  intros Ht Hr. assert (transit_inv w) as [Hp Hf Hq Ha].
  { assert (0 ≤ now ∧ transit_inv w) as [_ ?]; [|done].
    induction Hr as [now|now now' w w' Hr IH Hle Hstep]; [split; [done|apply transit_init]|].
    destruct IH as [H0 Hi]; [intros t ?; apply Ht; lia|].
    split; [lia|]. eapply step_transit_inv; [|apply Ht|done..]; lia. }
  split; [done|]. rewrite Forall_forall in Hf. split; [done|]. split; [|split; [done|]].
  - intros id p ts m Hl Hin. specialize (Hq id p Hl). rewrite Forall_forall in Hq. by apply (Hq (ts, m)).
  - intros self p node now' nonce_of Hl Ho. destruct (Hp _ _ Hl) as [Hid _].
    unfold initiate_deletion, mbind, M_bind, get_peer. rewrite Hl. cbn [from_option_exn].
    unfold issue_token. by rewrite decide_True by by rewrite Hid.
Qed.
End reachable.

(** ** Behaviours worth knowing *)

Section behaviours.
Context {C : Crypto} {L : CryptoLaws C} {St : Type} `{SB : StorageBackend St} `{SS : !StorageSpec St}.
Context (validity grace : Z).
Implicit Types (w : World St).

(** A peer that comes back online with an expired deletion token in its
    offline queue is stuck: [go_online] raises, nothing in the queue has been
    processed from there on, and the queue is kept whole, so the next
    [go_online] raises again.  (Queued messages live for 24 hours, tokens for
    five minutes.) *)
Theorem go_online_expired_token (now : Z) (nonce_of : string → string) (self : string) w
    (p : Peer St) (t : Z) (m : Message) (token : DeletionToken) (rest : list (Z * Message)) :
  w.(peers) !! self = Some p → p.(offline_queue) = (t, m) :: rest →
  m.(msg_body_of) = DeletionTokenMsg token →
  now - t ≤ p.(message_ttl_hours) * us_per_hour → token_is_expired now validity token = true →
  let '(r, w') := go_online validity grace now nonce_of self w in
  (r = Raise TokenExpiredError ∨ r = Raise ReplayAttackError) ∧
  ∃ p', w'.(peers) !! self = Some p' ∧ p'.(offline_queue) = p.(offline_queue) ∧
    p'.(storage) = p.(storage) ∧ p'.(online) = true.
Proof.
  intros Hp Hq Hb Httl Hexp. unfold go_online. unfold mbind, M_bind. cbn [modify notify].
  set (w1 := mkWorld _ _ _ _ _).
  assert (peers w1 !! self = Some (set_online true p.(last_online_timestamp) p)) as Hp1.
  { unfold w1. cbn. by rewrite lookup_alter_eq, Hp. }
  unfold get_peer. rewrite Hp1. cbn [from_option_exn set_online offline_queue message_ttl_hours].
  rewrite Hq. cbn [process_queue]. rewrite (proj2 (Z.leb_le _ _)) by done.
  unfold receive_message. rewrite Hb. unfold process_token. unfold mbind, M_bind.
  destruct (guard_token_run validity now token self w1) as (w2 & Hp2 & ->).
  assert ((token_guard now validity token (peer_cache validity now self w1)).1 = Raise ReplayAttackError ∨
    (token_guard now validity token (peer_cache validity now self w1)).1 = Raise TokenExpiredError) as Hg.
  { unfold token_guard. destruct (is_processed _ _ _) as [[] c]; [by left|]. rewrite Hexp. by right. }
  destruct Hg as [-> | ->]; (split; [auto|]); exists (set_online true p.(last_online_timestamp) p);
    rewrite Hp2, Hp1, <-Hq; done.
Qed.

(** C14: [process_token] checks that the token is signed by the peer it names
    as originator, not that this peer owns the node: a fresh token of any
    registered peer for any node stored at the receiver is carried out, and the
    node is deleted from the receiver's store. *)
Theorem process_token_any_signer (now ts : Z) (nonce_of : string → string) (id : string)
    (nonce : string) w (p o : Peer St) (n : CoCNode) :
  world_inv w → w.(peers) !! id = Some p → w.(peers) !! o.(peer_id) = Some o →
  (store p.(storage)).(s_nodes) !! n.(node_hash) = Some n →
  0 ≤ now → 0 ≤ now + grace * 1000000 < max_datetime →
  let token := token_sign o.(signing_key)
    (mkToken n.(node_hash) o.(peer_id) nonce (isoformat ts) "") in
  (token_guard now validity token (peer_cache validity now id w)).1 = Ok () →
  let '(r, w') := process_token validity grace now nonce_of token id w in
  r = Ok true ∧ ∃ p', w'.(peers) !! id = Some p' ∧
    deletes grace now token n (store p.(storage)) (store p'.(storage)).
Proof.
  intros Hw Hp Ho Hn Hnow Hgrace token Hguard. destruct (Hw _ _ Hp) as [Hid Hinv].
  unfold process_token. unfold mbind at 1, M_bind at 1.
  destruct (guard_token_run validity now token id w) as (w1 & Hp1 & ->). rewrite Hguard.
  unfold mbind at 1, M_bind at 1, gets at 1, find_peer. rewrite Hp1. cbn [tok_originator_id token_sign token].
  change (tok_originator_id token) with (peer_id o). rewrite Ho.
  unfold mbind at 1, M_bind at 1, lift at 1.
  change (tok_signature token) with (hex_of (sign_message o.(signing_key) (token_signing_data token))).
  rewrite fromhex_hex_of by apply sign_bytes. rewrite verify_sign. cbn [negb].
  unfold mbind at 1, M_bind at 1, get_peer. rewrite Hp1, Hp. cbn [from_option_exn].
  unfold mbind at 1, M_bind at 1, lift at 1. rewrite (get_node_ok _ _ Hinv).
  change (tok_node_hash token) with (node_hash n). rewrite Hn.
  unfold mbind at 1, M_bind at 1, lift at 1. destruct (own_children_Ok id _ n Hinv) as [cs Hcs]. rewrite Hcs.
  rewrite <-Hp1 in Hp. apply own_children_owner in Hcs. rewrite <-Hid in Hcs.
  destruct (commit_deletion_spec grace now nonce_of token id n cs w1 p Hnow Hgrace Hp Hinv Hcs)
    as (w2 & st' & -> & _ & Hdel & Hpeers). split; [done|].
  specialize (Hpeers id). rewrite decide_True in Hpeers by done.
  apply fmap_Some in Hpeers as (p2 & Hp2 & ->). by exists p2.
Qed.

(** A tombstone does not keep deleted content out: a node arriving during
    the grace period stores its content again, while the tombstone stays
    active. *)
Theorem tombstoned_content_readded (now : Z) (self content : string) w (p : Peer St) (n : CoCNode)
    (ts : ContentTombstone) :
  world_inv w → w.(peers) !! self = Some p → wf_node n → n.(parent_hash) = None →
  (store p.(storage)).(s_tombstones) !! n.(content_hash) = Some ts → is_expired now ts = false →
  let '(r, w') := receive_coc_data now self (to_dict n) content w in
  r = Ok () ∧ ∃ p', w'.(peers) !! self = Some p' ∧
    get_content n.(content_hash) p'.(storage) = Some content ∧
    (is_tombstoned now n.(content_hash) p'.(storage)).1 = true.
Proof.
  intros Hw Hp Hwf Hpar Hts Hact. destruct (Hw _ _ Hp) as [_ Hinv].
  unfold receive_coc_data. rewrite from_dict_to_dict by done. unfold mbind, M_bind, lift.
  rewrite (update_storage_run _ _ _ _ Hp).
  rewrite (update_storage_run _ _ _ (set_storage (add_node now n p.(storage)) p)) by (cbn; by rewrite lookup_insert_eq).
  rewrite Hpar. split; [done|].
  destruct (add_node_ok now n _ Hinv Hwf) as [Hi1 Hs1].
  destruct (add_content_ok now n.(content_hash) content _ Hi1) as [Hi2 Hs2].
  eexists. split; [cbn; by rewrite lookup_insert_eq|]. cbn [set_storage storage]. split.
  - rewrite get_content_ok by done. rewrite Hs2. cbn. by rewrite lookup_insert_eq.
  - unfold is_tombstoned. destruct (get_tombstone_ok now n.(content_hash) _ Hi2) as [_ Hg].
    rewrite Hs2, Hs1 in Hg. cbn in Hg. rewrite Hts, Hact in Hg. by rewrite Hg.
Qed.
End behaviours.

(** ** A small world *)

Definition sample_tombstone : ContentTombstone := mkTombstone "gone" "" (isoformat 100) "ann" "y".

Definition ann_store : InMemory.storage := InMemory.init.
Definition bob_store : InMemory.storage :=
  InMemory.add_tombstone sample_tombstone (InMemory.add_node (toy_node "x" []) InMemory.init).

Definition sample_message : Message := mkMessage "ann" "bob" (DeletionTokenMsg (sample_token 0)).

Definition ann : Peer InMemory.storage := mkPeer "ann" [1] true ann_store [] 0 24.
Definition bob : Peer InMemory.storage := mkPeer "bob" [2] false bob_store [(0, sample_message)] 0 24.
Definition mal : Peer InMemory.storage := mkPeer "mal" [3] true ann_store [] 0 24.

Definition sample_world : World InMemory.storage :=
  mkWorld {[ "ann" := ann; "bob" := bob; "mal" := mal ]} ∅ [] [] [].

Lemma small_time t : 0 ≤ t ≤ 2000000000 → 0 ≤ t < max_datetime.
Proof. intros Ht. split; [lia|]. apply Z.le_lt_trans with 2000000000; [lia|reflexivity]. Qed.

Lemma toy_node_wf name : wf_node (toy_node name []).
Proof. split; [done|]. intros sg [= <-]. split; [repeat constructor; done|done]. Qed.

Lemma sample_world_inv : world_inv sample_world.
Proof.
  assert (InMemory.inv bob_store) as Hbob.
  { apply InMemory.inv_frame, InMemory.add_node_inv; [apply inmemory_init_inv|apply toy_node_wf]. }
  intros id p. unfold sample_world. cbn [peers].
  rewrite !lookup_insert_Some, lookup_singleton_Some.
  intros [[<- <-]|[_ [[<- <-]|[_ [<- <-]]]]]; (split; [done|]);
    [apply inmemory_init_inv|exact Hbob|apply inmemory_init_inv].
Qed.

Lemma sample_guard_passes o key :
  (token_guard (C := toy_crypto) 5 300
    (token_sign (C := toy_crypto) key (mkToken "x" o "0" (isoformat 0) ""))
    (peer_cache 300 5 "bob" sample_world)).1 = Ok ().
Proof.
  unfold token_guard, is_processed. rewrite bool_decide_false.
  - unfold token_is_expired. cbn [tok_timestamp token_sign].
    rewrite fromisoformat_isoformat by (apply small_time; lia). reflexivity.
  - unfold maybe_cleanup, peer_cache, new_cache. cbn. by intros [? ?].
Qed.

Lemma process_token_outcome_witness :
  ∃ w', process_token (C := toy_crypto) 300 300 5 (λ h, h)
      (token_sign (C := toy_crypto) [1] (mkToken "x" "ann" "0" (isoformat 0) "")) "bob" sample_world = (Ok true, w') ∧
    storage <$> w'.(peers) !! "ann" = Some ann_store ∧
    ∃ p', w'.(peers) !! "bob" = Some p' ∧ InMemory.get_node "x" p'.(storage) = None ∧
      is_Some (p'.(storage).(InMemory.tombstones) !! "c").
Proof.
  set (t := token_sign (C := toy_crypto) [1] (mkToken "x" "ann" "0" (isoformat 0) "")).
  pose proof (process_token_outcome (C := toy_crypto) 300 300 5 (λ h, h) t "bob"
    sample_world bob sample_world_inv eq_refl ltac:(lia) ltac:(apply small_time; lia)) as H.
  destruct (process_token _ _ _ _ _ _ _) as [r w'].
  destruct H as [(-> & _ & _ & (n & p' & Hn & Hp' & _ & Hd) & Hother)|[Hr _]].
  - assert (n = toy_node "x" []) as -> by (vm_compute in Hn |- *; congruence).
    exists w'. split; [done|]. split; [by rewrite Hother|]. exists p'. split; [done|].
    destruct Hd as [Hnodes Hrest]. cbn in Hnodes, Hrest. split.
    + unfold InMemory.get_node. rewrite Hnodes. apply lookup_delete_eq.
    + destruct Hrest as [[(h & n & Hl & _) _]|(_ & _ & Hts)].
      * rewrite Hnodes in Hl. exfalso. revert Hl. cbn. rewrite delete_insert_id by done. by rewrite lookup_empty.
      * rewrite Hts. rewrite lookup_insert_eq. by eexists.
  - exfalso. destruct Hr as [(e & He & _)|[_ Hr]].
    + unfold t in He. by rewrite sample_guard_passes in He.
    + destruct Hr as [[_ Hr]|(o & Ho & [[_ Hf]|(sg & Hf & _ & [Hv|Hn])])].
      * done.
      * vm_compute in Hf. done.
      * vm_compute in Ho. injection Ho as <-. vm_compute in Hf. injection Hf as <-. vm_compute in Hv. done.
      * done.
Defined.

Lemma reachable_transit_inv_witness :
  world_inv (register_peer ann (mkWorld ∅ ∅ [] [] [])).2.
Proof.
  apply (reachable_transit_inv (C := toy_crypto) (L := toy_crypto_laws) (SS := InMemory.spec) 300 300 ann_store
    inmemory_init_inv 5).
  - intros t Ht. apply small_time. lia.
  - apply (reach_step _ _ _ 0 5 (mkWorld ∅ ∅ [] [] [])); [by apply reach_init|lia|].
    by apply step_register.
Defined.

Lemma go_online_expired_token_witness :
  ∃ p', (go_online (C := toy_crypto) 300 300 1000000000 (λ h, h) "bob" sample_world).2.(peers) !! "bob" = Some p' ∧
    p'.(offline_queue) = [(0, sample_message)].
Proof.
  pose proof (go_online_expired_token (C := toy_crypto) 300 300 1000000000 (λ h, h) "bob" sample_world bob
    0 sample_message (sample_token 0) [] eq_refl eq_refl eq_refl) as H.
  destruct (go_online _ _ _ _ _ _) as [r w']. cbn [snd]. destruct H as [_ (p' & Hp' & Hq & _)].
  - unfold us_per_hour, us_per_second. cbn [message_ttl_hours bob]. lia.
  - unfold token_is_expired. rewrite sample_token_time by (apply small_time; lia). reflexivity.
  - exists p'. rewrite Hq. done.
Defined.

Lemma process_token_any_signer_witness :
  (toy_node "x" []).(owner_id) = "ann" ∧
  let '(r, w') := process_token (C := toy_crypto) 300 300 5 (λ h, h)
    (token_sign (C := toy_crypto) [3] (mkToken "x" "mal" "0" (isoformat 0) "")) "bob" sample_world in
  r = Ok true ∧ ∃ p', w'.(peers) !! "bob" = Some p' ∧ InMemory.get_node "x" p'.(storage) = None.
Proof.
  split; [reflexivity|].
  pose proof (process_token_any_signer (C := toy_crypto) (L := toy_crypto_laws) 300 300 5 0 (λ h, h) "bob" "0"
    sample_world bob mal (toy_node "x" []) sample_world_inv eq_refl eq_refl eq_refl ltac:(lia)
    ltac:(apply small_time; lia) (sample_guard_passes "mal" [3])) as H.
  destruct (process_token _ _ _ _ _ _ _) as [r w']. destruct H as [Hr (p' & Hp' & Hd & _)].
  split; [exact Hr|]. exists p'. split; [exact Hp'|]. cbn in Hd. unfold InMemory.get_node. rewrite Hd.
  apply lookup_delete_eq.
Defined.

Lemma tombstoned_content_readded_witness :
  (receive_coc_data 5 "bob"
    (to_dict (mkNode 2 "gone" None "ann" ["bob"] "t" ∅ 0 (Some [7; 1]) "z")) "secret" sample_world).1 = Ok ().
Proof.
  pose proof (tombstoned_content_readded 5 "bob" "secret" sample_world bob
    (mkNode 2 "gone" None "ann" ["bob"] "t" ∅ 0 (Some [7; 1]) "z") sample_tombstone sample_world_inv eq_refl) as H.
  destruct (receive_coc_data _ _ _ _ _) as [r w']. cbn [fst]. apply H.
  - split; [done|]. intros sg [= <-]. split; [repeat constructor; done|done].
  - reflexivity.
  - reflexivity.
  - unfold is_expired, sample_tombstone. cbn [ts_delete_after].
    rewrite fromisoformat_isoformat by (apply small_time; lia). reflexivity.
Defined.
