(* ===== verification/AuditLog.v ===== *)
(** * Audit logs ([coc_framework/core/audit_log.py])

    [TamperEvidentLog] with [AuditLogger] on top: entries in memory, chained by
    hashing the JSON text of each entry with its predecessor's hash.
    [FileLog]: [AuditLog], the text file in which every line carries the hash
    of the previous one.  Text is a list of code points here, because the file
    log splits and strips lines.  SHA-256 over UTF-8 and, for the in-memory
    log, [json.dumps] are parameters. *)

From Stdlib Require Import ZArith Lia String.
From stdpp Require Import pretty.
From S2P Require Import Prelude PyData DateTime.

(** ** The in-memory log *)

Module TamperEvident.
Section log.
(** The entry data, [json.dumps] of an entry's three fields with sorted keys,
    and the SHA-256 hex digest of a text. *)
Context {D : Type} (dumps : D → string → string → string) (sha256 : string → string).

Record LogEntry := mkEntry {
  data : D;
  timestamp : string;
  prev_hash : string;
  entry_hash : string;
}.

Definition content_to_hash (e : LogEntry) : string :=
  dumps e.(data) e.(timestamp) e.(prev_hash).

Definition last_hash (entries : list LogEntry) : string :=
  from_option entry_hash "" (last entries).

Definition append (now : Z) (d : D) (entries : list LogEntry) : string * list LogEntry :=
  let timestamp := isoformat now in
  let prev := last_hash entries in
  let h := sha256 (dumps d timestamp prev) in
  (h, entries ++ [mkEntry d timestamp prev h]).

Fixpoint verify_from (prev : string) (entries : list LogEntry) : bool :=
  match entries with
  | [] => true
  | e :: entries =>
      if decide (e.(prev_hash) ≠ prev) then false
      else if decide (sha256 (content_to_hash e) ≠ e.(entry_hash)) then false
      else verify_from e.(entry_hash) entries
  end.

Definition verify (entries : list LogEntry) : bool := verify_from "" entries.

Definition get_entry (h : string) (entries : list LogEntry) : option LogEntry :=
  list_find (λ e, e.(entry_hash) = h) entries ≫= λ ie, Some ie.2.

Definition append_all (events : list (Z * D)) : list LogEntry :=
  foldl (λ entries te, (append te.1 te.2 entries).2) [] events.

Lemma verify_from_app prev l1 l2 :
  verify_from prev (l1 ++ l2) = verify_from prev l1 && verify_from (from_option entry_hash prev (last l1)) l2.
Proof.
  revert prev; induction l1 as [|e l1 IH]; intros prev; [done|]. cbn [verify_from app].
  repeat case_decide; try done. rewrite IH, last_cons. by destruct (last l1).
Qed.

Lemma verify_append now d entries : verify entries = true → verify (append now d entries).2 = true.
Proof.
  intros Hv. unfold verify, append. cbn [snd]. rewrite verify_from_app. unfold verify in Hv. rewrite Hv.
  cbn [andb verify_from prev_hash entry_hash]. fold (last_hash entries).
  rewrite decide_False by tauto. unfold content_to_hash. cbn.
  by rewrite decide_False by tauto.
Qed.

Lemma verify_append_all events : verify (append_all events) = true.
Proof.
  unfold append_all. assert (verify [] = true) as H by done. revert H. generalize (@nil LogEntry).
  induction events as [|[t d] events IH]; intros l Hl; simpl; [done|]. apply IH. by apply verify_append.
Qed.

(** Two different texts with the same digest, among the texts hashed for two
    logs: what a forger would have to find. *)
Definition collision (l l' : list LogEntry) : Prop :=
  ∃ e e', e ∈ l ∧ e' ∈ l' ∧ content_to_hash e ≠ content_to_hash e' ∧
    sha256 (content_to_hash e) = sha256 (content_to_hash e').

Context (dumps_inj : ∀ d t p d' t' p', dumps d t p = dumps d' t' p' → d = d' ∧ t = t' ∧ p = p').
Context (sha256_nonempty : ∀ s, sha256 s ≠ "").

Lemma verify_snoc l e :
  verify (l ++ [e]) = true ↔
  verify l = true ∧ e.(prev_hash) = last_hash l ∧ sha256 (content_to_hash e) = e.(entry_hash).
Proof.
  unfold verify. rewrite verify_from_app, andb_true_iff. fold (last_hash l). cbn [verify_from].
  repeat case_decide; naive_solver.
Qed.

Lemma last_hash_snoc l e : last_hash (l ++ [e]) = e.(entry_hash).
Proof. unfold last_hash. by rewrite last_snoc. Qed.

Lemma collision_mono l1 l2 k1 k2 : collision l1 l2 → collision (l1 ++ k1) (l2 ++ k2).
Proof. intros (e & e' & ? & ? & ? & ?). exists e, e'. set_solver. Qed.

(** Walking back from equal last hashes. *)
Lemma chain_determines_log l l' :
  verify l = true → verify l' = true → last_hash l = last_hash l' → l = l' ∨ collision l l'.
Proof.
  revert l'; induction l as [|e l IH] using rev_ind; intros l' Hv Hv' Hlast;
    destruct l' as [|e' l' _] using rev_ind; [by left|..].
  - exfalso. apply verify_snoc in Hv' as (_ & _ & Hh). rewrite last_hash_snoc in Hlast.
    cbn in Hlast. apply (sha256_nonempty (content_to_hash e')). congruence.
  - exfalso. apply verify_snoc in Hv as (_ & _ & Hh). rewrite last_hash_snoc in Hlast.
    cbn in Hlast. apply (sha256_nonempty (content_to_hash e)). congruence.
  - rewrite !last_hash_snoc in Hlast. apply verify_snoc in Hv as (Hv & Hp & Hh).
    apply verify_snoc in Hv' as (Hv' & Hp' & Hh').
    destruct (decide (content_to_hash e = content_to_hash e')) as [Heq|Hne].
    + unfold content_to_hash in Heq. apply dumps_inj in Heq as (Hd & Ht & Hpp).
      destruct (IH l' Hv Hv') as [->|Hc]; [congruence| |right; by apply collision_mono].
      left. f_equal. f_equal. destruct e, e'; cbn in *. by subst.
    + right. exists e, e'. split; [set_solver|]. split; [set_solver|]. split; [done|congruence].
Qed.
End log.
Arguments LogEntry : clear implicits.
End TamperEvident.

(** ** [AuditEvent] and [AuditLogger] *)

Inductive AuditEventType :=
  | CONTENT_CREATED | CONTENT_ACCESSED | CONTENT_FORWARDED | CONTENT_DELETED
  | IDENTITY_CREATED | CERTIFICATE_ISSUED | CERTIFICATE_REVOKED
  | PEER_JOINED | PEER_LEFT | MESSAGE_SENT | MESSAGE_RECEIVED
  | SIGNATURE_VERIFIED | SIGNATURE_FAILED | DELETION_REQUESTED | DELETION_CONFIRMED
  | WATERMARK_EMBEDDED | LEAK_DETECTED | ACCESS_GRANTED | ACCESS_DENIED.

#[global] Instance AuditEventType_eq_dec : EqDecision AuditEventType.
Proof. solve_decision. Defined.

Definition all_event_types : list AuditEventType :=
  [CONTENT_CREATED; CONTENT_ACCESSED; CONTENT_FORWARDED; CONTENT_DELETED;
   IDENTITY_CREATED; CERTIFICATE_ISSUED; CERTIFICATE_REVOKED;
   PEER_JOINED; PEER_LEFT; MESSAGE_SENT; MESSAGE_RECEIVED;
   SIGNATURE_VERIFIED; SIGNATURE_FAILED; DELETION_REQUESTED; DELETION_CONFIRMED;
   WATERMARK_EMBEDDED; LEAK_DETECTED; ACCESS_GRANTED; ACCESS_DENIED].

(** [event_type.value]. *)
Definition event_value (t : AuditEventType) : string :=
  match t with
  | CONTENT_CREATED => "content_created" | CONTENT_ACCESSED => "content_accessed"
  | CONTENT_FORWARDED => "content_forwarded" | CONTENT_DELETED => "content_deleted"
  | IDENTITY_CREATED => "identity_created" | CERTIFICATE_ISSUED => "certificate_issued"
  | CERTIFICATE_REVOKED => "certificate_revoked"
  | PEER_JOINED => "peer_joined" | PEER_LEFT => "peer_left"
  | MESSAGE_SENT => "message_sent" | MESSAGE_RECEIVED => "message_received"
  | SIGNATURE_VERIFIED => "signature_verified" | SIGNATURE_FAILED => "signature_failed"
  | DELETION_REQUESTED => "deletion_requested" | DELETION_CONFIRMED => "deletion_confirmed"
  | WATERMARK_EMBEDDED => "watermark_embedded" | LEAK_DETECTED => "leak_detected"
  | ACCESS_GRANTED => "access_granted" | ACCESS_DENIED => "access_denied"
  end.

(** [AuditEventType(value)]: [ValueError] for any other text. *)
Definition event_of_value (s : string) : result AuditEventType :=
  from_option_exn ValueError (snd <$> list_find (λ t, event_value t = s) all_event_types).

Section logger.
(** The JSON values a details dictionary may hold. *)
Context {J : Type}.

Record AuditEvent := mkAuditEvent {
  event_type : AuditEventType;
  event_timestamp : string;
  actor_id : string;
  target_id : option string;
  details : gmap string J;
}.

(** The dictionary form, [None] for a missing [target_id] or [details]. *)
Record EventDict := mkEventDict {
  ed_event_type : string;
  ed_timestamp : string;
  ed_actor_id : string;
  ed_target_id : option string;
  ed_details : option (gmap string J);
}.

Definition event_to_dict (e : AuditEvent) : EventDict :=
  mkEventDict (event_value e.(event_type)) e.(event_timestamp) e.(actor_id) e.(target_id)
    (Some e.(details)).

Definition event_from_dict (d : EventDict) : result AuditEvent :=
  t ← event_of_value d.(ed_event_type);
  Ok (mkAuditEvent t d.(ed_timestamp) d.(ed_actor_id) d.(ed_target_id)
        (default ∅ d.(ed_details))).

Context (dumps : EventDict → string → string → string) (sha256 : string → string).

Abbreviation entry := (TamperEvident.LogEntry EventDict).

Definition logger_log_event (now : Z) (e : AuditEvent) (log : list entry) : string * list entry :=
  TamperEvident.append dumps sha256 now (event_to_dict e) log.

(** [AuditLogger.log]: the event and the entry carry (nearly) the same time. *)
Definition logger_log (now : Z) (t : AuditEventType) (actor : string) (target : option string)
    (details : gmap string J) (log : list entry) : string * list entry :=
  logger_log_event now (mkAuditEvent t (isoformat now) actor target details) log.

Definition get_all_events (log : list entry) : result (list AuditEvent) :=
  mapR (λ e, event_from_dict e.(TamperEvident.data)) log.

Definition get_events_by_type (t : AuditEventType) (log : list entry) : result (list AuditEvent) :=
  events ← get_all_events log; Ok (filter (λ e, e.(event_type) = t) events).

Definition get_events_by_actor (a : string) (log : list entry) : result (list AuditEvent) :=
  events ← get_all_events log; Ok (filter (λ e, e.(actor_id) = a) events).

Definition get_events_for_target (t : string) (log : list entry) : result (list AuditEvent) :=
  events ← get_all_events log; Ok (filter (λ e, e.(target_id) = Some t) events).

(** [start <= e.timestamp <= end] compares texts. *)
Definition get_events_in_range (start stop : string) (log : list entry) : result (list AuditEvent) :=
  events ← get_all_events log;
  Ok (filter (λ e, negb (lex_lt (str e.(event_timestamp)) (str start))
                   && negb (lex_lt (str stop) (str e.(event_timestamp))) = true) events).

Lemma event_of_value_value t : event_of_value (event_value t) = Ok t.
Proof. destruct t; reflexivity. Qed.

Lemma event_from_to_dict e : event_from_dict (event_to_dict e) = Ok e.
Proof. unfold event_from_dict, event_to_dict. cbn. rewrite event_of_value_value. by destruct e. Qed.

(** Logging a list of events, each at its time. *)
Definition logger_run (events : list (Z * AuditEvent)) : list entry :=
  foldl (λ log te, (logger_log_event te.1 te.2 log).2) [] events.

Lemma logger_run_append events :
  logger_run events = TamperEvident.append_all dumps sha256 ((λ te, (te.1, event_to_dict te.2)) <$> events).
Proof. unfold logger_run, TamperEvident.append_all. by rewrite foldl_fmap. Qed.

Lemma append_all_data (events : list (Z * EventDict)) log :
  TamperEvident.data <$> foldl (λ l te, (TamperEvident.append dumps sha256 te.1 te.2 l).2) log events
  = (TamperEvident.data <$> log) ++ events.*2.
Proof.
  revert log; induction events as [|[t d] events IH]; intros log; simpl; [by rewrite app_nil_r|].
  rewrite IH, fmap_app, <-app_assoc. done.
Qed.

Lemma get_all_events_run events : get_all_events (logger_run events) = Ok events.*2.
Proof.
  unfold get_all_events.
  assert (∀ log : list entry, mapR (λ e, event_from_dict e.(TamperEvident.data)) log
    = mapR event_from_dict (TamperEvident.data <$> log)) as ->.
  { induction log as [|e log IH]; [done|]. csimpl. destruct (event_from_dict _); [|done]. cbn. by rewrite IH. }
  rewrite logger_run_append. unfold TamperEvident.append_all. rewrite append_all_data. simpl.
  rewrite <-list_fmap_compose. induction events as [|[t e] events IH]; [done|]. csimpl.
  rewrite event_from_to_dict. cbn. by rewrite IH.
Qed.
End logger.
Arguments AuditEvent : clear implicits.
Arguments EventDict : clear implicits.

(** ** [AuditLog]: the log file *)

Module FileLog.

(** [str.split(" | ")], scanning from the left. *)
Fixpoint split_fields (cur s : pystr) : list pystr :=
  match s with
  | [] => [reverse cur]
  | c :: s1 =>
      match s1 with
      | c1 :: (c2 :: rest) =>
          if (c =? 32) && (c1 =? 124) && (c2 =? 32)
          then reverse cur :: split_fields [] rest
          else split_fields (c :: cur) s1
      | _ => split_fields (c :: cur) s1
      end
  end.

Definition fields (s : pystr) : list pystr := split_fields [] s.

Fixpoint join_fields (parts : list pystr) : pystr :=
  match parts with
  | [] => []
  | [p] => p
  | p :: parts => p ++ [32; 124; 32] ++ join_fields parts
  end.

(** Reading a text file: line ends are [\n], [\r\n] or [\r]. *)
Fixpoint universal_newlines (s : pystr) : pystr :=
  match s with
  | [] => []
  | c :: s1 =>
      if c =? 13 then
        match s1 with
        | d :: s2 => if d =? 10 then 10 :: universal_newlines s2 else 10 :: universal_newlines s1
        | [] => [10]
        end
      else c :: universal_newlines s1
  end.

(** [f.readlines()] without the line ends; no empty last line. *)
Definition readlines (file : pystr) : list pystr :=
  let lines := split 10 (universal_newlines file) in
  match reverse lines with
  | [] :: rest => reverse rest
  | _ => lines
  end.

Section file_log.
Context (sha256 : pystr → pystr).

Record AuditLog := mkLog {
  file : pystr;
  last_hash : pystr;
}.

(** [f"{event_type} | {actor} | {target} | {timestamp} | {details} | {last_hash}"]. *)
Definition entry_content (event_type actor target timestamp details prev : pystr) : pystr :=
  join_fields [event_type; actor; target; timestamp; details; prev].

Definition log_event (now : Z) (event_type actor target details : pystr) (l : AuditLog) : AuditLog :=
  let content := entry_content event_type actor target (iso_codes now) details l.(last_hash) in
  let new_hash := sha256 content in
  mkLog (l.(file) ++ content ++ [32; 124; 32] ++ new_hash ++ [10]) new_hash.

(** Scan back from the byte before the last one to a line feed; without one
    the seek fails and the hash is empty. *)
Fixpoint scan_back (acc rev_file : pystr) : option pystr :=
  match rev_file with
  | [] => None
  | c :: rest => if c =? 10 then Some acc else scan_back (c :: acc) rest
  end.

Definition get_last_hash (file : pystr) : pystr :=
  match reverse file with
  | [] => []
  | final :: rest =>
      match scan_back [] rest with
      | None => []
      | Some line =>
          let last_line := strip (if final =? 10 then line else line ++ [final]) in
          default [] (last (fields last_line))
      end
  end.

Definition header : pystr :=
  str "# Audit Log - Chain of Custody Simulator" ++ [10] ++
  str "# Each entry is chained by hashing the previous entry's hash." ++ [10].

Definition initialize_log (now : Z) : AuditLog :=
  log_event now (str "GENESIS") (str "SYSTEM") (str "Log Initialized") (str "Initial state.")
    (mkLog header []).

(** [AuditLog()] on what the log file holds ([None]: there is no file). *)
Definition open_log (now : Z) (f : option pystr) : AuditLog :=
  let h := match f with Some f => get_last_hash f | None => [] end in
  if decide (h = []) then initialize_log now
  else mkLog (default [] f) h.

Fixpoint verify_entries (prev : pystr) (entries : list pystr) : bool :=
  match entries with
  | [] => true
  | entry :: entries =>
      match fields entry with
      | [_; _; _; _; _; prev_in_entry; stored_hash] as parts =>
          if decide (prev_in_entry ≠ prev) then false
          else if decide (sha256 (join_fields (take 6 parts)) ≠ stored_hash) then false
          else verify_entries stored_hash entries
      | _ => verify_entries prev entries
      end
  end.

Definition starts_with_hash (line : pystr) : bool :=
  match line with c :: _ => c =? 35 | [] => false end.

Definition verify_log_integrity (file : option pystr) : bool :=
  match file with
  | None => false
  | Some file =>
      verify_entries [] (strip <$> filter (λ l, starts_with_hash l = false) (readlines file))
  end.

(** ** Splitting what was joined *)

Lemma split_fields_snoc cur p rest :
  124 ∉ p → split_fields cur (p ++ 32 :: 124 :: 32 :: rest) = (reverse cur ++ p) :: split_fields [] rest.
Proof.
  revert cur; induction p as [|c p IH]; intros cur Hp.
  - simpl. by rewrite app_nil_r.
  - apply not_elem_of_cons in Hp as [Hc Hp]. specialize (IH (c :: cur) Hp).
    rewrite reverse_cons, <-app_assoc in IH. simpl in IH. rewrite <-IH.
    destruct p as [|d [|d' p]]; cbn [app]; cbn [split_fields].
    + by rewrite andb_false_r.
    + apply not_elem_of_cons in Hp as [Hd _].
      rewrite (proj2 (Z.eqb_neq d 124)) by done. by rewrite andb_false_r.
    + apply not_elem_of_cons in Hp as [Hd _].
      rewrite (proj2 (Z.eqb_neq d 124)) by done. by rewrite andb_false_r.
Qed.

Lemma split_fields_last cur p : 124 ∉ p → split_fields cur p = [reverse cur ++ p].
Proof.
  revert cur; induction p as [|c p IH]; intros cur Hp; [simpl; by rewrite app_nil_r|].
  apply not_elem_of_cons in Hp as [Hc Hp]. specialize (IH (c :: cur) Hp).
  rewrite reverse_cons, <-app_assoc in IH. simpl in IH. rewrite <-IH.
  destruct p as [|d [|d' p]]; [done|done|]. apply not_elem_of_cons in Hp as [Hd _].
  cbn [split_fields]. rewrite (proj2 (Z.eqb_neq d 124)) by done. by rewrite andb_false_r.
Qed.

Lemma fields_join parts :
  parts ≠ [] → Forall (λ p, 124 ∉ p) parts → fields (join_fields parts) = parts.
Proof.
  unfold fields. induction parts as [|p [|q parts] IH]; intros Hne Hf; [done|..].
  - apply Forall_cons in Hf as [Hp _]. cbn [join_fields]. by rewrite split_fields_last.
  - apply Forall_cons in Hf as [Hp Hf].
    change (join_fields (p :: q :: parts)) with (p ++ 32 :: 124 :: 32 :: join_fields (q :: parts)).
    rewrite split_fields_snoc by done. simpl. f_equal. by apply IH.
Qed.

(** ** Logs made of clean fields *)

(** No separator bar and no line end; event types are words. *)
Definition clean (s : pystr) : Prop := Forall (λ c, c ≠ 124 ∧ c ≠ 10 ∧ c ≠ 13) s.
Definition word (s : pystr) : Prop :=
  clean s ∧ ∃ c r, s = c :: r ∧ is_space c = false ∧ c ≠ 35.
#[global] Instance clean_dec s : Decision (clean s).
Proof. unfold clean. apply _. Defined.

(** What a hex digest looks like. *)
Context (sha256_hex : ∀ x, sha256 x ≠ [] ∧ Forall (λ c, 48 ≤ c ≤ 57 ∨ 97 ≤ c ≤ 102) (sha256 x)).

Lemma sha256_clean x : clean (sha256 x).
Proof. destruct (sha256_hex x) as [_ H]. eapply Forall_impl; [exact H|]. simpl. lia. Qed.

Lemma is_space_hex c : 48 ≤ c ≤ 57 ∨ 97 ≤ c ≤ 102 → is_space c = false.
Proof. intros Hc. unfold is_space. case_cmp; done. Qed.

Lemma iso_codes_clean t : 0 ≤ t < max_datetime → clean (iso_codes t).
Proof. intros Ht. eapply Forall_impl; [by apply iso_codes_range|]. simpl. lia. Qed.

Lemma lstrip_id c s : is_space c = false → lstrip (c :: s) = c :: s.
Proof. intros Hc. simpl. by rewrite Hc. Qed.

Lemma strip_id s c r s' d :
  s = c :: r → is_space c = false → s = s' ++ [d] → is_space d = false → strip s = s.
Proof.
  intros Hs Hc Hs' Hd. unfold strip. rewrite Hs, lstrip_id, <-Hs, Hs', reverse_app by done.
  change (reverse [d] ++ reverse s') with (d :: reverse s').
  rewrite lstrip_id by done. by rewrite reverse_cons, reverse_involutive.
Qed.

Lemma join_fields_head c r parts : ∃ rest, join_fields ((c :: r) :: parts) = c :: rest.
Proof. destruct parts; simpl; eauto. Qed.

Lemma join_fields_snoc parts h z : ∃ rest, join_fields (parts ++ [h ++ [z]]) = rest ++ [z].
Proof.
  induction parts as [|p parts [rest IH]]; [by exists h|].
  destruct parts as [|q parts]; cbn [app] in *.
  - exists (p ++ [32; 124; 32] ++ h). cbn [join_fields]. by rewrite !app_assoc.
  - exists (p ++ [32; 124; 32] ++ rest).
    change (join_fields (p :: q :: parts ++ [h ++ [z]]))
      with (p ++ [32; 124; 32] ++ join_fields (q :: parts ++ [h ++ [z]])).
    rewrite IH. by rewrite !app_assoc.
Qed.

(** An entry as its seven fields, chained from [prev]. *)
Definition entry_ok (prev : pystr) (parts : list pystr) (h : pystr) : Prop :=
  ∃ t a g ts d, parts = [t; a; g; ts; d; prev; h] ∧
    word t ∧ clean a ∧ clean g ∧ clean ts ∧ clean d ∧ clean prev ∧
    h = sha256 (join_fields [t; a; g; ts; d; prev]).

Fixpoint chained (prev : pystr) (es : list (list pystr)) (final : pystr) : Prop :=
  match es with
  | [] => prev = final
  | parts :: es => ∃ h, entry_ok prev parts h ∧ chained h es final
  end.

Lemma chained_snoc prev es mid parts final :
  chained prev es mid → entry_ok mid parts final → chained prev (es ++ [parts]) final.
Proof.
  revert prev; induction es as [|p es IH]; intros prev; simpl.
  - intros -> Hok. eauto.
  - intros (h & Hh & Hc) Hok. eauto.
Qed.

Lemma clean_join parts : Forall clean parts → Forall (λ c, c ≠ 10 ∧ c ≠ 13) (join_fields parts).
Proof.
  assert (∀ p, clean p → Forall (λ c, c ≠ 10 ∧ c ≠ 13) p) as Hcl.
  { intros p Hp. eapply Forall_impl; [exact Hp|]. naive_solver. }
  induction 1 as [|p parts Hp Hps IH]; [constructor|]. destruct parts; [auto|].
  change (join_fields (p :: l :: parts)) with (p ++ [32; 124; 32] ++ join_fields (l :: parts)).
  apply Forall_app. split; [auto|]. apply Forall_app. split; [|done]. repeat constructor; lia.
Qed.

Lemma entry_ok_clean prev parts h : entry_ok prev parts h → Forall clean parts.
Proof.
  intros (t & a & g & ts & d & -> & [Ht _] & Ha & Hg & Hts & Hd & Hp & ->).
  repeat constructor; try done. apply sha256_clean.
Qed.

Lemma entry_ok_fields prev parts h : entry_ok prev parts h → fields (join_fields parts) = parts.
Proof.
  intros Hok. apply fields_join; [by destruct Hok as (?&?&?&?&?&->&_)|].
  eapply Forall_impl; [by eapply entry_ok_clean|]. intros p Hp Hin. unfold clean in Hp.
  rewrite Forall_forall in Hp. by destruct (Hp _ Hin).
Qed.

(** A line starts with its event type and ends with a hash: stripping keeps it
    and it is not a comment. *)
Lemma line_strip t mid x : word t →
  strip (join_fields (t :: mid ++ [sha256 x])) = join_fields (t :: mid ++ [sha256 x]) ∧
  starts_with_hash (join_fields (t :: mid ++ [sha256 x])) = false.
Proof.
  intros [_ (c & r & -> & Hc & H35)].
  destruct (sha256_hex x) as [Hne Hhex]. destruct (sha256 x) as [|z h0 _] using rev_ind; [done|].
  apply Forall_app in Hhex as [_ Hz]. apply Forall_cons in Hz as [Hz _].
  destruct (join_fields_head c r (mid ++ [h0 ++ [z]])) as [rest Hrest].
  destruct (join_fields_snoc ((c :: r) :: mid) h0 z) as [front Hfront].
  split.
  - eapply strip_id; [exact Hrest|done|exact Hfront|by apply is_space_hex].
  - rewrite Hrest. simpl. by apply Z.eqb_neq.
Qed.

Lemma entry_ok_line prev parts h : entry_ok prev parts h →
  strip (join_fields parts) = join_fields parts ∧ starts_with_hash (join_fields parts) = false.
Proof.
  intros (t & a & g & ts & d & -> & Ht & _ & _ & _ & _ & _ & ->).
  by apply (line_strip t [a; g; ts; d; prev]).
Qed.

(** ** The file as lines *)

Definition file_of (lines : list pystr) : pystr := concat ((λ l, l ++ [10]) <$> lines).

Lemma split_file lines :
  Forall (λ l, Forall (λ c, c ≠ 10 ∧ c ≠ 13) l) lines → split 10 (file_of lines) = lines ++ [[]].
Proof.
  unfold split, file_of. induction 1 as [|l lines Hl _ IH]; [done|]. csimpl. rewrite <-app_assoc.
  rewrite split_aux_app by (intros Hin; rewrite Forall_forall in Hl; by destruct (Hl _ Hin)).
  rewrite app_nil_r. cbn [app split_aux]. by rewrite Z.eqb_refl, reverse_involutive, IH.
Qed.

Lemma universal_newlines_id s : Forall (λ c, c ≠ 13) s → universal_newlines s = s.
Proof.
  induction 1 as [|c s Hc _ IH]; [done|]. cbn [universal_newlines].
  rewrite (proj2 (Z.eqb_neq _ _)) by done. by rewrite IH.
Qed.

Lemma readlines_file lines :
  Forall (λ l, Forall (λ c, c ≠ 10 ∧ c ≠ 13) l) lines → readlines (file_of lines) = lines.
Proof.
  intros Hl. unfold readlines. rewrite universal_newlines_id.
  - rewrite split_file by done. rewrite reverse_app.
    change (reverse [[]] ++ reverse lines) with ([] :: reverse lines). apply reverse_involutive.
  - unfold file_of. clear -Hl. induction Hl as [|l lines Hl _ IH]; [constructor|]. csimpl.
    apply Forall_app. split; [|done]. apply Forall_app. split; [|by constructor].
    eapply Forall_impl; [exact Hl|]. naive_solver.
Qed.

Definition header_lines : list pystr :=
  [str "# Audit Log - Chain of Custody Simulator";
   str "# Each entry is chained by hashing the previous entry's hash."].

(** A log file holding the header and a chain of entries. *)
Definition log_ok (l : AuditLog) : Prop :=
  ∃ es, es ≠ [] ∧ l.(file) = file_of (header_lines ++ (join_fields <$> es)) ∧
    chained [] es l.(last_hash).

Lemma file_of_app l k : file_of (l ++ k) = file_of l ++ file_of k.
Proof. unfold file_of. by rewrite fmap_app, concat_app. Qed.

Lemma log_event_entry now t a g d l :
  word t → clean a → clean g → clean d → 0 ≤ now < max_datetime → clean l.(last_hash) →
  ∃ parts, entry_ok l.(last_hash) parts (log_event now t a g d l).(last_hash) ∧
    (log_event now t a g d l).(file) = l.(file) ++ file_of [join_fields parts].
Proof.
  intros Ht Ha Hg Hd Hnow Hl.
  set (c := join_fields [t; a; g; iso_codes now; d; last_hash l]).
  exists [t; a; g; iso_codes now; d; last_hash l; sha256 c]. split.
  - exists t, a, g, (iso_codes now), d. repeat (split; [done||by apply iso_codes_clean|]). done.
  - unfold log_event, file_of, entry_content. cbn [file concat fmap list_fmap]. rewrite app_nil_r. f_equal.
    fold c. cbn [join_fields]. unfold c. cbn [join_fields]. by rewrite <-!app_assoc.
Qed.

Lemma chained_clean prev es final : clean prev → chained prev es final → clean final.
Proof.
  revert prev; induction es as [|p es IH]; intros prev Hp; simpl; [by intros <-|].
  intros (h & (t & a & g & ts & d & _ & _ & _ & _ & _ & _ & _ & ->) & Hc).
  eapply IH; [|exact Hc]. apply sha256_clean.
Qed.

Lemma log_event_ok now t a g d l :
  word t → clean a → clean g → clean d → 0 ≤ now < max_datetime →
  log_ok l → log_ok (log_event now t a g d l).
Proof.
  intros Ht Ha Hg Hd Hnow (es & Hne & Hf & Hc).
  destruct (log_event_entry now t a g d l) as (parts & Hok & Hfile); try done.
  { eapply chained_clean; [|exact Hc]. constructor. }
  exists (es ++ [parts]). split; [by destruct es|]. split.
  - rewrite Hfile, Hf, fmap_app, app_assoc, (file_of_app (_ ++ _)). done.
  - by eapply chained_snoc.
Qed.

Lemma initialize_log_ok now : 0 ≤ now < max_datetime → log_ok (initialize_log now).
Proof.
  intros Hnow. unfold initialize_log.
  assert (∀ s, bool_decide (clean s) = true → clean s) as Hcl by (intros s; apply bool_decide_eq_true).
  destruct (log_event_entry now (str "GENESIS") (str "SYSTEM") (str "Log Initialized")
    (str "Initial state.") (mkLog header [])) as (parts & Hok & Hfile); try done; try (by apply Hcl).
  { split; [by apply Hcl|]. do 2 eexists. split; [reflexivity|]. done. }
  exists [parts]. split; [done|]. split.
  - rewrite Hfile. cbn [file fmap list_fmap]. rewrite (file_of_app header_lines). reflexivity.
  - simpl. eexists. split; [exact Hok|done].
Qed.

Lemma chained_lines prev es final : chained prev es final →
  Forall (λ l, Forall (λ c, c ≠ 10 ∧ c ≠ 13) l) (join_fields <$> es) ∧
  filter (λ l, starts_with_hash l = false) (join_fields <$> es) = join_fields <$> es ∧
  strip <$> (join_fields <$> es) = join_fields <$> es.
Proof.
  revert prev; induction es as [|parts es IH]; intros prev; [done|]. intros (h & Hok & Hc).
  destruct (IH _ Hc) as (IH1 & IH2 & IH3). destruct (entry_ok_line _ _ _ Hok) as [Hs Hh]. csimpl.
  split; [|split].
  - constructor; [|done]. apply clean_join. by eapply entry_ok_clean.
  - rewrite filter_cons_True by done. by rewrite IH2.
  - by rewrite Hs, IH3.
Qed.

Lemma verify_entries_chained prev es final :
  chained prev es final → verify_entries prev (join_fields <$> es) = true.
Proof.
  revert prev; induction es as [|parts es IH]; intros prev; [done|]. intros (h & Hok & Hc). csimpl.
  cbn [verify_entries]. rewrite (entry_ok_fields _ _ _ Hok).
  destruct Hok as (t & a & g & ts & d & -> & _ & _ & _ & _ & _ & _ & ->).
  rewrite decide_False by tauto. cbn [take]. rewrite decide_False by tauto. by apply IH.
Qed.

Lemma header_lines_ok : Forall (λ l, Forall (λ c, c ≠ 10 ∧ c ≠ 13) l) header_lines ∧
  filter (λ l, starts_with_hash l = false) header_lines = [].
Proof. split; [apply (bool_decide_unpack _); vm_compute; exact I|reflexivity]. Qed.

Lemma verify_log_ok l : log_ok l → verify_log_integrity (Some l.(file)) = true.
Proof.
  intros (es & _ & Hf & Hc). destruct (chained_lines _ _ _ Hc) as (H1 & H2 & H3).
  destruct header_lines_ok as [G1 G2]. unfold verify_log_integrity.
  rewrite Hf, readlines_file by (by apply Forall_app).
  rewrite filter_app, G2, H2. cbn [app]. rewrite H3. by eapply verify_entries_chained.
Qed.

Lemma file_of_snoc lines : lines ≠ [] → ∃ x, file_of lines = x ++ [10].
Proof.
  destruct lines as [|l lines _] using rev_ind; [done|]. intros _. rewrite file_of_app.
  exists (file_of lines ++ l). unfold file_of at 2. csimpl. by rewrite app_nil_r, app_assoc.
Qed.

Lemma scan_back_line acc rest line :
  Forall (λ c, c ≠ 10) line → scan_back acc (line ++ 10 :: rest) = Some (reverse line ++ acc).
Proof.
  revert acc; induction line as [|c line IH]; intros acc Hl; [done|].
  apply Forall_cons in Hl as [Hc Hl]. cbn [app scan_back]. rewrite (proj2 (Z.eqb_neq _ _)) by done.
  rewrite IH by done. by rewrite reverse_cons, <-app_assoc.
Qed.

Lemma get_last_hash_ok l : log_ok l → get_last_hash l.(file) = l.(last_hash) ∧ l.(last_hash) ≠ [].
Proof.
  intros (es & Hne & Hf & Hc). destruct es as [|parts es _] using rev_ind; [done|]. clear Hne.
  assert (∃ mid, chained [] es mid ∧ entry_ok mid parts l.(last_hash)) as (mid & Hc' & Hok).
  { clear Hf. revert Hc. generalize (@nil Z). induction es as [|p es IH]; intros prev; simpl.
    - intros (h & Hok & ->). eauto.
    - intros (h & Hok & Hc). destruct (IH _ Hc) as (mid & ? & ?). eauto. }
  assert (l.(last_hash) ≠ []) as Hhne.
  { destruct Hok as (t & a & g & ts & d & _ & _ & _ & _ & _ & _ & _ & ->). apply sha256_hex. }
  split; [|done]. rewrite Hf, fmap_app, app_assoc, (file_of_app (_ ++ _)). cbn [fmap list_fmap].
  unfold get_last_hash. unfold file_of at 2. cbn [fmap list_fmap concat]. rewrite app_nil_r, app_assoc, reverse_app.
  change (reverse [10] ++ ?r) with (10 :: r). cbn [Z.eqb Pos.eqb].
  destruct (file_of_snoc (header_lines ++ (join_fields <$> es)) ltac:(done)) as [x ->].
  rewrite !reverse_app. change (reverse [10]) with [10]. cbn [app].
  rewrite scan_back_line; cycle 1.
  { apply Forall_reverse. eapply Forall_impl; [apply clean_join; by eapply entry_ok_clean|]. naive_solver. }
  rewrite reverse_involutive, app_nil_r. destruct (entry_ok_line _ _ _ Hok) as [-> _].
  rewrite (entry_ok_fields _ _ _ Hok). by destruct Hok as (t & a & g & ts & d & -> & _).
Qed.

(** One call of [log_event]: time, type, actor, target, details. *)
Definition log_call : Type := Z * (pystr * pystr * pystr * pystr).

Definition call_ok (c : log_call) : Prop :=
  let '(now, (t, a, g, d)) := c in
  0 ≤ now < max_datetime ∧ word t ∧ clean a ∧ clean g ∧ clean d.

Definition run_calls (calls : list log_call) (l : AuditLog) : AuditLog :=
  foldl (λ l '(now, (t, a, g, d)), log_event now t a g d l) l calls.

Lemma run_calls_ok calls l : Forall call_ok calls → log_ok l → log_ok (run_calls calls l).
Proof.
  intros Hc. revert l. induction Hc as [|[now [[[t a] g] d]] calls (? & ? & ? & ? & ?) _ IH];
    intros l Hl; [done|]. simpl. apply IH. by apply log_event_ok.
Qed.

Lemma verify_entries_app prev es final rest :
  chained prev es final →
  verify_entries prev ((join_fields <$> es) ++ rest) = verify_entries final rest.
Proof.
  revert prev; induction es as [|parts es IH]; intros prev; [by intros ->|]. intros (h & Hok & Hc). csimpl.
  cbn [verify_entries]. rewrite (entry_ok_fields _ _ _ Hok).
  destruct Hok as (t & a & g & ts & d & -> & _ & _ & _ & _ & _ & _ & ->).
  rewrite decide_False by tauto. cbn [take]. rewrite decide_False by tauto. by apply IH.
Qed.

(** A line that does not split into seven fields is passed over. *)
Lemma verify_entries_skip prev l rest :
  length (fields l) ≠ 7%nat → verify_entries prev (l :: rest) = verify_entries prev rest.
Proof. intros Hl. cbn [verify_entries]. by repeat case_match. Qed.

Lemma verify_entries_skip_mid prev ls l rest :
  length (fields l) ≠ 7%nat → verify_entries prev (ls ++ l :: rest) = verify_entries prev (ls ++ rest).
Proof.
  intros Hl. revert prev; induction ls as [|x ls IH]; intros prev; [by apply verify_entries_skip|].
  cbn [app verify_entries]. repeat case_match; auto.
Qed.

Lemma dirty_entry now t a g d1 d2 l :
  ∃ x, (log_event now t a g (join_fields [d1; d2]) l).(last_hash) = sha256 x ∧
    (log_event now t a g (join_fields [d1; d2]) l).(file)
    = l.(file) ++ file_of [join_fields [t; a; g; iso_codes now; d1; d2; last_hash l; sha256 x]].
Proof.
  eexists. split; [reflexivity|]. unfold log_event, file_of. cbn [file concat fmap list_fmap].
  rewrite app_nil_r. f_equal. unfold entry_content. cbn [join_fields]. by rewrite <-!app_assoc.
Qed.

(** An [AuditLog] that starts without a file and records any events whose
    fields hold no "|" and no line break verifies, and opening its file again
    gives the same state, so later events continue the chain. *)
Theorem file_log_verifies_and_reopens (now now' : Z) (calls : list log_call) :
  0 ≤ now < max_datetime → Forall call_ok calls →
  let l := run_calls calls (open_log now None) in
  verify_log_integrity (Some l.(file)) = true ∧ open_log now' (Some l.(file)) = l.
Proof.
  intros Hnow Hcalls l. assert (log_ok l) as Hl by (by apply run_calls_ok, initialize_log_ok).
  split; [by apply verify_log_ok|]. destruct (get_last_hash_ok l Hl) as [Hh Hne].
  unfold open_log. rewrite Hh, decide_False by done. by destruct l.
Qed.

(** An event whose details contain the field separator " | " makes the
    log fail verification from the next event on, although nobody tampered
    with it (unless its hash happened to equal the previous one). *)
Theorem separator_in_details_breaks_log (now now2 : Z) (l : AuditLog) (t a g d1 d2 t2 a2 g2 d3 : pystr) :
  log_ok l → 0 ≤ now < max_datetime → 0 ≤ now2 < max_datetime →
  word t → clean a → clean g → clean d1 → clean d2 → word t2 → clean a2 → clean g2 → clean d3 →
  let dirty := log_event now t a g (join_fields [d1; d2]) l in
  dirty.(last_hash) ≠ l.(last_hash) →
  verify_log_integrity (Some (log_event now2 t2 a2 g2 d3 dirty).(file)) = false.
Proof.
  intros (es & _ & Hf & Hc) Hnow Hnow2 Ht Ha Hg Hd1 Hd2 Ht2 Ha2 Hg2 Hd3 dirty Hdiff.
  assert (clean (last_hash l)) as Hcl by (eapply chained_clean; [constructor|exact Hc]).
  destruct (dirty_entry now t a g d1 d2 l) as (x & Hh & Hfd). fold dirty in Hh, Hfd.
  set (parts := [t; a; g; iso_codes now; d1; d2; last_hash l; sha256 x]) in *.
  destruct (log_event_entry now2 t2 a2 g2 d3 dirty) as (parts2 & Hok2 & Hf2); try done.
  { rewrite Hh. apply sha256_clean. }
  assert (Forall clean parts) as Hparts.
  { repeat constructor; try done; [by destruct Ht|by apply iso_codes_clean|apply sha256_clean]. }
  assert (fields (join_fields parts) = parts) as Hfields.
  { apply fields_join; [done|]. eapply Forall_impl; [exact Hparts|]. intros p Hp Hin. unfold clean in Hp.
    rewrite Forall_forall in Hp. by destruct (Hp _ Hin). }
  destruct (line_strip t [a; g; iso_codes now; d1; d2; last_hash l] x Ht) as [Hs1 Hn1].
  cbn [app] in Hs1, Hn1. fold parts in Hs1, Hn1.
  destruct (entry_ok_line _ _ _ Hok2) as [Hs2 Hn2].
  destruct (chained_lines _ _ _ Hc) as (H1 & H2 & H3). destruct header_lines_ok as [G1 G2].
  unfold verify_log_integrity. rewrite Hf2, Hfd, Hf, <-!file_of_app, <-!app_assoc. cbn [app].
  rewrite readlines_file; cycle 1.
  { apply Forall_app. split; [done|]. apply Forall_app. split; [done|]. repeat constructor.
    - by apply clean_join.
    - apply clean_join. by eapply entry_ok_clean. }
  rewrite !filter_app, G2, H2. cbn [app]. rewrite filter_cons_True, filter_cons_True by done.
  rewrite filter_nil, fmap_app, H3, !fmap_cons, fmap_nil, Hs1, Hs2. rewrite (verify_entries_app _ _ _ _ Hc).
  rewrite verify_entries_skip by (by rewrite Hfields).
  cbn [verify_entries]. rewrite (entry_ok_fields _ _ _ Hok2).
  destruct Hok2 as (u & ? & ? & ? & ? & -> & _). by rewrite decide_True.
Qed.

(** [verify_log_integrity] does not notice foreign lines: inserting, at
    any place, a line that does not split into exactly seven fields leaves the
    verdict unchanged. *)
Theorem verify_ignores_malformed_lines (before after : list pystr) (junk : pystr) :
  Forall (λ l, Forall (λ c, c ≠ 10 ∧ c ≠ 13) l) (before ++ junk :: after) →
  length (fields (strip junk)) ≠ 7%nat →
  verify_log_integrity (Some (file_of (before ++ junk :: after)))
  = verify_log_integrity (Some (file_of (before ++ after))).
Proof.
  intros Hall Hjunk. unfold verify_log_integrity. rewrite !readlines_file; [|..].
  - rewrite !filter_app, !fmap_app, filter_cons. case_decide; [|done]. csimpl.
    by apply verify_entries_skip_mid.
  - apply Forall_app in Hall as [? [_ ?]%Forall_cons]. by apply Forall_app.
  - done.
Qed.

End file_log.
End FileLog.

(** ** Properties *)

(** C19: the in-memory audit log verifies after any events and returns exactly
    the events that were logged; and a different list of entries that also
    verifies and ends in the same hash exists only together with a SHA-256
    collision between two of the hashed texts. *)
Theorem audit_logger_tamper_evident {J : Type} (dumps : EventDict J → string → string → string)
    (sha256 : string → string) (events : list (Z * AuditEvent J))
    (forged : list (TamperEvident.LogEntry (EventDict J))) :
  (∀ d t p d' t' p', dumps d t p = dumps d' t' p' → d = d' ∧ t = t' ∧ p = p') →
  (∀ s, sha256 s ≠ "") →
  let log := logger_run dumps sha256 events in
  TamperEvident.verify dumps sha256 log = true ∧
  get_all_events log = Ok events.*2 ∧
  (TamperEvident.verify dumps sha256 forged = true →
   TamperEvident.last_hash forged = TamperEvident.last_hash log →
   forged = log ∨ TamperEvident.collision dumps sha256 forged log).
Proof.
  intros Hinj Hne log. split; [|split].
  - unfold log. rewrite logger_run_append. apply TamperEvident.verify_append_all.
  - apply get_all_events_run.
  - intros Hv Hl. apply TamperEvident.chain_determines_log; try done.
    unfold log. rewrite logger_run_append. apply TamperEvident.verify_append_all.
Qed.

(** A toy injective serialisation and a toy digest. *)
Definition toy_dumps (d : EventDict ()) (t p : string) : string :=
  pretty (N.pos (encode (d.(ed_event_type), d.(ed_timestamp), d.(ed_actor_id), d.(ed_target_id),
    d.(ed_details), t, p))).
Definition toy_sha (s : string) : string := "h" +:+ s.

Lemma toy_dumps_inj d t p d' t' p' :
  toy_dumps d t p = toy_dumps d' t' p' → d = d' ∧ t = t' ∧ p = p'.
Proof.
  unfold toy_dumps. intros Heq%(inj pretty). injection Heq as Heq. apply (inj encode) in Heq.
  destruct d, d'; cbn in Heq. by simplify_eq.
Qed.

Definition sample_events : list (Z * AuditEvent ()) :=
  [(5, mkAuditEvent CONTENT_CREATED "t0" "ann" (Some "doc") ∅);
   (6, mkAuditEvent LEAK_DETECTED "t1" "bob" None ∅)].

Lemma audit_logger_tamper_evident_witness :
  let log := logger_run toy_dumps toy_sha sample_events in
  TamperEvident.verify toy_dumps toy_sha log = true ∧
  get_all_events log = Ok (sample_events.*2) ∧
  (TamperEvident.verify toy_dumps toy_sha [] = true →
   TamperEvident.last_hash (D := EventDict ()) [] = TamperEvident.last_hash log →
   [] = log ∨ TamperEvident.collision toy_dumps toy_sha [] log).
Proof. apply (audit_logger_tamper_evident toy_dumps toy_sha sample_events [] toy_dumps_inj). done. Defined.

(** A one-digit digest of text, for the file log. *)
Definition toy_digest (x : pystr) : pystr := [hexdigit (Z.of_nat (length x) mod 16)].

Lemma toy_digest_hex x :
  toy_digest x ≠ [] ∧ Forall (λ c, 48 ≤ c ≤ 57 ∨ 97 ≤ c ≤ 102) (toy_digest x).
Proof.
  split; [done|]. constructor; [|constructor]. pose proof (Z.mod_pos_bound (Z.of_nat (length x)) 16).
  unfold hexdigit. case_cmp; lia.
Qed.

Lemma ascii_clean s : bool_decide (FileLog.clean (str s)) = true → FileLog.clean (str s).
Proof. apply bool_decide_eq_true. Qed.

Lemma delete_word : FileLog.word (str "DELETE").
Proof. split; [by apply ascii_clean|]. do 2 eexists. split; [reflexivity|done]. Qed.

Lemma file_log_verifies_and_reopens_witness :
  let l := FileLog.run_calls toy_digest [(7, (str "DELETE", str "ann", str "doc", []))]
             (FileLog.open_log toy_digest 5 None) in
  FileLog.verify_log_integrity toy_digest (Some l.(FileLog.file)) = true ∧
  FileLog.open_log toy_digest 9 (Some l.(FileLog.file)) = l.
Proof.
  apply (FileLog.file_log_verifies_and_reopens toy_digest toy_digest_hex 5 9
    [(7, (str "DELETE", str "ann", str "doc", []))]).
  - split; [lia|reflexivity].
  - constructor; [|constructor]. split; [split; [lia|reflexivity]|].
    split; [exact delete_word|]. repeat split; try (by apply ascii_clean). constructor.
Defined.

Lemma separator_in_details_breaks_log_witness :
  FileLog.verify_log_integrity toy_digest (Some (FileLog.file
    (FileLog.log_event toy_digest 8 (str "DELETE") (str "ann") (str "doc") []
      (FileLog.log_event toy_digest 7 (str "DELETE") (str "ann") (str "doc")
        (FileLog.join_fields [str "Target: doc"; str "Votes: 3"])
        (FileLog.initialize_log toy_digest 5))))) = false.
Proof.
  assert (∀ t, 0 ≤ t ≤ 10 → 0 ≤ t < max_datetime) as Ht.
  { intros t Ht. split; [lia|]. apply Z.le_lt_trans with 10; [lia|reflexivity]. }
  apply (FileLog.separator_in_details_breaks_log toy_digest toy_digest_hex 7 8
    (FileLog.initialize_log toy_digest 5) (str "DELETE") (str "ann") (str "doc")
    (str "Target: doc") (str "Votes: 3") (str "DELETE") (str "ann") (str "doc") []);
    try (by apply ascii_clean); try exact delete_word; try (apply Ht; lia).
  - apply (FileLog.initialize_log_ok toy_digest). apply Ht. lia.
  - constructor.
  - vm_compute. discriminate.
Defined.

Lemma verify_ignores_malformed_lines_witness :
  FileLog.verify_log_integrity toy_digest (Some (FileLog.file_of ([str "# x"] ++ str "junk" :: [])))
  = FileLog.verify_log_integrity toy_digest (Some (FileLog.file_of ([str "# x"] ++ []))).
Proof.
  apply (FileLog.verify_ignores_malformed_lines toy_digest [str "# x"] [] (str "junk")).
  - apply (bool_decide_unpack _). vm_compute. exact I.
  - vm_compute. discriminate.
Defined.
