(* ===== verification/TimeLock.v ===== *)
(** * Time-lock encryption ([coc_framework/core/timelock.py])

    [KeyStore], [TimeLockEngine] and [SimulatedTimeLockService].  Every method
    that takes the store's lock is one atomic operation at a time [now]; the
    cleanup daemon is an operation that may run between any two others.
    [extend_ttl] takes the lock three times, so it is also given as its three
    atomic steps.  Random draws are arguments. *)

From Stdlib Require Import ZArith Lia String.
From S2P Require Import Prelude PyData DateTime SecretSharing.

Module TimeLock.

Inductive TimeLockStatus := ACTIVE | EXPIRED | DESTROYED.

Record TimeLockMetadata := mkMeta {
  lock_id : string;
  content_hash : pystr;
  created_at : string;
  expires_at : string;
  ttl_seconds : Z;
  status : string;
}.

(** [is_expired]: raises [ValueError] on text that is not a date-time. *)
Definition metadata_is_expired (now : Z) (m : TimeLockMetadata) : result bool :=
  match iso_parse (str m.(expires_at)) with
  | Some expires => Ok (expires <? now)
  | None => Raise ValueError
  end.

Record EncryptedContent := mkEncrypted {
  ciphertext : bytes;
  nonce : bytes;
  metadata : TimeLockMetadata;
}.

(** The dictionary form. *)
Record EncryptedDict := mkEncryptedDict {
  ec_ciphertext : pystr;
  ec_nonce : pystr;
  ec_metadata : TimeLockMetadata;
}.

Definition encrypted_to_dict (e : EncryptedContent) : EncryptedDict :=
  mkEncryptedDict (bytes_hex e.(ciphertext)) (bytes_hex e.(nonce)) e.(metadata).

Definition encrypted_from_dict (d : EncryptedDict) : result EncryptedContent :=
  c ← bytes_fromhex d.(ec_ciphertext);
  n ← bytes_fromhex d.(ec_nonce);
  Ok (mkEncrypted c n d.(ec_metadata)).

(** ** [KeyStore] *)

Abbreviation KeyStore := (gmap string (bytes * Z)).   (* lock_id -> (key, expiry) *)

(** Overwrite the key with [random] bytes. *)
Definition secure_wipe (random : bytes) (id : string) (ks : KeyStore) : KeyStore :=
  alter (λ '(_, expiry), (random, expiry)) id ks.

Definition wipe_and_delete (random : bytes) (id : string) (ks : KeyStore) : KeyStore :=
  delete id (secure_wipe random id ks).

Definition store_key (id : string) (key : bytes) (expiry : Z) (ks : KeyStore) : KeyStore :=
  <[id := (key, expiry)]> ks.

Definition get_key (random : bytes) (now : Z) (id : string) (ks : KeyStore)
    : option bytes * KeyStore :=
  match ks !! id with
  | None => (None, ks)
  | Some (key, expiry) =>
      if expiry <? now then (None, wipe_and_delete random id ks) else (Some key, ks)
  end.

Definition destroy_key (random : bytes) (id : string) (ks : KeyStore) : bool * KeyStore :=
  match ks !! id with
  | Some _ => (true, wipe_and_delete random id ks)
  | None => (false, ks)
  end.

Definition has_key (random : bytes) (now : Z) (id : string) (ks : KeyStore) : bool * KeyStore :=
  let '(k, ks) := get_key random now id ks in (bool_decide (is_Some k), ks).

Definition get_expiry (id : string) (ks : KeyStore) : option Z := snd <$> ks !! id.

Definition cleanup_expired (random : bytes) (now : Z) (ks : KeyStore) : KeyStore :=
  let expired := (filter (λ ike, ike.2.2 < now) (map_to_list ks)).*1 in
  foldr (wipe_and_delete random) ks expired.

(** ** [TimeLockEngine] *)

Record Engine := mkEngine {
  key_store : KeyStore;
  metadata_store : gmap string TimeLockMetadata;
}.

Definition init_engine : Engine := mkEngine ∅ ∅.

Definition set_status (s : string) (m : TimeLockMetadata) : TimeLockMetadata :=
  mkMeta m.(lock_id) m.(content_hash) m.(created_at) m.(expires_at) m.(ttl_seconds) s.

Definition with_keys (e : Engine) (ks : KeyStore) : Engine := mkEngine ks e.(metadata_store).

Section engine.
Context {P : SharingPrims}.

(** What one call of [encrypt] draws. *)
Record lock_entropy := mkEntropy {
  le_lock_id : string;
  le_key : bytes;
  le_nonce : bytes;
}.

Definition encrypt (r : lock_entropy) (now : Z) (content : pystr) (ttl : Z) (e : Engine)
    : result (EncryptedContent * Engine) :=
  expires ← add_seconds now ttl;
  plaintext ← utf8_encode content;
  let hash := sha256_hexdigest plaintext in
  let ct := aesgcm_encrypt r.(le_key) r.(le_nonce) plaintext in
  let m := mkMeta r.(le_lock_id) hash (isoformat now) (isoformat expires) ttl "ACTIVE" in
  Ok (mkEncrypted ct r.(le_nonce) m,
      mkEngine (store_key r.(le_lock_id) r.(le_key) expires e.(key_store))
        (<[r.(le_lock_id) := m]> e.(metadata_store))).

Definition decrypt (random : bytes) (now : Z) (enc : EncryptedContent) (e : Engine)
    : option pystr * Engine :=
  let id := enc.(metadata).(lock_id) in
  let '(key, ks) := get_key random now id e.(key_store) in
  match key with
  | None =>
      (None, mkEngine ks (alter (λ m, if decide (m.(status) ≠ "DESTROYED")
                                      then set_status "EXPIRED" m else m) id e.(metadata_store)))
  | Some key =>
      (catch (plaintext ← aesgcm_decrypt key enc.(nonce) enc.(ciphertext);
              content ← utf8_decode plaintext;
              if decide (sha256_hexdigest plaintext ≠ enc.(metadata).(content_hash)) then Ok None
              else Ok (Some content)) (λ _, None),
       with_keys e ks)
  end.

Definition destroy (random : bytes) (id : string) (e : Engine) : bool * Engine :=
  let '(success, ks) := destroy_key random id e.(key_store) in
  (success,
   mkEngine ks (if success then alter (set_status "DESTROYED") id e.(metadata_store)
                else e.(metadata_store))).

Definition get_status (random : bytes) (now : Z) (id : string) (e : Engine)
    : TimeLockStatus * Engine :=
  match e.(metadata_store) !! id with
  | None => (DESTROYED, e)
  | Some m =>
      if decide (m.(status) = "DESTROYED") then (DESTROYED, e)
      else
        let '(has, ks) := has_key random now id e.(key_store) in
        (if has : bool then ACTIVE else EXPIRED, with_keys e ks)
  end.

(** Microseconds left, never negative. *)
Definition get_remaining_time (now : Z) (id : string) (e : Engine) : option Z :=
  expiry ← get_expiry id e.(key_store); Some (Z.max 0 (expiry - now)).

(** The last locked section of [extend_ttl] and the metadata update. *)
Definition extend_store (id : string) (key : bytes) (new_expiry additional : Z) (e : Engine) : Engine :=
  mkEngine (store_key id key new_expiry e.(key_store))
    (alter (λ m, mkMeta m.(lock_id) m.(content_hash) m.(created_at) (isoformat new_expiry)
                   (m.(ttl_seconds) + additional) m.(status)) id e.(metadata_store)).

Definition extend_ttl (random : bytes) (now : Z) (id : string) (additional : Z) (e : Engine)
    : result bool * Engine :=
  let '(key, ks) := get_key random now id e.(key_store) in
  let e := with_keys e ks in
  match key with
  | None => (Ok false, e)
  | Some key =>
      match get_expiry id e.(key_store) with
      | None => (Ok false, e)
      | Some current =>
          match add_seconds current additional with
          | Raise ex => (Raise ex, e)
          | Ok new_expiry => (Ok true, extend_store id key new_expiry additional e)
          end
      end
  end.

End engine.

(** ** [SimulatedTimeLockService] *)

Module Simulated.

Record service := mk {
  current_time : Z;
  locks : gmap string (bytes * bytes * bytes * Z);   (* key, nonce, ciphertext, ttl *)
  creation_times : gmap string Z;
}.

Definition set_time (t : Z) (s : service) : service := mk t s.(locks) s.(creation_times).

Definition advance_time (us : Z) (s : service) : service :=
  mk (s.(current_time) + us) s.(locks) s.(creation_times).

Section service_code.
Context {P : SharingPrims}.

Definition encrypt (r : lock_entropy) (content : pystr) (ttl : Z) (s : service)
    : result (string * bytes * service) :=
  plaintext ← utf8_encode content;
  let ct := aesgcm_encrypt r.(le_key) r.(le_nonce) plaintext in
  Ok (r.(le_lock_id), ct,
      mk s.(current_time) (<[r.(le_lock_id) := (r.(le_key), r.(le_nonce), ct, ttl)]> s.(locks))
        (<[r.(le_lock_id) := s.(current_time)]> s.(creation_times))).

Definition decrypt (id : string) (s : service) : result (option pystr) * service :=
  match s.(locks) !! id with
  | None => (Ok None, s)
  | Some (key, nonce, ct, ttl) =>
      match s.(creation_times) !! id with
      | None => (Raise KeyError, s)
      | Some created =>
          if ttl * 1000000 <? s.(current_time) - created
          then (Ok None, mk s.(current_time) (delete id s.(locks)) (delete id s.(creation_times)))
          else (Ok (catch (plaintext ← aesgcm_decrypt key nonce ct;
                           content ← utf8_decode plaintext; Ok (Some content)) (λ _, None)), s)
      end
  end.

Definition is_expired (id : string) (s : service) : result bool :=
  match s.(locks) !! id with
  | None => Ok true
  | Some (_, _, _, ttl) =>
      created ← from_option_exn KeyError (s.(creation_times) !! id);
      Ok (ttl * 1000000 <? s.(current_time) - created)
  end.
End service_code.
End Simulated.

(** ** Wiping and cleaning up *)

Lemma wipe_and_delete_eq random id ks : wipe_and_delete random id ks = delete id ks.
Proof.
  unfold wipe_and_delete, secure_wipe. apply map_eq. intros i. destruct (decide (i = id)) as [->|].
  - by rewrite !lookup_delete_eq.
  - by rewrite !lookup_delete_ne, lookup_alter_ne.
Qed.

Lemma cleanup_expired_spec random now ks :
  cleanup_expired random now ks = filter (λ ike, ¬ ike.2.2 < now) ks.
Proof.
  unfold cleanup_expired.
  assert (∀ l, foldr (wipe_and_delete random) ks l = foldr delete ks l) as ->.
  { induction l as [|i l IH]; simpl; [done|]. by rewrite wipe_and_delete_eq, IH. }
  apply map_eq. intros i. apply option_eq. intros [k t].
  rewrite lookup_foldr_delete_Some, map_lookup_filter_Some, list_elem_of_fmap.
  setoid_rewrite list_elem_of_filter. cbn. split.
  - intros [Hn Hl]. split; [done|]. intros Ht. apply Hn. exists (i, (k, t)).
    by rewrite elem_of_map_to_list.
  - intros [Hl Ht]. split; [|done]. intros ([i' [k' t']] & -> & Ht' & Hl'%elem_of_map_to_list).
    cbn in *. by simplify_eq.
Qed.


(** ** Histories of engine calls *)

Section histories.
Context {P : SharingPrims}.

Inductive engine_op :=
  | OpEncrypt (r : lock_entropy) (content : pystr) (ttl : Z)
  | OpDecrypt (enc : EncryptedContent)
  | OpDestroy (id : string)
  | OpGetStatus (id : string)
  | OpExtend (id : string) (additional : Z)
  | OpCleanup.

(** The state after one call at [now]; the daemon's passes are [OpCleanup]. *)
Definition exec (random : bytes) (now : Z) (op : engine_op) (e : Engine) : Engine :=
  match op with
  | OpEncrypt r content ttl => catch (snd <$> encrypt r now content ttl e) (λ _, e)
  | OpDecrypt enc => (decrypt random now enc e).2
  | OpDestroy id => (destroy random id e).2
  | OpGetStatus id => (get_status random now id e).2
  | OpExtend id additional => (extend_ttl random now id additional e).2
  | OpCleanup => with_keys e (cleanup_expired random now e.(key_store))
  end.

Fixpoint run (random : bytes) (ops : list (Z * engine_op)) (e : Engine) : Engine :=
  match ops with
  | [] => e
  | (now, op) :: ops => run random ops (exec random now op e)
  end.

Fixpoint monotone (from upto : Z) (ops : list (Z * engine_op)) : Prop :=
  match ops with
  | [] => from ≤ upto
  | (now, _) :: ops => from ≤ now ∧ monotone now upto ops
  end.

(** No later [encrypt] draws the same lock id. *)
Definition fresh_id (id : string) (op : engine_op) : Prop :=
  match op with OpEncrypt r _ _ => r.(le_lock_id) ≠ id | _ => True end.

(** Nobody destroys or shortens the lock. *)
Definition keeps_lock (id : string) (op : engine_op) : Prop :=
  match op with
  | OpEncrypt r _ _ => r.(le_lock_id) ≠ id
  | OpDestroy id' => id' ≠ id
  | OpExtend id' additional => id' ≠ id ∨ 0 ≤ additional
  | _ => True
  end.

(** What one call can do to the entry of one lock. *)
Lemma exec_key random now op e id :
  fresh_id id op →
  (exec random now op e).(key_store) !! id = e.(key_store) !! id ∨
  (exec random now op e).(key_store) !! id = None ∧
    ((∃ k t, e.(key_store) !! id = Some (k, t) ∧ t < now) ∨ op = OpDestroy id) ∨
  ∃ k t additional t', op = OpExtend id additional ∧ e.(key_store) !! id = Some (k, t) ∧ now ≤ t ∧
    t' = t + additional * 1000000 ∧ (exec random now op e).(key_store) !! id = Some (k, t').
Proof.
  assert (∀ id' (ks : gmap string (bytes * Z)), (get_key random now id' ks).2 !! id = ks !! id ∨
    (get_key random now id' ks).2 !! id = None ∧ ∃ k t, ks !! id = Some (k, t) ∧ t < now) as Hget.
  { intros id' ks. unfold get_key. destruct (ks !! id') as [[k t]|] eqn:Hl; [|by left].
    case_cmp; cbn; [|by left]. rewrite wipe_and_delete_eq. destruct (decide (id' = id)) as [->|].
    - right. rewrite lookup_delete_eq. eauto.
    - left. by rewrite lookup_delete_ne. }
  destruct op as [r content ttl|enc|id'|id'|id' additional|]; cbn; intros Hf.
  - left. unfold encrypt. destruct (add_seconds now ttl) as [x|]; [|done]. cbn.
    destruct (utf8_encode content) as [bs|]; [|done]. cbn. unfold store_key. by rewrite lookup_insert_ne.
  - unfold decrypt. specialize (Hget enc.(metadata).(lock_id) e.(key_store)).
    destruct (get_key _ _ _ _) as [[k|] ks]; cbn in *; naive_solver.
  - unfold destroy, destroy_key. destruct (key_store e !! id') as [[k t]|] eqn:Hl; cbn; [|by left].
    rewrite wipe_and_delete_eq. destruct (decide (id' = id)) as [->|].
    + right. left. rewrite lookup_delete_eq. auto.
    + left. by rewrite lookup_delete_ne.
  - unfold get_status. destruct (metadata_store e !! id'); [|by left]. case_decide; [by left|].
    unfold has_key. specialize (Hget id' e.(key_store)).
    destruct (get_key _ _ _ _) as [k ks]; cbn in *; naive_solver.
  - unfold extend_ttl. destruct (key_store e !! id') as [[k t]|] eqn:Hl; unfold get_key; rewrite Hl; [|by left].
    case_cmp; cbn.
    + rewrite wipe_and_delete_eq. destruct (decide (id' = id)) as [->|].
      * right. left. rewrite lookup_delete_eq. eauto 10.
      * left. by rewrite lookup_delete_ne.
    + unfold get_expiry. rewrite Hl. cbn. destruct (add_seconds t additional) as [t2|] eqn:Ht; cbn; [|by left].
      unfold store_key. destruct (decide (id' = id)) as [->|].
      * right. right. rewrite lookup_insert_eq. apply add_seconds_Ok in Ht. subst t2.
        exists k, t, additional, (t + additional * 1000000). auto.
      * left. by rewrite lookup_insert_ne.
  - rewrite cleanup_expired_spec. destruct (e.(key_store) !! id) as [[k t]|] eqn:Hl.
    + destruct (decide (t < now)).
      * right. left. split; [|eauto]. apply map_lookup_filter_None. right. intros [k' t'] Hl' Ht.
        rewrite Hl in Hl'. injection Hl' as <- <-. by apply Ht.
      * left. by apply map_lookup_filter_Some.
    + left. apply map_lookup_filter_None. by left.
Qed.

(** The lock's key is out of reach at [now]. *)
Definition locked_out (id : string) (now : Z) (e : Engine) : Prop :=
  ∀ k t, e.(key_store) !! id = Some (k, t) → t < now.

Lemma exec_locked_out random now op e id :
  fresh_id id op → locked_out id now e → locked_out id now (exec random now op e).
Proof.
  intros Hf Hl k t. destruct (exec_key random now op e id Hf) as [->|[[-> _]|(k' & t0 & a & t' & _ & Hk & Hle & _)]];
    [apply Hl|done|]. specialize (Hl _ _ Hk). lia.
Qed.

Lemma run_locked_out random ops e id from upto :
  Forall (λ top, fresh_id id top.2) ops → monotone from upto ops →
  locked_out id from e → locked_out id upto (run random ops e).
Proof.
  intros Hf. revert from e. induction Hf as [|[now op] ops Hop _ IH]; intros from e Hm Hl; simpl in *.
  - intros k t Hk. specialize (Hl _ _ Hk). lia.
  - destruct Hm as [Hle Hm]. eapply IH; [exact Hm|]. apply exec_locked_out; [done|].
    intros k t Hk. specialize (Hl _ _ Hk). lia.
Qed.

Lemma decrypt_locked_out random id now e enc :
  locked_out id now e → enc.(metadata).(lock_id) = id → (decrypt random now enc e).1 = None.
Proof.
  intros Hl Hid. unfold decrypt, get_key. rewrite Hid.
  destruct (key_store e !! id) as [[k t]|] eqn:Hk; [|done].
  specialize (Hl _ _ Hk). by rewrite (proj2 (Z.ltb_lt _ _)) by lia.
Qed.

(** Destroying a lock locks everybody out at every time. *)
Lemma destroy_locked_out random id now e : locked_out id now (destroy random id e).2.
Proof.
  unfold destroy, destroy_key. intros k t. destruct (key_store e !! id) eqn:Hk; cbn.
  - by rewrite wipe_and_delete_eq, lookup_delete_eq.
  - by rewrite Hk.
Qed.

(** Nobody lengthens the lock. *)
Definition no_extension (id : string) (op : engine_op) : Prop :=
  match op with OpExtend id' additional => id' ≠ id ∨ additional ≤ 0 | _ => True end.

(** An entry that does not outlive [expiry] still does not after calls that do
    not lengthen it. *)
Definition bounded (id : string) (expiry : Z) (e : Engine) : Prop :=
  ∀ k t, e.(key_store) !! id = Some (k, t) → t ≤ expiry.

Lemma run_bounded random ops e id expiry :
  Forall (λ top, fresh_id id top.2 ∧ no_extension id top.2) ops →
  bounded id expiry e → bounded id expiry (run random ops e).
Proof.
  intros Hops. revert e. induction Hops as [|[now op] ops [Hf Hx] _ IH]; intros e Hb; [done|].
  cbn [run]. apply IH. intros k t.
  destruct (exec_key random now op e id Hf) as [->|[[-> _]|(k' & t0 & a & t' & -> & Hk & _ & -> & ->)]];
    [apply Hb|done|]. intros [= <- <-]. specialize (Hb _ _ Hk). cbn in Hx. destruct Hx as [|Hx]; [done|lia].
Qed.

(** The lock's key is held until at least [expiry]. *)
Definition held (id : string) (key : bytes) (expiry : Z) (e : Engine) : Prop :=
  ∃ t, e.(key_store) !! id = Some (key, t) ∧ expiry ≤ t.

Lemma exec_held random now op e id key expiry :
  keeps_lock id op → now ≤ expiry → held id key expiry e → held id key expiry (exec random now op e).
Proof.
  intros Hk Hnow (t & Ht & Hle).
  assert (fresh_id id op) as Hf by (by destruct op).
  destruct (exec_key random now op e id Hf) as [Heq|[[_ [(k & t' & Hl & Hlt)| ->]]|(k & t0 & a & t' & -> & Hl & _ & -> & Hl')]].
  - exists t. by rewrite Heq.
  - simplify_eq. lia.
  - by destruct Hk.
  - destruct Hk as [|Ha]; [done|]. simplify_eq. exists (t + a * 1000000). split; [done|lia].
Qed.

Lemma run_held random ops e id key expiry from upto :
  Forall (λ top, keeps_lock id top.2) ops → monotone from upto ops → upto ≤ expiry →
  held id key expiry e → held id key expiry (run random ops e).
Proof.
  intros Hk. revert from e. induction Hk as [|[now op] ops Hop _ IH]; intros from e Hm Hup Hh; simpl in *; [done|].
  destruct Hm as [_ Hm]. eapply IH; [exact Hm|done|]. apply exec_held; [done| |done].
  enough (now ≤ upto) by lia. clear -Hm. revert now Hm.
  induction ops as [|[t o] ops IH]; intros now; simpl; [done|]. intros [? ?%IH]. lia.
Qed.

(** What [encrypt] makes of encodable content, and reading it with the key held. *)
Definition sealed (r : lock_entropy) (now ttl : Z) (plaintext : bytes) : EncryptedContent :=
  mkEncrypted (aesgcm_encrypt r.(le_key) r.(le_nonce) plaintext) r.(le_nonce)
    (mkMeta r.(le_lock_id) (sha256_hexdigest plaintext) (isoformat now) (isoformat (now + ttl * 1000000)) ttl "ACTIVE").

Lemma encrypt_sealed r now ttl content plaintext e :
  utf8_encode content = Ok plaintext → 0 ≤ now + ttl * 1000000 < max_datetime →
  encrypt r now content ttl e =
  Ok (sealed r now ttl plaintext,
      mkEngine (store_key r.(le_lock_id) r.(le_key) (now + ttl * 1000000) e.(key_store))
        (<[r.(le_lock_id) := (sealed r now ttl plaintext).(metadata)]> e.(metadata_store))).
Proof.
  intros Henc Hmax. unfold encrypt, add_seconds.
  rewrite (proj2 (Z.ltb_ge _ _)), (proj2 (Z.leb_gt _ _)) by lia. cbn. by rewrite Henc.
Qed.

Lemma decrypt_held {L : SharingLaws P} random r now ttl content plaintext now' e :
  Forall is_scalar content → utf8_encode content = Ok plaintext →
  held r.(le_lock_id) r.(le_key) (now + ttl * 1000000) e → now' ≤ now + ttl * 1000000 →
  decrypt random now' (sealed r now ttl plaintext) e = (Some content, e).
Proof.
  intros Hsc Henc (t & Ht & Hle) Hexp.
  unfold decrypt, get_key. cbn [sealed metadata lock_id]. rewrite Ht, (proj2 (Z.ltb_ge _ _)) by lia. cbn.
  rewrite aesgcm_decrypt_encrypt by (by eapply utf8_encode_bytes). cbn.
  rewrite (utf8_decode_encode _ _ Hsc Henc). cbn. rewrite decide_False by tauto. by destruct e.
Qed.

(** ** Properties *)

(** C21: until it expires, time-locked content decrypts to exactly what was
    encrypted, whatever happens in between (daemon passes, other locks, status
    queries, extensions), as long as nobody destroys or shortens this lock. *)
Theorem decrypt_before_expiry {L : SharingLaws P} (random : bytes) (r : lock_entropy)
    (now now' ttl : Z) (content : pystr) (e : Engine) (ops : list (Z * engine_op)) :
  Forall is_scalar content → 0 ≤ now + ttl * 1000000 < max_datetime →
  Forall (λ top, keeps_lock r.(le_lock_id) top.2) ops →
  monotone now now' ops → now' ≤ now + ttl * 1000000 →
  ∃ enc e1, encrypt r now content ttl e = Ok (enc, e1) ∧
    (decrypt random now' enc (run random ops e1)).1 = Some content.
Proof.
  intros Hsc Hmax Hops Hm Hexp. destruct (utf8_encode_total _ Hsc) as [bs Henc].
  rewrite (encrypt_sealed r now ttl content bs) by done. do 2 eexists. split; [reflexivity|].
  erewrite decrypt_held; [done..| |done]. eapply run_held; [done..|].
  exists (now + ttl * 1000000). split; [apply lookup_insert_eq|lia].
Qed.

(** C22: a closed lock stays closed.  After [destroy] of a lock, after its
    expiry has passed, and after [encrypt] once the time to live is over if
    nobody lengthened it, no later history of complete calls (in which [encrypt]
    does not draw the same lock id again) makes a decryption under that lock id
    return anything but [None]. *)
Theorem lock_never_reopens (random : bytes) (id : string) (from upto : Z) (e : Engine)
    (ops : list (Z * engine_op)) :
  Forall (λ top, fresh_id id top.2) ops → monotone from upto ops →
  (∀ enc, enc.(metadata).(lock_id) = id →
     (decrypt random upto enc (run random ops (destroy random id e).2)).1 = None) ∧
  (∀ enc t, enc.(metadata).(lock_id) = id → get_expiry id e.(key_store) = Some t → t < from →
     (decrypt random upto enc (run random ops e)).1 = None) ∧
  (∀ r content ttl now enc e1, encrypt r now content ttl e = Ok (enc, e1) → r.(le_lock_id) = id →
     Forall (λ top, no_extension id top.2) ops → now + ttl * 1000000 < upto →
     (decrypt random upto enc (run random ops e1)).1 = None).
Proof.
  intros Hf Hm. split; [|split].
  - intros enc Hid. eapply decrypt_locked_out; [|exact Hid].
    eapply run_locked_out; [done..|]. apply destroy_locked_out.
  - intros enc t Hid Ht Hlt. eapply decrypt_locked_out; [|exact Hid].
    eapply run_locked_out; [done..|]. intros k t'. unfold get_expiry in Ht.
    destruct (key_store e !! id) as [[k0 t0]|]; [|done]. intros [= <- <-]. by injection Ht as ->.
  - intros r content ttl now enc e1 Henc Hid Hx Hlt. unfold encrypt in Henc.
    destruct (add_seconds now ttl) as [exp|] eqn:Hexp; [|done]. apply add_seconds_Ok in Hexp as ->.
    cbn in Henc. destruct (utf8_encode content) as [bs|]; [|done]. injection Henc as <- <-.
    apply (decrypt_locked_out _ id); [|done]. intros k t Hk.
    enough (t ≤ now + ttl * 1000000) by lia. revert k t Hk.
    apply run_bounded; [by apply Forall_and|]. intros k t. cbn. unfold store_key.
    rewrite Hid, lookup_insert_eq. intros [= <- <-]. lia.
Qed.

(** [extend_ttl] reads the key and the expiry and writes them back in
    separate critical sections.  A [destroy] that runs just before the write is
    undone: it reports success, yet afterwards the key is there again and the
    content decrypts, while the status says destroyed. *)
Theorem extend_undoes_destroy {L : SharingLaws P} (random : bytes) (now additional expiry : Z)
    (content : pystr) (bs key n : bytes) (m : TimeLockMetadata) (e : Engine) :
  Forall is_scalar content → utf8_encode content = Ok bs →
  m.(content_hash) = sha256_hexdigest bs → e.(metadata_store) !! m.(lock_id) = Some m →
  e.(key_store) !! m.(lock_id) = Some (key, expiry) → now ≤ expiry → 0 ≤ additional →
  (* extend_ttl reads, destroy runs, extend_ttl writes *)
  (get_key random now m.(lock_id) e.(key_store)).1 = Some key ∧
  get_expiry m.(lock_id) e.(key_store) = Some expiry ∧
  let '(destroyed, e1) := destroy random m.(lock_id) e in
  let e2 := extend_store m.(lock_id) key (expiry + additional * 1000000) additional e1 in
  destroyed = true ∧ (get_status random now m.(lock_id) e2).1 = DESTROYED ∧
  (decrypt random now (mkEncrypted (aesgcm_encrypt key n bs) n m) e2).1 = Some content.
Proof.
  intros Hsc Henc Hhash Hm Hk Hnow Hadd. split.
  { unfold get_key. rewrite Hk. by rewrite (proj2 (Z.ltb_ge _ _)) by lia. }
  split; [unfold get_expiry; by rewrite Hk|].
  unfold destroy, destroy_key. rewrite Hk. cbn. split; [done|]. split.
  - unfold get_status. cbn. by rewrite !lookup_alter_eq, Hm.
  - unfold decrypt, get_key. cbn. unfold store_key. rewrite lookup_insert_eq.
    rewrite (proj2 (Z.ltb_ge _ _)) by lia. cbn.
    rewrite aesgcm_decrypt_encrypt by (by eapply utf8_encode_bytes). cbn.
    rewrite (utf8_decode_encode _ _ Hsc Henc). cbn. by rewrite Hhash, decide_False by tauto.
Qed.
End histories.

(** ** Witnesses *)

Definition toy_lock : lock_entropy := mkEntropy "a" [1] [2].
Definition toy_meta : TimeLockMetadata :=
  mkMeta "a" (sha256_hexdigest (SharingPrims := toy_prims) (str "hi")) "" "" 60 "ACTIVE".
Definition toy_engine : Engine := mkEngine {["a" := ([1], 5)]} {["a" := toy_meta]}.

Lemma decrypt_before_expiry_witness :
  ∃ enc e1, encrypt (P := toy_prims) toy_lock 0 (str "hi") 60 init_engine = Ok (enc, e1) ∧
    (decrypt (P := toy_prims) [] 60000000 enc
       (run (P := toy_prims) [] [(10, OpCleanup); (20, OpDestroy "b"); (30, OpExtend "a" 5)] e1)).1
    = Some (str "hi").
Proof.
  apply (decrypt_before_expiry (P := toy_prims) (L := toy_laws) [] toy_lock 0 60000000 60 (str "hi")
    init_engine [(10, OpCleanup); (20, OpDestroy "b"); (30, OpExtend "a" 5)]).
  - apply str_scalar.
  - split; [lia|reflexivity].
  - repeat (apply Forall_cons; split; [by simpl; auto with lia|]). done.
  - simpl. lia.
  - lia.
Defined.

Lemma lock_never_reopens_witness :
  ∃ enc e1, encrypt (P := toy_prims) toy_lock 0 (str "hi") 60 init_engine = Ok (enc, e1) ∧
    (decrypt (P := toy_prims) [] 5 enc e1).1 = Some (str "hi") ∧
    (destroy [] "a" e1).1 = true ∧
    (decrypt (P := toy_prims) [] 20 enc
       (run (P := toy_prims) [] [(7, OpExtend "a" 100); (8, OpGetStatus "a")] (destroy [] "a" e1).2)).1 = None ∧
    (decrypt (P := toy_prims) [] 60000001 enc
       (run (P := toy_prims) [] [(7, OpGetStatus "a"); (8, OpCleanup)] e1)).1 = None.
Proof.
  do 2 eexists. split; [reflexivity|]. split; [reflexivity|]. split; [reflexivity|]. split.
  - apply (lock_never_reopens (P := toy_prims) [] "a" 6 20);
      [repeat constructor|simpl; lia|reflexivity].
  - destruct (lock_never_reopens (P := toy_prims) [] "a" 6 60000001 init_engine
      [(7, OpGetStatus "a"); (8, OpCleanup)]) as (_ & _ & Hexpired); [repeat constructor|simpl; lia|].
    apply (Hexpired toy_lock (str "hi") 60 0); [reflexivity|reflexivity|repeat constructor|lia].
Defined.

Lemma extend_undoes_destroy_witness :
  (get_key [] 3 "a" toy_engine.(key_store)).1 = Some [1] ∧
  get_expiry "a" toy_engine.(key_store) = Some 5 ∧
  let '(destroyed, e1) := destroy [] "a" toy_engine in
  let e2 := extend_store "a" [1] (5 + 60 * 1000000) 60 e1 in
  destroyed = true ∧ (get_status [] 3 "a" e2).1 = DESTROYED ∧
  (decrypt (P := toy_prims) [] 3
     (mkEncrypted (aesgcm_encrypt (SharingPrims := toy_prims) [1] [2] (str "hi")) [2] toy_meta) e2).1
  = Some (str "hi").
Proof.
  apply (extend_undoes_destroy (P := toy_prims) (L := toy_laws) [] 3 60 5 (str "hi") (str "hi")
    [1] [2] toy_meta toy_engine).
  - apply str_scalar.
  - reflexivity.
  - reflexivity.
  - reflexivity.
  - reflexivity.
  - lia.
  - lia.
Defined.

End TimeLock.
