(* ===== verification/Dicts.v ===== *)
(** * Dictionary forms of shares and locked content
      ([Share.to_dict] and [from_dict] of [core/secret_sharing.py],
       [EncryptedContent.to_dict] and [from_dict] of [core/timelock.py])

    The JSON objects in which shares and time-locked content are stored and
    sent, and that reading one back gives what was written. *)

From Stdlib Require Import ZArith Lia Ascii String.
From S2P Require Import Prelude PyData DateTime Json SecretSharing TimeLock.

(** ** Dictionary forms *)

(** [Share.to_dict]. *)
Definition share_to_dict (s : Share) : json :=
  JObj [(str "index", JInt s.(index)); (str "value", JStr s.(value)); (str "share_id", JStr s.(share_id));
        (str "content_hash", JStr s.(SecretSharing.content_hash)); (str "threshold", JInt s.(threshold));
        (str "total_shares", JInt s.(total_shares)); (str "mac", JStr s.(mac)); (str "is_hybrid", JBool s.(is_hybrid));
        (str "ciphertext", JStr s.(ciphertext)); (str "nonce", JStr s.(nonce))].

Definition int_item (k : string) (d : list (pystr * json)) : result Z :=
  match get_item (str k) d with Some (JInt n) => Ok n | _ => Raise TypeError end.
Definition str_item (k : string) (d : list (pystr * json)) : result pystr :=
  match get_item (str k) d with Some (JStr s) => Ok s | _ => Raise TypeError end.

(** A field with a default; a value of another type is refused here, where the
    code would go on and fail in [reconstruct_secret]. *)
Definition item_or {A} (read : json → option A) (dflt : A) (k : string) (d : list (pystr * json)) : result A :=
  match get_item (str k) d with
  | None => Ok dflt
  | Some v => from_option_exn TypeError (read v)
  end.
Definition read_str (v : json) : option pystr := match v with JStr s => Some s | _ => None end.
Definition read_bool (v : json) : option bool := match v with JBool b => Some b | _ => None end.

(** [Share.from_dict]: [Share] applied to the items as keywords. *)
Definition share_from_dict (v : json) : result Share :=
  match v with
  | JObj d =>
      if forallb (λ k, existsb (λ f, bool_decide (k = str f))
           ["index"; "value"; "share_id"; "content_hash"; "threshold"; "total_shares"; "mac"; "is_hybrid";
            "ciphertext"; "nonce"]%string) d.*1
      then
        index ← int_item "index" d; value ← str_item "value" d; share_id ← str_item "share_id" d;
        content_hash ← str_item "content_hash" d; threshold ← int_item "threshold" d;
        total_shares ← int_item "total_shares" d; mac ← item_or read_str [] "mac" d;
        is_hybrid ← item_or read_bool false "is_hybrid" d; ciphertext ← item_or read_str [] "ciphertext" d;
        nonce ← item_or read_str [] "nonce" d;
        Ok (mkShare index value share_id content_hash threshold total_shares mac is_hybrid ciphertext nonce)
      else Raise TypeError
  | _ => Raise TypeError
  end.

(** [EncryptedContent.to_dict] with the metadata's. *)
Definition encrypted_json (e : TimeLock.EncryptedContent) : json :=
  let d := TimeLock.encrypted_to_dict e in
  let m := TimeLock.ec_metadata d in
  JObj [(str "ciphertext", JStr (TimeLock.ec_ciphertext d)); (str "nonce", JStr (TimeLock.ec_nonce d));
        (str "metadata", JObj
          [(str "lock_id", JStr (str (TimeLock.lock_id m))); (str "content_hash", JStr (TimeLock.content_hash m));
           (str "created_at", JStr (str (TimeLock.created_at m))); (str "expires_at", JStr (str (TimeLock.expires_at m)));
           (str "ttl_seconds", JInt (TimeLock.ttl_seconds m)); (str "status", JStr (str (TimeLock.status m)))])].

Definition json_encrypted (v : json) : result TimeLock.EncryptedContent :=
  match v with
  | JObj d =>
      c ← str_item "ciphertext" d; n ← str_item "nonce" d;
      match get_item (str "metadata") d with
      | Some (JObj m) =>
          if forallb (λ k, existsb (λ f, bool_decide (k = str f))
               ["lock_id"; "content_hash"; "created_at"; "expires_at"; "ttl_seconds"; "status"]%string) m.*1
          then
            lock_id ← str_item "lock_id" m; content_hash ← str_item "content_hash" m;
            created_at ← str_item "created_at" m; expires_at ← str_item "expires_at" m;
            ttl_seconds ← int_item "ttl_seconds" m; status ← item_or read_str (str "ACTIVE") "status" m;
            TimeLock.encrypted_from_dict (TimeLock.mkEncryptedDict c n
              (TimeLock.mkMeta (pystring lock_id) content_hash (pystring created_at) (pystring expires_at)
                 ttl_seconds (pystring status)))
          else Raise TypeError
      | _ => Raise TypeError
      end
  | _ => Raise TypeError
  end.

(** ** Dictionary forms read back *)

Lemma pystring_str s : pystring (str s) = s.
Proof.
  unfold pystring, str. rewrite <- list_fmap_compose.
  rewrite <- (String.string_of_list_ascii_of_string s) at 2. f_equal.
  induction (String.list_ascii_of_string s) as [|c l IH]; [done|]. csimpl. rewrite IH. f_equal.
  cbn. by rewrite N2Z.id, ascii_N_embedding.
Qed.

Lemma share_from_to_dict s : share_from_dict (share_to_dict s) = Ok s.
Proof. by destruct s. Qed.

Lemma json_encrypted_json e :
  Forall is_byte (TimeLock.ciphertext e) → Forall is_byte (TimeLock.nonce e) → json_encrypted (encrypted_json e) = Ok e.
Proof.
  intros Hc Hn. destruct e as [c n [id h cr ex ttl st]]. cbn in Hc, Hn.
  transitivity (TimeLock.encrypted_from_dict (TimeLock.mkEncryptedDict (bytes_hex c) (bytes_hex n)
    (TimeLock.mkMeta (pystring (str id)) h (pystring (str cr)) (pystring (str ex)) ttl (pystring (str st))))); [done|].
  rewrite !pystring_str. unfold TimeLock.encrypted_from_dict. cbn [TimeLock.ec_ciphertext TimeLock.ec_nonce].
  by rewrite !bytes_fromhex_hex.
Qed.

Lemma bytes_hex_scalar data : Forall is_byte data → Forall is_scalar (bytes_hex data).
Proof.
  intros Hd. induction Hd as [|b data Hb _ IH]; [constructor|]. cbn. unfold is_byte in Hb.
  constructor; [|constructor; [|done]]; apply ascii_scalar; unfold hexdigit; case_cmp; dlia.
Qed.

Lemma ascii_text_scalar (s : pystr) : Forall (λ c, 0 ≤ c < 128) s → Forall is_scalar s.
Proof. intros Hs. eapply Forall_impl; [exact Hs|]. intros c Hc. apply ascii_scalar. cbn in Hc. lia. Qed.

Ltac wf_object := constructor; [vm_compute; repeat (constructor; [set_solver|]); constructor|];
  repeat (apply Forall_cons; split; [split; [apply str_scalar|]|]); [..|constructor].

Lemma encrypted_json_wf e :
  Forall is_byte (TimeLock.ciphertext e) → Forall is_byte (TimeLock.nonce e) →
  Forall is_scalar (TimeLock.content_hash (TimeLock.metadata e)) → wf_json (encrypted_json e).
Proof.
  intros Hc Hn Hh. unfold encrypted_json. wf_object; [constructor; by apply bytes_hex_scalar..|].
  wf_object; constructor; done || apply str_scalar.
Qed.

Lemma share_to_dict_wf s :
  Forall is_scalar s.(value) → Forall is_scalar s.(share_id) → Forall is_scalar s.(SecretSharing.content_hash) →
  Forall is_scalar s.(mac) → Forall is_scalar s.(ciphertext) → Forall is_scalar s.(nonce) → wf_json (share_to_dict s).
Proof. intros. unfold share_to_dict. wf_object; by constructor. Qed.
