(* ===== verification/Steganography.v ===== *)
(** * Watermarks ([coc_framework/core/steganography.py])

    Zero-width payloads, synonym and trailing-space fingerprints, and
    [SteganoEngine].  SHA-256 is a parameter; the MD5-derived offsets of the
    24 synonym words are the constants the module computes on import.  Text is
    a list of code points.  A score [matches / total] is kept as the pair.
    Whether a character outside ASCII is a word character for [\b] is the
    Unicode database's answer, a parameter too. *)

From Stdlib Require Import ZArith Lia String.
From S2P Require Import Prelude PyData DateTime Json.

Class Digest := {
  sha256 : bytes → bytes;
  unicode_word : Z → bool;
}.

Class DigestLaws (D : Digest) := {
  sha256_bytes data : Forall is_byte (sha256 data);
  sha256_length data : length (sha256 data) = 32%nat;
}.

(** ** Constants *)

Definition ZERO_WIDTH_SPACE : Z := 8203.       (* U+200B *)
Definition ZERO_WIDTH_NON_JOINER : Z := 8204.  (* U+200C *)
Definition ZERO_WIDTH_JOINER : Z := 8205.      (* U+200D *)
Definition WATERMARK_START : Z := 65279.       (* U+FEFF *)
Definition WATERMARK_END : Z := 8288.          (* U+2060 *)

Definition SYNONYMS : list (string * list string) :=
  [("important", ["significant"; "crucial"; "vital"; "essential"; "critical"]);
   ("big", ["large"; "huge"; "substantial"; "considerable"; "major"]);
   ("small", ["little"; "tiny"; "minor"; "slight"; "modest"]);
   ("good", ["great"; "excellent"; "fine"; "positive"; "favorable"]);
   ("bad", ["poor"; "negative"; "unfavorable"; "adverse"; "harmful"]);
   ("fast", ["quick"; "rapid"; "swift"; "speedy"; "prompt"]);
   ("slow", ["gradual"; "unhurried"; "leisurely"; "sluggish"; "delayed"]);
   ("help", ["assist"; "aid"; "support"; "facilitate"; "enable"]);
   ("show", ["display"; "demonstrate"; "reveal"; "indicate"; "present"]);
   ("make", ["create"; "produce"; "generate"; "form"; "build"]);
   ("use", ["utilize"; "employ"; "apply"; "leverage"; "harness"]);
   ("get", ["obtain"; "acquire"; "receive"; "gain"; "secure"]);
   ("see", ["observe"; "notice"; "view"; "perceive"; "witness"]);
   ("know", ["understand"; "recognize"; "realize"; "comprehend"; "grasp"]);
   ("think", ["believe"; "consider"; "assume"; "suppose"; "reckon"]);
   ("want", ["desire"; "wish"; "seek"; "prefer"; "require"]);
   ("need", ["require"; "necessitate"; "demand"; "call for"; "warrant"]);
   ("start", ["begin"; "commence"; "initiate"; "launch"; "kick off"]);
   ("end", ["finish"; "conclude"; "complete"; "terminate"; "wrap up"]);
   ("very", ["extremely"; "highly"; "quite"; "particularly"; "especially"]);
   ("also", ["additionally"; "furthermore"; "moreover"; "besides"; "too"]);
   ("however", ["nevertheless"; "nonetheless"; "yet"; "still"; "though"]);
   ("because", ["since"; "as"; "due to"; "given that"; "owing to"]);
   ("about", ["regarding"; "concerning"; "relating to"; "with respect to"; "on"])].

(** [int(md5(word).hexdigest()[:8], 16)] of each word, in the same order. *)
Definition WORD_MD5_HASHES : list Z :=
  [1216450365; 3630270333; 3948680089; 1969194434; 3135637912; 835998747; 1340727271; 1702857613;
   2816283313; 161329094; 1593273648; 3052249255; 512639672; 2946352077; 1422412608; 2736286256;
   3900163438; 3928696438; 2130844180; 4027991069; 130874934; 1046720464; 3429926495; 1186173723].

Definition SYNONYM_TABLE : list (string * list string * Z) := zip SYNONYMS WORD_MD5_HASHES.

(** ** Bits in zero-width characters *)

(** [format(byte, '08b')]. *)
Definition format_08b (b : Z) : pystr :=
  (λ i, 48 + b / 2 ^ i mod 2) <$> [7; 6; 5; 4; 3; 2; 1; 0].

Definition string_to_bits (s : pystr) : result pystr :=
  data ← utf8_encode s; Ok (concat (format_08b <$> data)).

(** [chr(int(byte, 2))]. *)
Definition int2 (bits : pystr) : Z := foldl (λ n c, n * 2 + (c - 48)) 0 bits.

(** A last group of fewer than eight bits is dropped. *)
Fixpoint bits_to_string (bits : pystr) : pystr :=
  match bits with
  | a :: b :: c :: d :: e :: f :: g :: h :: bits => int2 [a; b; c; d; e; f; g; h] :: bits_to_string bits
  | _ => []
  end.

Definition zero_width_char (bit : Z) : Z :=
  if bit =? 48 then ZERO_WIDTH_SPACE else ZERO_WIDTH_NON_JOINER.

Definition encode_zero_width (data : pystr) : result pystr :=
  bits ← string_to_bits data;
  Ok (WATERMARK_START :: (zero_width_char <$> bits) ++ [WATERMARK_END]).

(** [text.find(c)]. *)
Fixpoint find (c : Z) (text : pystr) : option nat :=
  match text with
  | [] => None
  | d :: text => if d =? c then Some O else S <$> find c text
  end.

Definition zero_width_bit (c : Z) : option Z :=
  if c =? ZERO_WIDTH_SPACE then Some 48
  else if c =? ZERO_WIDTH_NON_JOINER then Some 49
  else None.

Definition decode_zero_width (text : pystr) : option pystr :=
  match find WATERMARK_START text, find WATERMARK_END text with
  | Some start_idx, Some end_idx =>
      if (end_idx <=? start_idx)%nat then None
      else
        let watermark_section := drop (S start_idx) (take end_idx text) in
        let bits := omap zero_width_bit watermark_section in
        if (length bits <? 8)%nat then None
        else Some (bits_to_string (take (length bits - length bits `mod` 8) bits))
  | _, _ => None
  end.

(** ** Fingerprints *)

(** [SteganoEngine._known_peers], in order of registration. *)
Abbreviation known_peers := (list pystr).

Section fingerprints.
Context {D : Digest}.

Definition get_fingerprint_seed (peer_id : pystr) : result Z :=
  data ← utf8_encode peer_id; int16 (take 8 (bytes_hex (sha256 data))).

(** A character of [\w]. *)
Definition is_word (c : Z) : bool :=
  ((48 <=? c) && (c <=? 57)) || ((65 <=? c) && (c <=? 90)) || ((97 <=? c) && (c <=? 122)) ||
  (c =? 95) || (c =? 304) || (c =? 305) || (c =? 383) || (c =? 8490) || ((128 <=? c) && unicode_word c).

(** [re.IGNORECASE] for a lower-case ASCII pattern character: also its upper
    case and the four letters Python folds onto [i], [s] and [k]. *)
Definition matches_char (p c : Z) : bool :=
  (c =? p) ||
  ((97 <=? p) && (p <=? 122) &&
   ((c =? p - 32) || ((p =? 105) && ((c =? 304) || (c =? 305))) ||
    ((p =? 115) && (c =? 383)) || ((p =? 107) && (c =? 8490)))).

Fixpoint match_prefix (pattern text : pystr) : option (pystr * pystr) :=
  match pattern, text with
  | [], _ => Some ([], text)
  | p :: pattern, c :: text =>
      if matches_char p c then '(m, r) ← match_prefix pattern text; Some (c :: m, r) else None
  | _, [] => None
  end.

Definition at_word (text : pystr) : bool := match text with c :: _ => is_word c | [] => false end.

(** [\bpattern\b] at the current position, after a character that is a word
    character or not; every pattern starts and ends with a letter. *)
Definition match_word (prev_word : bool) (pattern text : pystr) : option (pystr * pystr) :=
  if prev_word then None
  else '(m, r) ← match_prefix pattern text; if at_word r then None else Some (m, r).

(** [pattern.sub(f, text)], left to right; [fuel] is the text's length. *)
Fixpoint sub_word (fuel : nat) (pattern : pystr) (f : pystr → pystr) (prev_word : bool) (text : pystr)
    : pystr :=
  match fuel, text with
  | S fuel, c :: text' =>
      match match_word prev_word pattern text with
      | Some (m, r) => f m ++ sub_word fuel pattern f true r
      | None => c :: sub_word fuel pattern f (is_word c) text'
      end
  | _, _ => text
  end.

(** [pattern.search(text)] finds something. *)
Fixpoint search_word (pattern : pystr) (prev_word : bool) (text : pystr) : bool :=
  match text with
  | [] => false
  | c :: text' =>
      bool_decide (is_Some (match_word prev_word pattern text)) ||
      search_word pattern (is_word c) text'
  end.

(** [str.upper()] and [str.capitalize()] on ASCII text; [isupper()] of a match. *)
Definition upper_char (c : Z) : Z := if (97 <=? c) && (c <=? 122) then c - 32 else c.
Definition lower_char (c : Z) : Z := if (65 <=? c) && (c <=? 90) then c + 32 else c.
Definition upper (s : pystr) : pystr := upper_char <$> s.
Definition capitalize (s : pystr) : pystr :=
  match s with c :: s => upper_char c :: (lower_char <$> s) | [] => [] end.
Definition is_upper (c : Z) : bool := ((65 <=? c) && (c <=? 90)) || (c =? 304) || (c =? 8490).

(** The synonym a seed selects. *)
Definition expected_synonym (seed w_hash : Z) (syns : list string) : pystr :=
  str (default "" (syns !! Z.to_nat ((seed + w_hash) mod Z.of_nat (length syns)))).

Definition replace_func (seed w_hash : Z) (syns : list string) (original : pystr) : pystr :=
  let replacement := expected_synonym seed w_hash syns in
  if forallb is_upper original then upper replacement
  else match original with
       | c :: _ => if is_upper c then capitalize replacement else replacement
       | [] => replacement
       end.

Definition apply_linguistic_fingerprint (content : pystr) (seed : Z) : pystr :=
  foldl (λ result '(word, synonyms, w_hash),
      sub_word (length result) (str word) (replace_func seed w_hash synonyms) false result)
    content SYNONYM_TABLE.

(** [synonyms_found]: which synonyms occur in the text. *)
Definition synonym_found (content : pystr) (syn : string) : bool := search_word (str syn) false content.

Definition linguistic_counts (content : pystr) (seed : Z) : Z * Z :=
  foldl (λ '(matches, total) '(word, synonyms, w_hash),
      (if search_word (expected_synonym seed w_hash synonyms) false content then matches + 1 else matches,
       if existsb (synonym_found content) synonyms then total + 1 else total))
    (0, 0) SYNONYM_TABLE.

(** [best_match] and [best_score] keep their initial values: the loop counts
    for every candidate and never updates them. *)
Definition detect_linguistic_fingerprint (content : pystr) (candidate_peer_ids : list pystr)
    : result (option (pystr * (Z * Z))) :=
  let best_match : option pystr := None in
  let best_score : Z * Z := (0, 1) in
  counts ← mapR (λ peer_id, seed ← get_fingerprint_seed peer_id; Ok (linguistic_counts content seed))
             candidate_peer_ids;
  Ok (match best_match with
      | Some peer_id =>
          if (3 * best_score.2 <? 10 * best_score.1) &&
             (2 <=? default 0 (snd <$> last counts))
          then Some (peer_id, best_score) else None
      | None => None
      end).

(** Line [i] gets [(seed + i) % 3] trailing spaces. *)
Definition trailing_spaces (seed : Z) (i : nat) : Z := (seed + Z.of_nat i) mod 3.

Definition add_whitespace_fingerprint (content peer_id : pystr) : result pystr :=
  seed ← get_fingerprint_seed peer_id;
  Ok (join 10 (imap (λ i line, line ++ replicate (Z.to_nat (trailing_spaces seed i)) 32) (split 10 content))).

(** [len(line) - len(line.rstrip(' '))]. *)
Fixpoint leading_spaces (s : pystr) : Z :=
  match s with c :: s => if c =? 32 then 1 + leading_spaces s else 0 | [] => 0 end.
Definition count_trailing (line : pystr) : Z := leading_spaces (reverse line).

(** How many lines of the pattern agree with a seed. *)
Definition whitespace_matches (pattern : list Z) (seed : Z) : Z :=
  Z.of_nat (length (filter (λ it, it.2 = trailing_spaces seed it.1) (imap pair pattern))).

(** The first candidate with the highest score. *)
Fixpoint best_candidate (pattern : list Z) (candidates : list pystr) (best : option (pystr * Z))
    : result (option (pystr * Z)) :=
  match candidates with
  | [] => Ok best
  | peer_id :: candidates =>
      seed ← get_fingerprint_seed peer_id;
      let matches := whitespace_matches pattern seed in
      best_candidate pattern candidates
        (if default 0 (snd <$> best) <? matches then Some (peer_id, matches) else best)
  end.

Definition detect_whitespace_fingerprint (content : pystr) (candidate_peer_ids : list pystr)
    : result (option (pystr * (Z * Z))) :=
  let lines := split 10 content in
  if (length lines <? 3)%nat then Ok None
  else
    let pattern := (λ line, count_trailing line mod 3) <$> lines in
    let n := Z.of_nat (length pattern) in
    best ← best_candidate pattern candidate_peer_ids None;
    Ok (match best with
        | Some (peer_id, matches) =>
            if bool_decide (peer_id ≠ []) && (n <? 2 * matches) then Some (peer_id, (matches, n)) else None
        | None => None
        end).

(** ** [SteganoEngine] *)

(** A dataclass checks no types: what [from_dict] stores is whatever the JSON
    held. *)
Record WatermarkData := mkWatermark {
  wd_peer_id : json;
  wd_timestamp : json;
  wd_depth : json;
  wd_content_hash : json;
  wd_fingerprint_seed : json;
}.

Definition watermark_to_dict (w : WatermarkData) : json :=
  JObj [(str "peer_id", w.(wd_peer_id)); (str "timestamp", w.(wd_timestamp));
        (str "depth", w.(wd_depth)); (str "content_hash", w.(wd_content_hash));
        (str "fingerprint_seed", w.(wd_fingerprint_seed))].

(** [WatermarkData( **data )]: a [TypeError] unless [data] is an object with
    exactly the five fields. *)
Definition watermark_from_dict (data : json) : result WatermarkData :=
  match data with
  | JObj items =>
      let get k := from_option_exn TypeError (get_item (str k) items) in
      if decide (length items = 5%nat) then
        peer_id ← get "peer_id"; timestamp ← get "timestamp"; depth ← get "depth";
        content_hash ← get "content_hash"; fingerprint_seed ← get "fingerprint_seed";
        Ok (mkWatermark peer_id timestamp depth content_hash fingerprint_seed)
      else Raise TypeError
  | _ => Raise TypeError
  end.

Record ExtractionResult := mkExtraction {
  success : bool;
  er_peer_id : option json;
  confidence : Z * Z;
  method : string;
  original_content : pystr;
  watermark_data : option WatermarkData;
}.

Definition register_peer (peer_id : pystr) (known : known_peers) : known_peers :=
  if decide (peer_id ∈ known) then known else known ++ [peer_id].

Definition is_zero_width (c : Z) : bool :=
  (c =? WATERMARK_START) || (c =? WATERMARK_END) || (c =? ZERO_WIDTH_SPACE) ||
  (c =? ZERO_WIDTH_NON_JOINER) || (c =? ZERO_WIDTH_JOINER).

Definition remove_zero_width (content : pystr) : pystr := filter (λ c, is_zero_width c = false) content.

Definition strip_all_watermarks (content : pystr) : pystr :=
  join 10 (rstrip <$> split 10 (remove_zero_width content)).

Definition insert_watermark (encoded result : pystr) : pystr :=
  match find 32 result with
  | Some (S n) => take (S n) result ++ encoded ++ drop (S n) result
  | _ => result ++ encoded
  end.

(** [timestamp] is the argument or, when it is [None], the clock's text [now]. *)
Definition embed_watermark (now : pystr) (content peer_id : pystr) (depth : Z) (timestamp : option pystr)
    (use_zero_width use_linguistic use_whitespace : bool) (known : known_peers)
    : result pystr * known_peers :=
  let out :=
    content_bytes ← utf8_encode content;
    seed ← get_fingerprint_seed peer_id;
    let w := mkWatermark (JStr peer_id) (JStr (default now timestamp)) (JInt depth)
               (JStr (bytes_hex (sha256 content_bytes))) (JInt seed) in
    let result := if use_linguistic then apply_linguistic_fingerprint content seed else content in
    result ← (if use_whitespace then add_whitespace_fingerprint result peer_id else Ok result);
    if use_zero_width then
      encoded ← encode_zero_width (dumps (watermark_to_dict w));
      Ok (insert_watermark encoded result)
    else Ok result in
  (out, match out with Ok _ => register_peer peer_id known | Raise _ => known end).

Definition extract_zero_width (content : pystr) : result (option ExtractionResult) :=
  match decode_zero_width content with
  | Some (c :: decoded) =>
      match (d ← loads (c :: decoded); watermark_from_dict d) with
      | Ok w =>
          Ok (Some (mkExtraction true (Some w.(wd_peer_id)) (1, 1) "zero_width"
                      (remove_zero_width content) (Some w)))
      | Raise JSONDecodeError | Raise KeyError => Ok None
      | Raise e => Raise e
      end
  | _ => Ok None
  end.

Definition extract_watermark (content : pystr) (candidate_peers : option (list pystr)) (known : known_peers)
    : result ExtractionResult :=
  let candidates := match candidate_peers with Some (p :: ps) => p :: ps | _ => known end in
  let found method '(peer_id, score) :=
    mkExtraction true (Some (JStr peer_id)) score method content None in
  zero_width ← extract_zero_width content;
  match zero_width with
  | Some r => Ok r
  | None =>
      linguistic ← detect_linguistic_fingerprint content candidates;
      match linguistic with
      | Some r => Ok (found "linguistic" r)
      | None =>
          whitespace ← detect_whitespace_fingerprint content candidates;
          match whitespace with
          | Some r => Ok (found "whitespace" r)
          | None => Ok (mkExtraction false None (0, 1) "none" content None)
          end
      end
  end.

Definition verify_watermark (content expected_peer_id : pystr) (known : known_peers) : result bool :=
  r ← extract_watermark content (Some [expected_peer_id]) known;
  Ok (r.(success) &&
      match r.(er_peer_id) with Some (JStr p) => bool_decide (p = expected_peer_id) | _ => false end).

(** [s.ljust(n)]. *)
Definition ljust (n : nat) (s : pystr) : pystr := s ++ replicate (n - length s) 32.

(** [ord(c) if c.strip() else 'space']. *)
Definition shown_code (c : Z) : pystr := if is_space c then str "space" else dec c.

Definition diff_line (i : nat) (o w : Z) : pystr :=
  str "Position " ++ dec (Z.of_nat i) ++ str ": '" ++ o :: str "' (" ++ shown_code o ++ str ") -> '" ++
  w :: str "' (" ++ shown_code w ++ str ")".

Definition diff_lines (original watermarked : pystr) : list pystr :=
  let pairs := zip (ljust (length watermarked) original) (ljust (length original) watermarked) in
  omap (λ iow, if decide (iow.2.1 = iow.2.2) then None else Some (diff_line iow.1 iow.2.1 iow.2.2))
    (imap pair pairs).

Definition get_visible_diff (original watermarked : pystr) : pystr :=
  match diff_lines original watermarked with
  | [] => str "No visible differences"
  | lines => join_str [10] lines
  end.

Definition embed_invisible_watermark (now content peer_id : pystr) (depth : Z) : result pystr :=
  (embed_watermark now content peer_id depth None true true true []).1.

Definition extract_invisible_watermark (content : pystr) (candidate_peers : list pystr)
    : result (option json) :=
  r ← extract_watermark content (Some candidate_peers) [];
  Ok (if r.(success) then r.(er_peer_id) else None).
End fingerprints.

Lemma diff_lines_nil (l k : pystr) :
  length l = length k →
  omap (λ iow : nat * (Z * Z), if decide (iow.2.1 = iow.2.2) then None
    else Some (diff_line iow.1 iow.2.1 iow.2.2)) (imap pair (zip l k)) = [] ↔ l = k.
Proof.
  intros Hlen. split.
  - intros Hnil. apply list_eq_same_length with (length k); [done|done|]. intros i x y _ Hx Hy.
    destruct (decide (x = y)) as [|Hne]; [done|]. exfalso. apply (elem_of_nil (A := pystr) (diff_line i x y)).
    rewrite <-Hnil. apply list_elem_of_omap. exists (i, (x, y)). cbn. rewrite decide_False by done. split; [|done].
    apply list_elem_of_lookup. exists i. rewrite list_lookup_imap. by rewrite (proj2 (lookup_zip_Some l k i x y)).
  - intros ->. destruct (omap _ _) as [|line lines] eqn:Ho; [done|]. exfalso.
    assert (line ∈ line :: lines) as Hin by (by left). rewrite <-Ho in Hin.
    apply list_elem_of_omap in Hin as ([i [o w]] & Hi & Hl). apply list_elem_of_lookup in Hi as [j Hj].
    rewrite list_lookup_imap in Hj. apply fmap_Some in Hj as ([o' w'] & [Ho' Hw']%lookup_zip_Some & [= -> -> ->]).
    cbn in Hl. rewrite decide_True in Hl by congruence. done.
Qed.

(** The report is empty exactly for texts that agree up to trailing spaces on
    the shorter one. *)
Lemma visible_diff_none original watermarked :
  get_visible_diff original watermarked = str "No visible differences" ↔
  ljust (length watermarked) original = ljust (length original) watermarked.
Proof.
  assert (length (ljust (length watermarked) original) = length (ljust (length original) watermarked)) as Hlen.
  { unfold ljust. rewrite !length_app, !length_replicate. lia. }
  rewrite <-(diff_lines_nil _ _ Hlen). change (omap _ _) with (diff_lines original watermarked). unfold get_visible_diff.
  split; [|by intros ->]. destruct (diff_lines original watermarked) as [|line lines] eqn:Ho; [done|]. intros Heq. exfalso.
  assert (line ∈ line :: lines) as Hin by (by left). rewrite <-Ho in Hin.
  apply list_elem_of_omap in Hin as ([i [o w]] & _ & Hl). cbn in Hl. case_decide; [done|]. injection Hl as <-.
  destruct lines; discriminate Heq.
Qed.

(** ** Payloads survive *)

Lemma int2_format b : is_byte b → int2 (format_08b b) = b.
Proof.
  intros Hb. unfold is_byte in Hb. unfold int2, format_08b. cbn [fmap list_fmap foldl].
  change (2 ^ 7) with 128. change (2 ^ 6) with 64. change (2 ^ 5) with 32. change (2 ^ 4) with 16.
  change (2 ^ 3) with 8. change (2 ^ 2) with 4. change (2 ^ 1) with 2. change (2 ^ 0) with 1. dlia.
Qed.

Lemma bits_to_string_format data :
  Forall is_byte data → bits_to_string (concat (format_08b <$> data)) = data.
Proof.
  induction 1 as [|b data Hb _ IH]; [done|]. rewrite fmap_cons, concat_cons.
  rewrite <-(int2_format b Hb) at 2. rewrite <-IH at 2. reflexivity.
Qed.

Lemma format_08b_bits b : Forall (λ c, c = 48 ∨ c = 49) (format_08b b).
Proof.
  unfold format_08b. apply Forall_fmap, Forall_forall. intros i _. simpl.
  pose proof (Z.mod_pos_bound (b / 2 ^ i) 2). lia.
Qed.

Lemma omap_zero_width bits :
  Forall (λ c, c = 48 ∨ c = 49) bits → omap zero_width_bit (zero_width_char <$> bits) = bits.
Proof. induction 1 as [|c bits [-> | ->] _ IH]; csimpl; [done|by rewrite IH..]. Qed.

Lemma length_format data : length (concat (format_08b <$> data)) = (8 * length data)%nat.
Proof.
  induction data as [|b data IH]; [done|]. rewrite fmap_cons, concat_cons, length_app, IH. simpl. lia.
Qed.

Lemma find_app c a b : c ∉ a → find c (a ++ c :: b) = Some (length a).
Proof.
  induction a as [|d a IH]; simpl; [by rewrite Z.eqb_refl|]. intros [? ?]%not_elem_of_cons.
  rewrite (proj2 (Z.eqb_neq _ _)), IH by done. done.
Qed.

(** A payload of printable text between text without the two marks decodes. *)
Lemma decode_encode_zero_width a b data :
  WATERMARK_START ∉ a → WATERMARK_END ∉ a → Forall printable data → data ≠ [] →
  ∃ encoded, encode_zero_width data = Ok encoded ∧
    (∀ c, c ∈ encoded → is_zero_width c = true) ∧
    decode_zero_width (a ++ encoded ++ b) = Some data.
Proof.
  intros Hs He Hp Hne. unfold encode_zero_width, string_to_bits.
  rewrite utf8_encode_ascii by (eapply Forall_impl; [exact Hp|]; unfold printable; simpl; lia).
  cbn [mbind result_bind]. eexists. split; [reflexivity|].
  set (bits := concat (format_08b <$> data)).
  assert (Forall (λ c, c = 48 ∨ c = 49) bits) as Hbits.
  { apply Forall_concat, Forall_fmap, Forall_forall. intros x _. apply format_08b_bits. }
  assert (Forall (λ c, c = ZERO_WIDTH_SPACE ∨ c = ZERO_WIDTH_NON_JOINER) (zero_width_char <$> bits)) as Hzw.
  { apply Forall_fmap. eapply Forall_impl; [exact Hbits|]. intros c [-> | ->]; [by left|by right]. }
  rewrite Forall_forall in Hzw. split.
  { intros c. rewrite elem_of_cons, elem_of_app, list_elem_of_singleton.
    intros [->|[[-> | ->]%Hzw| ->]]; done. }
  unfold decode_zero_width. rewrite <-app_comm_cons, find_app by done.
  rewrite <-(assoc_L (++)). cbn [app].
  replace (a ++ WATERMARK_START :: (zero_width_char <$> bits) ++ WATERMARK_END :: b)
    with ((a ++ WATERMARK_START :: (zero_width_char <$> bits)) ++ WATERMARK_END :: b)
    by by rewrite <-(assoc_L (++)).
  rewrite find_app.
  2: { rewrite not_elem_of_app, not_elem_of_cons. split; [done|]. split; [done|]. by intros [?|?]%Hzw. }
  rewrite take_app_length, length_app. cbn [length].
  destruct (Nat.leb_spec (length a + S (length (zero_width_char <$> bits))) (length a)); [lia|].
  rewrite (drop_app_ge a _ (S (length a))) by lia.
  replace (S (length a) - length a)%nat with 1%nat by lia. cbn [drop]. rewrite drop_0.
  rewrite omap_zero_width by done. unfold bits. rewrite length_format.
  destruct data as [|x data]; [done|].
  destruct (Nat.ltb_spec (8 * length (x :: data)) 8); [simpl in *; lia|].
  rewrite (Nat.mul_comm 8), Nat.Div0.mod_mul, Nat.sub_0_r, take_ge by (rewrite length_format; lia).
  rewrite bits_to_string_format; [done|]. eapply Forall_impl; [exact Hp|].
  unfold printable, is_byte; simpl; lia.
Qed.

(** ** What the fingerprints do to the text *)

Section chars.
Context {D : Digest}.

Lemma match_prefix_app pattern text m r : match_prefix pattern text = Some (m, r) → text = m ++ r.
Proof.
  revert text m r; induction pattern as [|p pattern IH]; intros text m r; cbn [match_prefix].
  { by intros [= <- <-]. }
  destruct text as [|c text]; [done|]. destruct (matches_char p c); [|done].
  destruct (match_prefix pattern text) as [[m' r']|] eqn:Hm; cbn; [|done]. intros [= <- <-].
  by rewrite (IH _ _ _ Hm).
Qed.

Lemma match_word_app prev pattern text m r : match_word prev pattern text = Some (m, r) → text = m ++ r.
Proof.
  unfold match_word. destruct prev; [done|].
  destruct (match_prefix pattern text) as [[m' r']|] eqn:Hm; cbn; [|done].
  destruct (at_word r'); [done|]. intros [= <- <-]. by eapply match_prefix_app.
Qed.

Lemma sub_word_chars fuel pattern f prev text (P : Z → Prop) :
  (∀ m, Forall P (f m)) → Forall P text → Forall P (sub_word fuel pattern f prev text).
Proof.
  intros Hf. revert prev text; induction fuel as [|fuel IH]; intros prev [|c text] Ht; cbn [sub_word]; try done.
  destruct (match_word prev pattern (c :: text)) as [[m r]|] eqn:Hm.
  - apply match_word_app in Hm. rewrite Hm in Ht. apply Forall_app in Ht as [_ Hr].
    apply Forall_app. auto.
  - apply Forall_cons in Ht as [? ?]. constructor; auto.
Qed.

(** Replacements are ASCII letters and spaces. *)
Lemma expected_synonym_ascii seed word syns h :
  (word, syns, h) ∈ SYNONYM_TABLE → Forall printable (expected_synonym seed h syns).
Proof.
  intros Hin. unfold expected_synonym.
  assert (forallb (λ '(_, syns, _), forallb (λ s, forallb (λ c, (32 <=? c) && (c <=? 126)) (str s)) syns)
            SYNONYM_TABLE = true) as Hall by reflexivity.
  rewrite forallb_forall in Hall. apply list_elem_of_In, Hall in Hin. simpl in Hin.
  rewrite forallb_forall in Hin. set (i := Z.to_nat _). clearbody i.
  destruct (syns !! i) as [s|] eqn:Hs; [|constructor]. cbn [default].
  apply list_elem_of_lookup_2, list_elem_of_In, Hin in Hs. rewrite forallb_forall in Hs.
  apply Forall_forall. intros c Hc%list_elem_of_In%Hs. unfold printable.
  apply andb_true_iff in Hc as [?%Z.leb_le ?%Z.leb_le]. lia.
Qed.

Lemma upper_char_printable c : printable c → printable (upper_char c).
Proof. unfold printable, upper_char. case_cmp; lia. Qed.
Lemma lower_char_printable c : printable c → printable (lower_char c).
Proof. unfold printable, lower_char. case_cmp; lia. Qed.

Lemma replace_func_printable seed h syns m :
  Forall printable (expected_synonym seed h syns) → Forall printable (replace_func seed h syns m).
Proof.
  intros He. unfold replace_func, upper, capitalize. destruct (forallb _ _).
  { apply Forall_fmap. eapply Forall_impl; [exact He|]. apply upper_char_printable. }
  destruct m as [|c m]; [done|]. destruct (is_upper c); [|done].
  destruct He as [|d e Hd He]; constructor; [by apply upper_char_printable|].
  apply Forall_fmap. eapply Forall_impl; [exact He|]. apply lower_char_printable.
Qed.

Lemma linguistic_chars content seed (P : Z → Prop) :
  (∀ c, printable c → P c) → Forall P content → Forall P (apply_linguistic_fingerprint content seed).
Proof.
  intros HP. unfold apply_linguistic_fingerprint. revert content.
  assert (∀ x, x ∈ SYNONYM_TABLE → x ∈ SYNONYM_TABLE) as Hsub by done. revert Hsub.
  generalize SYNONYM_TABLE at 1 3. intros table. induction table as [|[[w syns] h] table IH];
    intros Hsub content Hc; [done|]. cbn [foldl].
  apply IH; [intros x Hx; apply Hsub; by right|]. apply sub_word_chars; [|done].
  intros m. eapply Forall_impl; [|exact HP].
  eapply replace_func_printable, expected_synonym_ascii, Hsub. left.
Qed.

Lemma join_Forall (P : Z → Prop) sep parts :
  P sep → Forall (Forall P) parts → Forall P (join sep parts).
Proof.
  intros Hsep. induction 1 as [|p parts Hp Hps IH]; [constructor|].
  destruct parts as [|q parts]; [done|]. cbn [join]. apply Forall_app. auto.
Qed.

Lemma split_aux_Forall (P : Z → Prop) sep cur s :
  Forall P cur → Forall P s → Forall (Forall P) (split_aux sep cur s).
Proof.
  intros Hcur Hs. revert cur Hcur. induction Hs as [|c s Hc _ IH]; intros cur Hcur; cbn [split_aux].
  - apply Forall_singleton, Forall_reverse, Hcur.
  - destruct (c =? sep); [constructor; [by apply Forall_reverse|by apply IH]|]. apply IH. by constructor.
Qed.

Lemma imap_Forall {A B} (P : B → Prop) (f : nat → A → B) l :
  (∀ i x, x ∈ l → P (f i x)) → Forall P (imap f l).
Proof.
  intros Hf. apply Forall_lookup. intros i y. rewrite list_lookup_imap.
  destruct (l !! i) as [x|] eqn:Hx; cbn; [|done]. intros [= <-]. apply Hf. by eapply list_elem_of_lookup_2.
Qed.

Lemma whitespace_chars content peer_id out (P : Z → Prop) :
  (∀ c, printable c → P c) → P 10 → Forall P content →
  add_whitespace_fingerprint content peer_id = Ok out → Forall P out.
Proof.
  intros HP H10 Hc. unfold add_whitespace_fingerprint.
  destruct (get_fingerprint_seed peer_id) as [seed|]; cbn [mbind result_bind]; [|done]. intros [= <-].
  apply join_Forall; [done|]. apply imap_Forall. intros i line Hline.
  pose proof (split_aux_Forall P 10 [] content (List.Forall_nil _) Hc) as Hlines.
  rewrite Forall_forall in Hlines. apply Forall_app. split; [by apply Hlines|].
  apply Forall_replicate. by apply HP.
Qed.
End chars.

(** ** Seeds exist *)

Section seeds.
Context {D : Digest} {L : DigestLaws D}.

Lemma bytes_hex_digits data : Forall is_byte data →
  Forall (λ c, (48 ≤ c ≤ 57) ∨ (97 ≤ c ≤ 102)) (bytes_hex data).
Proof.
  induction 1 as [|b data Hb _ IH]; cbn [bytes_hex]; [constructor|]. unfold is_byte in Hb.
  assert (∀ d, 0 ≤ d < 16 → (48 ≤ hexdigit d ≤ 57) ∨ (97 ≤ hexdigit d ≤ 102)) as Hd.
  { intros d ?. unfold hexdigit. case_cmp; lia. }
  apply Forall_cons; split; [apply Hd; dlia|]. apply Forall_cons; split; [apply Hd; dlia|done].
Qed.

Lemma bytes_hex_length data : length (bytes_hex data) = (2 * length data)%nat.
Proof. induction data; cbn [bytes_hex length]; lia. Qed.

Lemma int16_digits s : s ≠ [] → Forall (λ c, (48 ≤ c ≤ 57) ∨ (97 ≤ c ≤ 102)) s → ∃ n, int16 s = Ok n.
Proof.
  intros Hne Hs.
  assert (∀ acc, ∃ n, parse_hexdigits acc s = Ok n) as Hall.
  { clear Hne. induction Hs as [|c s Hc _ IH]; intros acc; cbn [parse_hexdigits]; [by eexists|].
    unfold hexval. case_cmp; try lia; apply IH. }
  pose proof (Hall 0) as Hparse.
  assert (hex_text s) as Ht by (eapply Forall_impl; [exact Hs|]; cbn; lia).
  unfold int16. rewrite trim_plain by done. rewrite <-parse_grouped_plain in Hparse by done.
  destruct s as [|c s]; [done|]. apply Forall_cons in Hs as [Hc Hs].
  rewrite (proj2 (Z.eqb_neq c 45)), (proj2 (Z.eqb_neq c 43)) by lia.
  unfold parse_hex_unsigned. destruct s as [|d s]; [done|].
  apply Forall_cons in Hs as [Hd _].
  by rewrite (proj2 (Z.eqb_neq d 120)), (proj2 (Z.eqb_neq d 88)), andb_false_r by lia.
Qed.

Lemma get_fingerprint_seed_total peer_id :
  Forall is_scalar peer_id → ∃ seed, get_fingerprint_seed peer_id = Ok seed.
Proof.
  intros Hp. unfold get_fingerprint_seed. destruct (utf8_encode_total _ Hp) as [data ->]. cbn.
  apply int16_digits.
  - intros Hnil. assert (length (take 8 (bytes_hex (sha256 data))) = 0%nat) as Hl by by rewrite Hnil.
    rewrite length_take, bytes_hex_length, sha256_length in Hl. lia.
  - apply Forall_take, bytes_hex_digits, sha256_bytes.
Qed.
End seeds.

Lemma insert_watermark_split encoded text :
  ∃ a b, text = a ++ b ∧ insert_watermark encoded text = a ++ encoded ++ b.
Proof.
  unfold insert_watermark. destruct (find 32 text) as [[|n]|].
  - exists text, []. by rewrite !app_nil_r.
  - exists (take (S n) text), (drop (S n) text). by rewrite take_drop.
  - exists text, []. by rewrite !app_nil_r.
Qed.

Lemma remove_zero_width_insert encoded text :
  (∀ c, c ∈ encoded → is_zero_width c = true) →
  remove_zero_width (insert_watermark encoded text) = remove_zero_width text.
Proof.
  intros Henc. destruct (insert_watermark_split encoded text) as (a & b & -> & ->).
  unfold remove_zero_width. rewrite !filter_app.
  assert (filter (λ c, is_zero_width c = false) encoded = []) as ->; [|done].
  induction encoded as [|c encoded IH]; [done|]. rewrite filter_cons_False; [set_solver|].
  rewrite Henc; [done|left].
Qed.

(** Neither mark occurs. *)
Definition mark_free (c : Z) : Prop := c ≠ WATERMARK_START ∧ c ≠ WATERMARK_END.

Lemma printable_mark_free c : printable c → mark_free c.
Proof. unfold printable, mark_free, WATERMARK_START, WATERMARK_END. lia. Qed.

Section embed.
Context {D : Digest} {L : DigestLaws D}.

Definition watermark_of (peer_id timestamp : pystr) (depth : Z) (content_bytes : bytes) (seed : Z)
    : WatermarkData :=
  mkWatermark (JStr peer_id) (JStr timestamp) (JInt depth) (JStr (bytes_hex (sha256 content_bytes)))
    (JInt seed).

Lemma watermark_of_wf peer_id timestamp depth content_bytes seed :
  Forall is_scalar peer_id → Forall is_scalar timestamp →
  wf_json (watermark_to_dict (watermark_of peer_id timestamp depth content_bytes seed)).
Proof.
  intros Hp Ht. constructor; [by apply (bool_decide_unpack _)|].
  assert (∀ k, Forall is_scalar (str k)) as Hk.
  { intros k. unfold str. apply Forall_fmap, Forall_forall. intros a _. apply (str_scalar_char a). }
  repeat constructor; cbn [fst snd]; try done; try by (repeat constructor).
  eapply Forall_impl; [apply bytes_hex_digits, sha256_bytes|]. intros c Hc. apply ascii_is_scalar.
  simpl in Hc. lia.
Qed.

Lemma watermark_dict_roundtrip w : watermark_from_dict (watermark_to_dict w) = Ok w.
Proof. by destruct w. Qed.

(** The text before the payload goes in. *)
Lemma embed_shape now content peer_id depth timestamp lin ws known :
  Forall is_scalar content → Forall is_scalar peer_id →
  ∃ content_bytes seed text,
    utf8_encode content = Ok content_bytes ∧ get_fingerprint_seed peer_id = Ok seed ∧
    (if ws : bool
     then add_whitespace_fingerprint (if lin : bool then apply_linguistic_fingerprint content seed else content) peer_id
     else Ok (if lin : bool then apply_linguistic_fingerprint content seed else content)) = Ok text ∧
    (∀ P : Z → Prop, (∀ c, printable c → P c) → P 10 → Forall P content → Forall P text) ∧
    embed_watermark now content peer_id depth timestamp true lin ws known =
    (encoded ← encode_zero_width
        (dumps (watermark_to_dict (watermark_of peer_id (default now timestamp) depth content_bytes seed)));
      Ok (insert_watermark encoded text),
     match encode_zero_width
        (dumps (watermark_to_dict (watermark_of peer_id (default now timestamp) depth content_bytes seed))) with
     | Ok _ => register_peer peer_id known | Raise _ => known end).
Proof.
  intros Hc Hp. destruct (utf8_encode_total _ Hc) as [bs Hbs].
  destruct (get_fingerprint_seed_total peer_id Hp) as [seed Hseed].
  set (base := if lin then apply_linguistic_fingerprint content seed else content).
  assert (∃ text, (if ws then add_whitespace_fingerprint base peer_id else Ok base) = Ok text) as [text Htext].
  { destruct ws; [|by eexists]. unfold add_whitespace_fingerprint. rewrite Hseed. by eexists. }
  exists bs, seed, text. split; [done|]. split; [done|]. split; [done|]. split.
  - intros P HP H10 HPc. assert (Forall P base) by (unfold base; destruct lin; [by apply linguistic_chars|done]).
    destruct ws; [by eapply whitespace_chars|]. by injection Htext as <-.
  - unfold embed_watermark. rewrite Hbs, Hseed. cbn [mbind result_bind]. fold base. rewrite Htext.
    cbn [mbind result_bind]. unfold watermark_of. by destruct (encode_zero_width _).
Qed.
End embed.

(** ** Stripping *)

Lemma join_split_aux sep cur s : join sep (split_aux sep cur s) = reverse cur ++ s.
Proof.
  revert cur; induction s as [|c s IH]; intros cur; cbn [split_aux]; [by rewrite app_nil_r|].
  destruct (Z.eqb_spec c sep) as [->|].
  - assert (∃ p ps, split_aux sep [] s = p :: ps) as (p & ps & Hps).
    { clear. generalize (@nil Z). induction s as [|c s IH]; intros cur; simpl; [by eexists _, _|].
      destruct (c =? sep); [by eexists _, _|apply IH]. }
    rewrite Hps. change (join sep (reverse cur :: p :: ps)) with (reverse cur ++ sep :: join sep (p :: ps)).
    by rewrite <-Hps, IH.
  - rewrite IH, reverse_cons, <-(assoc_L (++)). done.
Qed.

Lemma join_split sep s : join sep (split sep s) = s.
Proof. apply join_split_aux. Qed.

Lemma split_aux_free sep cur s : sep ∉ cur → Forall (λ p, sep ∉ p) (split_aux sep cur s).
Proof.
  revert cur; induction s as [|c s IH]; intros cur Hcur; cbn [split_aux].
  - apply Forall_singleton. by rewrite elem_of_reverse.
  - destruct (Z.eqb_spec c sep); [constructor; [by rewrite elem_of_reverse|apply IH; set_solver]|].
    apply IH. set_solver.
Qed.

Lemma split_nonempty sep s : split sep s ≠ [].
Proof.
  unfold split. generalize (@nil Z). induction s as [|c s IH]; intros cur; cbn [split_aux]; [done|].
  destruct (c =? sep); [done|apply IH].
Qed.

Lemma remove_join parts :
  remove_zero_width (join 10 parts) = join 10 (remove_zero_width <$> parts).
Proof.
  induction parts as [|p parts IH]; [done|]. destruct parts as [|q parts]; [done|].
  change (join 10 (p :: q :: parts)) with (p ++ 10 :: join 10 (q :: parts)).
  unfold remove_zero_width in *. rewrite filter_app, filter_cons_True by done. rewrite IH. done.
Qed.

Lemma strip_join parts :
  parts ≠ [] → Forall (λ p, 10 ∉ p) parts →
  strip_all_watermarks (join 10 parts) = join 10 ((λ p, rstrip (remove_zero_width p)) <$> parts).
Proof.
  intros Hne Hfree. unfold strip_all_watermarks. rewrite remove_join, split_join.
  - by rewrite <-list_fmap_compose.
  - by destruct parts.
  - apply Forall_fmap. eapply Forall_impl; [exact Hfree|]. intros p Hp. simpl. unfold remove_zero_width.
    intros [_ ?]%list_elem_of_filter. done.
Qed.

Lemma rstrip_spaces p n : rstrip (p ++ replicate n 32) = rstrip p.
Proof.
  unfold rstrip. rewrite reverse_app, reverse_replicate. f_equal. induction n as [|n IH]; [done|]. exact IH.
Qed.

Lemma strip_whitespace_fingerprint {D : Digest} content peer_id out :
  add_whitespace_fingerprint content peer_id = Ok out →
  strip_all_watermarks out = strip_all_watermarks content.
Proof.
  unfold add_whitespace_fingerprint. destruct (get_fingerprint_seed peer_id) as [seed|];
    cbn [mbind result_bind]; [|done]. intros [= <-].
  pose proof (split_nonempty 10 content) as Hne.
  pose proof (split_aux_free 10 [] content ltac:(set_solver)) as Hfree.
  rewrite <-(join_split 10 content) at 2. fold (split 10 content) in Hfree.
  set (lines := split 10 content) in *. clearbody lines.
  rewrite !strip_join; [|done|done|by destruct lines|].
  - f_equal. apply list_eq. intros i. rewrite !list_lookup_fmap, list_lookup_imap.
    destruct (lines !! i) as [p|]; [|done]. cbn. f_equal. unfold remove_zero_width.
    rewrite filter_app. set (k := Z.to_nat _).
    assert (filter (λ c, is_zero_width c = false) (replicate k 32) = replicate k 32) as ->
      by (induction k as [|k IH]; [done|]; simpl replicate; rewrite filter_cons_True, IH; done).
    apply rstrip_spaces.
  - apply imap_Forall. intros i p Hp. rewrite Forall_forall in Hfree. rewrite not_elem_of_app.
    split; [by apply Hfree|]. by intros [? _]%elem_of_replicate.
Qed.

(** ** Properties *)

Section properties.
Context {D : Digest} {L : DigestLaws D}.

(** What [embed_watermark] makes of any text, and what can be read back from it
    when the text had no marks of its own. *)
Lemma watermark_survives (now content peer_id : pystr) (depth : Z) (timestamp : option pystr)
    (lin ws : bool) (known : known_peers) :
  Forall is_scalar content → Forall is_scalar peer_id → Forall is_scalar (default now timestamp) →
  ∃ out content_bytes seed,
    embed_watermark now content peer_id depth timestamp true lin ws known =
      (Ok out, register_peer peer_id known) ∧
    utf8_encode content = Ok content_bytes ∧ get_fingerprint_seed peer_id = Ok seed ∧
    (Forall mark_free content → ∀ candidates known',
       extract_watermark out candidates known' =
         Ok (mkExtraction true (Some (JStr peer_id)) (1, 1) "zero_width" (remove_zero_width out)
               (Some (watermark_of peer_id (default now timestamp) depth content_bytes seed))) ∧
       verify_watermark out peer_id known' = Ok true).
Proof.
  intros Hc Hp Ht.
  destruct (embed_shape now content peer_id depth timestamp lin ws known Hc Hp)
    as (bs & seed & text & Hbs & Hseed & _ & Hchars & Hembed).
  set (w := watermark_of peer_id (default now timestamp) depth bs seed) in *.
  pose proof (watermark_of_wf peer_id (default now timestamp) depth bs seed Hp Ht) as Hwf. fold w in Hwf.
  destruct (decode_encode_zero_width [] [] (dumps (watermark_to_dict w))) as (enc & Henc & Hzw & _);
    [apply not_elem_of_nil|apply not_elem_of_nil|by apply dumps_printable|by apply dumps_nonempty|].
  rewrite Henc in Hembed. cbn [mbind result_bind] in Hembed.
  destruct (insert_watermark_split enc text) as (a & b & Htext & Hout).
  exists (insert_watermark enc text), bs, seed. do 3 (split; [done|]). intros Hm candidates known'.
  assert (Forall mark_free text) as Hfree by (by apply Hchars; [apply printable_mark_free| |]).
  assert (extract_zero_width (insert_watermark enc text) =
    Ok (Some (mkExtraction true (Some (JStr peer_id)) (1, 1) "zero_width"
                (remove_zero_width (insert_watermark enc text)) (Some w)))) as Hextract.
  { rewrite Htext in Hfree. apply Forall_app in Hfree as [Ha _]. rewrite Forall_forall in Ha.
    destruct (decode_encode_zero_width a b (dumps (watermark_to_dict w))) as (enc' & Henc' & _ & Hdec);
      [by intros [? _]%Ha|by intros [_ ?]%Ha|by apply dumps_printable|by apply dumps_nonempty|].
    rewrite Henc in Henc'. injection Henc' as <-. unfold extract_zero_width. rewrite Hout, Hdec.
    pose proof (loads_dumps _ Hwf) as Hloads. pose proof (dumps_nonempty _ Hwf) as Hne.
    destruct (dumps (watermark_to_dict w)) as [|c s]; [done|]. rewrite Hloads. cbn [mbind result_bind].
    by rewrite (watermark_dict_roundtrip w). }
  unfold verify_watermark, extract_watermark. rewrite Hextract.
  split; [done|]. cbn. by rewrite bool_decide_eq_true_2.
Qed.

(** C23: a watermark survives whatever fingerprints are applied with it: for
    content without the two marks, the text [embed_watermark] returns is
    attributed by [extract_watermark] to exactly the embedded peer, with the
    embedded record and confidence 1, whatever candidates are given, and
    [verify_watermark] confirms that peer. *)
Theorem watermark_roundtrip (now content peer_id : pystr) (depth : Z) (timestamp : option pystr)
    (lin ws : bool) (known known' : known_peers) (candidates : option (list pystr)) :
  Forall is_scalar content → Forall is_scalar peer_id → Forall is_scalar (default now timestamp) →
  Forall mark_free content →
  ∃ out content_bytes seed,
    embed_watermark now content peer_id depth timestamp true lin ws known =
      (Ok out, register_peer peer_id known) ∧
    utf8_encode content = Ok content_bytes ∧ get_fingerprint_seed peer_id = Ok seed ∧
    extract_watermark out candidates known' =
      Ok (mkExtraction true (Some (JStr peer_id)) (1, 1) "zero_width" (remove_zero_width out)
            (Some (watermark_of peer_id (default now timestamp) depth content_bytes seed))) ∧
    verify_watermark out peer_id known' = Ok true.
Proof.
  intros Hc Hp Ht Hm.
  destruct (watermark_survives now content peer_id depth timestamp lin ws known Hc Hp Ht)
    as (out & bs & seed & Hembed & Hbs & Hseed & Hread).
  exists out, bs, seed. do 3 (split; [done|]). by apply Hread.
Qed.

(** [strip_all_watermarks] undoes everything but synonyms: for a text
    watermarked with zero-width characters and trailing spaces, stripping
    gives exactly what stripping the original gives. *)
Theorem strip_removes_watermark (now content peer_id : pystr) (depth : Z) (timestamp : option pystr)
    (ws : bool) (known : known_peers) :
  Forall is_scalar content → Forall is_scalar peer_id → Forall is_scalar (default now timestamp) →
  ∃ out, (embed_watermark now content peer_id depth timestamp true false ws known).1 = Ok out ∧
    strip_all_watermarks out = strip_all_watermarks content.
Proof.
  intros Hc Hp Ht.
  destruct (embed_shape now content peer_id depth timestamp false ws known Hc Hp)
    as (bs & seed & text & _ & _ & Htext & _ & ->).
  set (w := watermark_of _ _ _ _ _).
  destruct (decode_encode_zero_width [] [] (dumps (watermark_to_dict w))) as (enc & -> & Hzw & _);
    [apply not_elem_of_nil|apply not_elem_of_nil|by apply dumps_printable, watermark_of_wf|by apply dumps_nonempty, watermark_of_wf|].
  exists (insert_watermark enc text). split; [done|].
  unfold strip_all_watermarks at 1. rewrite remove_zero_width_insert by done.
  fold (strip_all_watermarks text). destruct ws; [by eapply strip_whitespace_fingerprint|].
  by injection Htext as ->.
Qed.

(** A zero-width payload that is valid JSON but not a watermark record
    makes [extract_watermark] raise [TypeError] to its caller: only
    [JSONDecodeError] and [KeyError] are caught. *)
Theorem extract_raises_on_foreign_payload (a b : pystr) (v : json) (e : pyexn) (known : known_peers)
    (candidates : option (list pystr)) :
  Forall mark_free a → wf_json v → watermark_from_dict v = Raise e →
  ∃ encoded, encode_zero_width (dumps v) = Ok encoded ∧
    extract_watermark (a ++ encoded ++ b) candidates known = Raise TypeError.
Proof.
  intros Ha Hwf He. assert (e = TypeError) as ->.
  { unfold watermark_from_dict in He. destruct v; try congruence. case_decide; [|congruence].
    repeat match type of He with context [get_item ?k ?d] => destruct (get_item k d); cbn in He; [|congruence] end.
    done. }
  rewrite Forall_forall in Ha.
  destruct (decode_encode_zero_width a b (dumps v)) as (enc & Henc & _ & Hdec);
    [by intros [? _]%Ha|by intros [_ ?]%Ha|by apply dumps_printable|by apply dumps_nonempty|].
  exists enc. split; [done|]. unfold extract_watermark, extract_zero_width. rewrite Hdec.
  pose proof (loads_dumps v Hwf) as Hloads. pose proof (dumps_nonempty v Hwf) as Hne.
  destruct (dumps v) as [|c s]; [done|]. rewrite Hloads. cbn [mbind result_bind]. by rewrite He.
Qed.
End properties.

(** The synonym detector never names anybody: its loop does not record a match. *)
Lemma detect_linguistic_none {D : Digest} content candidates r :
  detect_linguistic_fingerprint content candidates = Ok r → r = None.
Proof. unfold detect_linguistic_fingerprint. destruct (mapR _ _); cbn; congruence. Qed.

(** ** Witnesses *)

Definition toy_digest : Digest :=
  {| sha256 data := replicate 32 (from_bytes data mod 256); unicode_word _ := false |}.

Lemma toy_digest_laws : DigestLaws toy_digest.
Proof.
  split; intros data; [|done]. apply Forall_replicate.
  unfold is_byte. apply Z.mod_pos_bound. lia.
Qed.

Lemma str_printable_scalar s : Forall is_scalar (str s).
Proof. unfold str. apply Forall_fmap, Forall_forall. intros a _. apply str_scalar_char. Qed.

Lemma watermark_roundtrip_witness :
  ∃ out content_bytes seed,
    embed_watermark (D := toy_digest) (str "now") (str "a big deal") (str "ann") 2 None true true true []
      = (Ok out, [str "ann"]) ∧
    utf8_encode (str "a big deal") = Ok content_bytes ∧
    get_fingerprint_seed (D := toy_digest) (str "ann") = Ok seed ∧
    extract_watermark (D := toy_digest) out None [] =
      Ok (mkExtraction true (Some (JStr (str "ann"))) (1, 1) "zero_width" (remove_zero_width out)
            (Some (watermark_of (D := toy_digest) (str "ann") (str "now") 2 content_bytes seed))) ∧
    verify_watermark (D := toy_digest) out (str "ann") [] = Ok true.
Proof.
  apply (watermark_roundtrip (D := toy_digest) (L := toy_digest_laws) (str "now") (str "a big deal")
    (str "ann") 2 None true true [] [] None).
  - apply str_printable_scalar.
  - apply str_printable_scalar.
  - apply str_printable_scalar.
  - repeat constructor; done.
Defined.

Lemma strip_removes_watermark_witness :
  ∃ out, (embed_watermark (D := toy_digest) (str "now") (str "a big deal") (str "ann") 2 None true false true []).1
      = Ok out ∧ strip_all_watermarks out = strip_all_watermarks (str "a big deal").
Proof.
  apply (strip_removes_watermark (D := toy_digest) (L := toy_digest_laws) (str "now") (str "a big deal")
    (str "ann") 2 None true []).
  - apply str_printable_scalar.
  - apply str_printable_scalar.
  - apply str_printable_scalar.
Defined.

Lemma extract_raises_on_foreign_payload_witness :
  ∃ encoded, encode_zero_width (dumps (JArr [JInt 1])) = Ok encoded ∧
    extract_watermark (D := toy_digest) (str "hi" ++ encoded ++ str " there") None [] = Raise TypeError.
Proof.
  apply (extract_raises_on_foreign_payload (D := toy_digest) (str "hi") (str " there") (JArr [JInt 1])
    TypeError [] None).
  - repeat constructor; done.
  - repeat constructor.
  - reflexivity.
Defined.
