(* ===== verification/Validation.v ===== *)
(** * Input validation ([coc_framework/core/validation.py])

    [ValidationResult], [EventValidator] and the hex-pattern checks.  Events and
    scenarios are JSON values.  An error message is a constructor with the data
    its text is made of; the order of the errors a frozenset contributes is the
    order the set's members are listed in here.  [validate_timestamp] is not
    modelled. *)

From Stdlib Require Import ZArith Lia String.
From S2P Require Import Prelude PyData Json.

(** ** [ValidationResult] *)

Inductive verror :=
  | NotADict
  | MissingType
  | TypeNotString
  | UnknownType (ty : pystr)
  | MissingField (ty : pystr) (field : string)
  | MissingAlternative (ty : pystr) (group : list string)
  | WrongType (field : pystr)
  | EmptyField (field : string)
  | EmptyRecipients
  | RecipientNotString (i : nat)
  | RecipientEmpty (i : nat)
  | ThresholdTooSmall (n : Z)
  | TtlNotPositive (n : Z)
  | NegativeTime (n : Z)
  | NotAHash (field : string)
  | MissingEvents
  | EventsNotList
  | InEvent (i : nat) (e : verror)
  | PeersNotList
  | PeerNotDict (i : nat)
  | PeerWithoutId (i : nat)
  | PeerIdNotString (i : nat)
  | PeerIdEmpty (i : nat)
  | SettingsNotDict
  | TotalPeersNotInt
  | TotalPeersTooSmall (n : Z)
  | SettingsThresholdNotInt
  | SettingsThresholdTooSmall (n : Z)
  | IntervalNotNumber
  | IntervalNotPositive
  | PeersAndTotalPeers.

Record ValidationResult := mkResult {
  is_valid : bool;
  errors : list verror;
}.

Definition valid_result : ValidationResult := mkResult true [].

Definition add_error (e : verror) (r : ValidationResult) : ValidationResult :=
  mkResult false (r.(errors) ++ [e]).

Definition merge (r other : ValidationResult) : ValidationResult :=
  if other.(is_valid) then r else mkResult false (r.(errors) ++ other.(errors)).

(** [if not ok: result.add_error(e)]. *)
Definition check (ok : bool) (e : verror) (r : ValidationResult) : ValidationResult :=
  if ok then r else add_error e r.

Definition check_all {A} (ok : A → bool) (e : A → verror) (l : list A) (r : ValidationResult)
    : ValidationResult :=
  foldl (λ r x, check (ok x) (e x) r) r l.

(** ** Tables *)

Inductive pytype := Tstr | Tint | Tlist.

Definition REQUIRED_FIELDS : list (string * list string) :=
  [("CREATE_MESSAGE", ["originator_id"; "recipient_ids"; "content"]);
   ("FORWARD_MESSAGE", ["sender_id"; "recipient_ids"]);
   ("DELETE_MESSAGE", ["originator_id"]);
   ("PEER_ONLINE", ["peer_id"]);
   ("PEER_OFFLINE", ["peer_id"]);
   ("DISTRIBUTE_SHARES", ["originator_id"; "content"; "recipient_ids"; "threshold"]);
   ("RECONSTRUCT_SECRET", ["requester_id"; "content_hash"]);
   ("TIMELOCK_CONTENT", ["originator_id"; "content"; "ttl_seconds"]);
   ("DESTROY_TIMELOCK", ["peer_id"; "lock_id"]);
   ("WATERMARK_FORWARD", ["sender_id"; "recipient_ids"]);
   ("DETECT_LEAK", ["investigator_id"; "leaked_content"])].

Definition ALTERNATIVE_FIELDS : list (string * list (list string)) :=
  [("FORWARD_MESSAGE", [["parent_message_id"; "parent_node_hash"]]);
   ("DELETE_MESSAGE", [["message_id"; "node_hash"]]);
   ("WATERMARK_FORWARD", [["parent_message_id"; "parent_node_hash"]])].

Definition FIELD_TYPES : list (string * pytype) :=
  [("originator_id", Tstr); ("sender_id", Tstr); ("peer_id", Tstr); ("requester_id", Tstr);
   ("investigator_id", Tstr); ("recipient_ids", Tlist); ("content", Tstr); ("leaked_content", Tstr);
   ("node_hash", Tstr); ("parent_node_hash", Tstr); ("message_id", Tstr); ("parent_message_id", Tstr);
   ("content_hash", Tstr); ("lock_id", Tstr); ("threshold", Tint); ("ttl_seconds", Tint);
   ("time", Tint); ("type", Tstr); ("suspect_ids", Tlist); ("contributor_ids", Tlist)].

Definition STRING_FIELDS : list string :=
  ["originator_id"; "sender_id"; "peer_id"; "requester_id"; "investigator_id"; "content";
   "leaked_content"; "node_hash"; "parent_node_hash"; "message_id"; "parent_message_id";
   "content_hash"; "lock_id"].

Definition HASH_FIELDS : list string := ["node_hash"; "parent_node_hash"; "content_hash"].

(** [table.get(key)] for a table with literal keys. *)
Fixpoint table_get {A} (key : pystr) (table : list (string * A)) : option A :=
  match table with
  | [] => None
  | (k, a) :: table => if decide (str k = key) then Some a else table_get key table
  end.

(** ** Values *)

(** [bool] is a subclass of [int]. *)
Definition as_int (v : json) : option Z :=
  match v with JInt n => Some n | JBool b => Some (if b then 1 else 0) | _ => None end.

Definition isinstance (v : json) (t : pytype) : bool :=
  match t, v with
  | Tstr, JStr _ => true
  | Tint, _ => bool_decide (is_Some (as_int v))
  | Tlist, JArr _ => true
  | _, _ => false
  end.

Definition field (k : string) (items : list (pystr * json)) : option json := get_item (str k) items.
Definition has_field (items : list (pystr * json)) (k : string) : bool :=
  bool_decide (is_Some (field k items)).

(** [bool(s.strip())]. *)
Definition not_blank (s : pystr) : bool := bool_decide (strip s ≠ []).

(** [^[a-fA-F0-9]{n}$]: [$] also matches before a final newline. *)
Definition hex_pattern (n : nat) (s : pystr) : bool :=
  forallb (λ c, bool_decide (is_Some (hexval c))) (take n s) && (n <=? length s)%nat &&
  bool_decide (drop n s = [] ∨ drop n s = [10]).

Definition validate_content_hash (v : json) : bool :=
  match v with JStr s => hex_pattern 64 s | _ => false end.
Definition validate_signature_hex (v : json) : bool :=
  match v with JStr s => hex_pattern 128 s | _ => false end.
Definition validate_public_key_hex (v : json) : bool :=
  match v with JStr s => hex_pattern 64 s | _ => false end.
Definition validate_peer_id (v : json) : bool :=
  match v with JStr s => not_blank s | _ => false end.

(** ** [EventValidator] *)

Definition check_recipient (r : ValidationResult) (irid : nat * json) : ValidationResult :=
  match irid.2 with
  | JStr s => check (not_blank s) (RecipientEmpty irid.1) r
  | _ => add_error (RecipientNotString irid.1) r
  end.

(** [if name in event and isinstance(event[name], int) and value < low]. *)
Definition check_low (name : string) (low : Z) (e : Z → verror) (items : list (pystr * json))
    (r : ValidationResult) : ValidationResult :=
  match field name items ≫= as_int with
  | Some n => check (low <=? n) (e n) r
  | None => r
  end.

Definition validate_field_values (items : list (pystr * json)) : ValidationResult :=
  let r := check_all
    (λ k, match field k items with Some (JStr s) => not_blank s | _ => true end)
    EmptyField STRING_FIELDS valid_result in
  let r := match field "recipient_ids" items with
    | Some (JArr []) => add_error EmptyRecipients r
    | Some (JArr recipients) => foldl check_recipient r (imap pair recipients)
    | _ => r
    end in
  let r := check_low "threshold" 2 ThresholdTooSmall items r in
  let r := check_low "ttl_seconds" 1 TtlNotPositive items r in
  let r := check_low "time" 0 NegativeTime items r in
  check_all
    (λ k, match field k items with
          | Some (JStr s) => negb (not_blank s) || validate_content_hash (JStr s)
          | _ => true
          end)
    NotAHash HASH_FIELDS r.

Definition validate_event (event : json) : ValidationResult :=
  match event with
  | JObj items =>
      match field "type" items with
      | None => add_error MissingType valid_result
      | Some (JStr event_type) =>
          match table_get event_type REQUIRED_FIELDS with
          | None => add_error (UnknownType event_type) valid_result
          | Some required =>
              let r := check_all (has_field items) (MissingField event_type) required valid_result in
              let r := check_all (λ group, existsb (has_field items) group)
                (MissingAlternative event_type) (default [] (table_get event_type ALTERNATIVE_FIELDS)) r in
              let r := check_all
                (λ kv, match table_get kv.1 FIELD_TYPES with Some t => isinstance kv.2 t | None => true end)
                (λ kv, WrongType kv.1) items r in
              merge r (validate_field_values items)
          end
      | Some _ => add_error TypeNotString valid_result
      end
  | _ => add_error NotADict valid_result
  end.

(** [float(literal) <= 0]: negative, or a decimal that rounds to zero, that is
    at most [2 ^ -1075]. *)
Definition float_le_zero (l : pystr) : bool :=
  match l with
  | 45 :: _ => true
  | _ =>
      let '(ip, r) := take_digits l in
      if bool_decide (ip = []) then false
      else
        let '(fp, r) := match r with 46 :: r => take_digits r | _ => ([], r) end in
        let e := match r with
          | _ :: 45 :: ds => - digits_value ds
          | _ :: 43 :: ds => digits_value ds
          | _ :: ds => digits_value ds
          | [] => 0
          end in
        let n := digits_value (ip ++ fp) in
        let k := e - Z.of_nat (length fp) in
        if 0 <=? k then n =? 0 else n * 2 ^ 1075 <=? 10 ^ (- k)
  end.

(** [key in container]: a [TypeError] on numbers, booleans and [None]. *)
Fixpoint is_infix (p s : pystr) : bool :=
  bool_decide (is_Some (strip_prefix p s)) ||
  match s with [] => false | _ :: s => is_infix p s end.

Definition py_in (key : pystr) (container : json) : result bool :=
  match container with
  | JObj items => Ok (bool_decide (is_Some (get_item key items)))
  | JArr l => Ok (existsb (λ v, match v with JStr s => bool_decide (s = key) | _ => false end) l)
  | JStr s => Ok (is_infix key s)
  | _ => Raise TypeError
  end.

Definition check_peer (r : ValidationResult) (ip : nat * json) : ValidationResult :=
  let '(i, peer_config) := ip in
  match peer_config with
  | JObj items =>
      match field "id" items with
      | None => add_error (PeerWithoutId i) r
      | Some (JStr s) => check (not_blank s) (PeerIdEmpty i) r
      | Some _ => add_error (PeerIdNotString i) r
      end
  | _ => add_error (PeerNotDict i) r
  end.

Definition check_settings (items : list (pystr * json)) (r : ValidationResult) : ValidationResult :=
  let r := match field "total_peers" items with
    | None => r
    | Some v => match as_int v with
                | None => add_error TotalPeersNotInt r
                | Some n => check (1 <=? n) (TotalPeersTooSmall n) r
                end
    end in
  let r := match field "secret_sharing_threshold" items with
    | None => r
    | Some v => match as_int v with
                | None => add_error SettingsThresholdNotInt r
                | Some n => check (2 <=? n) (SettingsThresholdTooSmall n) r
                end
    end in
  match field "timelock_cleanup_interval" items with
  | None => r
  | Some (JFloat l) => check (negb (float_le_zero l)) IntervalNotPositive r
  | Some v => match as_int v with
              | None => add_error IntervalNotNumber r
              | Some n => check (0 <? n) IntervalNotPositive r
              end
  end.

Definition add_event_errors (r : ValidationResult) (ie : nat * json) : ValidationResult :=
  let event_result := validate_event ie.2 in
  if event_result.(is_valid) then r
  else foldl (λ r e, add_error (InEvent ie.1 e) r) r event_result.(errors).

Definition check_events (items : list (pystr * json)) (r : ValidationResult) : ValidationResult :=
  match field "events" items with
  | None => add_error MissingEvents r
  | Some (JArr events) => foldl add_event_errors r (imap pair events)
  | Some _ => add_error EventsNotList r
  end.

Definition check_peers (items : list (pystr * json)) (r : ValidationResult) : ValidationResult :=
  match field "peers" items with
  | None => r
  | Some (JArr peers) => foldl check_peer r (imap pair peers)
  | Some _ => add_error PeersNotList r
  end.

Definition check_settings_entry (items : list (pystr * json)) (r : ValidationResult) : ValidationResult :=
  match field "settings" items with
  | None => r
  | Some (JObj settings) => check_settings settings r
  | Some _ => add_error SettingsNotDict r
  end.

Definition validate_scenario (scenario : json) : result ValidationResult :=
  match scenario with
  | JObj items =>
      let r := check_settings_entry items (check_peers items (check_events items valid_result)) in
      match field "peers" items, field "settings" items with
      | Some _, Some settings =>
          both ← py_in (str "total_peers") settings;
          Ok (if both : bool then add_error PeersAndTotalPeers r else r)
      | _, _ => Ok r
      end
  | _ => Ok (add_error NotADict valid_result)
  end.

(** ** Results and checks *)

(** A result is valid exactly when it lists no error. *)
Definition coherent (r : ValidationResult) : Prop := r.(is_valid) = bool_decide (r.(errors) = []).

Lemma add_error_coherent e r : coherent (add_error e r).
Proof. unfold coherent. cbn. symmetry. apply bool_decide_eq_false. by destruct (errors r). Qed.

Lemma check_coherent ok e r : coherent r → coherent (check ok e r).
Proof. intros Hr. unfold check. destruct ok; [done|apply add_error_coherent]. Qed.

Lemma foldl_coherent {A} (f : ValidationResult → A → ValidationResult) l r :
  (∀ r x, coherent r → coherent (f r x)) → coherent r → coherent (foldl f r l).
Proof. intros Hf. revert r. induction l as [|x l IH]; intros r Hr; simpl; auto. Qed.

Lemma check_all_coherent {A} ok e (l : list A) r : coherent r → coherent (check_all ok e l r).
Proof. apply foldl_coherent. intros ? ?. apply check_coherent. Qed.

Lemma merge_coherent r r' : coherent r → coherent r' → coherent (merge r r').
Proof.
  unfold merge, coherent. intros Hr Hr'. destruct (is_valid r') eqn:Hv; [done|]. cbn. symmetry in Hr' |- *.
  apply bool_decide_eq_false in Hr'. apply bool_decide_eq_false. by destruct (errors r), (errors r').
Qed.

Lemma check_valid ok e r : (check ok e r).(is_valid) = ok && r.(is_valid).
Proof. by destruct ok. Qed.

Lemma check_all_valid {A} (ok : A → bool) e l r :
  (check_all ok e l r).(is_valid) = true ↔ (∀ x, x ∈ l → ok x = true) ∧ r.(is_valid) = true.
Proof.
  unfold check_all. revert r. induction l as [|x l IH]; intros r; simpl.
  - split; [intros; split; [by intros ? ?%elem_of_nil|done]|tauto].
  - rewrite IH, check_valid, andb_true_iff. setoid_rewrite elem_of_cons. naive_solver.
Qed.

Lemma merge_valid r r' : (merge r r').(is_valid) = r.(is_valid) && r'.(is_valid).
Proof. unfold merge. destruct (is_valid r') eqn:H; cbn; by rewrite ?H, ?andb_true_r, ?andb_false_r. Qed.

Lemma check_low_valid name low e items r :
  (check_low name low e items r).(is_valid) = true ↔
  (∀ n, field name items ≫= as_int = Some n → low ≤ n) ∧ r.(is_valid) = true.
Proof.
  unfold check_low. destruct (field name items ≫= as_int) as [n|]; [|naive_solver].
  rewrite check_valid, andb_true_iff, Z.leb_le. naive_solver.
Qed.

Lemma check_low_coherent name low e items r : coherent r → coherent (check_low name low e items r).
Proof. unfold check_low. intros Hr. destruct (_ ≫= _); [by apply check_coherent|done]. Qed.

Lemma not_blank_spec s : not_blank s = true ↔ strip s ≠ [].
Proof. apply bool_decide_eq_true. Qed.

Lemma has_field_spec items k : has_field items k = true ↔ is_Some (field k items).
Proof. apply bool_decide_eq_true. Qed.

(** ** What a valid event is *)

(** 64 hexadecimal digits, possibly with a newline after them. *)
Definition hash_text (s : pystr) : Prop :=
  ∃ h, length h = 64%nat ∧ Forall (λ c, is_Some (hexval c)) h ∧ (s = h ∨ s = h ++ [10]).

Definition recipients_ok (l : list json) : Prop :=
  l ≠ [] ∧ ∀ v, v ∈ l → ∃ s, v = JStr s ∧ strip s ≠ [].

Record event_ok (items : list (pystr * json)) : Prop := {
  eo_type : ∃ ty required,
    field "type" items = Some (JStr ty) ∧ table_get ty REQUIRED_FIELDS = Some required ∧
    (∀ k, k ∈ required → is_Some (field k items)) ∧
    (∀ group, group ∈ default [] (table_get ty ALTERNATIVE_FIELDS) →
      ∃ k, k ∈ group ∧ is_Some (field k items));
  eo_types k v t : (k, v) ∈ items → table_get k FIELD_TYPES = Some t → isinstance v t = true;
  eo_strings k s : k ∈ STRING_FIELDS → field k items = Some (JStr s) → strip s ≠ [];
  eo_recipients l : field "recipient_ids" items = Some (JArr l) → recipients_ok l;
  eo_threshold n : field "threshold" items ≫= as_int = Some n → 2 ≤ n;
  eo_ttl n : field "ttl_seconds" items ≫= as_int = Some n → 1 ≤ n;
  eo_time n : field "time" items ≫= as_int = Some n → 0 ≤ n;
  eo_hashes k s : k ∈ HASH_FIELDS → field k items = Some (JStr s) → hash_text s;
}.

Lemma hex_pattern_spec s : hex_pattern 64 s = true ↔ hash_text s.
Proof.
  unfold hex_pattern, hash_text. rewrite !andb_true_iff, bool_decide_eq_true, Nat.leb_le, forallb_forall. split.
  - intros [[Hh Hlen] Hd]. exists (take 64 s). rewrite length_take. split; [lia|]. split.
    + apply Forall_forall. intros c Hc%list_elem_of_In%Hh. by apply bool_decide_eq_true in Hc.
    + destruct Hd as [Hd|Hd]; rewrite <-(take_drop 64 s) at 1 3; rewrite Hd; rewrite ?app_nil_r; auto.
  - intros (h & Hlen & Hh & Hs). rewrite Forall_forall in Hh.
    assert (take 64 s = h ∧ (drop 64 s = [] ∨ drop 64 s = [10]) ∧ (64 ≤ length s)%nat) as (-> & Hd & Hl).
    { rewrite <-Hlen. destruct Hs as [-> | ->].
      - rewrite take_ge, drop_ge by lia. auto.
      - rewrite take_app_length, drop_app_length, length_app. simpl. split; [done|]. split; [auto|lia]. }
    split; [|done]. split; [|done]. intros c Hc%list_elem_of_In. apply bool_decide_eq_true. auto.
Qed.

Lemma check_recipients_valid l r k :
  (foldl check_recipient r (imap (λ i, pair (k + i)%nat) l)).(is_valid) = true ↔
  (∀ v, v ∈ l → ∃ s, v = JStr s ∧ strip s ≠ []) ∧ r.(is_valid) = true.
Proof.
  revert r k. induction l as [|v l IH]; intros r k; simpl.
  - split; [intros; split; [by intros ? ?%elem_of_nil|done]|tauto].
  - assert (imap ((λ i, pair (k + i)%nat) ∘ S) l = imap (λ i, pair (S k + i)%nat) l) as ->.
    { apply imap_ext. intros i x _. simpl. f_equal. lia. }
    rewrite IH. setoid_rewrite elem_of_cons.
    assert ((check_recipient r ((k + 0)%nat, v)).(is_valid) = true ↔
            (∃ s, v = JStr s ∧ strip s ≠ []) ∧ r.(is_valid) = true) as ->; [|naive_solver].
    unfold check_recipient. destruct v as [| | | |s| |]; cbn [fst snd];
      try (by split; [done|intros [(s & [=] & _) _]]).
    rewrite check_valid, andb_true_iff, not_blank_spec. split.
    + intros [? ?]. eauto.
    + by intros [(s' & [= <-] & ?) ?].
Qed.

Lemma validate_field_values_valid items :
  (validate_field_values items).(is_valid) = true ↔
  (∀ k s, k ∈ STRING_FIELDS → field k items = Some (JStr s) → strip s ≠ []) ∧
  (∀ l, field "recipient_ids" items = Some (JArr l) → recipients_ok l) ∧
  (∀ n, field "threshold" items ≫= as_int = Some n → 2 ≤ n) ∧
  (∀ n, field "ttl_seconds" items ≫= as_int = Some n → 1 ≤ n) ∧
  (∀ n, field "time" items ≫= as_int = Some n → 0 ≤ n) ∧
  (∀ k s, k ∈ HASH_FIELDS → field k items = Some (JStr s) → hash_text s).
Proof.
  unfold validate_field_values. cbv zeta. set (r0 := check_all _ _ STRING_FIELDS _).
  rewrite check_all_valid, !check_low_valid.
  assert (r0.(is_valid) = true ↔
    ∀ k s, k ∈ STRING_FIELDS → field k items = Some (JStr s) → strip s ≠ []) as H0.
  { unfold r0. rewrite check_all_valid. cbn [is_valid valid_result]. split.
    - intros [Hall _] k s Hk Hs. specialize (Hall k Hk). rewrite Hs in Hall. by apply not_blank_spec.
    - intros Hall. split; [|done]. intros k Hk. specialize (Hall k).
      destruct (field k items) as [[]|]; try done. apply not_blank_spec; eauto. }
  clearbody r0. match goal with |- context [is_valid (match ?x with _ => _ end)] =>
    assert ((match x with
      | Some (JArr []) => add_error EmptyRecipients r0
      | Some (JArr recipients) => foldl check_recipient r0 (imap pair recipients)
      | _ => r0 end).(is_valid) = true ↔
      (∀ l, field "recipient_ids" items = Some (JArr l) → recipients_ok l) ∧ r0.(is_valid) = true) as H1 end.
  { destruct (field "recipient_ids" items) as [[| | | | |[|v l]|]|]; try naive_solver.
    - split; [done|]. intros [H _]. by destruct (H [] eq_refl).
    - pose proof (check_recipients_valid (v :: l) r0 0) as Hc. cbn [Nat.add] in Hc.
      change (imap (λ i, pair i) (v :: l)) with (imap (@pair nat json) (v :: l)) in Hc. rewrite Hc.
      unfold recipients_ok. naive_solver. }
  rewrite H1, H0. clear H0 H1. split.
  - intros (Hh & Hti & Htt & Hth & Hr & Hs). do 5 (split; [done|]). intros k s Hk Hf.
    assert (k ∈ STRING_FIELDS) as Hk' by (unfold HASH_FIELDS, STRING_FIELDS in *; set_solver).
    specialize (Hh k Hk). rewrite Hf in Hh. apply orb_true_iff in Hh as [Hb|Hh]; [|by apply hex_pattern_spec].
    apply negb_true_iff in Hb. pose proof (proj2 (not_blank_spec s) (Hs k s Hk' Hf)). congruence.
  - intros (Hs & Hr & Hth & Htt & Hti & Hh). split; [|tauto]. intros k Hk. specialize (Hh k).
    destruct (field k items) as [[]|]; try done. apply orb_true_iff. right. apply hex_pattern_spec. eauto.
Qed.

Lemma validate_field_values_coherent items : coherent (validate_field_values items).
Proof.
  unfold validate_field_values. cbv zeta. apply check_all_coherent. do 3 apply check_low_coherent.
  set (r0 := check_all _ _ STRING_FIELDS _).
  assert (coherent r0) as H0 by by apply check_all_coherent. clearbody r0.
  destruct (field "recipient_ids" items) as [[| | | | |[|v l]|]|]; try done; [apply add_error_coherent|].
  apply foldl_coherent; [|done]. intros r [i rid] Hr. unfold check_recipient.
  destruct rid; cbn [fst snd]; try apply add_error_coherent. by apply check_coherent.
Qed.

Lemma validate_event_coherent event : coherent (validate_event event).
Proof.
  unfold validate_event. destruct event as [| | | | | |items]; try apply add_error_coherent.
  destruct (field "type" items) as [[| | | |ty| |]|]; try apply add_error_coherent.
  destruct (table_get ty REQUIRED_FIELDS); [|apply add_error_coherent].
  apply merge_coherent; [|apply validate_field_values_coherent]. by repeat apply check_all_coherent.
Qed.

Lemma validate_event_valid items :
  (validate_event (JObj items)).(is_valid) = true ↔ event_ok items.
Proof.
  unfold validate_event. destruct (field "type" items) as [v|] eqn:Hty.
  2: { split; [done|]. intros [(ty & req & Hf & _) _ _ _ _ _ _ _]. congruence. }
  destruct v as [| | | |ty| |]; try (split; [done|]; intros [(ty & req & Hf & _) _ _ _ _ _ _ _]; congruence).
  destruct (table_get ty REQUIRED_FIELDS) as [req|] eqn:Hreq.
  2: { split; [done|]. intros [(ty' & req & Hf & Hr & _) _ _ _ _ _ _ _]. congruence. }
  cbv zeta. rewrite merge_valid, andb_true_iff, validate_field_values_valid, !check_all_valid. split.
  - intros [(Htypes & Halt & Hr & _) (Hs & Hrec & Hth & Htt & Hti & Hh)]. split; try done.
    + exists ty, req. do 2 (split; [done|]). split; [by intros k Hk; apply has_field_spec, Hr|].
      intros group Hg. apply Halt, existsb_exists in Hg as (k & Hk%list_elem_of_In & Hf).
      exists k. split; [done|]. by apply has_field_spec.
    + intros k v t Hkv Ht. specialize (Htypes _ Hkv). cbn [fst snd] in Htypes. by rewrite Ht in Htypes.
  - intros [(ty' & req' & Hf & Hr & Hreqd & Halt) Htypes Hs Hrec Hth Htt Hti Hh].
    rewrite Hty in Hf. injection Hf as <-. rewrite Hreq in Hr. injection Hr as <-.
    split; [|done]. split; [|split; [|split; [|done]]].
    + intros [k v] Hkv. cbn [fst snd]. destruct (table_get k FIELD_TYPES) eqn:Ht; [by eapply Htypes|done].
    + intros group Hg. apply existsb_exists. destruct (Halt group Hg) as (k & Hk & Hf).
      exists k. split; [by apply list_elem_of_In|]. by apply has_field_spec.
    + intros k Hk. apply has_field_spec. auto.
Qed.

(** C24: [validate_event] decides what a well-formed event is: it reports no
    error exactly on an object of a known type with every required field and
    an alternative of each group, every known field of its type, no blank
    text, a non-empty list of non-blank recipients, numbers in range and hash
    fields of 64 hexadecimal digits (or 64 digits and a newline). *)
Theorem validate_event_correct (event : json) :
  ((validate_event event).(is_valid) = true ↔ (validate_event event).(errors) = []) ∧
  ((validate_event event).(is_valid) = true ↔ ∃ items, event = JObj items ∧ event_ok items).
Proof.
  split.
  - pose proof (validate_event_coherent event) as Hc. unfold coherent in Hc. rewrite Hc.
    apply bool_decide_eq_true.
  - destruct event as [| | | | | |items]; try (split; [done|]; by intros (? & [=] & _)).
    rewrite validate_event_valid. naive_solver.
Qed.

(** ** Scenarios *)

Lemma foldl_valid_mono {A} (f : ValidationResult → A → ValidationResult) l r :
  (∀ r x, (f r x).(is_valid) = true → r.(is_valid) = true) →
  (foldl f r l).(is_valid) = true → r.(is_valid) = true.
Proof. intros Hf. revert r. induction l as [|x l IH]; intros r; simpl; eauto. Qed.

Lemma foldl_valid_all {A} (f : ValidationResult → A → ValidationResult) (Q : A → Prop) l r :
  (∀ r x, (f r x).(is_valid) = true → r.(is_valid) = true ∧ Q x) →
  (foldl f r l).(is_valid) = true → ∀ x, x ∈ l → Q x.
Proof.
  intros Hf. revert r. induction l as [|x l IH]; intros r Hv y; [by intros ?%elem_of_nil|].
  intros [->|Hy]%elem_of_cons; [|by eapply IH].
  simpl in Hv. apply foldl_valid_mono in Hv; [by apply Hf in Hv as [_ ?]|]. intros ? ? ?%Hf. tauto.
Qed.

Lemma add_event_errors_valid r ie :
  (add_event_errors r ie).(is_valid) = true → r.(is_valid) = true ∧ (validate_event ie.2).(is_valid) = true.
Proof.
  unfold add_event_errors. destruct (is_valid (validate_event ie.2)) eqn:Hv; [done|].
  pose proof (validate_event_coherent ie.2) as Hc. unfold coherent in Hc. rewrite Hv in Hc.
  symmetry in Hc. apply bool_decide_eq_false in Hc.
  destruct (errors (validate_event ie.2)) as [|e es]; [done|]. simpl. intros H.
  apply foldl_valid_mono in H; [done|]. by intros ? ? ?.
Qed.

(** A peer entry: an object with a non-blank textual id. *)
Definition peer_ok (v : json) : Prop :=
  ∃ items s, v = JObj items ∧ field "id" items = Some (JStr s) ∧ strip s ≠ [].

Lemma check_peer_valid r ip : (check_peer r ip).(is_valid) = true → r.(is_valid) = true ∧ peer_ok ip.2.
Proof.
  destruct ip as [i v]. unfold check_peer, peer_ok. destruct v as [| | | | | |items]; try done.
  destruct (field "id" items) as [[| | | |s| |]|] eqn:Hid; try done.
  rewrite check_valid, andb_true_iff, not_blank_spec. cbn [fst snd]. intros [? ?]. split; [done|].
  by exists items, s.
Qed.

Lemma check_settings_valid items r : (check_settings items r).(is_valid) = true → r.(is_valid) = true.
Proof.
  assert (∀ ok e r, (check ok e r).(is_valid) = true → r.(is_valid) = true) as Hc.
  { intros ok e r'. rewrite check_valid, andb_true_iff. tauto. }
  unfold check_settings. cbv zeta. intros H.
  assert (∀ (o : option json) e (f : Z → bool) g r,
    (match o with None => r | Some v => match as_int v with
      | None => add_error e r | Some n => check (f n) (g n) r end end).(is_valid) = true →
    r.(is_valid) = true) as Hint.
  { intros [v|] e f g r'; [|done]. destruct (as_int v); [apply Hc|done]. }
  eapply Hint, (Hint (field "secret_sharing_threshold" items)).
  destruct (field "timelock_cleanup_interval" items) as [v|]; [|exact H].
  destruct v; cbn [as_int] in H; try done; by apply Hc in H.
Qed.

Lemma check_settings_entry_valid items r :
  (check_settings_entry items r).(is_valid) = true →
  r.(is_valid) = true ∧ ∀ v, field "settings" items = Some v → ∃ settings, v = JObj settings.
Proof.
  unfold check_settings_entry. destruct (field "settings" items) as [v|]; [|done].
  destruct v; try done. intros ?%check_settings_valid. split; [done|]. intros v [= <-]. by eexists.
Qed.

Lemma foldl_imap_valid (f : ValidationResult → nat * json → ValidationResult) (Q : json → Prop) l r :
  (∀ r x, (f r x).(is_valid) = true → r.(is_valid) = true ∧ Q x.2) →
  (foldl f r (imap pair l)).(is_valid) = true → r.(is_valid) = true ∧ ∀ v, v ∈ l → Q v.
Proof.
  intros Hf Hv. split.
  - eapply foldl_valid_mono; [|exact Hv]. intros ? ? ?%Hf. tauto.
  - intros v [i Hi]%list_elem_of_lookup. apply (foldl_valid_all f (λ x, Q x.2) _ _ Hf Hv (i, v)).
    apply list_elem_of_lookup. exists i. by rewrite list_lookup_imap, Hi.
Qed.

Lemma check_peers_valid items r :
  (check_peers items r).(is_valid) = true →
  r.(is_valid) = true ∧
  ∀ v, field "peers" items = Some v → ∃ peers, v = JArr peers ∧ ∀ p, p ∈ peers → peer_ok p.
Proof.
  unfold check_peers. destruct (field "peers" items) as [v|]; [|done].
  destruct v as [| | | | |peers|]; try done.
  intros [? ?]%(foldl_imap_valid _ _ _ _ check_peer_valid). split; [done|]. intros v [= <-]. by exists peers.
Qed.

Lemma check_events_valid items r :
  (check_events items r).(is_valid) = true →
  ∃ events, field "events" items = Some (JArr events) ∧
    ∀ ev, ev ∈ events → ∃ its, ev = JObj its ∧ event_ok its.
Proof.
  unfold check_events. destruct (field "events" items) as [v|]; [|done].
  destruct v as [| | | | |events|]; try done.
  intros [_ Hall]%(foldl_imap_valid _ (λ v, (validate_event v).(is_valid) = true) _ _ add_event_errors_valid).
  exists events. split; [done|]. intros ev Hev%Hall.
  destruct ev as [| | | | | |its]; try done. exists its. split; [done|]. by apply validate_event_valid.
Qed.

(** The values [in] raises on. *)
Definition not_container (v : json) : Prop :=
  match v with JNull | JBool _ | JInt _ | JFloat _ => True | _ => False end.

(** A valid scenario, the last test apart. *)
Lemma scenario_valid items :
  (check_settings_entry items (check_peers items (check_events items valid_result))).(is_valid) = true →
  (∀ settings, field "settings" items = Some (JObj settings) → is_Some (field "peers" items) →
    field "total_peers" settings = None) →
  ∃ events, field "events" items = Some (JArr events) ∧
    (∀ ev, ev ∈ events → ∃ its, ev = JObj its ∧ event_ok its) ∧
    (∀ v, field "peers" items = Some v → ∃ peers, v = JArr peers ∧ ∀ p, p ∈ peers → peer_ok p) ∧
    (∀ v, field "settings" items = Some v → ∃ settings, v = JObj settings ∧
      (is_Some (field "peers" items) → field "total_peers" settings = None)).
Proof.
  intros [[(events & He & Hev)%check_events_valid Hp]%check_peers_valid Hs]%check_settings_entry_valid Hboth.
  exists events. do 3 (split; [done|]). intros v Hv. destruct (Hs v Hv) as [settings ->]. eauto.
Qed.

Lemma py_in_raises key v e : py_in key v = Raise e ↔ e = TypeError ∧ not_container v.
Proof. destruct v; cbn; naive_solver. Qed.

(** [validate_scenario] raises exactly when the scenario has [peers] and
    its [settings] is [null], a boolean or a number (the final membership test
    is made although the settings were already found not to be a dictionary);
    otherwise it reports, and a scenario it calls valid has a list of events
    that are all well-formed, and peers, when listed, that all have an id and
    are not combined with [total_peers]. *)
Theorem validate_scenario_outcome (scenario : json) :
  (∀ e, validate_scenario scenario = Raise e ↔
    e = TypeError ∧ ∃ items settings, scenario = JObj items ∧ is_Some (field "peers" items) ∧
      field "settings" items = Some settings ∧ not_container settings) ∧
  (∀ r, validate_scenario scenario = Ok r → r.(is_valid) = true →
    ∃ items, scenario = JObj items ∧ ∃ events, field "events" items = Some (JArr events) ∧
      (∀ ev, ev ∈ events → ∃ its, ev = JObj its ∧ event_ok its) ∧
      (∀ v, field "peers" items = Some v → ∃ peers, v = JArr peers ∧ ∀ p, p ∈ peers → peer_ok p) ∧
      (∀ v, field "settings" items = Some v → ∃ settings, v = JObj settings ∧
        (is_Some (field "peers" items) → field "total_peers" settings = None))).
Proof.
  unfold validate_scenario. destruct scenario as [| | | | | |items];
    try (split; [split; [done|]; by intros (_ & ? & ? & [=] & _)|by intros r [= <-]]).
  cbv zeta. pose proof (scenario_valid items) as Hvalid.
  set (r3 := check_settings_entry items _) in *. clearbody r3.
  destruct (field "peers" items) as [ps|] eqn:Hps.
  2: { split; [split; [done|]; intros (_ & its & st & [= <-] & [? H] & _); congruence|].
       intros r [= <-] Hv. exists items. split; [done|]. rewrite Hps. apply (Hvalid Hv). by intros ? _ [? ?]. }
  destruct (field "settings" items) as [st|] eqn:Hst.
  2: { split; [split; [done|]; intros (_ & its & st & [= <-] & _ & H & _); congruence|].
       intros r [= <-] Hv. exists items. split; [done|]. rewrite Hps, Hst. apply (Hvalid Hv). by intros ? [=]. }
  split.
  - intros e. assert ((both ← py_in (str "total_peers") st;
      Ok (if both : bool then add_error PeersAndTotalPeers r3 else r3)) = Raise e ↔
      py_in (str "total_peers") st = Raise e) as ->.
    { destruct (py_in _ st) as [[]|]; cbn; naive_solver. }
    rewrite py_in_raises. split.
    + intros [-> ?]. split; [done|]. exists items, st. rewrite Hps. eauto.
    + intros (-> & its & st' & [= <-] & _ & Hf & Hnc). split; [done|]. congruence.
  - intros r. destruct (py_in _ st) as [[]|] eqn:Hin; cbn [mbind result_bind]; [by intros [= <-]| |done].
    intros [= <-] Hv. exists items. split; [done|]. rewrite Hps, Hst. apply (Hvalid Hv).
    intros settings [= ->] _. cbn [py_in] in Hin. injection Hin as Hin.
    apply bool_decide_eq_false in Hin. unfold field. destruct (get_item _ _); [|done]. by exfalso; apply Hin.
Qed.
