(* ===== verification/Protocol.v ===== *)
(** * Network messages ([coc_framework/network/protocol.py])

    A message class is described by the type its [__post_init__] forces and
    its own fields with their defaults; [construct], [to_dict] and [from_dict]
    are the methods every class shares.  Dataclasses check no types, so a field
    holds any JSON value.  [SignedEnvelope] wraps a serialized message.  Times
    are in microseconds, a time stamp is the JSON number the code stores;
    rounding of floats is not modelled.  Ed25519 and SHA-256 are parameters
    over code-point text. *)

From Stdlib Require Import ZArith Lia String.
From S2P Require Import Prelude PyData Json.

Class Signer := {
  sha256_hex : bytes → pystr;
  sign_text : bytes → pystr → bytes;
  public_key : bytes → bytes;
  verify_text : bytes → pystr → bytes → bool;
}.

Class SignerLaws (S : Signer) := {
  verify_sign_text sk m : verify_text (public_key sk) m (sign_text sk m) = true;
  sign_text_bytes sk m : Forall is_byte (sign_text sk m);
  sign_text_nonempty sk m : sign_text sk m ≠ [];
  sha256_hex_printable data : Forall printable (sha256_hex data);
  sha256_hex_nonempty data : sha256_hex data ≠ [];
}.

(** ** Message types *)

Inductive MessageType :=
  | SHARE | COC_NODE | CONTENT | DELETION_TOKEN | DELETION_ACK | PEER_STATUS | PEER_DISCOVERY
  | HEARTBEAT | REQUEST_SHARE | REQUEST_CONTENT | RECONSTRUCT_REQUEST | RESPONSE | ERROR
  | KEY_EXCHANGE | KEY_EXCHANGE_ACK.

#[global] Instance MessageType_eq_dec : EqDecision MessageType.
Proof. solve_decision. Defined.

Definition type_value (t : MessageType) : pystr :=
  str match t with
  | SHARE => "share"
  | COC_NODE => "coc_node"
  | CONTENT => "content"
  | DELETION_TOKEN => "deletion_token"
  | DELETION_ACK => "deletion_ack"
  | PEER_STATUS => "peer_status"
  | PEER_DISCOVERY => "peer_discovery"
  | HEARTBEAT => "heartbeat"
  | REQUEST_SHARE => "request_share"
  | REQUEST_CONTENT => "request_content"
  | RECONSTRUCT_REQUEST => "reconstruct"
  | RESPONSE => "response"
  | ERROR => "error"
  | KEY_EXCHANGE => "key_exchange"
  | KEY_EXCHANGE_ACK => "key_exchange_ack"
  end.

Definition all_types : list MessageType :=
  [SHARE; COC_NODE; CONTENT; DELETION_TOKEN; DELETION_ACK; PEER_STATUS; PEER_DISCOVERY; HEARTBEAT;
   REQUEST_SHARE; REQUEST_CONTENT; RECONSTRUCT_REQUEST; RESPONSE; ERROR; KEY_EXCHANGE; KEY_EXCHANGE_ACK].

Definition MESSAGE_TYPE_MAP (s : pystr) : option MessageType :=
  snd <$> list_find (λ t, type_value t = s) all_types.

Definition PEER_STATUS_VALUES : list pystr := [str "online"; str "offline"; str "unknown"].

(** ** Message classes *)

(** [sender_id] has no default. *)
Record MessageClass := mkClass {
  forced_type : option MessageType;      (* [None]: the base class keeps what it is given *)
  own_fields : list (string * json);     (* name and default *)
  random_field : option string;          (* drawn when it is falsy *)
  has_status : bool;                     (* [status] is an enum member *)
}.

Definition NetworkMessage : MessageClass := mkClass None [] None false.
Definition ShareMessage : MessageClass := mkClass (Some SHARE)
  [("share_index", JInt 0); ("share_data", JStr []); ("content_hash", JStr []);
   ("threshold", JInt 0); ("total_shares", JInt 0); ("metadata", JStr [])] None false.
Definition DeletionTokenMessage : MessageClass := mkClass (Some DELETION_TOKEN)
  [("node_hash", JStr []); ("originator_id", JStr []); ("token_signature", JStr []);
   ("cascade", JBool true); ("reason", JStr [])] None false.
Definition CoCNodeMessage : MessageClass := mkClass (Some COC_NODE)
  [("node_data", JObj []); ("parent_hash", JStr []); ("content_hash", JStr []);
   ("watermark_key", JStr [])] None false.
Definition PeerStatusMessage : MessageClass := mkClass (Some PEER_STATUS)
  [("peer_id", JStr []); ("status", JStr (str "unknown")); ("address", JStr []);
   ("capabilities", JArr [])] None true.
Definition ContentMessage : MessageClass := mkClass (Some CONTENT)
  [("content_hash", JStr []); ("encrypted_content", JStr []); ("timelock_expiry", JInt 0);
   ("encryption_metadata", JObj [])] None false.
Definition RequestMessage : MessageClass := mkClass (Some REQUEST_SHARE)
  [("request_type", JStr []); ("content_hash", JStr []); ("additional_params", JObj [])] None false.
Definition ResponseMessage : MessageClass := mkClass (Some RESPONSE)
  [("request_id", JStr []); ("success", JBool true); ("data", JObj []); ("error_message", JStr [])]
  None false.
Definition HeartbeatMessage : MessageClass := mkClass (Some HEARTBEAT)
  [("sequence", JInt 0); ("load", JInt 0)] None false.
Definition KeyExchangeMessage : MessageClass := mkClass (Some KEY_EXCHANGE)
  [("public_key", JStr []); ("peer_address", JStr []); ("nonce", JStr [])] (Some "nonce"%string) false.
Definition KeyExchangeAckMessage : MessageClass := mkClass (Some KEY_EXCHANGE_ACK)
  [("public_key", JStr []); ("peer_address", JStr []); ("original_nonce", JStr []);
   ("response_nonce", JStr [])] (Some "response_nonce"%string) false.

Definition MESSAGE_CLASSES (t : MessageType) : MessageClass :=
  match t with
  | SHARE => ShareMessage
  | COC_NODE => CoCNodeMessage
  | DELETION_TOKEN => DeletionTokenMessage
  | PEER_STATUS => PeerStatusMessage
  | CONTENT => ContentMessage
  | REQUEST_SHARE | REQUEST_CONTENT | RECONSTRUCT_REQUEST => RequestMessage
  | RESPONSE | ERROR => ResponseMessage
  | HEARTBEAT => HeartbeatMessage
  | KEY_EXCHANGE => KeyExchangeMessage
  | KEY_EXCHANGE_ACK => KeyExchangeAckMessage
  | DELETION_ACK | PEER_DISCOVERY => NetworkMessage
  end.

(** A message: its class, the common fields and its own fields in order.  The
    type is an enum member, or whatever value the base class was given. *)
Record Msg := mkMsg {
  m_class : MessageClass;
  m_sender_id : json;
  m_type : MessageType + json;
  m_timestamp : json;
  m_msg_id : json;
  m_signature : json;
  m_own : list json;
}.

Section messages.
Context {S : Signer}.
(** [str] of a list or dict inside an f-string. *)
Context (repr_container : json → pystr).

Definition format_value (v : json) : pystr :=
  match v with
  | JNull => str "None"
  | JBool b => str (if b then "True" else "False")
  | JInt n => repr_int n
  | JFloat l => l
  | JStr s => s
  | JArr _ | JObj _ => repr_container v
  end.

(** What a constructor call draws and reads: the clock and a random nonce. *)
Record draw := mkDraw {
  d_now : pystr;       (* [repr(time.time())] *)
  d_nonce : pystr;     (* [secrets.token_hex(16)] *)
}.

(** The keyword arguments of the base class. *)
Definition base_fields : list string := ["sender_id"; "msg_type"; "timestamp"; "msg_id"; "signature"].

Definition kwarg (k : string) (kwargs : list (pystr * json)) : option json := get_item (str k) kwargs.

(** [msg_id] is derived from the other fields when it is falsy. *)
Definition default_msg_id (sender_id : json) (t : MessageType + json) (timestamp : json) : result json :=
  match t with
  | inl t =>
      let content := format_value sender_id ++ 58 :: format_value timestamp ++ 58 :: type_value t in
      data ← utf8_encode content;
      Ok (JStr (take 16 (sha256_hex data)))
  | inr _ => Raise AttributeError
  end.

(** [cls( **kwargs )] and [__post_init__]; [msg_type] is the enum member the
    caller resolved, if any. *)
Definition construct (d : draw) (c : MessageClass) (msg_type : option (MessageType + json))
    (kwargs : list (pystr * json)) : result Msg :=
  let names := base_fields ++ c.(own_fields).*1 in
  if forallb (λ kv, existsb (λ n, bool_decide (str n = kv.1)) names) kwargs then
    sender_id ← from_option_exn TypeError (kwarg "sender_id" kwargs);
    let t := match c.(forced_type) with Some t => inl t | None => default (inl HEARTBEAT) msg_type end in
    let timestamp := default (JFloat d.(d_now)) (kwarg "timestamp" kwargs) in
    let msg_id := default (JStr []) (kwarg "msg_id" kwargs) in
    let own := (λ '(n, dflt),
      let v := default dflt (kwarg n kwargs) in
      if bool_decide (c.(random_field) = Some n) && negb (truthy v) then JStr d.(d_nonce) else v)
      <$> c.(own_fields) in
    msg_id ← (if truthy msg_id then Ok msg_id else default_msg_id sender_id t timestamp);
    Ok (mkMsg c sender_id t timestamp msg_id (default (JStr []) (kwarg "signature" kwargs)) own)
  else Raise TypeError.

(** [.value] of the type, and of the status of a [PeerStatusMessage]. *)
Definition own_values (m : Msg) : result (list json) :=
  if m.(m_class).(has_status) then
    mapR (λ '(n, v), if decide (n = "status"%string) then
                       match v with
                       | JStr s => if decide (s ∈ PEER_STATUS_VALUES) then Ok v else Raise AttributeError
                       | _ => Raise AttributeError
                       end
                     else Ok v)
      (zip m.(m_class).(own_fields).*1 m.(m_own))
  else Ok m.(m_own).

Definition to_dict (m : Msg) : result json :=
  match m.(m_type) with
  | inr _ => Raise AttributeError
  | inl t =>
      own ← own_values m;
      Ok (JObj ([(str "sender_id", m.(m_sender_id)); (str "msg_type", JStr (type_value t));
                 (str "timestamp", m.(m_timestamp)); (str "msg_id", m.(m_msg_id));
                 (str "signature", m.(m_signature))] ++
                zip (str <$> m.(m_class).(own_fields).*1) own))
  end.

Definition to_bytes (m : Msg) : result bytes := d ← to_dict m; utf8_encode (dumps d).

(** [cls.from_dict(data)]: text is turned into enum members first. *)
Definition from_dict (d : draw) (c : MessageClass) (items : list (pystr * json)) : result Msg :=
  msg_type ← match kwarg "msg_type" items with
    | Some (JStr s) => t ← from_option_exn KeyError (MESSAGE_TYPE_MAP s); Ok (Some (inl t))
    | Some v => Ok (Some (inr v))
    | None => Ok None
    end;
  if c.(has_status) then
    match kwarg "status" items with
    | Some (JStr s) =>
        if decide (s ∈ PEER_STATUS_VALUES) then construct d c msg_type items else Raise KeyError
    | _ => construct d c msg_type items
    end
  else construct d c msg_type items.

(** [deserialize_message] of a decoded dictionary. *)
Definition deserialize_dict (d : draw) (data : json) : result Msg :=
  match data with
  | JObj items =>
      match kwarg "msg_type" items with
      | None => Raise KeyError
      | Some (JStr s) =>
          from_dict d (match MESSAGE_TYPE_MAP s with Some t => MESSAGE_CLASSES t | None => NetworkMessage end) items
      | Some (JArr _) | Some (JObj _) => Raise TypeError     (* unhashable *)
      | Some _ => from_dict d NetworkMessage items
      end
  | _ => Raise TypeError
  end.

(** ... and of bytes. *)
Definition deserialize_message (d : draw) (data : bytes) : result Msg :=
  text ← utf8_decode data; v ← loads text; deserialize_dict d v.
End messages.

(** ** Time stamps *)

Definition MESSAGE_MAX_AGE_SECONDS : Z := 300.
Definition MESSAGE_MAX_FUTURE_SECONDS : Z := 60.

(** [now] in microseconds; [age > max_age] and [age < -max_future]. *)
Definition validate_message_timestamp (now : Z) (timestamp : json) (max_age max_future : Z) : result bool :=
  match number_value timestamp with
  | None => Raise TypeError
  | Some FNaN => Ok true
  | Some FPosInf | Some FNegInf => Ok false
  | Some (FNum n d) =>
      let age := now * d - n * 1000000 in          (* in units of [1 / (d * 10 ^ 6)] seconds *)
      Ok (negb (max_age * 1000000 * d <? age) && negb (age <? - (max_future * 1000000 * d)))
  end.

(** ** Base64 *)

Definition b64_char (n : Z) : Z :=
  if n <? 26 then 65 + n else if n <? 52 then 71 + n else if n <? 62 then n - 4
  else if n =? 62 then 43 else 47.

Definition b64_val (c : Z) : option Z :=
  if (65 <=? c) && (c <=? 90) then Some (c - 65)
  else if (97 <=? c) && (c <=? 122) then Some (c - 71)
  else if (48 <=? c) && (c <=? 57) then Some (c + 4)
  else if c =? 43 then Some 62
  else if c =? 47 then Some 63
  else None.

(** [base64.b64encode]. *)
Fixpoint b64encode (data : bytes) : pystr :=
  match data with
  | [] => []
  | [a] => [b64_char (a / 4); b64_char (a mod 4 * 16); 61; 61]
  | [a; b] => [b64_char (a / 4); b64_char (a mod 4 * 16 + b / 16); b64_char (b mod 16 * 4); 61]
  | a :: b :: c :: data =>
      b64_char (a / 4) :: b64_char (a mod 4 * 16 + b / 16) ::
      b64_char (b mod 16 * 4 + c / 64) :: b64_char (c mod 64) :: b64encode data
  end.

(** [binascii.a2b_base64], not strict: characters outside the alphabet are
    skipped, a complete padding ends the input.  [quad] is the position in the
    group of four, [left] the bits not yet written. *)
Fixpoint a2b_base64 (quad : nat) (left : Z) (pads : nat) (s : pystr) : result bytes :=
  match s with
  | [] => if decide (quad = 0%nat) then Ok [] else Raise ValueError
  | c :: s =>
      if c =? 61 then
        if (2 <=? quad)%nat then
          if (4 <=? quad + S pads)%nat then Ok [] else a2b_base64 quad left (S pads) s
        else a2b_base64 quad left pads s
      else
        match b64_val c with
        | None => a2b_base64 quad left pads s
        | Some v =>
            match quad with
            | 0%nat => a2b_base64 1 v 0 s
            | 1%nat => cons (left * 4 + v / 16) <$> a2b_base64 2 (v mod 16) 0 s
            | 2%nat => cons (left * 16 + v / 4) <$> a2b_base64 3 (v mod 4) 0 s
            | _ => cons (left * 64 + v) <$> a2b_base64 0 0 0 s
            end
        end
  end.

(** [base64.b64decode] of text: not ASCII is a [ValueError]. *)
Definition b64decode (v : json) : result bytes :=
  match v with
  | JStr s => if forallb (λ c, c <? 128) s then a2b_base64 0 0 0 s else Raise ValueError
  | _ => Raise TypeError
  end.

(** ** [SignedEnvelope] *)

Record SignedEnvelope := mkEnvelope {
  se_sender_id : json;
  se_timestamp : json;
  se_payload : bytes;
  se_signature : json;
}.

Section envelopes.
Context {S : Signer} (repr_container : json → pystr).

Definition se_signing_data (e : SignedEnvelope) : pystr :=
  format_value repr_container e.(se_sender_id) ++ 124 :: format_value repr_container e.(se_timestamp) ++
  124 :: sha256_hex e.(se_payload).

Definition se_sign (signing_key : bytes) (e : SignedEnvelope) : SignedEnvelope :=
  mkEnvelope e.(se_sender_id) e.(se_timestamp) e.(se_payload)
    (JStr (bytes_hex (sign_text signing_key (se_signing_data e)))).

(** A signature that is not hexadecimal text makes it [False]. *)
Definition se_verify (key : bytes) (e : SignedEnvelope) : bool :=
  match e.(se_signature) with
  | JStr [] => false
  | JStr s => match bytes_fromhex s with
              | Ok sig => verify_text key (se_signing_data e) sig
              | Raise _ => false
              end
  | _ => false
  end.

Definition se_to_dict (e : SignedEnvelope) : json :=
  JObj [(str "sender_id", e.(se_sender_id)); (str "timestamp", e.(se_timestamp));
        (str "payload", JStr (b64encode e.(se_payload))); (str "signature", e.(se_signature))].

Definition se_to_bytes (e : SignedEnvelope) : result bytes := utf8_encode (dumps (se_to_dict e)).

Definition se_from_dict (data : json) : result SignedEnvelope :=
  match data with
  | JObj items =>
      let get k := from_option_exn KeyError (kwarg k items) in
      sender_id ← get "sender_id"; timestamp ← get "timestamp"; payload ← get "payload" ≫= b64decode;
      signature ← get "signature"; Ok (mkEnvelope sender_id timestamp payload signature)
  | _ => Raise TypeError
  end.

Definition se_from_bytes (data : bytes) : result SignedEnvelope :=
  text ← utf8_decode data; v ← loads text; se_from_dict v.

Definition unwrap (d : draw) (e : SignedEnvelope) : result Msg :=
  deserialize_message repr_container d e.(se_payload).

(** [now] is the text of the clock's float. *)
Definition wrap (now : pystr) (m : Msg) (sender_id signing_key : bytes) : result SignedEnvelope :=
  payload ← to_bytes m;
  Ok (se_sign signing_key (mkEnvelope (JStr sender_id) (JFloat now) payload (JStr []))).

Definition unwrap_and_verify (d : draw) (now : Z) (get_verify_key : json → option bytes)
    (validate_time : bool) (data : bytes) : result (Msg * json) :=
  e ← se_from_bytes data;
  match get_verify_key e.(se_sender_id) with
  | None => Raise SignatureVerificationError
  | Some key =>
      if se_verify key e then
        valid ← (if validate_time
                 then validate_message_timestamp now e.(se_timestamp) MESSAGE_MAX_AGE_SECONDS
                        MESSAGE_MAX_FUTURE_SECONDS
                 else Ok true);
        if valid : bool then m ← unwrap d e; Ok (m, e.(se_sender_id)) else Raise MessageTimestampError
      else Raise SignatureVerificationError
  end.
End envelopes.

(** ** Base64 round trip *)

Lemma b64_val_char n : 0 ≤ n < 64 → b64_val (b64_char n) = Some n.
Proof. intros Hn. unfold b64_char, b64_val. case_cmp; f_equal; lia. Qed.

Lemma b64_char_printable n : 0 ≤ n < 64 → printable (b64_char n).
Proof. intros Hn. unfold b64_char, printable. case_cmp; lia. Qed.

Lemma b64_char_not_pad n : 0 ≤ n < 64 → (b64_char n =? 61) = false.
Proof. intros Hn. apply Z.eqb_neq. unfold b64_char. case_cmp; lia. Qed.

(** One alphabet character. *)
Lemma a2b_char quad left pads n s : 0 ≤ n < 64 →
  a2b_base64 quad left pads (b64_char n :: s) =
  match quad with
  | 0%nat => a2b_base64 1 n 0 s
  | 1%nat => cons (left * 4 + n / 16) <$> a2b_base64 2 (n mod 16) 0 s
  | 2%nat => cons (left * 16 + n / 4) <$> a2b_base64 3 (n mod 4) 0 s
  | _ => cons (left * 64 + n) <$> a2b_base64 0 0 0 s
  end.
Proof. intros Hn. cbn [a2b_base64]. by rewrite b64_char_not_pad, b64_val_char. Qed.

(** Induction by groups of three bytes. *)
Lemma triples_ind {A} (P : list A → Prop) :
  P [] → (∀ a, P [a]) → (∀ a b, P [a; b]) → (∀ a b c l, P l → P (a :: b :: c :: l)) → ∀ l, P l.
Proof.
  intros H0 H1 H2 H3. enough (∀ n l, (length l ≤ n)%nat → P l) as H by (intros l; by eapply H).
  intros n. induction n as [|n IH]; intros [|a [|b [|c l]]] Hl; simpl in Hl; try done; try lia.
  apply H3, IH. lia.
Qed.

Lemma a2b_b64encode data : Forall is_byte data → a2b_base64 0 0 0 (b64encode data) = Ok data.
Proof.
  unfold is_byte. induction data as [|a|a b|a b c data IH] using triples_ind; intros Hd; [done|..];
    rewrite ?Forall_cons in Hd; destruct_and?; cbn [b64encode];
    rewrite !a2b_char by dlia; cbn [a2b_base64 Z.eqb Pos.eqb Nat.leb Nat.add].
  - cbn. do 2 f_equal. dlia.
  - cbn. do 2 f_equal; [dlia|f_equal; dlia].
  - rewrite IH by done. cbn. do 2 f_equal; [dlia|do 2 f_equal; [dlia|f_equal; dlia]].
Qed.

Lemma b64encode_printable data : Forall is_byte data → Forall printable (b64encode data).
Proof.
  unfold is_byte. induction data as [|a|a b|a b c data IH] using triples_ind; intros Hd;
    rewrite ?Forall_cons in Hd; destruct_and?; cbn [b64encode]; repeat (apply Forall_cons; split);
    try done; try (apply b64_char_printable; dlia); auto.
Qed.

Lemma b64decode_b64encode data : Forall is_byte data → b64decode (JStr (b64encode data)) = Ok data.
Proof.
  intros Hd. unfold b64decode. rewrite (proj2 (forallb_forall _ _)); [by apply a2b_b64encode|].
  intros c Hc%list_elem_of_In. pose proof (b64encode_printable data Hd) as Hp. rewrite Forall_forall in Hp.
  apply Hp in Hc. unfold printable in Hc. apply Z.ltb_lt. lia.
Qed.

(** ** Messages survive serialization *)

(** The classes with a type of their own. *)
Definition typed_classes : list MessageClass :=
  [ShareMessage; DeletionTokenMessage; CoCNodeMessage; PeerStatusMessage; ContentMessage;
   RequestMessage; ResponseMessage; HeartbeatMessage; KeyExchangeMessage; KeyExchangeAckMessage].

Lemma typed_class_type c : c ∈ typed_classes →
  ∃ t, c.(forced_type) = Some t ∧ MESSAGE_CLASSES t = c ∧ MESSAGE_TYPE_MAP (type_value t) = Some t.
Proof.
  intros Hc. repeat (apply elem_of_cons in Hc as [->|Hc]; [by eexists|]). by apply elem_of_nil in Hc.
Qed.

Lemma typed_class_names c : c ∈ typed_classes → NoDup (str <$> (base_fields ++ c.(own_fields).*1)).
Proof.
  intros Hc. repeat (apply elem_of_cons in Hc as [->|Hc]; [by apply (bool_decide_unpack _)|]).
  by apply elem_of_nil in Hc.
Qed.

Lemma typed_class_status c : c ∈ typed_classes → c.(has_status) = true → "status"%string ∈ c.(own_fields).*1.
Proof.
  intros Hc. repeat (apply elem_of_cons in Hc as [->|Hc]; [done || (intros _; by apply (bool_decide_unpack _))|]).
  by apply elem_of_nil in Hc.
Qed.

Lemma typed_class_defaults c : c ∈ typed_classes → Forall (λ nd, wf_json nd.2) c.(own_fields).
Proof.
  intros Hc. repeat (apply elem_of_cons in Hc as [->|Hc];
    [repeat constructor; cbn; try (by constructor); by repeat constructor|]).
  by apply elem_of_nil in Hc.
Qed.

Definition status_ok (v : json) : Prop := ∃ s, v = JStr s ∧ s ∈ PEER_STATUS_VALUES.

(** A message that could have been constructed. *)
Record wf_msg (c : MessageClass) (m : Msg) : Prop := {
  wm_class : m.(m_class) = c;
  wm_typed : c ∈ typed_classes;
  wm_type : ∃ t, m.(m_type) = inl t ∧ c.(forced_type) = Some t;
  wm_json : Forall wf_json (m.(m_sender_id) :: m.(m_timestamp) :: m.(m_msg_id) :: m.(m_signature) :: m.(m_own));
  wm_msg_id : truthy m.(m_msg_id) = true;
  wm_length : length m.(m_own) = length c.(own_fields);
  wm_random i n dflt v : c.(own_fields) !! i = Some (n, dflt) → m.(m_own) !! i = Some v →
    c.(random_field) = Some n → truthy v = true;
  wm_status i dflt v : c.(has_status) = true → c.(own_fields) !! i = Some ("status"%string, dflt) →
    m.(m_own) !! i = Some v → status_ok v;
}.

Section roundtrip.
Context {S : Signer} {L : SignerLaws S} (repr_container : json → pystr).

Definition items_of (t : MessageType) (m : Msg) : list (pystr * json) :=
  [(str "sender_id", m.(m_sender_id)); (str "msg_type", JStr (type_value t));
   (str "timestamp", m.(m_timestamp)); (str "msg_id", m.(m_msg_id));
   (str "signature", m.(m_signature))] ++ zip (str <$> m.(m_class).(own_fields).*1) m.(m_own).

Lemma own_values_id c m : wf_msg c m → own_values m = Ok m.(m_own).
Proof.
  intros Hm. unfold own_values. rewrite (wm_class _ _ Hm). destruct (has_status c) eqn:Hs; [|done].
  set (f := λ '(n, v), _). assert (mapR f (zip (own_fields c).*1 (m_own m)) =
    Ok (snd <$> zip (own_fields c).*1 (m_own m))) as ->.
  { apply mapR_Ok_fmap. intros [n v] [i Hi]%list_elem_of_lookup.
    apply lookup_zip_Some in Hi as [Hn Hv]. apply list_lookup_fmap_Some in Hn as ([n' dflt] & -> & Hn).
    cbn. case_decide as Heq; [|done]. cbn in Heq. subst n'.
    destruct (wm_status _ _ Hm i dflt v Hs Hn Hv) as (s & -> & Hin). by rewrite decide_True. }
  f_equal. apply snd_zip. rewrite length_fmap, (wm_length _ _ Hm). lia.
Qed.

Lemma items_keys c t m : wf_msg c m → (items_of t m).*1 = str <$> (base_fields ++ c.(own_fields).*1).
Proof.
  intros Hm. unfold items_of. rewrite (wm_class _ _ Hm), !fmap_app. f_equal. apply fst_zip.
  rewrite !length_fmap, (wm_length _ _ Hm). lia.
Qed.

Lemma items_lookup c t m n v : wf_msg c m → (str n, v) ∈ items_of t m → kwarg n (items_of t m) = Some v.
Proof.
  intros Hm Hin. apply get_item_in; [|done]. rewrite (items_keys c) by done.
  by apply typed_class_names, (wm_typed _ _ Hm).
Qed.

Lemma str_scalars s : Forall is_scalar (str s).
Proof. unfold str. apply Forall_fmap, Forall_forall. intros a _. apply str_scalar_char. Qed.

Lemma type_value_scalars t : Forall is_scalar (type_value t).
Proof. apply str_scalars. Qed.

Lemma items_wf c t m : wf_msg c m → wf_json (JObj (items_of t m)).
Proof.
  intros Hm. constructor; [rewrite (items_keys c) by done; by apply typed_class_names, (wm_typed _ _ Hm)|].
  pose proof (wm_json _ _ Hm) as Hj. rewrite !Forall_cons in Hj. destruct Hj as (H1 & H2 & H3 & H4 & H5).
  apply Forall_app. split.
  - repeat (apply Forall_cons; split; [split; [apply str_scalars|done || by constructor; apply type_value_scalars]|]).
    constructor.
  - apply Forall_forall. intros [k v] [i [Hk Hv]%lookup_zip_Some]%list_elem_of_lookup. cbn [fst snd]. split.
    + apply list_lookup_fmap_Some in Hk as (n & -> & _). apply str_scalars.
    + rewrite Forall_lookup in H5. eauto.
Qed.

(** Constructing from the dictionary of a message gives the message back. *)
Lemma construct_items d c t m :
  wf_msg c m → c.(forced_type) = Some t →
  construct repr_container d c (Some (inl t)) (items_of t m) = Ok m.
Proof.
  intros Hm Ht. destruct (wm_type _ _ Hm) as (t' & Hmt & Ht'). rewrite Ht in Ht'. injection Ht' as <-.
  pose proof (λ n v, items_lookup c t m n v Hm) as Hlook. unfold construct.
  rewrite (proj2 (forallb_forall _ _)).
  2: { intros kv Hkv%list_elem_of_In. apply (list_elem_of_fmap_2 fst) in Hkv.
       rewrite (items_keys c t m Hm) in Hkv. apply list_elem_of_fmap in Hkv as (n & Hn & Hin).
       apply existsb_exists. exists n. split; [by apply list_elem_of_In|]. by apply bool_decide_eq_true. }
  rewrite (Hlook "sender_id"%string m.(m_sender_id)) by (left; done).
  rewrite (Hlook "timestamp"%string m.(m_timestamp)) by (do 2 right; left; done).
  rewrite (Hlook "msg_id"%string m.(m_msg_id)) by (do 3 right; left; done).
  rewrite (Hlook "signature"%string m.(m_signature)) by (do 4 right; left; done).
  cbn [from_option_exn mbind result_bind from_option id]. rewrite (wm_msg_id _ _ Hm), Ht. cbn [mbind result_bind].
  match goal with |- Ok (mkMsg _ _ _ _ _ _ ?o) = _ => assert (o = m.(m_own)) as -> end.
  2: { rewrite <-Hmt, <-(wm_class _ _ Hm). by destruct m. }
  apply list_eq_same_length with (length c.(own_fields)); [by rewrite (wm_length _ _ Hm)|by rewrite length_fmap|].
  intros i x y Hi. rewrite list_lookup_fmap. destruct (own_fields c !! i) as [[n dflt]|] eqn:Hn; [|done].
  cbn [fmap option_fmap option_map]. intros [= <-] Hy. rewrite (Hlook n y).
  2: { unfold items_of. rewrite (wm_class _ _ Hm). apply elem_of_app. right. apply list_elem_of_lookup.
       exists i. apply lookup_zip_Some. split; [|done]. by rewrite !list_lookup_fmap, Hn. }
  cbn [from_option id]. destruct (bool_decide (random_field c = Some n)) eqn:Hr; [|done].
  apply bool_decide_eq_true in Hr. by rewrite (wm_random _ _ Hm i n dflt y Hn Hy Hr).
Qed.

(** Reading the dictionary of a message back. *)
Lemma from_dict_items d c t m :
  wf_msg c m → c.(forced_type) = Some t → from_dict repr_container d c (items_of t m) = Ok m.
Proof.
  intros Hm Ht. destruct (typed_class_type c (wm_typed _ _ Hm)) as (t' & Ht' & _ & Hmap).
  rewrite Ht in Ht'. injection Ht' as <-. unfold from_dict.
  rewrite (items_lookup c t m "msg_type"%string (JStr (type_value t)) Hm) by (right; left; done).
  rewrite Hmap. cbn [from_option_exn mbind result_bind].
  pose proof (construct_items d c t m Hm Ht) as Hcon. destruct (has_status c) eqn:Hs; [|done].
  assert (∃ s, kwarg "status" (items_of t m) = Some (JStr s) ∧ s ∈ PEER_STATUS_VALUES) as (s & -> & Hin);
    [|by rewrite decide_True].
  pose proof (typed_class_status c (wm_typed _ _ Hm) Hs) as Hst.
  apply list_elem_of_lookup in Hst as [i Hi]. pose proof Hi as Hi'.
  apply list_lookup_fmap_Some in Hi as ([n dflt] & Hn & Hi). cbn in Hn. subst n.
  destruct (m_own m !! i) as [v|] eqn:Hv.
  2: { apply lookup_ge_None in Hv. apply lookup_lt_Some in Hi. pose proof (wm_length _ _ Hm). lia. }
  destruct (wm_status _ _ Hm i dflt v Hs Hi Hv) as (s & -> & Hin). exists s. split; [|done].
  apply (items_lookup c t m); [done|]. unfold items_of. rewrite (wm_class _ _ Hm). apply elem_of_app. right.
  apply list_elem_of_lookup. exists i. apply lookup_zip_Some. by rewrite list_lookup_fmap, Hi'.
Qed.

(** The bytes of a message, and the JSON object they decode to. *)
Lemma wf_msg_bytes c t m : wf_msg c m → c.(forced_type) = Some t →
  ∃ data, to_bytes m = Ok data ∧ Forall is_byte data ∧
    (text ← utf8_decode data; loads text) = Ok (JObj (items_of t m)).
Proof.
  intros Hm Ht. destruct (wm_type _ _ Hm) as (t' & Hmt & Ht'). rewrite Ht in Ht'. injection Ht' as <-.
  pose proof (items_wf c t m Hm) as Hwf. pose proof (dumps_printable _ Hwf) as Hp.
  assert (to_dict m = Ok (JObj (items_of t m))) as Hd.
  { unfold to_dict. rewrite Hmt, (own_values_id c) by done. done. }
  unfold to_bytes. rewrite Hd. cbn [mbind result_bind]. exists (dumps (JObj (items_of t m))).
  assert (Forall (λ c, 0 ≤ c < 128) (dumps (JObj (items_of t m)))) as Hascii.
  { eapply Forall_impl; [exact Hp|]. unfold printable. simpl. lia. }
  split; [by apply utf8_encode_ascii|]. split.
  { eapply Forall_impl; [exact Hascii|]. unfold is_byte. simpl. lia. }
  rewrite (utf8_decode_encode _ _ (Forall_impl _ _ _ Hascii ascii_is_scalar) (utf8_encode_ascii _ Hascii)).
  by apply loads_dumps.
Qed.

Lemma wf_msg_roundtrip c m : wf_msg c m →
  ∃ data, to_bytes m = Ok data ∧ Forall is_byte data ∧
    ∀ d, deserialize_message repr_container d data = Ok m.
Proof.
  intros Hm. destruct (typed_class_type c (wm_typed _ _ Hm)) as (t & Ht & Hcls & Hmap).
  destruct (wf_msg_bytes c t m Hm Ht) as (data & Hd & Hb & Hl). exists data. split_and!; [done..|].
  intros d. unfold deserialize_message. destruct (utf8_decode data) as [text|]; [|done]. cbn [mbind result_bind] in Hl |- *.
  rewrite Hl. cbn [mbind result_bind deserialize_dict].
  rewrite (items_lookup c t m "msg_type"%string (JStr (type_value t)) Hm) by (right; left; done).
  rewrite Hmap, Hcls. by apply from_dict_items.
Qed.
End roundtrip.

(** ** Properties *)

Section properties.
Context {S : Signer} {L : SignerLaws S} (repr_container : json → pystr).

(** The clock's text is a float literal, the drawn nonce is text. *)
Definition draw_ok (d : draw) : Prop :=
  float_literal d.(d_now) ∧ d.(d_nonce) ≠ [] ∧ Forall is_scalar d.(d_nonce).

Lemma kwarg_wf n kwargs v : Forall (λ kv, wf_json kv.2) kwargs → kwarg n kwargs = Some v → wf_json v.
Proof. intros Hk Hv%get_item_Some_in. rewrite Forall_forall in Hk. by apply (Hk _ Hv). Qed.

Lemma default_kwarg_wf n kwargs dflt :
  Forall (λ kv, wf_json kv.2) kwargs → wf_json dflt → wf_json (default dflt (kwarg n kwargs)).
Proof. intros Hk Hd. destruct (kwarg n kwargs) eqn:Hn; [by eapply kwarg_wf|done]. Qed.

Lemma construct_wf d c mt kwargs m :
  c ∈ typed_classes → draw_ok d → Forall (λ kv, wf_json kv.2) kwargs →
  (∀ v, kwarg "status" kwargs = Some v → status_ok v) →
  construct repr_container d c mt kwargs = Ok m → wf_msg c m.
Proof.
  intros Hc (Hnow & Hne & Hnonce) Hk Hst. destruct (typed_class_type c Hc) as (t & Ht & _ & _).
  unfold construct. destruct (forallb _ _); [|done].
  destruct (kwarg "sender_id" kwargs) as [sender|] eqn:Hs; [|done].
  cbn [from_option_exn mbind result_bind]. rewrite Ht. set (ts := default _ _). set (own := _ <$> own_fields c).
  destruct (if truthy _ then _ else _) as [mid|] eqn:Hmid; [|done]. cbn [mbind result_bind]. intros [= <-].
  assert (wf_json mid ∧ truthy mid = true) as [Hwf Htr].
  { destruct (truthy (default (JStr []) (kwarg "msg_id" kwargs))) eqn:Htr.
    - injection Hmid as <-. split; [|done]. apply default_kwarg_wf; [done|by constructor].
    - unfold default_msg_id in Hmid. destruct (utf8_encode _) as [bs|]; [|done]. injection Hmid as <-.
      pose proof (sha256_hex_printable bs) as Hp. pose proof (sha256_hex_nonempty bs). split.
      + constructor. apply Forall_take. eapply Forall_impl; [exact Hp|]. intros x Hx. apply ascii_is_scalar.
        unfold printable in Hx. lia.
      + apply bool_decide_eq_true. by destruct (sha256_hex bs). }
  pose proof (typed_class_defaults c Hc) as Hdef. rewrite Forall_forall in Hdef.
  assert (∀ i v, own !! i = Some v → ∃ n dflt, c.(own_fields) !! i = Some (n, dflt) ∧
    (v = default dflt (kwarg n kwargs) ∧ (c.(random_field) = Some n → truthy v = true) ∨
     c.(random_field) = Some n ∧ v = JStr d.(d_nonce))) as Hown.
  { intros i v. unfold own. rewrite list_lookup_fmap. destruct (own_fields c !! i) as [[n dflt]|]; [|done].
    cbn [fmap option_fmap option_map]. intros [= <-]. exists n, dflt. split; [done|].
    destruct (decide (random_field c = Some n)) as [Hr|Hr].
    - rewrite bool_decide_eq_true_2 by done. cbn [andb].
      destruct (truthy (default dflt (kwarg n kwargs))) eqn:Hv; cbn [negb]; auto.
    - rewrite bool_decide_eq_false_2 by done. left. split; [done|]. by intros. }
  split; cbn; try done.
  - eauto.
  - repeat (apply Forall_cons; split); [by eapply kwarg_wf| |done| |].
    + apply default_kwarg_wf; [done|by constructor].
    + apply default_kwarg_wf; [done|by constructor].
    + apply Forall_lookup. intros i v Hv. destruct (Hown i v Hv) as (n & dflt & Hn & [[-> _]|[_ ->]]).
      * apply default_kwarg_wf; [done|]. apply (Hdef (n, dflt)). by eapply list_elem_of_lookup_2.
      * by constructor.
  - apply length_fmap.
  - intros i n dflt v Hn Hv Hr. destruct (Hown i v Hv) as (n' & dflt' & Hn' & [[_ Htv]|[_ ->]]).
    + simplify_eq. auto.
    + by apply bool_decide_eq_true.
  - intros i dflt v Hstat Hn Hv. destruct (Hown i v Hv) as (n' & dflt' & Hn' & [[-> _]|[Hr _]]).
    + simplify_eq. destruct (kwarg "status" kwargs) as [w|] eqn:Hw; [by apply Hst|].
      cbn. repeat (apply elem_of_cons in Hc as [->|Hc]; [try done|]); [|by apply elem_of_nil in Hc].
      destruct i as [|[|[|[|i]]]]; cbn in Hn; try done. injection Hn as <-.
      exists (str "unknown"). split; [done|]. by do 2 right; left.
    + simplify_eq. exfalso. repeat (apply elem_of_cons in Hc as [->|Hc]; [done|]). by apply elem_of_nil in Hc.
Qed.

(** C25: every message of the ten concrete classes survives its trip over the
    wire: whatever well-formed keyword arguments it was constructed with (the
    derived [msg_id], the drawn nonce and the defaults included),
    [deserialize_message(m.to_bytes())] picks the same class and gives the same
    message. *)
Theorem message_roundtrip (d : draw) (c : MessageClass) (mt : option (MessageType + json))
    (kwargs : list (pystr * json)) (m : Msg) :
  c ∈ typed_classes → draw_ok d → Forall (λ kv, wf_json kv.2) kwargs →
  (∀ v, kwarg "status" kwargs = Some v → status_ok v) →
  construct repr_container d c mt kwargs = Ok m →
  ∃ data, to_bytes m = Ok data ∧ ∀ d', deserialize_message repr_container d' data = Ok m.
Proof.
  intros Hc Hd Hk Hst Hm%construct_wf; [|done..].
  destruct (wf_msg_roundtrip repr_container c m Hm) as (data & ? & _ & ?). eauto.
Qed.

Lemma se_dict_wf e :
  wf_json e.(se_sender_id) → wf_json e.(se_timestamp) → wf_json e.(se_signature) →
  Forall is_byte e.(se_payload) → wf_json (se_to_dict e).
Proof.
  intros Hs Ht Hsig Hp. constructor; [by apply (bool_decide_unpack _)|].
  repeat (apply Forall_cons; split; [split; [apply str_scalars|]|]); try done.
  constructor. eapply Forall_impl; [by apply b64encode_printable|]. intros x Hx. apply ascii_is_scalar.
  unfold printable in Hx. lia.
Qed.

Lemma se_bytes_roundtrip e :
  wf_json e.(se_sender_id) → wf_json e.(se_timestamp) → wf_json e.(se_signature) →
  Forall is_byte e.(se_payload) → ∃ data, se_to_bytes e = Ok data ∧ se_from_bytes data = Ok e.
Proof.
  intros Hs Ht Hsig Hp. pose proof (se_dict_wf e Hs Ht Hsig Hp) as Hwf.
  assert (Forall (λ c, 0 ≤ c < 128) (dumps (se_to_dict e))) as Hascii.
  { eapply Forall_impl; [by apply dumps_printable|]. unfold printable. simpl. lia. }
  exists (dumps (se_to_dict e)). split; [by apply utf8_encode_ascii|]. unfold se_from_bytes.
  rewrite (utf8_decode_encode _ _ (Forall_impl _ _ _ Hascii ascii_is_scalar) (utf8_encode_ascii _ Hascii)).
  cbn [mbind result_bind]. rewrite (loads_dumps _ Hwf).
  pose proof (b64decode_b64encode _ Hp) as Hb64. destruct e as [a b p sg]. cbn [se_payload] in Hb64.
  cbn [mbind result_bind].
  change (se_from_dict (se_to_dict (mkEnvelope a b p sg))) with
    (payload ← b64decode (JStr (b64encode p)); Ok (mkEnvelope a b payload sg)).
  by rewrite Hb64.
Qed.

(** A wrapped message is accepted and recovered: for a message of the ten
    classes signed by a sender whose key the receiver has, and a clock reading
    within the time window, [unwrap_and_verify] of the envelope's bytes returns
    exactly the message and its sender. *)
Theorem signed_envelope_roundtrip (d : draw) (now : Z) (sent : pystr) (c : MessageClass) (m : Msg)
    (sender_id signing_key : bytes) (get_verify_key : json → option bytes) :
  wf_msg c m → float_literal sent → Forall is_scalar sender_id →
  get_verify_key (JStr sender_id) = Some (public_key signing_key) →
  validate_message_timestamp now (JFloat sent) MESSAGE_MAX_AGE_SECONDS MESSAGE_MAX_FUTURE_SECONDS = Ok true →
  ∃ e data, wrap repr_container sent m sender_id signing_key = Ok e ∧ se_to_bytes e = Ok data ∧
    unwrap_and_verify repr_container d now get_verify_key true data = Ok (m, JStr sender_id).
Proof.
  intros Hm Hsent Hid Hkey Htime. destruct (wf_msg_roundtrip repr_container c m Hm) as (payload & Hpay & Hbytes & Hdes).
  unfold wrap. rewrite Hpay. cbn [mbind result_bind].
  set (e := se_sign _ _ _).
  pose proof (sign_text_bytes signing_key (se_signing_data repr_container e)) as Hsb.
  pose proof (sign_text_nonempty signing_key (se_signing_data repr_container e)) as Hsn.
  assert (se_signature e = JStr (bytes_hex (sign_text signing_key (se_signing_data repr_container e)))) as Hsig
    by reflexivity.
  set (sig := sign_text signing_key (se_signing_data repr_container e)) in *.
  destruct (se_bytes_roundtrip e) as (data & Hdata & Hfrom); [by constructor|by constructor| |done|].
  { rewrite Hsig. constructor. apply Forall_forall. intros x Hx. apply ascii_is_scalar.
    clear -Hsb Hx. induction Hsb as [|b l Hb _ IH]; cbn [bytes_hex] in Hx; [by apply elem_of_nil in Hx|].
    unfold is_byte in Hb. assert (∀ n, 0 ≤ n < 16 → 0 ≤ hexdigit n < 128) as Hh.
    { intros n Hn. unfold hexdigit. case_cmp; lia. }
    apply elem_of_cons in Hx as [->|Hx]; [apply Hh; dlia|].
    apply elem_of_cons in Hx as [->|Hx]; [apply Hh; dlia|]. auto. }
  exists e, data. split; [done|]. split; [done|]. unfold unwrap_and_verify. rewrite Hfrom.
  cbn [mbind result_bind]. change (se_sender_id e) with (JStr sender_id). rewrite Hkey.
  assert (se_verify repr_container (public_key signing_key) e = true) as ->.
  { unfold se_verify. rewrite Hsig. pose proof (bytes_fromhex_hex sig Hsb) as Hhex.
    assert (bytes_hex sig ≠ []) by (by destruct sig). destruct (bytes_hex sig) as [|x xs]; [done|].
    rewrite Hhex. apply verify_sign_text. }
  change (se_timestamp e) with (JFloat sent). rewrite Htime. cbn [mbind result_bind].
  unfold unwrap. change (se_payload e) with payload. by rewrite Hdes.
Qed.
End properties.

(** ** Witnesses *)

Definition toy_signer : Signer := {|
  sha256_hex data := [48 + from_bytes data mod 10];
  sign_text sk m := 1 :: ((λ c, c mod 256) <$> m);
  public_key sk := sk;
  verify_text vk m sig := bool_decide (sig = 1 :: ((λ c, c mod 256) <$> m));
|}.

Lemma toy_signer_laws : SignerLaws toy_signer.
Proof.
  split; cbn [toy_signer sha256_hex sign_text public_key verify_text]; try done.
  - intros sk m. by apply bool_decide_eq_true.
  - intros sk m. constructor; [done|]. apply Forall_fmap, Forall_forall. intros c _. simpl. unfold is_byte.
    apply Z.mod_pos_bound. lia.
  - intros data. constructor; [|done]. unfold printable. pose proof (Z.mod_pos_bound (from_bytes data) 10). lia.
Qed.

Definition toy_repr (v : json) : pystr := [].
Definition toy_draw : draw := mkDraw (str "17.5") (str "ab").
Definition toy_kwargs : list (pystr * json) := [(str "sender_id", JStr (str "ann")); (str "load", JInt 7)].
Definition toy_heartbeat : Msg :=
  mkMsg HeartbeatMessage (JStr (str "ann")) (inl HEARTBEAT) (JFloat (str "17.5"))
    (JStr (str "0")) (JStr []) [JInt 0; JInt 7].

Lemma toy_float : float_literal (str "17.5").
Proof. exists 17, [53]. split; [lia|]. split; [done|]. split; [by repeat constructor|reflexivity]. Qed.

Lemma toy_draw_ok : draw_ok toy_draw.
Proof. split; [apply toy_float|]. split; [done|]. apply str_scalars. Qed.

Lemma toy_kwargs_wf : Forall (λ kv, wf_json kv.2) toy_kwargs.
Proof.
  apply Forall_cons. split; [constructor; apply str_scalars|]. apply Forall_singleton. constructor.
Qed.

Lemma message_roundtrip_witness :
  ∃ data, to_bytes toy_heartbeat = Ok data ∧
    ∀ d', deserialize_message (S := toy_signer) toy_repr d' data = Ok toy_heartbeat.
Proof.
  apply (message_roundtrip (S := toy_signer) (L := toy_signer_laws) toy_repr toy_draw HeartbeatMessage None
    toy_kwargs).
  - do 7 right. left.
  - apply toy_draw_ok.
  - apply toy_kwargs_wf.
  - intros v Hv. vm_compute in Hv. done.
  - vm_compute. reflexivity.
Defined.

Lemma toy_heartbeat_wf : wf_msg HeartbeatMessage toy_heartbeat.
Proof.
  apply (construct_wf (S := toy_signer) (L := toy_signer_laws) toy_repr toy_draw HeartbeatMessage None toy_kwargs).
  - do 7 right. left.
  - apply toy_draw_ok.
  - apply toy_kwargs_wf.
  - intros v Hv. vm_compute in Hv. done.
  - vm_compute. reflexivity.
Qed.

Lemma signed_envelope_roundtrip_witness :
  ∃ e data, wrap (S := toy_signer) toy_repr (str "17.5") toy_heartbeat (str "ann") [9] = Ok e ∧
    se_to_bytes e = Ok data ∧
    unwrap_and_verify (S := toy_signer) toy_repr toy_draw 20000000 (λ _, Some [9]) true data =
      Ok (toy_heartbeat, JStr (str "ann")).
Proof.
  apply (signed_envelope_roundtrip (S := toy_signer) (L := toy_signer_laws) toy_repr toy_draw 20000000
    (str "17.5") HeartbeatMessage toy_heartbeat (str "ann") [9] (λ _, Some [9])).
  - apply toy_heartbeat_wf.
  - apply toy_float.
  - apply str_scalars.
  - reflexivity.
  - vm_compute. reflexivity.
Defined.
