(* ===== verification/Gossip.v ===== *)
(** * Gossip dissemination ([coc_framework/network/gossip.py])

    [GossipEnvelope], [MessageCache], [GossipPeer] and [GossipNetwork].  The
    sockets are effects: what a peer hands to a dealer socket is appended to
    [sent], a message a handler is called with to [dispatched].  One handler
    run happens at one instant [now] (microseconds).  [random.sample] and
    [random.choice] are parameters.  The fields of a parsed envelope are
    whatever JSON values arrived: a field of an unexpected type raises where it
    is first used.  [deserialize_message] replaces the payload's [msg_type] by an
    enum member in place; [g_enum] records that. *)

From Stdlib Require Import ZArith Lia String.
From stdpp Require Import sorting.
From S2P Require Import Prelude PyData Json Protocol.

Definition DEFAULT_FANOUT : nat := 3.
Definition DEFAULT_TTL : Z := 10.
Definition DEFAULT_CACHE_SIZE : Z := 10000.
Definition DEFAULT_CACHE_TTL : Z := 300.
Definition HEARTBEAT_TIMEOUT : Z := 15.
Definition second : Z := 1000000.

(** ** [GossipEnvelope] *)

Record GossipEnvelope := mkGossip {
  g_msg_id : json;
  g_payload : json;
  g_enum : bool;              (* the payload's [msg_type] is an enum member *)
  g_origin_id : json;
  g_ttl : json;
  g_timestamp : json;
  g_path : json;
  g_signature : json;
}.

(** [repr(x - 1)] for a float [x] given by its literal. *)
Class PyFloat := float_pred : pystr → pystr.

(** [v - 1]. *)
Definition minus_one {F : PyFloat} (v : json) : result json :=
  match v with
  | JInt n => Ok (JInt (n - 1))
  | JBool b => Ok (JInt ((if b then 1 else 0) - 1))
  | JFloat l => Ok (JFloat (float_pred l))
  | _ => Raise TypeError
  end.

(** [v > 0], for a number. *)
Definition positive (v : json) : bool :=
  match number_value v with
  | Some (FNum n _) => 0 <? n
  | Some FPosInf => true
  | _ => false
  end.

(** [v[:8]] can be taken. *)
Definition sliceable (v : json) : result unit :=
  match v with JStr _ | JArr _ => Ok () | _ => Raise TypeError end.

(** The texts in the set of [l]. *)
Definition texts_of (l : list json) : result (list pystr) :=
  texts ← mapR text_key l; Ok (omap (λ o : option pystr, o) (texts : list (option pystr))).

Section envelope.
Context {S : Signer} {F : PyFloat} (repr_container : json → pystr).

Definition set_ttl (ttl : json) (e : GossipEnvelope) : GossipEnvelope :=
  mkGossip e.(g_msg_id) e.(g_payload) e.(g_enum) e.(g_origin_id) ttl e.(g_timestamp) e.(g_path) e.(g_signature).
Definition set_path (path : json) (e : GossipEnvelope) : GossipEnvelope :=
  mkGossip e.(g_msg_id) e.(g_payload) e.(g_enum) e.(g_origin_id) e.(g_ttl) e.(g_timestamp) path e.(g_signature).
Definition set_signature (signature : json) (e : GossipEnvelope) : GossipEnvelope :=
  mkGossip e.(g_msg_id) e.(g_payload) e.(g_enum) e.(g_origin_id) e.(g_ttl) e.(g_timestamp) e.(g_path) signature.

(** [self.ttl -= 1; return self.ttl > 0]. *)
Definition decrement_ttl (e : GossipEnvelope) : result (bool * GossipEnvelope) :=
  ttl ← minus_one e.(g_ttl); Ok (positive ttl, set_ttl ttl e).

(** Only a list has [append]. *)
Definition add_to_path (peer_id : pystr) (e : GossipEnvelope) : result GossipEnvelope :=
  match e.(g_path) with
  | JArr l => Ok (set_path (JArr (l ++ [JStr peer_id])) e)
  | _ => Raise AttributeError
  end.

(** An enum member is not JSON serializable. *)
Definition g_signing_data (e : GossipEnvelope) : result pystr :=
  if e.(g_enum) then Raise TypeError
  else
    data ← utf8_encode (dumps (sort_keys e.(g_payload)));
    Ok (format_value repr_container e.(g_origin_id) ++ 124 :: format_value repr_container e.(g_timestamp) ++ 124 ::
        format_value repr_container e.(g_msg_id) ++ 124 :: sha256_hex data).

Definition g_sign (signing_key : bytes) (e : GossipEnvelope) : result GossipEnvelope :=
  data ← g_signing_data e; Ok (set_signature (JStr (bytes_hex (sign_text signing_key data))) e).

(** [bytes.fromhex] and the check are inside the [try], the signed text is not. *)
Definition g_verify (key : bytes) (e : GossipEnvelope) : result bool :=
  if truthy e.(g_signature) then
    data ← g_signing_data e;
    Ok (match e.(g_signature) with
        | JStr s => match bytes_fromhex s with Ok sig => verify_text key data sig | Raise _ => false end
        | _ => false
        end)
  else Ok false.

Definition g_to_dict (e : GossipEnvelope) : json :=
  JObj [(str "msg_id", e.(g_msg_id)); (str "payload", e.(g_payload)); (str "origin_id", e.(g_origin_id));
        (str "ttl", e.(g_ttl)); (str "timestamp", e.(g_timestamp)); (str "path", e.(g_path));
        (str "signature", e.(g_signature))].

Definition g_to_bytes (e : GossipEnvelope) : result bytes :=
  if e.(g_enum) then Raise TypeError else utf8_encode (dumps (g_to_dict e)).

Definition g_fields : list string :=
  ["msg_id"; "payload"; "origin_id"; "ttl"; "timestamp"; "path"; "signature"].

(** [GossipEnvelope( **data )]; [now] is the clock's text, for a missing time. *)
Definition g_from_dict (now : pystr) (data : json) : result GossipEnvelope :=
  match data with
  | JObj items =>
      let required k := from_option_exn TypeError (kwarg k items) in
      if forallb (λ kv, existsb (λ n, bool_decide (str n = kv.1)) g_fields) items then
        msg_id ← required "msg_id";
        payload ← required "payload";
        origin_id ← required "origin_id";
        Ok (mkGossip msg_id payload false origin_id (default (JInt DEFAULT_TTL) (kwarg "ttl" items))
              (default (JFloat now) (kwarg "timestamp" items)) (default (JArr []) (kwarg "path" items))
              (default (JStr []) (kwarg "signature" items)))
      else Raise TypeError
  | _ => Raise TypeError
  end.

Definition g_from_bytes (now : pystr) (data : bytes) : result GossipEnvelope :=
  text ← utf8_decode data; v ← loads text; g_from_dict now v.
End envelope.

(** ** [MessageCache] *)

(** Seen ids with their times, in insertion order: a dict, whose keys are one
    when they hash and compare alike. *)
Record MessageCache := mkCache {
  entries : list (json * Z);
  max_size : Z;
  ttl_seconds : Z;
  last_cleanup : Z;
}.

Definition with_entries (f : list (json * Z) → list (json * Z)) (c : MessageCache) : MessageCache :=
  mkCache (f c.(entries)) c.(max_size) c.(ttl_seconds) c.(last_cleanup).

Definition new_cache (now : Z) : MessageCache := mkCache [] DEFAULT_CACHE_SIZE DEFAULT_CACHE_TTL now.

Fixpoint seen_at (id : json) (d : list (json * Z)) : option Z :=
  match d with
  | [] => None
  | (k, t) :: d => if decide (hash_key k = hash_key id) then Some t else seen_at id d
  end.

(** An old key stays as it was first given. *)
Fixpoint set_seen (id : json) (now : Z) (d : list (json * Z)) : list (json * Z) :=
  match d with
  | [] => [(id, now)]
  | (k, t) :: d => if decide (hash_key k = hash_key id) then (k, now) :: d else (k, t) :: set_seen id now d
  end.

Definition del_seen (id : json) (d : list (json * Z)) : list (json * Z) :=
  filter (λ kv, hash_key kv.1 ≠ hash_key id) d.

Definition by_time (a b : json * Z) : Prop := a.2 ≤ b.2.
#[global] Instance by_time_dec : RelDecision by_time.
Proof. intros a b. unfold by_time. apply _. Defined.

(** The oldest entries beyond [max_size] go. *)
Definition evict (max_size : Z) (d : list (json * Z)) : list (json * Z) :=
  if max_size <? Z.of_nat (length d) then
    let victims := take (Z.to_nat (Z.of_nat (length d) - max_size)) (merge_sort by_time d) in
    filter (λ kv, hash_key kv.1 ∉ (λ v, hash_key v.1) <$> victims) d
  else d.

Definition maybe_cleanup (now : Z) (c : MessageCache) : MessageCache :=
  if now - c.(last_cleanup) <? 60 * second then c
  else
    let cutoff := now - c.(ttl_seconds) * second in
    let fresh := filter (λ kv, ¬ kv.2 < cutoff) c.(entries) in
    mkCache (evict c.(max_size) fresh) c.(max_size) c.(ttl_seconds) now.

(** A list or a dict is unhashable. *)
Definition has_seen (now : Z) (id : json) : M MessageCache bool := λ c,
  let c := maybe_cleanup now c in
  match hash_key id with
  | Raise e => (Raise e, c)
  | Ok _ =>
      match seen_at id c.(entries) with
      | None => (Ok false, c)
      | Some t =>
          if c.(ttl_seconds) * second <? now - t then (Ok false, with_entries (del_seen id) c) else (Ok true, c)
      end
  end.

Definition mark_seen (now : Z) (id : json) : M MessageCache unit := λ c,
  match hash_key id with
  | Raise e => (Raise e, c)
  | Ok _ => (Ok (), maybe_cleanup now (with_entries (set_seen id now) c))
  end.

Definition get_recent_ids (count : nat) (c : MessageCache) : list json :=
  (take count (merge_sort (flip by_time) c.(entries))).*1.

(** ** [GossipPeer] *)

Record PeerInfo := mkInfo {
  pi_address : pystr;
  pi_last_seen : Z;
  pi_capabilities : list pystr;
}.

Record GossipPeer := mkGPeer {
  gp_id : pystr;
  gp_fanout : nat;
  gp_max_peers : nat;
  gp_signing_key : bytes;
  gp_peers : list (pystr * PeerInfo);      (* a dict, in insertion order *)
  gp_peer_keys : gmap pystr bytes;
  gp_seen : MessageCache;
  gp_handlers : list MessageType;
  gp_dealers : gset pystr;
  gp_dispatched : list Msg;
  gp_sent : list (pystr * bytes);
}.

Definition upd_peers (f : list (pystr * PeerInfo) → list (pystr * PeerInfo)) (p : GossipPeer) : GossipPeer :=
  mkGPeer p.(gp_id) p.(gp_fanout) p.(gp_max_peers) p.(gp_signing_key) (f p.(gp_peers)) p.(gp_peer_keys)
    p.(gp_seen) p.(gp_handlers) p.(gp_dealers) p.(gp_dispatched) p.(gp_sent).
Definition upd_keys (f : gmap pystr bytes → gmap pystr bytes) (p : GossipPeer) : GossipPeer :=
  mkGPeer p.(gp_id) p.(gp_fanout) p.(gp_max_peers) p.(gp_signing_key) p.(gp_peers) (f p.(gp_peer_keys))
    p.(gp_seen) p.(gp_handlers) p.(gp_dealers) p.(gp_dispatched) p.(gp_sent).
Definition upd_seen (c : MessageCache) (p : GossipPeer) : GossipPeer :=
  mkGPeer p.(gp_id) p.(gp_fanout) p.(gp_max_peers) p.(gp_signing_key) p.(gp_peers) p.(gp_peer_keys)
    c p.(gp_handlers) p.(gp_dealers) p.(gp_dispatched) p.(gp_sent).
Definition upd_dealers (f : gset pystr → gset pystr) (p : GossipPeer) : GossipPeer :=
  mkGPeer p.(gp_id) p.(gp_fanout) p.(gp_max_peers) p.(gp_signing_key) p.(gp_peers) p.(gp_peer_keys)
    p.(gp_seen) p.(gp_handlers) (f p.(gp_dealers)) p.(gp_dispatched) p.(gp_sent).
Definition log_dispatch (m : Msg) (p : GossipPeer) : GossipPeer :=
  mkGPeer p.(gp_id) p.(gp_fanout) p.(gp_max_peers) p.(gp_signing_key) p.(gp_peers) p.(gp_peer_keys)
    p.(gp_seen) p.(gp_handlers) p.(gp_dealers) (p.(gp_dispatched) ++ [m]) p.(gp_sent).
Definition log_sent (id : pystr) (data : bytes) (p : GossipPeer) : GossipPeer :=
  mkGPeer p.(gp_id) p.(gp_fanout) p.(gp_max_peers) p.(gp_signing_key) p.(gp_peers) p.(gp_peer_keys)
    p.(gp_seen) p.(gp_handlers) p.(gp_dealers) p.(gp_dispatched) (p.(gp_sent) ++ [(id, data)]).

Definition register_handler (t : MessageType) (p : GossipPeer) : GossipPeer :=
  mkGPeer p.(gp_id) p.(gp_fanout) p.(gp_max_peers) p.(gp_signing_key) p.(gp_peers) p.(gp_peer_keys)
    p.(gp_seen) (if decide (t ∈ p.(gp_handlers)) then p.(gp_handlers) else p.(gp_handlers) ++ [t])
    p.(gp_dealers) p.(gp_dispatched) p.(gp_sent).

Definition is_stale (now : Z) (i : PeerInfo) : bool := HEARTBEAT_TIMEOUT * second <? now - i.(pi_last_seen).

Definition get_peer_count (p : GossipPeer) : nat := length p.(gp_peers).
Definition get_active_peers (now : Z) (p : GossipPeer) : list pystr :=
  (filter (λ kv, is_stale now kv.2 = false) p.(gp_peers)).*1.

Definition remove_peer (id : pystr) (p : GossipPeer) : GossipPeer :=
  upd_keys (delete id) (upd_dealers (λ d, d ∖ {[id]}) (upd_peers (filter (λ kv, kv.1 ≠ id)) p)).

(** [min(..., key=last_seen)]: the first of the oldest. *)
Fixpoint oldest (best : pystr * PeerInfo) (l : list (pystr * PeerInfo)) : pystr :=
  match l with
  | [] => best.1
  | kv :: l => oldest (if kv.2.(pi_last_seen) <? best.2.(pi_last_seen) then kv else best) l
  end.

Definition evict_oldest_peer (p : GossipPeer) : GossipPeer :=
  match p.(gp_peers) with
  | [] => p
  | kv :: l => remove_peer (oldest kv l) p
  end.

Definition add_peer (now : Z) (id address : pystr) (capabilities : list pystr) (key : option bytes)
    (p : GossipPeer) : GossipPeer :=
  if decide (id = p.(gp_id)) then p
  else
    let p := if (p.(gp_max_peers) <=? length p.(gp_peers))%nat && bool_decide (get_item id p.(gp_peers) = None)
             then evict_oldest_peer p else p in
    let p := upd_peers (set_item id (mkInfo address now capabilities)) p in
    match key with Some k => upd_keys (<[id := k]>) p | None => p end.

Definition register_peer_key (id : pystr) (key : bytes) (p : GossipPeer) : GossipPeer :=
  upd_keys (<[id := key]>) p.
Definition get_peer_key (id : pystr) (p : GossipPeer) : option bytes := p.(gp_peer_keys) !! id.

(** An operation of the cache of a peer. *)
Definition on_cache {A} (m : M MessageCache A) : M GossipPeer A := λ p,
  let '(r, c) := m p.(gp_seen) in (r, upd_seen c p).

Section peer.
Context {S : Signer} {F : PyFloat} (repr_container : json → pystr).
(** [random.sample(population, k)]. *)
Context (sample : list pystr → nat → list pystr).

Definition select_gossip_targets (exclude : list pystr) (p : GossipPeer) : list pystr :=
  let available := filter (λ id, id ∉ exclude) p.(gp_peers).*1 in
  if (length available <=? p.(gp_fanout))%nat then available else sample available p.(gp_fanout).

(** [true] when there is a socket for the peer afterwards. *)
Definition get_dealer (id : pystr) : M GossipPeer bool :=
  known ← gets (λ p, bool_decide (id ∈ p.(gp_dealers)));
  if known : bool then mret true
  else
    listed ← gets (λ p, bool_decide (is_Some (get_item id p.(gp_peers))));
    if listed : bool then modify (upd_dealers (λ d, {[id]} ∪ d)) ;; mret true else mret false.

Definition send_to_peers (e : GossipEnvelope) (peer_ids : list pystr) : M GossipPeer unit :=
  data ← lift (g_to_bytes e);
  for_each peer_ids (λ id,
    dealer ← get_dealer id;
    if dealer : bool then modify (log_sent id data) else mret ()).

Definition send_direct (id : pystr) (m : Msg) : M GossipPeer bool :=
  dealer ← get_dealer id;
  if dealer : bool then data ← lift (to_bytes m); modify (log_sent id data) ;; mret true else mret false.

Definition forward_gossip (e : GossipEnvelope) (exclude : list pystr) : M GossipPeer unit :=
  targets ← gets (select_gossip_targets exclude);
  send_to_peers e targets.

Definition dispatch_message (m : Msg) : M GossipPeer unit :=
  handled ← gets (λ p, match m.(m_type) with inl t => bool_decide (t ∈ p.(gp_handlers)) | inr _ => false end);
  if handled : bool then modify (log_dispatch m) else mret ().

(** [deserialize_message(envelope.payload)]: text is parsed first. *)
Definition payload_message (d : draw) (payload : json) : result Msg :=
  match payload with
  | JStr s => v ← loads s; deserialize_dict repr_container d v
  | _ => deserialize_dict repr_container d payload
  end.

(** It leaves an enum member in the payload whenever the type is known. *)
Definition payload_mutated (payload : json) : bool :=
  match payload with
  | JObj items => match kwarg "msg_type" items with
                  | Some (JStr s) => bool_decide (is_Some (MESSAGE_TYPE_MAP s))
                  | _ => false
                  end
  | _ => false
  end.

Definition set_enum (b : bool) (e : GossipEnvelope) : GossipEnvelope :=
  mkGossip e.(g_msg_id) e.(g_payload) b e.(g_origin_id) e.(g_ttl) e.(g_timestamp) e.(g_path) e.(g_signature).

Definition path_list (e : GossipEnvelope) : list json :=
  match e.(g_path) with JArr l => l | _ => [] end.

(** The envelope goes on while its TTL lasts. *)
Definition pass_on (sender_id : pystr) (e : GossipEnvelope) : M GossipPeer unit :=
  living ← lift (decrement_ttl e);
  let '(alive, e) := living : bool * GossipEnvelope in
  if alive then
    self ← gets gp_id;
    e ← lift (add_to_path self e);
    exclude ← lift (texts_of (path_list e ++ [JStr sender_id; e.(g_origin_id)]));
    forward_gossip e exclude
  else mret ().

(** What happens to an envelope that passed every check. *)
Definition accept_envelope (d : draw) (now : Z) (sender_id : pystr) (e : GossipEnvelope) : M GossipPeer unit :=
  on_cache (mark_seen now e.(g_msg_id)) ;;
  match payload_message d e.(g_payload) with
  | Ok m => dispatch_message m
  | Raise _ => mret ()
  end ;;
  pass_on sender_id (set_enum (payload_mutated e.(g_payload)) e).

(** The warnings show the first characters of the origin and the id. *)
Definition handle_envelope (d : draw) (now : Z) (sender_id : pystr) (e : GossipEnvelope) : M GossipPeer unit :=
  modify (upd_peers (map (λ '(id, i),
    (id, if decide (id = sender_id) then mkInfo i.(pi_address) now i.(pi_capabilities) else i)))) ;;
  seen ← on_cache (has_seen now e.(g_msg_id));
  if seen : bool then mret ()
  else
    origin ← lift (text_key e.(g_origin_id));
    origin_key ← gets (λ p, origin ≫= λ id, get_peer_key id p);
    match origin_key with
    | None => lift (sliceable e.(g_origin_id)) ;; lift (sliceable e.(g_msg_id))
    | Some key =>
        ok ← lift (g_verify repr_container key e);
        if ok : bool then
          valid ← lift (validate_message_timestamp now e.(g_timestamp) MESSAGE_MAX_AGE_SECONDS
                          MESSAGE_MAX_FUTURE_SECONDS);
          if valid : bool then accept_envelope d now sender_id e else lift (sliceable e.(g_origin_id))
        else lift (sliceable e.(g_origin_id)) ;; lift (sliceable e.(g_msg_id))
    end.

Definition handle_received (d : draw) (now : Z) (sender_id : pystr) (data : bytes) : M GossipPeer unit :=
  match g_from_bytes d.(d_now) data with
  | Raise _ =>
      match deserialize_message repr_container d data with
      | Ok m => dispatch_message m
      | Raise _ => mret ()
      end
  | Ok e => handle_envelope d now sender_id e
  end.

(** One message of [_receive_loop]: at least two frames, the sender first and
    the data last; exceptions are logged. *)
Definition receive_step (d : draw) (now : Z) (frames : list bytes) (p : GossipPeer) : GossipPeer :=
  match frames, last frames with
  | sender :: _ :: _, Some data =>
      match utf8_decode sender with
      | Ok sender_id => (handle_received d now sender_id data p).2
      | Raise _ => p
      end
  | _, _ => p
  end.

(** [gossip(message)]; [now_text] is [time.time()] as an f-string prints it. *)
Definition gossip (now : Z) (now_text : pystr) (m : Msg) : M GossipPeer unit :=
  self ← gets gp_id;
  key ← gets gp_signing_key;
  id_bytes ← lift (utf8_encode (self ++ 58 :: now_text ++ 58 :: format_value repr_container m.(m_msg_id)));
  let msg_id := take 32 (sha256_hex id_bytes) in
  payload ← lift (to_dict m);
  e ← lift (add_to_path self (mkGossip (JStr msg_id) payload false (JStr self) (JInt DEFAULT_TTL) (JFloat now_text)
                                (JArr []) (JStr [])));
  e ← lift (g_sign repr_container key e);
  on_cache (mark_seen now (JStr msg_id)) ;;
  targets ← gets (select_gossip_targets []);
  send_to_peers e targets.

(** One round of [_anti_entropy_loop]; [choice] is [random.choice]. *)
Definition anti_entropy_step (choice : list pystr → pystr) : M GossipPeer unit :=
  ids ← gets (λ p, p.(gp_peers).*1);
  match ids with
  | [] => mret ()
  | _ =>
      self ← gets gp_id;
      our_ids ← gets (λ p, get_recent_ids 100 p.(gp_seen));
      dealer ← get_dealer (choice ids);
      if dealer : bool then
        data ← lift (utf8_encode (dumps (JObj [(str "type", JStr (str "pull_request"));
          (str "sender_id", JStr self); (str "message_ids", JArr our_ids)])));
        modify (log_sent (choice ids) data)
      else mret ()
  end.

(** One round of [_peer_maintenance_loop]. *)
Definition peer_maintenance_step (d : draw) (now : Z) : M GossipPeer unit :=
  stale ← gets (λ p, (filter (λ kv, is_stale now kv.2 = true) p.(gp_peers)).*1);
  for_each stale (λ id, modify (remove_peer id)) ;;
  self ← gets gp_id;
  heartbeat ← lift (construct repr_container d HeartbeatMessage None [(str "sender_id", JStr self)]);
  gossip now d.(d_now) heartbeat.
End peer.

(** ** Discovery *)

(** The request [discover_peers] sends to a bootstrap address. *)
Definition peer_list_request (self address : pystr) : json :=
  JObj [(str "type", JStr (str "peer_list")); (str "sender_id", JStr self); (str "address", JStr address)].

Definition as_text (v : json) : result pystr :=
  match v with JStr s => Ok s | _ => Raise TypeError end.

(** One entry of the answer; values of other types than the documented ones are
    refused. *)
Definition add_discovered (now : Z) (peer_data : json) : M GossipPeer unit :=
  match peer_data with
  | JObj items =>
      id ← lift (from_option_exn KeyError (kwarg "peer_id" items) ≫= as_text);
      address ← lift (from_option_exn KeyError (kwarg "address" items) ≫= as_text);
      capabilities ← lift match kwarg "capabilities" items with
                          | None => Ok [] | Some (JArr l) => mapR as_text l | Some _ => Raise TypeError end;
      modify (add_peer now id address (remove_dups capabilities) None)
  | _ => raise TypeError
  end.

(** The last frame of the answer to one request. *)
Definition read_peer_list (now : Z) (data : bytes) : M GossipPeer unit :=
  response ← lift (text ← utf8_decode data; loads text);
  match response with
  | JObj items =>
      match kwarg "type" items with
      | Some (JStr t) =>
          if decide (t = str "peer_list_response") then
            match kwarg "peers" items with
            | None => mret ()
            | Some (JArr l) => for_each l (add_discovered now)
            | Some _ => raise TypeError
            end
          else mret ()
      | _ => mret ()
      end
  | _ => raise AttributeError
  end.

(** [discover_peers]: what each bootstrap address answers, [None] for a failed
    connection or a time-out; an exception ends the turn of its address. *)
Definition discover_peers (now : Z) (answers : list (option bytes)) (p : GossipPeer) : GossipPeer :=
  foldl (λ p answer, match answer with Some data => (read_peer_list now data p).2 | None => p end) p answers.

(** ** [GossipNetwork] *)

(** [create_peer]: port numbers and sockets left aside. *)
Definition create_peer (now : Z) (id : pystr) (signing_key : bytes) (fanout : nat) : GossipPeer :=
  mkGPeer id fanout 50 signing_key [] ∅ (new_cache now) [] ∅ [] [].

(** [start_all]: every peer gets to know every other, without its key. *)
Definition start_all (now : Z) (address_of : pystr → pystr) (peers : list GossipPeer) : list GossipPeer :=
  (λ p, foldl (λ p other, if decide (other.(gp_id) = p.(gp_id)) then p
                          else add_peer now other.(gp_id) (address_of other.(gp_id)) [] None p) p peers)
  <$> peers.

(** [broadcast]: the peer [random.choice] picks gossips the message. *)
Definition broadcast {S : Signer} (repr_container : json → pystr) (sample : list pystr → nat → list pystr)
    (choice : nat → nat) (now : Z) (now_text : pystr) (m : Msg) (peers : list GossipPeer)
    : result unit * list GossipPeer :=
  match peers !! choice (length peers) with
  | Some p =>
      let '(r, p) := gossip repr_container sample now now_text m p in
      (r, <[choice (length peers) := p]> peers)
  | None => (Ok (), peers)
  end.

(** ** The operations as functions of the state *)

Section steps.
Context {S : Signer} {F : PyFloat} (repr_container : json → pystr).
Context (sample : list pystr → nat → list pystr).

(** Everything but the sockets and what they were given. *)
Definition core_of (p : GossipPeer) :=
  (gp_id p, gp_fanout p, gp_max_peers p, gp_signing_key p, gp_peers p, gp_peer_keys p, gp_seen p,
   gp_handlers p, gp_dispatched p).

Lemma dispatch_message_eq m p :
  dispatch_message m p = (Ok (),
    if match m.(m_type) with inl t => bool_decide (t ∈ p.(gp_handlers)) | inr _ => false end
    then log_dispatch m p else p).
Proof.
  unfold dispatch_message, gets, modify. unfold mbind, M_bind. cbv beta iota.
  destruct (m_type m) as [t|]; [by destruct (bool_decide _)|done].
Qed.

Lemma get_dealer_core id p : ∃ b p', get_dealer id p = (Ok b, p') ∧ core_of p' = core_of p ∧ gp_sent p' = gp_sent p.
Proof.
  unfold get_dealer, gets, modify. unfold mbind, M_bind. cbv beta iota.
  destruct (bool_decide (id ∈ gp_dealers p)); [by eexists _, p|].
  destruct (bool_decide (is_Some _)); [by eexists _, (upd_dealers _ p)|by eexists _, p].
Qed.

Lemma send_loop_core data ids p :
  ∃ l p', for_each ids (λ id, dealer ← get_dealer id;
      if dealer : bool then modify (log_sent id data) else mret ()) p = (Ok (), p') ∧
    core_of p' = core_of p ∧ l `sublist_of` ids ∧ gp_sent p' = gp_sent p ++ ((λ id, (id, data)) <$> l).
Proof.
  revert p. induction ids as [|id ids IH]; intros p; cbn [for_each].
  - exists [], p. by rewrite app_nil_r.
  - unfold mbind at 1, M_bind at 1. unfold mbind at 1, M_bind at 1.
    destruct (get_dealer_core id p) as (b & p1 & -> & Hc1 & Hs1). destruct b; cbn [modify mret M_ret].
    + destruct (IH (log_sent id data p1)) as (l & p2 & -> & Hc2 & Hl & Hs2). exists (id :: l), p2.
      split; [done|]. split; [by rewrite Hc2|]. split; [by constructor|].
      rewrite Hs2. cbn. rewrite Hs1, <-(assoc_L (++)). done.
    + destruct (IH p1) as (l & p2 & -> & Hc2 & Hl & Hs2). exists l, p2.
      split; [done|]. split; [by rewrite Hc2|]. split; [by constructor|]. by rewrite Hs2, Hs1.
Qed.

Lemma send_to_peers_core e ids p :
  ∃ r l p', send_to_peers e ids p = (r, p') ∧ core_of p' = core_of p ∧ l `sublist_of` ids ∧
    match g_to_bytes e with
    | Ok data => r = Ok () ∧ gp_sent p' = gp_sent p ++ ((λ id, (id, data)) <$> l)
    | Raise ex => r = Raise ex ∧ gp_sent p' = gp_sent p
    end.
Proof.
  unfold send_to_peers, lift. unfold mbind at 1, M_bind at 1. destruct (g_to_bytes e) as [data|ex].
  - destruct (send_loop_core data ids p) as (l & p' & -> & ? & ? & ?). by exists (Ok ()), l, p'.
  - exists (Raise ex), [], p. split; [done|]. split; [done|]. split; [apply sublist_nil_l|done].
Qed.

(** The state after marking and dispatching. *)
Definition after_dispatch (d : draw) (now : Z) (e : GossipEnvelope) (p : GossipPeer) : GossipPeer :=
  let p := upd_seen (mark_seen now e.(g_msg_id) p.(gp_seen)).2 p in
  match payload_message repr_container d e.(g_payload) with
  | Ok m => if match m.(m_type) with inl t => bool_decide (t ∈ p.(gp_handlers)) | inr _ => false end
            then log_dispatch m p else p
  | Raise _ => p
  end.

(** The envelope as it is passed on, if it is. *)
Definition forwarded (self : pystr) (e : GossipEnvelope) : result (option GossipEnvelope) :=
  living ← decrement_ttl (set_enum (payload_mutated e.(g_payload)) e);
  let '(alive, e) := living : bool * GossipEnvelope in
  if alive then Some <$> add_to_path self e else Ok None.

Lemma accept_envelope_eq d now sender_id e p k :
  hash_key e.(g_msg_id) = Ok k →
  accept_envelope repr_container sample d now sender_id e p =
  let q := after_dispatch d now e p in
  match forwarded p.(gp_id) e with
  | Raise ex => (Raise ex, q)
  | Ok None => (Ok (), q)
  | Ok (Some e') =>
      match texts_of (path_list e' ++ [JStr sender_id; e'.(g_origin_id)]) with
      | Raise ex => (Raise ex, q)
      | Ok exclude => forward_gossip sample e' exclude q
      end
  end.
Proof.
  intros Hk. unfold accept_envelope, after_dispatch, on_cache, mark_seen. unfold mbind at 1, M_bind at 1. rewrite Hk.
  cbn [snd]. set (p1 := upd_seen _ p). unfold mbind at 1, M_bind at 1. cbv zeta.
  assert (∀ q, gp_id q = gp_id p → pass_on sample sender_id (set_enum (payload_mutated (g_payload e)) e) q =
    match forwarded p.(gp_id) e with
    | Raise ex => (Raise ex, q)
    | Ok None => (Ok (), q)
    | Ok (Some e') =>
        match texts_of (path_list e' ++ [JStr sender_id; e'.(g_origin_id)]) with
        | Raise ex => (Raise ex, q)
        | Ok exclude => forward_gossip sample e' exclude q
        end
    end) as Hrest.
  { intros q Hid. unfold pass_on, forwarded, lift, gets. unfold mbind, M_bind, result_bind. cbv beta iota.
    destruct (decrement_ttl _) as [[[] e1]|]; [|done..]. cbv beta iota. rewrite Hid.
    destruct (add_to_path (gp_id p) e1) as [e2|]; [|done]. cbn [fmap result_fmap].
    by destruct (texts_of _). }
  destruct (payload_message repr_container d (g_payload e)) as [m|ex].
  - rewrite dispatch_message_eq. by destruct (match m_type m with inl _ => _ | inr _ => _ end); apply Hrest.
  - cbn [mret M_ret]. by apply Hrest.
Qed.

Definition touch (now : Z) (sender_id : pystr) (p : GossipPeer) : GossipPeer :=
  upd_peers (map (λ '(id, i),
    (id, if decide (id = sender_id) then mkInfo i.(pi_address) now i.(pi_capabilities) else i))) p.

(** The state once the cache was asked. *)
Definition asked (now : Z) (sender_id : pystr) (e : GossipEnvelope) (p : GossipPeer) : GossipPeer :=
  upd_seen (has_seen now e.(g_msg_id) p.(gp_seen)).2 (touch now sender_id p).

(** The checks an envelope must pass. *)
Record passes (now : Z) (e : GossipEnvelope) (p : GossipPeer) : Prop := {
  ps_unseen : (has_seen now e.(g_msg_id) p.(gp_seen)).1 = Ok false;
  ps_signed : ∃ origin key, e.(g_origin_id) = JStr origin ∧ p.(gp_peer_keys) !! origin = Some key ∧
              g_verify repr_container key e = Ok true;
  ps_time : validate_message_timestamp now e.(g_timestamp) MESSAGE_MAX_AGE_SECONDS MESSAGE_MAX_FUTURE_SECONDS
            = Ok true;
}.

Lemma has_seen_hashable now id c b : (has_seen now id c).1 = Ok b → ∃ k, hash_key id = Ok k.
Proof. unfold has_seen. destruct (hash_key id); [by eexists|done]. Qed.

Lemma text_key_Some v s : text_key v = Ok (Some s) → v = JStr s.
Proof.
  unfold text_key. destruct v as [| | |l|s'| |]; cbn; try done; [|by intros [= ->]].
  destruct (float_value l) as [n d| | |]; try done. by destruct (n mod d =? 0).
Qed.

Lemma handle_envelope_cases d now sender_id e p :
  (passes now e p ∧
   handle_envelope repr_container sample d now sender_id e p =
   accept_envelope repr_container sample d now sender_id e (asked now sender_id e p)) ∨
  (¬ passes now e p ∧
   ∃ r, handle_envelope repr_container sample d now sender_id e p = (r, asked now sender_id e p)).
Proof.
  enough (∀ out, handle_envelope repr_container sample d now sender_id e p = out →
    (passes now e p ∧ out = accept_envelope repr_container sample d now sender_id e (asked now sender_id e p)) ∨
    (¬ passes now e p ∧ ∃ r, out = (r, asked now sender_id e p))) as Hall by (by apply Hall).
  intros out. unfold handle_envelope, modify, gets, lift, on_cache. unfold mbind at 1, M_bind at 1. cbv beta iota zeta.
  fold (touch now sender_id p). unfold mbind at 1, M_bind at 1. change (gp_seen (touch now sender_id p)) with (gp_seen p).
  unfold asked. destruct (has_seen now (g_msg_id e) (gp_seen p)) as [res c] eqn:Hseen. cbn [snd].
  set (q := upd_seen c (touch now sender_id p)).
  destruct res as [[]|ex]; [intros <-; right; split; [intros [H _ _]; by rewrite Hseen in H|by eexists]| |
    intros <-; right; split; [intros [H _ _]; by rewrite Hseen in H|by eexists]].
  unfold mbind at 1, M_bind at 1. destruct (text_key (g_origin_id e)) as [origin|ex] eqn:Ho; cycle 1.
  { intros <-. right. split; [|by eexists]. intros [_ (o & k & Hk & _) _]. by rewrite Hk in Ho. }
  unfold mbind at 1, M_bind at 1. destruct (origin ≫= λ id, get_peer_key id q) as [key|] eqn:Hkey; cycle 1.
  { intros <-. right. split; [|unfold mbind, M_bind; destruct (sliceable (g_origin_id e)); by eexists].
    intros [_ (o & k & Hk & Hl & _) _]. rewrite Hk in Ho. cbn in Ho. injection Ho as <-.
    change (gp_peer_keys p !! o = None) in Hkey. congruence. }
  apply bind_Some in Hkey as (o & -> & Hkey). apply text_key_Some in Ho. change (gp_peer_keys p !! o = Some key) in Hkey.
  assert (∀ o' key', g_origin_id e = JStr o' → gp_peer_keys p !! o' = Some key' → key' = key) as Huniq by congruence.
  unfold mbind at 1, M_bind at 1. destruct (g_verify repr_container key e) as [[]|ex] eqn:Hv; cycle 1.
  { intros <-. right. split; [|unfold mbind, M_bind; destruct (sliceable (g_origin_id e)); by eexists].
    intros [_ (o' & k & Hk & Hl & H) _]. rewrite (Huniq _ _ Hk Hl) in H. congruence. }
  { intros <-. right. split; [|by eexists]. intros [_ (o' & k & Hk & Hl & H) _]. rewrite (Huniq _ _ Hk Hl) in H. congruence. }
  unfold mbind at 1, M_bind at 1. destruct (validate_message_timestamp _ _ _ _) as [[]|ex] eqn:Ht.
  2, 3: intros <-; right; split; [intros [_ _ H]; congruence|by eexists].
  intros <-. left. split; [|done]. split; [by rewrite Hseen|by exists o, key|done].
Qed.

Lemma after_dispatch_core d now e p :
  gp_id (after_dispatch d now e p) = gp_id p ∧
  gp_fanout (after_dispatch d now e p) = gp_fanout p ∧
  gp_peers (after_dispatch d now e p) = gp_peers p ∧
  gp_peer_keys (after_dispatch d now e p) = gp_peer_keys p ∧
  gp_sent (after_dispatch d now e p) = gp_sent p ∧
  gp_seen (after_dispatch d now e p) = (mark_seen now e.(g_msg_id) (gp_seen p)).2 ∧
  (gp_dispatched (after_dispatch d now e p) = gp_dispatched p ∨
   ∃ m, payload_message repr_container d e.(g_payload) = Ok m ∧
     gp_dispatched (after_dispatch d now e p) = gp_dispatched p ++ [m]).
Proof.
  unfold after_dispatch. cbv zeta. destruct (payload_message repr_container d (g_payload e)) as [m|ex].
  - destruct (match m_type m with inl _ => _ | inr _ => _ end); cbn; naive_solver.
  - cbn. naive_solver.
Qed.
End steps.

Section properties.
Context {S : Signer} {F : PyFloat} (repr_container : json → pystr).
Context (sample : list pystr → nat → list pystr).
(** What [random.sample] documents: [k] members, none more often than it occurs. *)
Hypothesis sample_ok : ∀ l k, (k ≤ length l)%nat → sample l k ⊆+ l ∧ length (sample l k) = k.

Lemma select_targets_spec exclude p :
  (length (select_gossip_targets sample exclude p) ≤ gp_fanout p)%nat ∧
  ∀ id, id ∈ select_gossip_targets sample exclude p → id ∈ (gp_peers p).*1 ∧ id ∉ exclude.
Proof.
  unfold select_gossip_targets. set (l := filter _ _).
  assert (∀ id, id ∈ l → id ∈ (gp_peers p).*1 ∧ id ∉ exclude) as Hl.
  { intros id. unfold l. rewrite list_elem_of_filter. tauto. }
  destruct (Nat.leb_spec (length l) (gp_fanout p)); [done|].
  destruct (sample_ok l (gp_fanout p)) as [Hsub Hlen]; [lia|]. split; [lia|].
  intros id Hid. apply Hl. by eapply elem_of_submseteq.
Qed.

Lemma touch_keys now sender_id p : (gp_peers (touch now sender_id p)).*1 = (gp_peers p).*1.
Proof.
  cbn. induction (gp_peers p) as [|[id i] l IH]; [done|]. csimpl. by rewrite IH.
Qed.

Lemma texts_of_elem l texts s : texts_of l = Ok texts → JStr s ∈ l → s ∈ texts.
Proof.
  unfold texts_of. destruct (mapR text_key l) as [ks|] eqn:Hm; [|done]. cbn [mbind result_bind]. intros [= <-] Hs.
  apply list_elem_of_omap. exists (Some s). split; [|done]. revert ks Hm Hs.
  induction l as [|v l IH]; intros ks Hm Hs; [by apply elem_of_nil in Hs|]. cbn [mapR] in Hm.
  destruct (text_key v) as [o|] eqn:Hv; [|done]. cbn [mbind result_bind] in Hm.
  destruct (mapR text_key l) as [ks'|]; [|done]. injection Hm as <-.
  apply elem_of_cons in Hs as [<-|Hs]; [injection Hv as <-; by left|]. right. by apply IH.
Qed.

(** What is passed on has one more hop on its path and one less to go. *)
Lemma forwarded_spec self e e' :
  forwarded self e = Ok (Some e') →
  e'.(g_origin_id) = e.(g_origin_id) ∧ path_list e' = path_list e ++ [JStr self] ∧
  minus_one e.(g_ttl) = Ok e'.(g_ttl) ∧ positive e'.(g_ttl) = true ∧ ∀ n, e.(g_ttl) = JInt n → 1 < n.
Proof.
  unfold forwarded, decrement_ttl. cbn [set_enum g_ttl]. destruct (minus_one (g_ttl e)) as [ttl|] eqn:Hm; [|done].
  cbn [mbind result_bind]. destruct (positive ttl) eqn:Hpos; [|done]. unfold add_to_path, path_list. cbn [set_ttl set_enum g_path].
  destruct (g_path e) as [| | | | |l|]; try done. cbn. intros [= <-]. cbn. split; [done|]. split; [done|]. split; [done|].
  split; [done|]. intros n Hn. rewrite Hn in Hm. injection Hm as <-. cbn in Hpos. apply Z.ltb_lt in Hpos. lia.
Qed.

Lemma forwarded_enum self e e' : forwarded self e = Ok (Some e') → e'.(g_enum) = payload_mutated e.(g_payload).
Proof.
  unfold forwarded, decrement_ttl. cbn [set_enum g_ttl]. destruct (minus_one (g_ttl e)) as [ttl|]; [|done].
  cbn [mbind result_bind]. destruct (positive ttl); [|done]. unfold add_to_path. cbn [set_ttl set_enum g_path].
  destruct (g_path e); try done. cbn. by intros [= <-].
Qed.

Lemma texts_of_raise l ex : texts_of l = Raise ex → ex = TypeError.
Proof.
  unfold texts_of. enough (∀ ex, mapR text_key l = Raise ex → ex = TypeError) as Hm.
  { destruct (mapR text_key l) as [ks|ex']; cbn; [done|]. intros [= <-]. by apply Hm. }
  induction l as [|v l IH]; intros ex'; [done|]. cbn [mapR]. destruct (text_key v) as [o|] eqn:Hv; cbn [mbind result_bind].
  - destruct (mapR text_key l) as [ks|e']; [done|]. intros [= <-]. by apply IH.
  - intros [= <-]. revert Hv. unfold text_key. destruct v; cbn; try done; by intros [= <-].
Qed.

(** What [accept_envelope] does to the parts of the peer. *)
Lemma accept_envelope_spec d now sender_id e p r p' k :
  hash_key e.(g_msg_id) = Ok k →
  accept_envelope repr_container sample d now sender_id e p = (r, p') →
  gp_peer_keys p' = gp_peer_keys p ∧ gp_seen p' = (mark_seen now e.(g_msg_id) (gp_seen p)).2 ∧
  (gp_dispatched p' = gp_dispatched p ∨
   ∃ m, payload_message repr_container d e.(g_payload) = Ok m ∧ gp_dispatched p' = gp_dispatched p ++ [m]) ∧
  ∃ targets data, gp_sent p' = gp_sent p ++ ((λ id, (id, data)) <$> targets) ∧
    (length targets ≤ gp_fanout p)%nat ∧
    (targets ≠ [] → ∃ e', forwarded (gp_id p) e = Ok (Some e') ∧ g_to_bytes e' = Ok data) ∧
    ∀ id, id ∈ targets → id ∈ (gp_peers p).*1 ∧
      JStr id ∉ path_list e ++ [JStr (gp_id p)] ++ [JStr sender_id; e.(g_origin_id)].
Proof.
  intros Hk. rewrite (accept_envelope_eq _ _ _ _ _ _ _ _ Hk). cbv zeta.
  destruct (after_dispatch_core repr_container d now e p) as (Hid & Hfan & Hpeers & Hkeys & Hsent & Hseen & Hdisp).
  set (q := after_dispatch _ _ _ _ _) in *. clearbody q.
  destruct (forwarded (gp_id p) e) as [[e'|]|] eqn:Hfw;
    [destruct (texts_of (path_list e' ++ [JStr sender_id; g_origin_id e'])) as [exclude|] eqn:Hex|..].
  2, 3, 4: intros [= <- <-]; do 3 (split; [done|]); exists [], []; rewrite app_nil_r; split; [done|];
    (split; [simpl; lia|]); split; [done|]; by intros ? ?%elem_of_nil.
  unfold forward_gossip, gets. unfold mbind at 1, M_bind at 1. cbv beta iota.
  set (ts := select_gossip_targets _ _ _).
  destruct (send_to_peers_core e' ts q) as (r' & l & q' & -> & Hcore & Hl & Hres).
  intros [= <- <-]. unfold core_of in Hcore. injection Hcore as H1 H2 H3 H4 H5 H6 H7 H8 H9.
  split; [congruence|]. split; [congruence|]. split; [by rewrite H9|].
  destruct (select_targets_spec exclude q) as [Hlen Hin]. fold ts in Hlen, Hin.
  destruct (g_to_bytes e') as [data|ex] eqn:Hb.
  - destruct Hres as [_ Hs]. exists l, data. rewrite Hs, Hsent. split; [done|].
    split; [apply sublist_length in Hl; rewrite <-Hfan; lia|]. split; [by eauto|].
    intros id Hidl. rewrite <-Hpeers. destruct (Hin id) as [Hknown Hnew].
    { eapply elem_of_submseteq; [exact Hidl|]. by apply sublist_submseteq. }
    split; [done|]. intros Hpath. apply Hnew. eapply texts_of_elem; [exact Hex|].
    destruct (forwarded_spec _ _ _ Hfw) as (-> & -> & _). by rewrite <-(assoc_L (++)).
  - destruct Hres as [_ Hs]. exists [], []. rewrite app_nil_r, Hs. split; [done|]. split; [simpl; lia|].
    split; [done|]. by intros ? ?%elem_of_nil.
Qed.

(** C30: gossip acts only on authentic, fresh envelopes: whatever bytes arrive
    as an envelope, a message is dispatched or anything is sent on only when
    the id was unseen, the origin's key is registered and verifies the
    signature over origin, time, id and payload, and the time stamp is in the
    window; then at most the payload's message is dispatched, and it is passed
    on, with a TTL that is one less and positive and the peer added to the path,
    to at most [fanout] known peers none of which is on the path, the sender or
    the origin.  Keys never change. *)
Theorem handle_received_authentic (d : draw) (now : Z) (sender_id : pystr) (data : bytes)
    (e : GossipEnvelope) (p p' : GossipPeer) (r : result unit) :
  g_from_bytes d.(d_now) data = Ok e →
  handle_received repr_container sample d now sender_id data p = (r, p') →
  gp_peer_keys p' = gp_peer_keys p ∧
  (gp_dispatched p' ≠ gp_dispatched p ∨ gp_sent p' ≠ gp_sent p → passes repr_container now e p) ∧
  (gp_dispatched p' = gp_dispatched p ∨
   ∃ m, payload_message repr_container d e.(g_payload) = Ok m ∧ gp_dispatched p' = gp_dispatched p ++ [m]) ∧
  ∃ targets data', gp_sent p' = gp_sent p ++ ((λ id, (id, data')) <$> targets) ∧
    (length targets ≤ gp_fanout p)%nat ∧
    (targets ≠ [] → ∃ e', g_to_bytes e' = Ok data' ∧ minus_one e.(g_ttl) = Ok e'.(g_ttl) ∧ positive e'.(g_ttl) = true ∧
       (∀ n, e.(g_ttl) = JInt n → 1 < n) ∧ path_list e' = path_list e ++ [JStr (gp_id p)]) ∧
    ∀ id, id ∈ targets → id ∈ (gp_peers p).*1 ∧ id ≠ gp_id p ∧ id ≠ sender_id ∧ JStr id ≠ e.(g_origin_id) ∧
      JStr id ∉ path_list e.
Proof.
  intros He. unfold handle_received. rewrite He.
  destruct (handle_envelope_cases repr_container sample d now sender_id e p) as [[Hp ->]|[Hp [r' ->]]].
  - destruct (has_seen_hashable _ _ _ _ (ps_unseen _ _ _ _ Hp)) as [k Hk].
    intros (Hkeys & _ & Hdisp & ts & data' & Hs & Hlen & Hne & Hin)%(accept_envelope_spec _ _ _ _ _ _ _ _ Hk).
    split; [done|]. split; [done|]. split; [done|]. exists ts, data'. do 2 (split; [done|]). split.
    { intros (e' & Hfw & Hb)%Hne. destruct (forwarded_spec _ _ _ Hfw) as (_ & ? & ? & ? & ?). by exists e'. }
    intros id Hid. destruct (Hin id Hid) as [H1 H2]. change (gp_peers (asked now sender_id e p)) with
      (gp_peers (touch now sender_id p)) in H1. rewrite touch_keys in H1.
    rewrite !elem_of_app, !elem_of_cons, elem_of_nil in H2. split; [done|]. naive_solver.
  - intros [= <- <-]. split; [done|]. split; [intros [?|?]; done|]. split; [by left|].
    exists [], []. rewrite app_nil_r. split; [done|]. split; [simpl; lia|]. split; [done|].
    by intros ? ?%elem_of_nil.
Qed.
End properties.

(** ** The cache over time *)

Lemma seen_at_filter (P : json * Z → Prop) `{∀ x, Decision (P x)} id t d :
  seen_at id d = Some t → (∀ k, hash_key k = hash_key id → P (k, t)) → seen_at id (filter P d) = Some t.
Proof.
  intros Hg HP. induction d as [|[k v] d IH]; [done|]. cbn [seen_at] in Hg. rewrite filter_cons. case_decide as Heq.
  - injection Hg as ->. rewrite decide_True by auto. cbn [seen_at]. by rewrite decide_True.
  - destruct (decide (P (k, v))); cbn [seen_at]; [rewrite decide_False by done|]; auto.
Qed.

Lemma seen_at_set_seen id id' t d :
  seen_at id (set_seen id' t d) = if decide (hash_key id' = hash_key id) then Some t else seen_at id d.
Proof.
  induction d as [|[k v] d IH]; cbn [set_seen seen_at]; [done|].
  destruct (decide (hash_key k = hash_key id')) as [E'|E'], (decide (hash_key k = hash_key id)) as [E|E];
    cbn [seen_at]; repeat case_decide; congruence.
Qed.

Lemma length_set_seen id t d : (length (set_seen id t d) ≤ 1 + length d)%nat.
Proof. induction d as [|[k' v'] d IH]; cbn [set_seen length]; [lia|]. case_decide; cbn [length]; lia. Qed.

Lemma length_filter_le {A} (P : A → Prop) `{∀ x, Decision (P x)} (l : list A) : (length (filter P l) ≤ length l)%nat.
Proof. induction l as [|x l IH]; [done|]. rewrite filter_cons. case_decide; simpl; lia. Qed.

(** Ids with one key are one id. *)
Lemma seen_at_same id id' d : hash_key id = hash_key id' → seen_at id d = seen_at id' d.
Proof. intros Heq. induction d as [|[k v] d IH]; cbn [seen_at]; [done|]. by rewrite Heq, IH. Qed.

Lemma has_seen_same now id id' c : hash_key id = hash_key id' → (has_seen now id c).1 = (has_seen now id' c).1.
Proof. intros Heq. unfold has_seen. rewrite Heq, (seen_at_same id id' _ Heq). by repeat case_match. Qed.

(** The cache remembers [id], seen at [t1], or its time to live is over. *)
Definition keeps (id : json) (t1 now : Z) (c : MessageCache) : Prop :=
  (∃ t, seen_at id c.(entries) = Some t ∧ t1 ≤ t) ∨ t1 + DEFAULT_CACHE_TTL * second < now.

(** There is room for [k] more ids. *)
Record room (k : nat) (c : MessageCache) : Prop := {
  rm_ttl : c.(ttl_seconds) = DEFAULT_CACHE_TTL;
  rm_size : Z.of_nat (length c.(entries) + k) ≤ c.(max_size);
}.

Lemma maybe_cleanup_keeps id t1 now c k :
  room k c → keeps id t1 now c → keeps id t1 now (maybe_cleanup now c) ∧ room k (maybe_cleanup now c).
Proof.
  intros [Httl Hsz] Hk. unfold maybe_cleanup. destruct (now - last_cleanup c <? 60 * second); [done|].
  set (fresh := filter _ _). assert (length fresh ≤ length (entries c))%nat as Hlen by apply length_filter_le.
  unfold evict. destruct (Z.ltb_spec (max_size c) (Z.of_nat (length fresh))); [lia|]. split; [|split; cbn; [done|lia]].
  destruct Hk as [(t & Hg & Ht)|Hk]; [|by right].
  destruct (decide (t < now - ttl_seconds c * second)) as [Hold|Hnew].
  - right. rewrite Httl in Hold. lia.
  - left. exists t. split; [|done]. cbn. apply seen_at_filter; [done|]. intros k' _. cbn. lia.
Qed.

Lemma has_seen_keeps id id' t1 now c k :
  room k c → keeps id t1 now c → keeps id t1 now (has_seen now id' c).2 ∧ room k (has_seen now id' c).2.
Proof.
  intros Hr Hk. destruct (maybe_cleanup_keeps id t1 now c k Hr Hk) as [Hk' Hr']. unfold has_seen.
  set (c' := maybe_cleanup now c) in *. clearbody c'. destruct (hash_key id'); [|done].
  destruct (seen_at id' (entries c')) as [t'|] eqn:Hg'; [|done].
  destruct (Z.ltb_spec (ttl_seconds c' * second) (now - t')); [|done]. cbn [snd]. destruct Hr' as [Httl Hsz]. split.
  - destruct Hk' as [(t & Hg & Ht)|Hk']; [|by right].
    destruct (decide (hash_key id' = hash_key id)) as [Heq|Hne].
    + right. rewrite (seen_at_same id' id _ Heq) in Hg'. rewrite Hg in Hg'. injection Hg' as <-. rewrite Httl in *. lia.
    + left. exists t. split; [|done]. cbn. apply seen_at_filter; [done|]. intros k' Hk'. cbn. congruence.
  - split; cbn; [done|]. unfold del_seen.
    pose proof (length_filter_le (λ kv : json * Z, hash_key kv.1 ≠ hash_key id') (entries c')). lia.
Qed.

Lemma mark_seen_keeps id id' t1 now c k :
  t1 ≤ now → room (1 + k) c → keeps id t1 now c →
  keeps id t1 now (mark_seen now id' c).2 ∧ room k (mark_seen now id' c).2.
Proof.
  intros Hnow [Httl Hsz] Hk. unfold mark_seen. destruct (hash_key id') eqn:Hid; [|by split; [done|split; [done|cbn [snd]; lia]]].
  apply maybe_cleanup_keeps.
  - split; cbn; [done|]. pose proof (length_set_seen id' now (entries c)). lia.
  - destruct Hk as [(t & Hg & Ht)|Hk]; [|by right]. left. cbn. rewrite seen_at_set_seen.
    case_decide; [exists now|exists t]; done.
Qed.

(** A marked id is remembered. *)
Lemma mark_seen_new id now c k key :
  hash_key id = Ok key → room (1 + k) c →
  keeps id now now (mark_seen now id c).2 ∧ room k (mark_seen now id c).2.
Proof.
  intros Hid [Httl Hsz]. unfold mark_seen. rewrite Hid. apply maybe_cleanup_keeps.
  - split; cbn; [done|]. pose proof (length_set_seen id now (entries c)). lia.
  - left. exists now. split; [|done]. cbn. rewrite seen_at_set_seen. by case_decide.
Qed.

Lemma keeps_later id t1 now now' c : now ≤ now' → keeps id t1 now c → keeps id t1 now' c.
Proof. intros Hle [?|?]; [by left|right; lia]. Qed.

(** A remembered id is seen, or it was marked longer ago than the time to live. *)
Lemma keeps_seen id t1 now c k :
  room k c → keeps id t1 now c →
  (has_seen now id c).1 ≠ Ok false ∨ t1 + DEFAULT_CACHE_TTL * second < now.
Proof.
  intros Hr Hk. destruct (maybe_cleanup_keeps id t1 now c k Hr Hk) as [[(t & Hg & Ht)|Hk'] [Httl _]]; [|by right].
  unfold has_seen. destruct (hash_key id); [|by left]. rewrite Hg. destruct (Z.ltb_spec (ttl_seconds (maybe_cleanup now c) * second) (now - t)); [|by left].
  right. rewrite Httl in *. lia.
Qed.

(** ** What calls do to the cache *)

Section history.
Context {S : Signer} {F : PyFloat} (repr_container : json → pystr).
Context (sample : list pystr → nat → list pystr).
Hypothesis sample_ok : ∀ l k, (k ≤ length l)%nat → sample l k ⊆+ l ∧ length (sample l k) = k.

Inductive gp_op :=
  | OpReceive (d : draw) (sender_id : pystr) (data : bytes)
  | OpFrames (d : draw) (frames : list bytes)
  | OpGossip (now_text : pystr) (m : Msg)
  | OpMaintenance (d : draw)
  | OpAddPeer (id address : pystr) (capabilities : list pystr) (key : option bytes)
  | OpRemovePeer (id : pystr)
  | OpRegisterKey (id : pystr) (key : bytes)
  | OpRegisterHandler (t : MessageType)
  | OpDiscover (answers : list (option bytes)).

(** The loops catch and log every exception. *)
Definition exec (now : Z) (op : gp_op) (p : GossipPeer) : GossipPeer :=
  match op with
  | OpReceive d sender_id data => (handle_received repr_container sample d now sender_id data p).2
  | OpFrames d frames => receive_step repr_container sample d now frames p
  | OpGossip text m => (gossip repr_container sample now text m p).2
  | OpMaintenance d => (peer_maintenance_step repr_container sample d now p).2
  | OpAddPeer id address capabilities key => add_peer now id address capabilities key p
  | OpRemovePeer id => remove_peer id p
  | OpRegisterKey id key => register_peer_key id key p
  | OpRegisterHandler t => register_handler t p
  | OpDiscover answers => discover_peers now answers p
  end.

Fixpoint run (ops : list (Z * gp_op)) (p : GossipPeer) : GossipPeer :=
  match ops with [] => p | (now, op) :: ops => run ops (exec now op p) end.

Fixpoint monotone (from upto : Z) (ops : list (Z * gp_op)) : Prop :=
  match ops with [] => from ≤ upto | (now, _) :: ops => from ≤ now ∧ monotone now upto ops end.

(** One call asks the cache at most once and marks at most one id. *)
Definition cache_step (now : Z) (c c' : MessageCache) : Prop :=
  c' = c ∨ (∃ id, c' = (has_seen now id c).2) ∨ (∃ id, c' = (mark_seen now id c).2) ∨
  (∃ id id', c' = (mark_seen now id (has_seen now id' c).2).2).

Lemma gossip_cache now text m p : cache_step now (gp_seen p) (gp_seen (gossip repr_container sample now text m p).2).
Proof.
  unfold gossip, gets, lift, modify. unfold mbind, M_bind. cbv beta iota zeta.
  destruct (utf8_encode _) as [bs|]; [|by left]. destruct (to_dict m) as [payload|]; [|by left].
  cbn [add_to_path g_path app]. destruct (g_sign _ _ _) as [e|]; [|by left].
  unfold on_cache at 1. cbn [mark_seen hash_key].
  match goal with |- context [send_to_peers ?e ?ts ?q] =>
    destruct (send_to_peers_core e ts q) as (r & l & q' & -> & Hcore & _) end.
  unfold core_of in Hcore. injection Hcore as _ _ _ _ _ _ Hseen _ _. cbn [snd]. rewrite Hseen.
  right. right. left. eexists (JStr _). reflexivity.
Qed.

Lemma remove_peers_seen ids p : gp_seen (for_each ids (λ id, modify (remove_peer id)) p).2 = gp_seen p.
Proof.
  revert p. induction ids as [|id ids IH]; intros p; [done|]. cbn [for_each].
  unfold mbind, M_bind. unfold modify at 1. cbv beta iota. by rewrite IH.
Qed.

Lemma handle_received_cache d now s data p :
  cache_step now (gp_seen p) (gp_seen (handle_received repr_container sample d now s data p).2).
Proof.
  unfold handle_received. destruct (g_from_bytes (d_now d) data) as [e|].
  - destruct (handle_envelope_cases repr_container sample d now s e p) as [[Hp ->]|[_ [r ->]]].
    + destruct (has_seen_hashable _ _ _ _ (ps_unseen _ _ _ _ Hp)) as [k Hk].
      destruct (accept_envelope _ _ _ _ _ _ _) as [r p'] eqn:Ha.
      apply (accept_envelope_spec _ _ sample_ok _ _ _ _ _ _ _ k Hk) in Ha as (_ & Hseen & _). cbn [snd]. rewrite Hseen.
      do 3 right. by eexists _, _.
    + right. left. by eexists.
  - left. destruct (deserialize_message _ _ _) as [m|]; [|done]. rewrite dispatch_message_eq. cbn.
    by destruct (match m_type m with inl _ => _ | inr _ => _ end).
Qed.

Lemma add_peer_seen now id a caps key p : gp_seen (add_peer now id a caps key p) = gp_seen p.
Proof.
  unfold add_peer. case_decide; [done|]. cbv zeta. destruct key; cbn; destruct (_ && _); try done;
    unfold evict_oldest_peer; by destruct (gp_peers p).
Qed.

Lemma add_discovered_seen now v p : gp_seen (add_discovered now v p).2 = gp_seen p.
Proof.
  destruct v as [| | | | | |items]; try done. unfold add_discovered, lift, modify. unfold mbind, M_bind. cbv beta iota.
  destruct (from_option_exn _ (kwarg "peer_id" items)) as [v|]; [|done]. cbn. destruct (as_text v); [|done].
  destruct (from_option_exn _ (kwarg "address" items)) as [v'|]; [|done]. cbn. destruct (as_text v'); [|done].
  destruct (match kwarg "capabilities" items with None => _ | Some _ => _ end); [|done]. apply add_peer_seen.
Qed.

Lemma read_peer_list_seen now data p : gp_seen (read_peer_list now data p).2 = gp_seen p.
Proof.
  unfold read_peer_list, lift. unfold mbind at 1, M_bind. destruct (utf8_decode data ≫= _) as [v|]; [|done].
  destruct v as [| | | | | |items]; try done. destruct (kwarg "type" items) as [[| | | |t| |]|]; try done.
  case_decide; [|done]. destruct (kwarg "peers" items) as [v|]; [|done].
  destruct v as [| | | | |l|]; try done. revert p. induction l as [|x l IH]; intros p; [done|].
  cbn [for_each]. unfold mbind, M_bind. pose proof (add_discovered_seen now x p) as Hx.
  destruct (add_discovered now x p) as [[]]; [|done]. rewrite IH. exact Hx.
Qed.

Lemma discover_peers_seen now answers p : gp_seen (discover_peers now answers p) = gp_seen p.
Proof.
  unfold discover_peers. revert p. induction answers as [|[data|] l IH]; intros p; [done|..]; cbn [foldl]; [|apply IH].
  rewrite IH. apply read_peer_list_seen.
Qed.

Lemma exec_cache now op p : cache_step now (gp_seen p) (gp_seen (exec now op p)).
Proof.
  destruct op as [d s data|d frames|text m|d|id a caps key|id|id key|t|answers]; cbn [exec].
  - apply handle_received_cache.
  - unfold receive_step. destruct frames as [|s [|f frames]]; [by left|by left|].
    destruct (last _) as [data|]; [|by left]. destruct (utf8_decode s); [apply handle_received_cache|by left].
  - apply gossip_cache.
  - unfold peer_maintenance_step, gets, lift. unfold mbind, M_bind. cbv beta iota.
    pose proof (remove_peers_seen (filter (λ kv, is_stale now kv.2 = true) (gp_peers p)).*1 p) as Hrm.
    destruct (for_each _ _ p) as [[]] eqn:Hfe; cbn [snd] in Hrm; rewrite <-Hrm; [|by left].
    destruct (construct _ _ _ _ _); [|by left]. apply gossip_cache.
  - left. apply add_peer_seen.
  - by left.
  - by left.
  - by left.
  - left. apply discover_peers_seen.
Qed.

Lemma cache_step_keeps id t1 now c c' k :
  t1 ≤ now → cache_step now c c' → room (1 + k) c → keeps id t1 now c → keeps id t1 now c' ∧ room k c'.
Proof.
  intros Hnow Hstep Hr Hk.
  assert (∀ c, room (1 + k) c → room k c) as Hweak by (intros c0 [? ?]; split; [done|lia]).
  destruct Hstep as [->|[[i ->]|[[i ->]|(i & i' & ->)]]].
  - auto.
  - destruct (has_seen_keeps id i t1 now c (1 + k) Hr Hk). auto.
  - by apply mark_seen_keeps.
  - destruct (has_seen_keeps id i' t1 now c (1 + k) Hr Hk). by apply mark_seen_keeps.
Qed.

Lemma run_keeps id t1 ops from upto p :
  t1 ≤ from → monotone from upto ops → room (length ops) (gp_seen p) → keeps id t1 from (gp_seen p) →
  keeps id t1 upto (gp_seen (run ops p)) ∧ room 0 (gp_seen (run ops p)).
Proof.
  revert from p. induction ops as [|[now op] ops IH]; intros from p Hfrom Hm Hr Hk; cbn [run monotone] in *.
  - split; [by eapply keeps_later|done].
  - destruct Hm as [Hle Hm].
    destruct (cache_step_keeps id t1 now _ _ (length ops) ltac:(lia) (exec_cache now op p) Hr) as [Hk' Hr'];
      [by eapply keeps_later|]. apply (IH now); [lia|done..].
Qed.
End history.

Lemma float_value_den l n d : float_value l = FNum n d → 0 < d.
Proof.
  unfold float_value. repeat case_decide; try done.
  destruct (match l with [] => _ | _ => _ end) as [sg l']. destruct (take_digits l') as [ip r].
  destruct (match r with [] => _ | _ => _ end) as [fp r']. destruct (Z.leb_spec 0
    (match r' with [] => 0 | _ :: r'' => exponent_value r'' end - Z.of_nat (length fp))); intros [= <- <-]; [lia|].
  apply Z.pow_pos_nonneg; lia.
Qed.

Lemma number_value_den v n d : number_value v = Some (FNum n d) → 0 < d.
Proof. destruct v; cbn; intros H; simplify_eq; try lia. by eapply float_value_den. Qed.

Section delivery.
Context {S : Signer} {F : PyFloat} (repr_container : json → pystr).
Context (sample : list pystr → nat → list pystr).
Hypothesis sample_ok : ∀ l k, (k ≤ length l)%nat → sample l k ⊆+ l ∧ length (sample l k) = k.

(** C31: a gossip message is delivered at most once.  Once a peer has accepted
    an envelope that is not dated in the future, then, whatever calls follow
    and however much time passes, the clock never going back, a later copy (from
    any sender, with the same id and time stamp and any path and TTL) is neither
    dispatched nor passed on, as long as the cache had room for the ids seen
    since. *)
Theorem gossip_delivered_once (d1 d2 : draw) (t1 t2 : Z) (s1 s2 : pystr) (data1 data2 : bytes)
    (e e' : GossipEnvelope) (n dn : Z) (p : GossipPeer) (ops : list (Z * gp_op)) :
  g_from_bytes d1.(d_now) data1 = Ok e → passes repr_container t1 e p →
  number_value e.(g_timestamp) = Some (FNum n dn) → n * second ≤ t1 * dn →
  room (1 + length ops) (gp_seen p) → monotone t1 t2 ops →
  g_from_bytes d2.(d_now) data2 = Ok e' →
  hash_key (g_msg_id e') = hash_key (g_msg_id e) → g_timestamp e' = g_timestamp e →
  let p2 := run repr_container sample ops (exec repr_container sample t1 (OpReceive d1 s1 data1) p) in
  let p3 := exec repr_container sample t2 (OpReceive d2 s2 data2) p2 in
  gp_dispatched p3 = gp_dispatched p2 ∧ gp_sent p3 = gp_sent p2.
Proof.
  intros He Hpass Hnum Hpast Hroom Hmono He' Hid Hts. cbv zeta.
  set (p1 := exec _ _ t1 _ p). set (p2 := run _ _ _ _).
  assert (keeps (g_msg_id e) t1 t1 (gp_seen p1) ∧ room (length ops) (gp_seen p1)) as [Hk1 Hr1].
  { unfold p1. cbn [exec]. unfold handle_received. rewrite He.
    destruct (handle_envelope_cases repr_container sample d1 t1 s1 e p) as [[_ ->]|[Hn _]]; [|done].
    destruct (has_seen_hashable _ _ _ _ (ps_unseen _ _ _ _ Hpass)) as [k Hk].
    destruct (accept_envelope _ _ _ _ _ _ _) as [r q] eqn:Ha.
    apply (accept_envelope_spec _ _ sample_ok _ _ _ _ _ _ _ k Hk) in Ha as (_ & Hseen & _). cbn [snd]. rewrite Hseen.
    apply (mark_seen_new _ _ _ _ k Hk). destruct Hroom as [Httl Hsz].
    destruct (has_seen_keeps (g_msg_id e) (g_msg_id e) (t1 - DEFAULT_CACHE_TTL * second - 1) t1 (gp_seen p)
      (1 + length ops)) as [_ Hr]; [done|right; lia|done]. }
  destruct (run_keeps repr_container sample sample_ok (g_msg_id e) t1 ops t1 t2 p1) as [Hk2 Hr2];
    [lia|done..|]. fold p2 in Hk2, Hr2.
  assert (¬ passes repr_container t2 e' p2) as Hnot.
  { intros [Hunseen _ Htime]. rewrite (has_seen_same _ _ _ _ Hid) in Hunseen.
    destruct (keeps_seen _ _ _ _ _ Hr2 Hk2) as [?|Hlate]; [congruence|].
    rewrite Hts in Htime. unfold validate_message_timestamp in Htime. rewrite Hnum in Htime.
    pose proof (number_value_den _ _ _ Hnum). injection Htime as Htime.
    apply andb_true_iff in Htime as [Htime%negb_true_iff _]. apply Z.ltb_ge in Htime.
    unfold DEFAULT_CACHE_TTL, MESSAGE_MAX_AGE_SECONDS, second in *. nia. }
  cbn [exec]. unfold handle_received. rewrite He'.
  destruct (handle_envelope_cases repr_container sample d2 t2 s2 e' p2) as [[? _]|[_ [r ->]]]; [done|].
  done.
Qed.

(** Gossip never travels further than the origin's own targets.  When an
    envelope carries a message of a known type, deserializing it leaves an enum
    member in its payload, so the attempt to pass it on raises [TypeError]:
    after the message was dispatched, nothing is sent and the exception
    escapes the handler. *)
Theorem gossip_forwarding_fails (d : draw) (now : Z) (sender_id : pystr) (data : bytes)
    (e : GossipEnvelope) (p : GossipPeer) :
  g_from_bytes d.(d_now) data = Ok e → payload_mutated e.(g_payload) = true →
  let '(r, p') := handle_received repr_container sample d now sender_id data p in
  gp_sent p' = gp_sent p ∧
  (passes repr_container now e p →
   ∀ ttl path, e.(g_ttl) = JInt ttl → 1 < ttl → e.(g_path) = JArr (JStr <$> path) → r = Raise TypeError).
Proof.
  intros He Hmut. unfold handle_received. rewrite He.
  destruct (handle_envelope_cases repr_container sample d now sender_id e p) as [[Hp ->]|[Hp [r ->]]];
    [|by split].
  destruct (has_seen_hashable _ _ _ _ (ps_unseen _ _ _ _ Hp)) as [k Hk].
  set (q := asked now sender_id e p). rewrite (accept_envelope_eq _ _ _ _ _ _ _ _ Hk). cbv zeta.
  destruct (after_dispatch_core repr_container d now e q) as (_ & _ & _ & _ & Hsent & _).
  set (q' := after_dispatch _ _ _ _ _) in *. clearbody q'.
  destruct (forwarded (gp_id q) e) as [[e'|]|ex] eqn:Hfw.
  - assert (g_to_bytes e' = Raise TypeError) as Hb by (unfold g_to_bytes; by rewrite (forwarded_enum _ _ _ Hfw), Hmut).
    destruct (texts_of _) as [exclude|ex] eqn:Hex; cycle 1.
    { split; [done|]. intros _ _ _ _ _ _. by rewrite (texts_of_raise _ _ Hex). }
    unfold forward_gossip, gets. unfold mbind at 1, M_bind at 1. cbv beta iota.
    destruct (send_to_peers_core e' (select_gossip_targets sample exclude q') q') as (r & l & q2 & -> & _ & _ & Hres).
    rewrite Hb in Hres. destruct Hres as [-> Hs]. by split; [rewrite Hs|].
  - split; [done|]. intros _ ttl path Ht Hlt Hpath. exfalso. revert Hfw. unfold forwarded, decrement_ttl.
    cbn [set_enum g_ttl]. rewrite Ht. cbn. destruct (Z.ltb_spec 0 (ttl - 1)); [|lia]. unfold add_to_path. cbn. by rewrite Hpath.
  - split; [done|]. intros _ ttl path Ht Hlt Hpath. exfalso. revert Hfw. unfold forwarded, decrement_ttl.
    cbn [set_enum g_ttl]. rewrite Ht. cbn. destruct (Z.ltb_spec 0 (ttl - 1)); [|lia]. unfold add_to_path. cbn. by rewrite Hpath.
Qed.

Lemma peer_list_request_wf self address :
  Forall is_scalar self → Forall is_scalar address → wf_json (peer_list_request self address).
Proof.
  intros Hs Ha. constructor; [vm_compute; repeat (constructor; [set_solver|]); constructor|].
  repeat (apply Forall_cons; split; [split; [apply str_scalars|constructor; done || apply str_scalars]|]). constructor.
Qed.

Lemma read_dumps {A} (f : json → result A) v data :
  wf_json v → utf8_encode (dumps v) = Ok data → (text ← utf8_decode data; v ← loads text; f v) = f v.
Proof.
  intros Hwf Hd. apply utf8_decode_encode in Hd.
  - rewrite Hd. cbn [mbind result_bind]. by rewrite loads_dumps.
  - eapply Forall_impl; [exact (dumps_printable _ Hwf)|].
    intros c Hc. apply ascii_is_scalar. unfold printable in Hc. lia.
Qed.

(** No peer answers the request that [discover_peers] sends. *)
Lemma discovery_unanswered d now sender_id self address data p :
  Forall is_scalar self → Forall is_scalar address →
  utf8_encode (dumps (peer_list_request self address)) = Ok data →
  handle_received repr_container sample d now sender_id data p = (Ok (), p).
Proof.
  intros Hs Ha Hd. pose proof (peer_list_request_wf self address Hs Ha) as Hwf.
  assert (g_from_bytes d.(d_now) data = Raise TypeError) as He by exact (read_dumps (g_from_dict _) _ _ Hwf Hd).
  assert (deserialize_message repr_container d data = Raise KeyError) as Hm
    by exact (read_dumps (deserialize_dict repr_container d) _ _ Hwf Hd).
  unfold handle_received. by rewrite He, Hm.
Qed.

(** What a peer itself gossips always carries a known type. *)
Lemma gossiped_payload_mutates m payload : to_dict m = Ok payload → payload_mutated payload = true.
Proof.
  unfold to_dict. destruct (m_type m) as [t|]; [|done]. destruct (own_values m) as [own|]; [|done].
  cbn [mbind result_bind]. intros [= <-]. cbn [payload_mutated app].
  match goal with |- context [kwarg "msg_type" ?l] =>
    change (kwarg "msg_type" l) with (Some (JStr (type_value t))) end.
  apply bool_decide_eq_true. destruct t; vm_compute; eauto.
Qed.
End delivery.

(** ** Witnesses *)

Definition toy_sample (l : list pystr) (k : nat) : list pystr := take k l.
Lemma toy_sample_ok l k : (k ≤ length l)%nat → toy_sample l k ⊆+ l ∧ length (toy_sample l k) = k.
Proof.
  intros Hk. unfold toy_sample. split; [apply sublist_submseteq, sublist_take|]. rewrite length_take. lia.
Qed.

#[local] Instance toy_float : PyFloat := λ l, l.

(** A heartbeat gossiped by [ann], as [bob] receives it. *)
Definition toy_payload : json :=
  Eval vm_compute in match to_dict toy_heartbeat with Ok v => v | Raise _ => JNull end.
Definition toy_unsigned : GossipEnvelope :=
  mkGossip (JStr (str "m1")) toy_payload false (JStr (str "ann")) (JInt 10) (JFloat (str "17.5"))
    (JArr [JStr (str "ann")]) (JStr []).
Definition toy_envelope : GossipEnvelope :=
  Eval vm_compute in match g_sign (S := toy_signer) toy_repr [9] toy_unsigned with Ok e => e | Raise _ => toy_unsigned end.
Definition toy_frame : bytes :=
  Eval vm_compute in match g_to_bytes toy_envelope with Ok b => b | Raise _ => [] end.
Definition toy_peer : GossipPeer :=
  mkGPeer (str "bob") 3 50 [7] [(str "cat", mkInfo [] 0 [])] {[str "ann" := [9]]} (new_cache 0) [HEARTBEAT] ∅ [] [].

Lemma toy_frame_parses : g_from_bytes (d_now toy_draw) toy_frame = Ok toy_envelope.
Proof. vm_compute. reflexivity. Qed.

Lemma toy_passes : passes (S := toy_signer) toy_repr 20000000 toy_envelope toy_peer.
Proof.
  split.
  - vm_compute. reflexivity.
  - exists (str "ann"), [9]. split; [|split]; vm_compute; reflexivity.
  - vm_compute. reflexivity.
Qed.

Lemma handle_received_authentic_witness :
  let '(r, p') := handle_received (S := toy_signer) toy_repr toy_sample toy_draw 20000000 (str "ann") toy_frame
                    toy_peer in
  gp_peer_keys p' = gp_peer_keys toy_peer ∧
  (gp_dispatched p' ≠ gp_dispatched toy_peer ∨ gp_sent p' ≠ gp_sent toy_peer →
   passes (S := toy_signer) toy_repr 20000000 toy_envelope toy_peer).
Proof.
  destruct (handle_received (S := toy_signer) toy_repr toy_sample toy_draw 20000000 (str "ann") toy_frame toy_peer)
    as [r p'] eqn:Hh.
  destruct (handle_received_authentic (S := toy_signer) toy_repr toy_sample toy_sample_ok toy_draw 20000000
    (str "ann") toy_frame toy_envelope toy_peer p' r toy_frame_parses Hh) as (H1 & H2 & _).
  exact (conj H1 H2).
Defined.

Lemma gossip_delivered_once_witness :
  let p2 := run (S := toy_signer) toy_repr toy_sample [(30000000, OpRemovePeer (str "cat"))]
    (exec (S := toy_signer) toy_repr toy_sample 20000000 (OpReceive toy_draw (str "ann") toy_frame) toy_peer) in
  let p3 := exec (S := toy_signer) toy_repr toy_sample 400000000 (OpReceive toy_draw (str "dan") toy_frame) p2 in
  gp_dispatched p3 = gp_dispatched p2 ∧ gp_sent p3 = gp_sent p2.
Proof.
  apply (gossip_delivered_once (S := toy_signer) toy_repr toy_sample toy_sample_ok toy_draw toy_draw 20000000
    400000000 (str "ann") (str "dan") toy_frame toy_frame toy_envelope toy_envelope 175 10 toy_peer
    [(30000000, OpRemovePeer (str "cat"))]).
  - apply toy_frame_parses.
  - apply toy_passes.
  - vm_compute. reflexivity.
  - vm_compute. done.
  - split; [reflexivity|]. vm_compute. done.
  - simpl. lia.
  - apply toy_frame_parses.
  - reflexivity.
  - reflexivity.
Defined.

(** Dated ahead, an envelope outlives its cache entry: accepted 16.5 seconds
    before its time stamp, it is accepted again 301 seconds later. *)
Lemma future_envelope_twice :
  let receive t := exec (S := toy_signer) toy_repr toy_sample t (OpReceive toy_draw (str "ann") toy_frame) in
  let p1 := receive 1000000 toy_peer in
  length (gp_dispatched p1) = S (length (gp_dispatched toy_peer)) ∧
  length (gp_dispatched (receive 302000000 p1)) = S (length (gp_dispatched p1)).
Proof. vm_compute. done. Qed.

(** The id is signed as it is printed and remembered as it is typed: a copy in
    which a decimal id was changed from a text to the number passes the checks,
    and the message is dispatched again. *)
Definition retyped (id : json) : bytes :=
  let text := mkGossip (JStr (str "7")) toy_payload false (JStr (str "ann")) (JInt 10) (JFloat (str "17.5"))
                (JArr [JStr (str "ann")]) (JStr []) in
  match g_sign (S := toy_signer) toy_repr [9] text with
  | Ok e => match g_to_bytes (mkGossip id e.(g_payload) false e.(g_origin_id) e.(g_ttl) e.(g_timestamp) e.(g_path)
                                e.(g_signature)) with Ok b => b | Raise _ => [] end
  | Raise _ => []
  end.
Lemma retyped_id_twice :
  let receive id := exec (S := toy_signer) toy_repr toy_sample 20000000 (OpReceive toy_draw (str "ann") (retyped id)) in
  let p1 := receive (JStr (str "7")) toy_peer in
  length (gp_dispatched p1) = S (length (gp_dispatched toy_peer)) ∧
  gp_dispatched (receive (JStr (str "7")) p1) = gp_dispatched p1 ∧
  length (gp_dispatched (receive (JInt 7) p1)) = S (length (gp_dispatched p1)).
Proof. vm_compute. done. Qed.

(** A TTL that is no number does not keep the message from being dispatched;
    the exception comes when it is counted down. *)
Lemma mistyped_ttl_dispatched :
  let e := mkGossip toy_envelope.(g_msg_id) toy_envelope.(g_payload) false toy_envelope.(g_origin_id) (JStr (str "x"))
             toy_envelope.(g_timestamp) toy_envelope.(g_path) toy_envelope.(g_signature) in
  let data := match g_to_bytes e with Ok b => b | Raise _ => [] end in
  let '(r, p') := handle_received (S := toy_signer) toy_repr toy_sample toy_draw 20000000 (str "ann") data toy_peer in
  r = Raise TypeError ∧ length (gp_dispatched p') = S (length (gp_dispatched toy_peer)).
Proof. vm_compute. done. Qed.

Lemma gossip_forwarding_fails_witness :
  let '(r, p') := handle_received (S := toy_signer) toy_repr toy_sample toy_draw 20000000 (str "ann") toy_frame
                    toy_peer in
  gp_sent p' = gp_sent toy_peer ∧
  (passes (S := toy_signer) toy_repr 20000000 toy_envelope toy_peer →
   ∀ ttl path, toy_envelope.(g_ttl) = JInt ttl → 1 < ttl → toy_envelope.(g_path) = JArr (JStr <$> path) →
   r = Raise TypeError).
Proof.
  apply (gossip_forwarding_fails (S := toy_signer) toy_repr toy_sample toy_draw 20000000 (str "ann") toy_frame
    toy_envelope toy_peer).
  - apply toy_frame_parses.
  - vm_compute. reflexivity.
Defined.
