(* ===== verification/Identity.v ===== *)
(** * Identities and certificates ([coc_framework/core/identity.py])

    [Identity], [Certificate], [CertificateAuthority] with its validation cache
    and [IdentityStore].  A time is an instant in microseconds; date texts are
    read as [datetime.fromisoformat] reads them: one it cannot read raises
    [ValueError], and one without a UTC offset raises [TypeError] when it is
    compared with the present.  Ed25519 is the parameter [Signer]; a serial
    number is the drawn UUID's text. *)

From Stdlib Require Import ZArith Lia String.
From S2P Require Import Prelude PyData DateTime IsoFormat Json Protocol.

Record Identity := mkIdentity {
  id_peer_id : pystr;
  id_public_key : bytes;
  id_created_at : pystr;
  id_metadata : list (pystr * json);
}.

Definition identity_to_dict (i : Identity) : json :=
  JObj [(str "peer_id", JStr i.(id_peer_id)); (str "public_key", JStr (bytes_hex i.(id_public_key)));
        (str "created_at", JStr i.(id_created_at)); (str "metadata", JObj i.(id_metadata))].

(** Values of another type than the documented one are refused here. *)
Definition text_item (k : string) (items : list (pystr * json)) : result pystr :=
  match kwarg k items with
  | Some (JStr s) => Ok s
  | Some _ => Raise TypeError
  | None => Raise KeyError
  end.

Definition identity_from_dict (data : json) : result Identity :=
  match data with
  | JObj items =>
      peer_id ← text_item "peer_id" items;
      public_key ← text_item "public_key" items ≫= bytes_fromhex;
      created_at ← text_item "created_at" items;
      metadata ← match kwarg "metadata" items with
                 | None => Ok [] | Some (JObj m) => Ok m | Some _ => Raise TypeError end;
      Ok (mkIdentity peer_id public_key created_at metadata)
  | _ => Raise TypeError
  end.

(** [VerifyKey(public_key)] takes 32 bytes. *)
Definition get_verify_key (i : Identity) : result bytes :=
  if decide (length i.(id_public_key) = 32%nat) then Ok i.(id_public_key) else Raise ValueError.

(** [Identity.create]. *)
Definition create_identity (now : Z) (peer_id : pystr) (verify_key : bytes)
    (metadata : option (list (pystr * json))) : Identity :=
  mkIdentity peer_id verify_key (iso_codes now) (default [] metadata).

Record Certificate := mkCert {
  ct_identity : Identity;
  ct_issuer_id : pystr;
  ct_valid_from : pystr;
  ct_valid_until : pystr;
  ct_signature : pystr;
  ct_serial_number : pystr;
}.

Definition cert_to_dict (c : Certificate) : json :=
  JObj [(str "identity", identity_to_dict c.(ct_identity)); (str "issuer_id", JStr c.(ct_issuer_id));
        (str "valid_from", JStr c.(ct_valid_from)); (str "valid_until", JStr c.(ct_valid_until));
        (str "signature", JStr c.(ct_signature)); (str "serial_number", JStr c.(ct_serial_number))].

Definition cert_from_dict (data : json) : result Certificate :=
  match data with
  | JObj items =>
      identity ← from_option_exn KeyError (kwarg "identity" items) ≫= identity_from_dict;
      issuer_id ← text_item "issuer_id" items;
      valid_from ← text_item "valid_from" items;
      valid_until ← text_item "valid_until" items;
      signature ← text_item "signature" items;
      serial_number ← text_item "serial_number" items;
      Ok (mkCert identity issuer_id valid_from valid_until signature serial_number)
  | _ => Raise TypeError
  end.

Definition parse_date (s : pystr) : result (Z * option Z) := from_option_exn ValueError (from_iso s).

(** The instant of a date-time compared with an aware one. *)
Definition instant (d : Z * option Z) : result Z :=
  match d.2 with Some offset => Ok (d.1 - offset) | None => Raise TypeError end.

Definition is_expired (now : Z) (c : Certificate) : result bool :=
  valid_until ← parse_date c.(ct_valid_until);
  until ← instant valid_until; Ok (until <? now).
Definition is_not_yet_valid (now : Z) (c : Certificate) : result bool :=
  valid_from ← parse_date c.(ct_valid_from);
  from ← instant valid_from; Ok (now <? from).
Definition is_valid_time (now : Z) (c : Certificate) : result bool :=
  valid_from ← parse_date c.(ct_valid_from);
  valid_until ← parse_date c.(ct_valid_until);
  from ← instant valid_from;
  if from <=? now then until ← instant valid_until; Ok (now <=? until) else Ok false.

Definition self_issuer : pystr := str "self".
Definition is_self_signed (c : Certificate) : bool := bool_decide (c.(ct_issuer_id) = self_issuer).

(** Canonical JSON of everything but the signature. *)
Definition get_signed_data (c : Certificate) : pystr :=
  dumps_with (str ",") (str ":") (sort_keys (JObj
    [(str "identity", identity_to_dict c.(ct_identity)); (str "issuer_id", JStr c.(ct_issuer_id));
     (str "valid_from", JStr c.(ct_valid_from)); (str "valid_until", JStr c.(ct_valid_until));
     (str "serial_number", JStr c.(ct_serial_number))])).

Definition with_signature (sig : pystr) (c : Certificate) : Certificate :=
  mkCert c.(ct_identity) c.(ct_issuer_id) c.(ct_valid_from) c.(ct_valid_until) sig c.(ct_serial_number).

(** ** [CertificateAuthority] *)

Record CertificateAuthority := mkCA {
  ca_identity : Identity;
  ca_signing_key : bytes;
  ca_validation_cache : gmap pystr (bool * Z);
}.

Definition cache_ttl : Z := 60 * 1000000.

Definition set_validation (f : gmap pystr (bool * Z) → gmap pystr (bool * Z)) (ca : CertificateAuthority)
    : CertificateAuthority :=
  mkCA ca.(ca_identity) ca.(ca_signing_key) (f ca.(ca_validation_cache)).

Definition get_cached_validation (now : Z) (serial : pystr) (ca : CertificateAuthority)
    : option bool * CertificateAuthority :=
  match ca.(ca_validation_cache) !! serial with
  | Some (valid, t) =>
      if now - t <? cache_ttl then (Some valid, ca) else (None, set_validation (delete serial) ca)
  | None => (None, ca)
  end.

Definition cache_validation_result (now : Z) (serial : pystr) (valid : bool) (ca : CertificateAuthority)
    : CertificateAuthority :=
  set_validation (<[serial := (valid, now)]>) ca.

Definition invalidate_cache (serial : option pystr) (ca : CertificateAuthority) : CertificateAuthority :=
  match serial with
  | None => set_validation (λ _, ∅) ca
  | Some s => set_validation (delete s) ca
  end.

Section authority.
Context {S : Signer}.

Definition sign_certificate (signing_key : bytes) (c : Certificate) : Certificate :=
  with_signature (bytes_hex (sign_text signing_key (get_signed_data c))) c.

Definition seconds_per_day : Z := 86400.

Definition issue_certificate (now : Z) (serial : pystr) (identity : Identity) (validity_days : Z)
    (ca : CertificateAuthority) : result Certificate :=
  until ← add_seconds now (validity_days * seconds_per_day);
  Ok (sign_certificate ca.(ca_signing_key)
        (mkCert identity ca.(ca_identity).(id_peer_id) (iso_codes now) (iso_codes until) [] serial)).

(** Any exception counts as a bad signature. *)
Definition check_signature (key : bytes) (c : Certificate) : bool :=
  match bytes_fromhex c.(ct_signature) with
  | Ok sig => verify_text key (get_signed_data c) sig
  | Raise _ => false
  end.

(** The key the issuer field calls for; [None] for another authority's. *)
Definition issuer_key (c : Certificate) (ca : CertificateAuthority) : option (result bytes) :=
  if is_self_signed c then Some (get_verify_key c.(ct_identity))
  else if bool_decide (c.(ct_issuer_id) = ca.(ca_identity).(id_peer_id))
       then Some (get_verify_key ca.(ca_identity))
       else None.

Definition verify_certificate (now : Z) (c : Certificate) : M CertificateAuthority bool :=
  cached ← λ ca, let '(r, ca) := get_cached_validation now c.(ct_serial_number) ca in (Ok r, ca);
  match cached with
  | Some valid =>
      in_time ← lift (is_valid_time now c);
      mret (if in_time : bool then valid else false)
  | None =>
      let remember (b : bool) : M CertificateAuthority bool :=
        modify (cache_validation_result now c.(ct_serial_number) b) ;; mret b in
      in_time ← lift (is_valid_time now c);
      if negb in_time then remember false
      else
        key ← gets (issuer_key c);
        match key with
        | None => remember false
        | Some key => key ← lift key; remember (check_signature key c)
        end
  end.

Definition create_self_signed (now : Z) (serial peer_id : pystr) (signing_key : bytes) (validity_days : Z)
    (metadata : option (list (pystr * json))) : result Certificate :=
  let identity := create_identity now peer_id (public_key signing_key) metadata in
  until ← add_seconds now (validity_days * seconds_per_day);
  Ok (sign_certificate signing_key
        (mkCert identity self_issuer (iso_codes now) (iso_codes until) [] serial)).

Definition verify_self_signed (now : Z) (c : Certificate) : result bool :=
  if negb (is_self_signed c) then Ok false
  else
    in_time ← is_valid_time now c;
    if in_time : bool then
      Ok (match get_verify_key c.(ct_identity) with
          | Ok key => check_signature key c
          | Raise _ => false
          end)
    else Ok false.
End authority.

(** ** [IdentityStore] *)

Record IdentityStore := mkIStore {
  identities : gmap pystr Identity;
  certificates : gmap pystr Certificate;        (* by serial number *)
  peer_certs : gmap pystr (gset pystr);         (* peer_id -> serial numbers *)
  revoked : gset pystr;
}.

Definition init_store : IdentityStore := mkIStore ∅ ∅ ∅ ∅.

Definition add_identity (i : Identity) (s : IdentityStore) : IdentityStore :=
  mkIStore (<[i.(id_peer_id) := i]> s.(identities)) s.(certificates) s.(peer_certs) s.(revoked).

Definition get_identity (peer_id : pystr) (s : IdentityStore) : option Identity := s.(identities) !! peer_id.

Definition add_certificate (c : Certificate) (s : IdentityStore) : IdentityStore :=
  let serial := c.(ct_serial_number) in
  let peer_id := c.(ct_identity).(id_peer_id) in
  add_identity c.(ct_identity)
    (mkIStore s.(identities) (<[serial := c]> s.(certificates))
       (<[peer_id := {[serial]} ∪ default ∅ (s.(peer_certs) !! peer_id)]> s.(peer_certs)) s.(revoked)).

Definition get_certificate (serial : pystr) (s : IdentityStore) : option Certificate :=
  s.(certificates) !! serial.

(** The serial numbers of a peer, in some order. *)
Definition serials (peer_id : pystr) (s : IdentityStore) : list pystr :=
  elements (default ∅ (s.(peer_certs) !! peer_id)).

Definition get_certificates_for_peer (peer_id : pystr) (s : IdentityStore) : list Certificate :=
  omap (λ sn, s.(certificates) !! sn) (serials peer_id s).

(** The loop of [get_valid_certificate]; a malformed date raises. *)
Fixpoint first_valid (now : Z) (s : IdentityStore) (sns : list pystr) : result (option Certificate) :=
  match sns with
  | [] => Ok None
  | sn :: sns =>
      if decide (sn ∈ s.(revoked)) then first_valid now s sns
      else match s.(certificates) !! sn with
           | None => first_valid now s sns
           | Some c =>
               in_time ← is_valid_time now c;
               if in_time : bool then Ok (Some c) else first_valid now s sns
           end
  end.

Definition get_valid_certificate (now : Z) (peer_id : pystr) (s : IdentityStore) : result (option Certificate) :=
  first_valid now s (serials peer_id s).

Definition revoke_certificate (serial : pystr) (s : IdentityStore) : bool * IdentityStore :=
  if decide (is_Some (s.(certificates) !! serial))
  then (true, mkIStore s.(identities) s.(certificates) s.(peer_certs) ({[serial]} ∪ s.(revoked)))
  else (false, s).

Definition is_revoked (serial : pystr) (s : IdentityStore) : bool := bool_decide (serial ∈ s.(revoked)).
Definition list_all_certificates (s : IdentityStore) : list Certificate := (map_to_list s.(certificates)).*2.
Definition list_all_identities (s : IdentityStore) : list Identity := (map_to_list s.(identities)).*2.

(** ** Properties *)

Section properties.
Context {S : Signer} {L : SignerLaws S}.

Lemma check_signature_signed key c :
  check_signature (public_key key) (sign_certificate key c) = true.
Proof.
  unfold check_signature, sign_certificate. cbn [with_signature ct_signature].
  rewrite bytes_fromhex_hex by apply sign_text_bytes. apply verify_sign_text.
Qed.

Lemma is_valid_time_issued now from until c :
  0 ≤ from < max_datetime → 0 ≤ until < max_datetime →
  c.(ct_valid_from) = iso_codes from → c.(ct_valid_until) = iso_codes until →
  is_valid_time now c = Ok ((from <=? now) && (now <=? until)).
Proof.
  intros Hf Hu Hcf Hcu. unfold is_valid_time, parse_date. rewrite Hcf, Hcu, !from_iso_codes by done. cbn.
  rewrite !Z.sub_0_r. by destruct (from <=? now).
Qed.

Lemma verify_certificate_uncached now c ca :
  ca.(ca_validation_cache) !! c.(ct_serial_number) = None →
  verify_certificate now c ca =
  match is_valid_time now c with
  | Raise e => (Raise e, ca)
  | Ok false => (Ok false, cache_validation_result now c.(ct_serial_number) false ca)
  | Ok true =>
      match issuer_key c ca with
      | None => (Ok false, cache_validation_result now c.(ct_serial_number) false ca)
      | Some (Raise e) => (Raise e, ca)
      | Some (Ok key) =>
          (Ok (check_signature key c),
           cache_validation_result now c.(ct_serial_number) (check_signature key c) ca)
      end
  end.
Proof.
  intros Hc. unfold verify_certificate, get_cached_validation, lift, gets, modify. unfold mbind, M_bind.
  cbv beta iota. rewrite Hc. cbv beta iota. destruct (is_valid_time now c) as [[]|]; [|done..].
  cbn [negb]. cbv beta iota. by destruct (issuer_key c ca) as [[]|].
Qed.

(** A certificate does what it promises: one the authority issues is
    verified by that authority at every moment of its validity period and at
    none after (the first time it is asked about it), a self-signed one by
    [verify_self_signed] likewise, and both survive [to_dict]/[from_dict]. *)
Theorem issued_certificate_verifies (now later days until : Z) (serial : pystr) (identity : Identity)
    (ca : CertificateAuthority) (peer_id : pystr) (key : bytes) (metadata : option (list (pystr * json))) :
  0 ≤ now < max_datetime → add_seconds now (days * seconds_per_day) = Ok until →
  Forall is_byte identity.(id_public_key) →
  ca.(ca_identity).(id_public_key) = public_key ca.(ca_signing_key) →
  length (public_key ca.(ca_signing_key)) = 32%nat → ca.(ca_identity).(id_peer_id) ≠ self_issuer →
  ca.(ca_validation_cache) !! serial = None →
  length (public_key key) = 32%nat → Forall is_byte (public_key key) →
  ∃ c sc, issue_certificate now serial identity days ca = Ok c ∧
    (verify_certificate later c ca).1 = Ok ((now <=? later) && (later <=? until)) ∧
    cert_from_dict (cert_to_dict c) = Ok c ∧
    create_self_signed now serial peer_id key days metadata = Ok sc ∧
    verify_self_signed later sc = Ok ((now <=? later) && (later <=? until)) ∧
    cert_from_dict (cert_to_dict sc) = Ok sc.
Proof.
  intros Hnow Huntil Hkb Hcakey Hcalen Hself Hcache Hlen Hb.
  assert (0 ≤ until < max_datetime) as Hu.
  { unfold add_seconds in Huntil. destruct (_ || _) eqn:Hor; [done|]. injection Huntil as <-.
    apply orb_false_iff in Hor as [?%Z.ltb_ge ?%Z.leb_gt]. lia. }
  unfold issue_certificate, create_self_signed. rewrite Huntil. cbn [mbind result_bind].
  set (c := sign_certificate (ca_signing_key ca) _). set (sc := sign_certificate key _).
  assert (∀ x, Forall is_byte x.(ct_identity).(id_public_key) → cert_from_dict (cert_to_dict x) = Ok x) as Hrt.
  { intros [[pid pk cr md] iss vf vu sg sn] Hx. cbn [ct_identity id_public_key] in Hx.
    change (cert_from_dict _) with
      (i ← (k ← bytes_fromhex (bytes_hex pk); Ok (mkIdentity pid k cr md)); Ok (mkCert i iss vf vu sg sn)).
    by rewrite bytes_fromhex_hex. }
  exists c, sc. split; [done|]. split; [|split; [by apply Hrt|]].
  - rewrite verify_certificate_uncached by done.
    rewrite (is_valid_time_issued later now until c) by done.
    destruct ((now <=? later) && (later <=? until)); [|done].
    assert (issuer_key c ca = Some (Ok (public_key (ca_signing_key ca)))) as ->.
    { unfold issuer_key, is_self_signed. change (ct_issuer_id c) with (id_peer_id (ca_identity ca)).
      rewrite bool_decide_eq_false_2, bool_decide_eq_true_2 by done.
      unfold get_verify_key. by rewrite Hcakey, decide_True. }
    cbn [fst]. f_equal. apply check_signature_signed.
  - split; [done|]. split; [|by apply Hrt]. unfold verify_self_signed.
    change (is_self_signed sc) with (bool_decide (self_issuer = self_issuer)).
    rewrite bool_decide_eq_true_2 by done. cbn [negb].
    rewrite (is_valid_time_issued later now until sc) by done. cbn [mbind result_bind].
    destruct ((now <=? later) && (later <=? until)); [|done]. unfold get_verify_key.
    change (id_public_key (ct_identity sc)) with (public_key key). rewrite decide_True by done.
    f_equal. apply check_signature_signed.
Qed.

(** Verification results are cached by serial number alone.  After a
    certificate was verified, for a minute every certificate with that serial
    number and a current validity period is accepted by the same authority:
    whatever identity, key, issuer or signature it carries. *)
Theorem cached_serial_accepts_forgery (now later : Z) (c forged : Certificate) (ca ca' : CertificateAuthority) :
  verify_certificate now c ca = (Ok true, ca') → ca.(ca_validation_cache) !! c.(ct_serial_number) = None →
  forged.(ct_serial_number) = c.(ct_serial_number) →
  is_valid_time later forged = Ok true → later - now < cache_ttl →
  (verify_certificate later forged ca').1 = Ok true.
Proof.
  intros Hv Hc Hserial Htime Hlater. rewrite verify_certificate_uncached in Hv by done.
  assert (ca_validation_cache ca' !! ct_serial_number c = Some (true, now)) as Hcached.
  { destruct (is_valid_time now c) as [[]|]; try done. destruct (issuer_key c ca) as [[key|]|]; try done.
    injection Hv as Hsig <-. rewrite Hsig. apply lookup_insert_eq. }
  unfold verify_certificate, get_cached_validation, lift. unfold mbind, M_bind. cbv beta iota.
  rewrite Hserial, Hcached, (proj2 (Z.ltb_lt _ _)) by done. cbv beta iota. by rewrite Htime.
Qed.

End properties.

(** ** The store over its lifetime *)

Inductive store_op :=
  | OpAddIdentity (i : Identity)
  | OpAddCertificate (c : Certificate)
  | OpRevoke (serial : pystr).

Definition exec_store (op : store_op) (s : IdentityStore) : IdentityStore :=
  match op with
  | OpAddIdentity i => add_identity i s
  | OpAddCertificate c => add_certificate c s
  | OpRevoke serial => (revoke_certificate serial s).2
  end.

Definition run_store (ops : list store_op) (s : IdentityStore) : IdentityStore :=
  foldl (λ s op, exec_store op s) s ops.

Record store_inv (s : IdentityStore) : Prop := {
  listed_stored : ∀ p sn, sn ∈ default ∅ (s.(peer_certs) !! p) → is_Some (s.(certificates) !! sn);
  stored_listed : ∀ sn c, s.(certificates) !! sn = Some c →
    sn = c.(ct_serial_number) ∧ sn ∈ default ∅ (s.(peer_certs) !! c.(ct_identity).(id_peer_id)) ∧
    is_Some (s.(identities) !! c.(ct_identity).(id_peer_id));
  revoked_stored : ∀ sn, sn ∈ s.(revoked) → is_Some (s.(certificates) !! sn);
}.

Lemma init_store_inv : store_inv init_store.
Proof. split; set_solver. Qed.

Lemma add_identity_inv i s : store_inv s → store_inv (add_identity i s).
Proof.
  intros [H1 H2 H3]. split; cbn; [done| |done]. intros sn c Hc. destruct (H2 sn c Hc) as (? & ? & ?).
  split_and!; [done|done|]. apply lookup_insert_is_Some'. by right.
Qed.

Lemma listed_insert (pc : gmap pystr (gset pystr)) p p' serial sn :
  sn ∈ default ∅ (<[p := {[serial]} ∪ default ∅ (pc !! p)]> pc !! p') ↔
  (p = p' ∧ sn = serial) ∨ sn ∈ default ∅ (pc !! p').
Proof.
  destruct (decide (p = p')) as [<-|Hp].
  - rewrite lookup_insert_eq. cbn. set_solver.
  - rewrite lookup_insert_ne by done. naive_solver.
Qed.

Lemma add_certificate_inv c s : store_inv s → store_inv (add_certificate c s).
Proof.
  intros [H1 H2 H3]. split; cbn -[lookup].
  - intros p sn [[_ ->]|Hin]%listed_insert; apply lookup_insert_is_Some'; [by left|right; eauto].
  - intros sn c' [[<- <-]|[Hne Hc]]%lookup_insert_Some.
    + split; [done|]. split; [apply listed_insert; by left|]. rewrite lookup_insert_eq. by eexists.
    + destruct (H2 sn c' Hc) as (-> & Hin & Hid). split; [done|]. split; [apply listed_insert; by right|].
      apply lookup_insert_is_Some'. by right.
  - intros sn Hr. apply lookup_insert_is_Some'. right. by apply H3.
Qed.

Lemma revoke_certificate_inv sn s : store_inv s → store_inv (revoke_certificate sn s).2.
Proof.
  intros [H1 H2 H3]. unfold revoke_certificate. case_decide as Hs; [|done].
  split; cbn; [done|done|]. intros x [->%elem_of_singleton|Hx]%elem_of_union; [done|by apply H3].
Qed.

Lemma run_store_inv ops s : store_inv s → store_inv (run_store ops s).
Proof.
  revert s. induction ops as [|op ops IH]; intros s Hs; [done|]. apply IH.
  destruct op; [by apply add_identity_inv|by apply add_certificate_inv|by apply revoke_certificate_inv].
Qed.

Lemma run_store_revoked ops s : revoked s ⊆ revoked (run_store ops s).
Proof.
  revert s. induction ops as [|op ops IH]; intros s; [done|]. etrans; [|apply IH].
  destruct op as [| |sn]; [done..|]. cbn. unfold revoke_certificate. case_decide; set_solver.
Qed.

(** What is stored was added. *)
Lemma run_store_added ops s sn c :
  (run_store ops s).(certificates) !! sn = Some c → s.(certificates) !! sn = Some c ∨ OpAddCertificate c ∈ ops.
Proof.
  revert s. induction ops as [|op ops IH]; intros s Hc; [by left|].
  destruct (IH _ Hc) as [Hs|?]; [|right; by right].
  destruct op as [i|c'|sn']; cbn -[lookup] in Hs; [by left| |].
  - apply lookup_insert_Some in Hs as [[_ ->]|[_ ?]]; [right; by left|by left].
  - left. unfold revoke_certificate in Hs. by case_decide.
Qed.

(** A serial number listed for a peer was added for it. *)
Lemma run_store_listed ops s p sn :
  sn ∈ default ∅ ((run_store ops s).(peer_certs) !! p) →
  sn ∈ default ∅ (s.(peer_certs) !! p) ∨
  ∃ c, OpAddCertificate c ∈ ops ∧ c.(ct_serial_number) = sn ∧ c.(ct_identity).(id_peer_id) = p.
Proof.
  revert s. induction ops as [|op ops IH]; intros s Hin; [by left|].
  destruct (IH _ Hin) as [Hs|(c & ? & ? & ?)]; [|right; exists c; set_solver].
  destruct op as [i|c|sn']; cbn -[lookup] in Hs; [by left| |].
  - apply listed_insert in Hs as [[? ->]|?]; [|by left]. right. exists c. set_solver.
  - left. unfold revoke_certificate in Hs. by case_decide.
Qed.

(** The loop of [get_valid_certificate] finds a certificate exactly when there
    is one to find. *)
Lemma first_valid_spec now s sns :
  match first_valid now s sns with
  | Ok (Some c) => ∃ sn, sn ∈ sns ∧ sn ∉ s.(revoked) ∧ (s.(certificates) !! sn) = Some c ∧
                     is_valid_time now c = Ok true
  | Ok None => ∀ sn c, sn ∈ sns → sn ∉ s.(revoked) → s.(certificates) !! sn = Some c →
                 is_valid_time now c = Ok false
  | Raise e => ∃ sn c, sn ∈ sns ∧ sn ∉ s.(revoked) ∧ (s.(certificates) !! sn) = Some c ∧
                 is_valid_time now c = Raise e
  end.
Proof.
  induction sns as [|sn sns IH]; cbn [first_valid]; [set_solver|].
  destruct (decide (sn ∈ revoked s)) as [Hr|Hr].
  { destruct (first_valid now s sns) as [[c|]|e]; set_solver. }
  destruct (certificates s !! sn) as [c|] eqn:Hc.
  2: { destruct (first_valid now s sns) as [[c|]|e]; [set_solver| |set_solver].
       intros sn' c Hin Hr' Hc'. apply elem_of_cons in Hin as [->|Hin]; [congruence|by eapply IH]. }
  destruct (is_valid_time now c) as [[]|e] eqn:Ht; cbn [mbind result_bind].
  - exists sn. set_solver.
  - destruct (first_valid now s sns) as [[c'|]|e]; [set_solver| |set_solver].
    intros sn' c' Hin Hr' Hc'. apply elem_of_cons in Hin as [->|Hin]; [congruence|by eapply IH].
  - exists sn, c. set_solver.
Qed.

Lemma is_valid_time_raise now c e : is_valid_time now c = Raise e →
  e = ValueError ∧ (from_iso c.(ct_valid_from) = None ∨ from_iso c.(ct_valid_until) = None) ∨
  e = TypeError ∧ ∃ t, from_iso c.(ct_valid_from) = Some (t, None) ∨ from_iso c.(ct_valid_until) = Some (t, None).
Proof.
  unfold is_valid_time, parse_date.
  destruct (from_iso (ct_valid_from c)) as [[t1 o1]|]; [|intros [= <-]; auto].
  destruct (from_iso (ct_valid_until c)) as [[t2 o2]|]; [|intros [= <-]; auto]. cbn.
  destruct o1 as [o1|]; cbn; [|intros [= <-]; eauto]. destruct (_ <=? _); [|done].
  destruct o2 as [o2|]; cbn; [done|]. intros [= <-]. eauto.
Qed.

(** C32: over any history of calls on an [IdentityStore],
    [get_valid_certificate] is exact and revocation is permanent.  What it
    returns was itself added, is stored under its own serial number, in its
    validity period and not revoked, and it is the certificate of the peer asked
    about, unless another certificate with the same serial number was added for
    that peer (the serial number was used twice); when it returns [None], no
    stored certificate of that peer is both in its validity period and not
    revoked; it raises only if a stored certificate has a date that
    [fromisoformat] cannot read ([ValueError]) or that has no UTC offset
    ([TypeError]).  A revocation that reported success is never undone, and
    [get_valid_certificate] returns no certificate with that serial number for
    any peer afterwards. *)
Theorem valid_certificate_exact (ops : list store_op) (now : Z) (peer_id : pystr) :
  let s := run_store ops init_store in
  match get_valid_certificate now peer_id s with
  | Ok (Some c) =>
      get_certificate c.(ct_serial_number) s = Some c ∧ is_revoked c.(ct_serial_number) s = false ∧
      is_valid_time now c = Ok true ∧ OpAddCertificate c ∈ ops ∧
      (c.(ct_identity).(id_peer_id) = peer_id ∨
       ∃ c', OpAddCertificate c' ∈ ops ∧ c' ≠ c ∧ c'.(ct_serial_number) = c.(ct_serial_number) ∧
             c'.(ct_identity).(id_peer_id) = peer_id)
  | Ok None =>
      ∀ c, c ∈ list_all_certificates s → c.(ct_identity).(id_peer_id) = peer_id →
           is_revoked c.(ct_serial_number) s = false → is_valid_time now c = Ok false
  | Raise e => ∃ c, c ∈ list_all_certificates s ∧ is_valid_time now c = Raise e ∧
      (e = ValueError ∧ (from_iso c.(ct_valid_from) = None ∨ from_iso c.(ct_valid_until) = None) ∨
       e = TypeError ∧ ∃ t, from_iso c.(ct_valid_from) = Some (t, None) ∨ from_iso c.(ct_valid_until) = Some (t, None))
  end ∧
  (∀ serial ops', (revoke_certificate serial s).1 = true →
     let s' := run_store ops' (revoke_certificate serial s).2 in
     is_revoked serial s' = true ∧
     ∀ p c, get_valid_certificate now p s' = Ok (Some c) → c.(ct_serial_number) ≠ serial).
Proof.
  intros s. assert (store_inv s) as Hs by apply run_store_inv, init_store_inv.
  split.
  - unfold get_valid_certificate. pose proof (first_valid_spec now s (serials peer_id s)) as Hspec.
    destruct (first_valid now s (serials peer_id s)) as [[c|]|e].
    + destruct Hspec as (sn & Hin & Hr & Hc & Ht). destruct (stored_listed s Hs sn c Hc) as (-> & _).
      split_and!; [done|by apply bool_decide_eq_false|done| |].
      { apply run_store_added in Hc as [Hc|?]; [|done]. cbn in Hc. by rewrite lookup_empty in Hc. }
      destruct (decide (c.(ct_identity).(id_peer_id) = peer_id)) as [|Hne]; [by left|right].
      unfold serials in Hin. apply elem_of_elements, run_store_listed in Hin as [Hin|(c' & ? & ? & Hp)].
      * cbn in Hin. rewrite lookup_empty in Hin. set_solver.
      * exists c'. split_and!; [done| |done|done]. intros ->. by apply Hne.
    + intros c Hc Hp Hr%bool_decide_eq_false. apply list_elem_of_fmap in Hc as ([sn c'] & -> & Hc).
      apply elem_of_map_to_list in Hc. cbn [snd] in *.
      destruct (stored_listed s Hs sn c' Hc) as (-> & Hin & _).
      eapply Hspec; [|done..]. apply elem_of_elements. by rewrite <- Hp.
    + destruct Hspec as (sn & c & _ & _ & Hc & Ht). exists c. split_and!; [|done|by eapply is_valid_time_raise].
      apply list_elem_of_fmap. exists (sn, c). by rewrite elem_of_map_to_list.
  - intros serial ops' Hrev s'. assert (serial ∈ revoked s') as Hin.
    { apply run_store_revoked. revert Hrev. unfold revoke_certificate. case_decide; [|done]. set_solver. }
    assert (store_inv s') as Hs' by (apply run_store_inv, revoke_certificate_inv, Hs).
    split; [by apply bool_decide_eq_true|]. intros p c Hc <-.
    pose proof (first_valid_spec now s' (serials p s')) as Hspec.
    unfold get_valid_certificate in Hc. rewrite Hc in Hspec. destruct Hspec as (sn & _ & Hr & Hc' & _).
    by destruct (stored_listed s' Hs' sn c Hc') as (-> & _).
Qed.

(** ** Witnesses *)

Definition toy_ca_key : bytes := replicate 32 7.
Definition toy_ca : CertificateAuthority :=
  mkCA (mkIdentity (str "authority") toy_ca_key (iso_codes 0) []) toy_ca_key ∅.
Definition toy_identity : Identity := mkIdentity (str "ann") (replicate 32 9) (iso_codes 0) [].

Lemma issued_certificate_verifies_witness :
  ∃ c sc, issue_certificate (S := toy_signer) 5000000 (str "s1") toy_identity 2 toy_ca = Ok c ∧
    (verify_certificate (S := toy_signer) 6000000 c toy_ca).1 =
      Ok ((5000000 <=? 6000000) && (6000000 <=? 172805000000)) ∧
    cert_from_dict (cert_to_dict c) = Ok c ∧
    create_self_signed (S := toy_signer) 5000000 (str "s1") (str "bob") (replicate 32 3) 2 None = Ok sc ∧
    verify_self_signed (S := toy_signer) 6000000 sc = Ok ((5000000 <=? 6000000) && (6000000 <=? 172805000000)) ∧
    cert_from_dict (cert_to_dict sc) = Ok sc.
Proof.
  apply (issued_certificate_verifies (S := toy_signer) (L := toy_signer_laws)
    5000000 6000000 2 172805000000 (str "s1") toy_identity toy_ca (str "bob") (replicate 32 3) None).
  all: try reflexivity.
  - done.
  - by apply Forall_replicate.
  - done.
  - by apply Forall_replicate.
Defined.

Definition toy_issued : Certificate :=
  match issue_certificate (S := toy_signer) 5000000 (str "s1") toy_identity 2 toy_ca with
  | Ok c => c
  | Raise _ => mkCert toy_identity [] [] [] [] []
  end.
(** Another peer, an unknown issuer and no signature. *)
Definition toy_forged : Certificate :=
  mkCert (mkIdentity (str "eve") [] [] []) (str "nobody") (ct_valid_from toy_issued)
    (ct_valid_until toy_issued) [] (str "s1").

Lemma cached_serial_accepts_forgery_witness :
  (verify_certificate (S := toy_signer) 7000000 toy_forged
     (verify_certificate (S := toy_signer) 6000000 toy_issued toy_ca).2).1 = Ok true.
Proof.
  apply (cached_serial_accepts_forgery (S := toy_signer) 6000000 7000000 toy_issued toy_forged toy_ca).
  - vm_compute. reflexivity.
  - reflexivity.
  - vm_compute. reflexivity.
  - vm_compute. reflexivity.
  - reflexivity.
Defined.

(** A serial number used twice: the certificate of another peer is returned. *)
Lemma reused_serial_other_peer :
  get_valid_certificate 6000000 (str "ann")
    (run_store [OpAddCertificate toy_issued; OpAddCertificate toy_forged] init_store) = Ok (Some toy_forged) ∧
  id_peer_id (ct_identity toy_forged) = str "eve".
Proof. vm_compute. done. Qed.
