(* ===== verification/Graph.v ===== *)
(** * Provenance graph queries ([trustdocs/trustflow_service.py])

    [TrustFlowService.find_paths_in_edges]: a bounded breadth-first search for
    one shortest path and a bounded depth-first enumeration of all simple
    paths.  Python iterates over a set in an order of its own: [set_order] is
    that order, known only to list the set's elements.  A loop that would not
    end shows as [None]. *)

From Stdlib Require Import ZArith Lia String.
From stdpp Require Import sorting.
From S2P Require Import Prelude.

(** The order in which Python iterates over a set of strings. *)
Class SetOrder := { set_order : gset string → list string }.
Class SetOrderLaws (O : SetOrder) := { set_order_perm s : set_order s ≡ₚ elements s }.

(** An edge dictionary; a missing entry is [None]. *)
Record Edge := mkEdge {
  e_from : option string;
  e_to : option string;
}.

#[global] Instance Edge_eq_dec : EqDecision Edge.
Proof. solve_decision. Defined.

(** [if not frm]: a missing or empty hash. *)
Definition truthy_hash (o : option string) : option string :=
  match o with Some ""%string | None => None | Some h => Some h end.

Definition add_edge (adj : gmap string (gset string)) (e : Edge) : gmap string (gset string) :=
  match truthy_hash e.(e_from), truthy_hash e.(e_to) with
  | Some frm, Some to => <[frm := {[to]} ∪ default ∅ (adj !! frm)]> adj
  | _, _ => adj
  end.

Definition adjacency (edges : list Edge) : gmap string (gset string) := foldl add_edge ∅ edges.

(** The state of the breadth-first loop. *)
Record Search := mkSearch {
  queue : list string;
  parents : gmap string string;
  visited : gset string;
  depth : gmap string Z;
}.

Definition with_queue (q : list string) (s : Search) : Search :=
  mkSearch q s.(parents) s.(visited) s.(depth).

Definition reach_node (nxt current : string) (current_depth : Z) (s : Search) : Search :=
  mkSearch s.(queue) (<[nxt := current]> s.(parents)) ({[nxt]} ∪ s.(visited))
    (<[nxt := current_depth + 1]> s.(depth)).

Section paths.
Context {O : SetOrder}.
Context (adj : gmap string (gset string)) (target : string).

Definition successors (u : string) : list string := set_order (default ∅ (adj !! u)).

(** The inner [for] loop; finding the target clears the queue and breaks. *)
Fixpoint visit_next (current : string) (current_depth : Z) (nexts : list string) (s : Search) : Search :=
  match nexts with
  | [] => s
  | nxt :: nexts =>
      if decide (nxt ∈ s.(visited)) then visit_next current current_depth nexts s
      else
        let s := reach_node nxt current current_depth s in
        if decide (nxt = target) then with_queue [] s
        else visit_next current current_depth nexts (with_queue (s.(queue) ++ [nxt]) s)
  end.

(** [while queue]. *)
Fixpoint bfs (max_depth : Z) (fuel : nat) (s : Search) : option Search :=
  match s.(queue) with
  | [] => Some s
  | current :: rest =>
      match fuel with
      | 0%nat => None
      | S fuel =>
          let s := with_queue rest s in
          let current_depth := default 0 (s.(depth) !! current) in
          if max_depth <=? current_depth then bfs max_depth fuel s
          else bfs max_depth fuel (visit_next current current_depth (successors current) s)
      end
  end.

(** [while cursor in parents], appending to [node_path]. *)
Fixpoint walk_back (parents : gmap string string) (fuel : nat) (cursor : string) (node_path : list string)
    : option (list string) :=
  match parents !! cursor with
  | None => Some node_path
  | Some p =>
      match fuel with
      | 0%nat => None
      | S fuel => walk_back parents fuel p (node_path ++ [p])
      end
  end.

(** [dfs]: [trail] and [seen] are restored after each call, so each call gets
    its own; what a call leaves behind is what was collected and whether the
    limit was reached. *)
Fixpoint dfs (max_paths max_depth : Z) (frames : nat) (current : string) (trail : list string)
    (seen : gset string) (out : list (list string) * bool) : option (list (list string) * bool) :=
  match frames with
  | 0%nat => None
  | S frames =>
      let '(collected, truncated) := out in
      if truncated : bool then Some out
      else if max_depth <? Z.of_nat (length trail) - 1 then Some out
      else if decide (current = target) then
        let collected := collected ++ [trail] in
        Some (collected, max_paths <=? Z.of_nat (length collected))
      else
        (fix loop (nexts : list string) (out : list (list string) * bool) :=
           match nexts with
           | [] => Some out
           | nxt :: nexts =>
               if decide (nxt ∈ seen) then loop nexts out
               else
                 out ← dfs max_paths max_depth frames nxt (trail ++ [nxt]) ({[nxt]} ∪ seen) out;
                 if out.2 : bool then Some out else loop nexts out
           end) (successors current) out
  end.
End paths.

Definition edge_path (node_path : list string) : list Edge :=
  (λ i, mkEdge (node_path !! i) (node_path !! S i)) <$> seq 0 (length node_path - 1).

Record PathsResult := mkPaths {
  r_mode : string;
  r_source : string;
  r_target : string;
  r_paths : list (list string * list Edge);
  r_path_count : Z;
  r_truncated : bool;
}.

Definition clamp (hi n : Z) : Z := Z.max 1 (Z.min n hi).

(** [None]: the call does not return. *)
Definition find_paths_in_edges `{SetOrder} (edges : list Edge) (source target mode : string)
    (max_paths max_depth : Z) : option (result PathsResult) :=
  if decide (mode ∈ ["shortest"; "all"]%string) then
    let max_paths := clamp 200 max_paths in
    let max_depth := clamp 64 max_depth in
    let adj := adjacency edges in
    let return_paths paths truncated :=
      Some (Ok (mkPaths mode source target ((λ p, (p, edge_path p)) <$> paths)
                  (Z.of_nat (length paths)) truncated)) in
    if decide (source = target) then return_paths [[source]] false
    else if decide (mode = "shortest"%string) then
      s ← bfs adj target max_depth (S (length edges)) (mkSearch [source] ∅ {[source]} {[source := 0]});
      if decide (is_Some (s.(parents) !! target)) then
        node_path ← walk_back s.(parents) (Z.to_nat max_depth) target [target];
        return_paths [reverse node_path] false
      else return_paths [] false
    else
      '(collected, truncated) ←
        dfs adj target max_paths max_depth (Z.to_nat max_depth + 2) source [source] {[source]} ([], false);
      return_paths collected truncated
  else Some (Raise ValueError).

Lemma size_list_to_set_le (l : list string) : (size (list_to_set l : gset string) ≤ length l)%nat.
Proof.
  induction l as [|x l IH]; [done|]. cbn [list_to_set foldr length].
  rewrite (size_union_alt (C:=gset string)), size_singleton.
  assert (size ((list_to_set l : gset string) ∖ {[x]}) ≤ size (list_to_set l : gset string))%nat; [|lia].
  apply subseteq_size. set_solver.
Qed.

(** ** Walks *)

(** The directed edges the query sees. *)
Definition edge (edges : list Edge) (u v : string) : Prop :=
  u ≠ ""%string ∧ v ≠ ""%string ∧ mkEdge (Some u) (Some v) ∈ edges.

(** [q] are the nodes after [u] on a walk that ends in [v]. *)
Fixpoint walk (R : string → string → Prop) (u : string) (q : list string) (v : string) : Prop :=
  match q with
  | [] => u = v
  | x :: q => R u x ∧ walk R x q v
  end.

Definition simple_path (edges : list Edge) (s t : string) (max_edges : Z) (p : list string) : Prop :=
  ∃ q, p = s :: q ∧ walk (edge edges) s q t ∧ NoDup p ∧ Z.of_nat (length q) ≤ max_edges.

Section walks.
Context (R : string → string → Prop).

Lemma walk_snoc u q v w : walk R u (q ++ [v]) w ↔ ∃ x, walk R u q x ∧ R x v ∧ v = w.
Proof.
  revert u. induction q as [|y q IH]; intros u; cbn [walk app]; [naive_solver|]. rewrite IH. naive_solver.
Qed.

Lemma walk_arrives u x q v : walk R u (x :: q) v → v ∈ x :: q.
Proof.
  revert u x. induction q as [|y q IH]; intros u x [_ H]; [cbn in H; set_solver|].
  apply elem_of_cons. right. by apply (IH x).
Qed.
End walks.

Lemma truthy_hash_Some o h : truthy_hash o = Some h ↔ o = Some h ∧ h ≠ ""%string.
Proof. destruct o as [[|a s]|]; cbn; naive_solver. Qed.

Lemma adjacency_spec edges u v : v ∈ default ∅ (adjacency edges !! u) ↔ edge edges u v.
Proof.
  induction edges as [|[f t] edges IH] using rev_ind.
  - unfold edge. cbn. set_solver.
  - unfold adjacency in *. rewrite foldl_app. cbn [foldl].
    set (adj := foldl add_edge ∅ edges) in *.
    assert (edge (edges ++ [mkEdge f t]) u v ↔
      (truthy_hash f = Some u ∧ truthy_hash t = Some v) ∨ edge edges u v) as ->.
    { unfold edge. rewrite elem_of_app, list_elem_of_singleton, !truthy_hash_Some. naive_solver. }
    rewrite <- IH. unfold add_edge. cbn [e_from e_to].
    destruct (truthy_hash f) as [f'|]; [|naive_solver]. destruct (truthy_hash t) as [t'|]; [|naive_solver].
    destruct (decide (f' = u)) as [->|Hne].
    + rewrite lookup_insert_eq. cbn. set_solver.
    + rewrite lookup_insert_ne by done. naive_solver.
Qed.

Section search.
Context {O : SetOrder} {L : SetOrderLaws O}.
Context (edges : list Edge) (target : string).

Abbreviation adj := (adjacency edges).

Lemma successors_spec u v : v ∈ successors adj u ↔ edge edges u v.
Proof. unfold successors. rewrite (set_order_perm _), elem_of_elements. apply adjacency_spec. Qed.

Lemma successors_nodup u : NoDup (successors adj u).
Proof. unfold successors. rewrite (set_order_perm _). apply NoDup_elements. Qed.

(** ** Depth-first enumeration *)

(** All paths the search would collect without a limit on their number. *)
Fixpoint enum (d : nat) (current : string) (trail : list string) (seen : gset string) : list (list string) :=
  if decide (current = target) then [trail]
  else match d with
       | 0%nat => []
       | S d => nexts ← filter (λ x, x ∉ seen) (successors adj current);
                enum d nexts (trail ++ [nexts]) ({[nexts]} ∪ seen)
       end.

(** What [dfs] leaves behind when it adds [found] to what was [collected]. *)
Definition limited (max_paths : Z) (collected found : list (list string)) : list (list string) * bool :=
  (take (Z.to_nat max_paths) (collected ++ found), max_paths <=? Z.of_nat (length (collected ++ found))).

(** The loop of [dfs] over the successors. *)
Lemma dfs_loop max_paths (body : string → list (list string) * bool → option (list (list string) * bool))
    (found : string → list (list string)) (seen : gset string) nexts collected :
  0 < max_paths → Z.of_nat (length collected) < max_paths →
  (∀ nxt c, nxt ∉ seen → Z.of_nat (length c) < max_paths → body nxt (c, false) = Some (limited max_paths c (found nxt))) →
  (fix loop (nexts : list string) (out : list (list string) * bool) :=
     match nexts with
     | [] => Some out
     | nxt :: nexts =>
         if decide (nxt ∈ seen) then loop nexts out
         else out ← body nxt out; if out.2 : bool then Some out else loop nexts out
     end) nexts (collected, false)
  = Some (limited max_paths collected (filter (λ x, x ∉ seen) nexts ≫= found)).
Proof.
  intros H0 Hlen Hbody. revert collected Hlen. induction nexts as [|nxt nexts IH]; intros c Hlen.
  - unfold limited. cbn. rewrite app_nil_r, take_ge by lia. by rewrite (proj2 (Z.leb_gt _ _)).
  - rewrite filter_cons. destruct (decide (nxt ∈ seen)) as [Hin|Hin].
    { rewrite decide_False by (intros Hn; by apply Hn). by apply IH. }
    rewrite decide_True by done. rewrite Hbody by done. cbn [mbind option_bind list_bind snd limited].
    destruct (Z.leb_spec max_paths (Z.of_nat (length (c ++ found nxt)))) as [Hle|Hgt].
    + f_equal. unfold limited. rewrite (assoc_L (++)), (take_app_le _ (filter _ _ ≫= _)) by lia. f_equal.
      rewrite !(proj2 (Z.leb_le _ _)) by (rewrite ?length_app in *; lia). done.
    + assert (limited max_paths c (found nxt) = (c ++ found nxt, false)) as ->.
      { unfold limited. rewrite take_ge by lia. by rewrite (proj2 (Z.leb_gt _ _)). }
      rewrite IH by lia. unfold limited. by rewrite (assoc_L (++)).
Qed.

Lemma dfs_enum max_paths max_depth d frames current trail seen collected :
  0 < max_paths → Z.of_nat (length collected) < max_paths → (d + 2 ≤ frames)%nat →
  Z.of_nat (length trail) - 1 + Z.of_nat d = max_depth →
  dfs adj target max_paths max_depth frames current trail seen (collected, false) =
  Some (limited max_paths collected (enum d current trail seen)).
Proof.
  intros H0. revert frames current trail seen collected.
  induction d as [|d IH]; intros [|frames] current trail seen c Hlen Hf Ht; try lia; cbn [dfs enum];
    rewrite (proj2 (Z.ltb_ge _ _)) by lia.
  - destruct (decide (current = target)) as [->|Hne].
    + unfold limited. rewrite take_ge by (rewrite length_app; cbn; lia). done.
    + erewrite (dfs_loop max_paths
        (λ nxt out, dfs adj target max_paths max_depth frames nxt (trail ++ [nxt]) ({[nxt]} ∪ seen) out)
        (λ _, [])); [|done..|].
      * f_equal. f_equal. by induction (filter _ _).
      * intros nxt c' _ Hc'. destruct frames as [|frames]; [lia|]. cbn [dfs].
        rewrite (proj2 (Z.ltb_lt _ _)) by (rewrite length_app; cbn; lia).
        unfold limited. rewrite app_nil_r, take_ge by lia. by rewrite (proj2 (Z.leb_gt _ _)).
  - destruct (decide (current = target)) as [->|Hne].
    + unfold limited. rewrite take_ge by (rewrite length_app; cbn; lia). done.
    + apply (dfs_loop max_paths
        (λ nxt out, dfs adj target max_paths max_depth frames nxt (trail ++ [nxt]) ({[nxt]} ∪ seen) out)
        (λ nxt, enum d nxt (trail ++ [nxt]) ({[nxt]} ∪ seen))); [done..|].
      intros nxt c' _ Hc'. apply IH; [done|lia|]. rewrite length_app. cbn. lia.
Qed.

Lemma enum_here d trail (seen : gset string) p : target ∈ seen →
  p ∈ [trail] ↔ ∃ q, p = trail ++ q ∧ walk (edge edges) target q target ∧ NoDup q ∧ (length q ≤ d)%nat ∧
    ∀ x, x ∈ q → x ∉ seen.
Proof.
  intros Ht. rewrite list_elem_of_singleton. split.
  - intros ->. exists []. rewrite app_nil_r. split_and!; [done|done|constructor|cbn; lia|set_solver].
  - intros ([|x q] & -> & Hw & _ & _ & Hq); [by rewrite app_nil_r|]. exfalso.
    destruct (Hq target); [|done]. eapply walk_arrives, Hw.
Qed.

Lemma enum_elem d current trail seen p : current ∈ seen →
  p ∈ enum d current trail seen ↔
  ∃ q, p = trail ++ q ∧ walk (edge edges) current q target ∧ NoDup q ∧ (length q ≤ d)%nat ∧
    ∀ x, x ∈ q → x ∉ seen.
Proof.
  revert current trail seen. induction d as [|d IH]; intros current trail seen Hcur; cbn [enum];
    (destruct (decide (current = target)) as [->|Hne]; [by apply enum_here|]).
  - split; [set_solver|]. intros ([|x q] & -> & Hw & _ & Hlen & _); [done|cbn in Hlen; lia].
  - rewrite list_elem_of_bind. split.
    + intros (x & Hp & [Hx Hs]%list_elem_of_filter). apply IH in Hp as (q & -> & Hw & Hnd & Hlen & Hq); [|set_solver].
      exists (x :: q). rewrite <- (assoc_L (++)). split; [done|]. split; [split; [by apply successors_spec|done]|].
      split; [constructor; set_solver|]. split; [cbn; lia|set_solver].
    + intros ([|x q] & -> & Hw & Hnd & Hlen & Hq); [done|]. destruct Hw as [He Hw].
      apply NoDup_cons in Hnd as [Hxq Hnd]. exists x. split.
      * apply IH; [set_solver|]. exists q. rewrite <- (assoc_L (++)). cbn in Hlen.
        split_and!; [done|done|done|lia|set_solver].
      * apply list_elem_of_filter. split; [set_solver|]. by apply successors_spec.
Qed.

Lemma enum_nodup d current trail seen : current ∈ seen → NoDup (enum d current trail seen).
Proof.
  revert current trail seen. induction d as [|d IH]; intros current trail seen Hcur; cbn [enum];
    (destruct (decide (current = target)) as [->|Hne]; [apply NoDup_singleton|]); [constructor|].
  apply NoDup_bind.
  - intros x y p _ _ Hx Hy. apply enum_elem in Hx as (q & -> & _); [|set_solver].
    apply enum_elem in Hy as (q' & Heq & _); [|set_solver].
    rewrite <- !(assoc_L (++)) in Heq. simplify_list_eq. done.
  - intros x _. apply IH. set_solver.
  - apply NoDup_filter, successors_nodup.
Qed.
(** ** Breadth-first search *)

Context (source : string) (max_depth : Z).

(** The search tree: every reached node but the source has a parent one level
    up, along an edge. *)
Record tree (s : Search) : Prop := {
  tree_source : s.(depth) !! source = Some 0;
  tree_root : s.(parents) !! source = None;
  tree_parent v p : s.(parents) !! v = Some p →
    ∃ d, s.(depth) !! p = Some d ∧ s.(depth) !! v = Some (d + 1) ∧ edge edges p v;
  tree_reached v : is_Some (s.(depth) !! v) → v = source ∨ is_Some (s.(parents) !! v);
  tree_visited v : v ∈ s.(visited) ↔ is_Some (s.(depth) !! v);
  tree_bound v d : s.(depth) !! v = Some d → 0 ≤ d ≤ max_depth;
}.

(** The loop invariant: the target is not reached, the queue holds two levels
    in order, and every reached node that is neither queued nor pending was
    expanded. *)
Record running (pending : string → Prop) (k : Z) (s : Search) : Prop := {
  run_tree : tree s;
  run_target : s.(depth) !! target = None;
  run_queue x : x ∈ s.(queue) → ∃ d, s.(depth) !! x = Some d ∧ k ≤ d ≤ k + 1;
  run_level v d : s.(depth) !! v = Some d → d ≤ k + 1;
  run_done v d : s.(depth) !! v = Some d → v ∉ s.(queue) → d ≤ k;
  run_sorted i j x y dx dy : (i < j)%nat → s.(queue) !! i = Some x → s.(queue) !! j = Some y →
    s.(depth) !! x = Some dx → s.(depth) !! y = Some dy → dx ≤ dy;
  run_nodup : NoDup s.(queue);
  run_closed u v d : s.(depth) !! u = Some d → u ∉ s.(queue) → ¬ pending u → d < max_depth →
    edge edges u v → ∃ d', s.(depth) !! v = Some d' ∧ d' ≤ d + 1;
}.

(** Nodes the search may still reach, and nodes it still has to expand. *)
Definition unvisited (s : Search) : gset string := list_to_set (omap e_to edges) ∖ s.(visited).
Definition work (s : Search) : nat := length s.(queue) + size (unvisited s).

(** Everything within [n] steps of the source has been reached once every node
    less than [n] deep was expanded. *)
Lemma reached_within pending k s n q v :
  running pending k s → n ≤ max_depth →
  (∀ u d, s.(depth) !! u = Some d → d < n → (u ∉ s.(queue)) ∧ ¬ pending u) →
  walk (edge edges) source q v → Z.of_nat (length q) ≤ n →
  ∃ d, s.(depth) !! v = Some d ∧ d ≤ Z.of_nat (length q).
Proof.
  intros Hr Hn Hexp. revert v. induction q as [|x q IH] using rev_ind; intros v Hw Hlen.
  - cbn in Hw. subst v. exists 0. split; [apply Hr|done].
  - rewrite length_app in *. cbn [length] in *. apply walk_snoc in Hw as (u & Hw & He & ->).
    destruct (IH u Hw) as (d & Hd & Hdl); [lia|]. destruct (Hexp u d Hd) as [? ?]; [lia|].
    destruct (run_closed _ _ _ Hr u v d) as (d' & Hd' & ?); [done..|lia|done|]. exists d'. split; [done|lia].
Qed.

Lemma tree_reach s nxt current d :
  tree s → s.(depth) !! current = Some d → s.(depth) !! nxt = None → d < max_depth →
  edge edges current nxt → tree (reach_node nxt current d s).
Proof.
  intros [H1 H2 H3 H4 H5 H6] Hd Hn Hlt He. assert (nxt ≠ source) by congruence.
  assert (0 ≤ d ≤ max_depth) by eauto.
  split; cbn.
  - by rewrite lookup_insert_ne.
  - by rewrite lookup_insert_ne.
  - intros v p [[-> ->]|[Hne Hp]]%lookup_insert_Some.
    + exists d. rewrite lookup_insert_ne by congruence. by rewrite lookup_insert_eq.
    + destruct (H3 v p Hp) as (dp & Hdp & Hdv & ?). exists dp.
      rewrite !lookup_insert_ne by congruence. done.
  - intros v. rewrite !lookup_insert_is_Some'. intros [->|Hv]; [auto|]. destruct (H4 v Hv); auto.
  - intros v. rewrite elem_of_union, elem_of_singleton, H5, lookup_insert_is_Some'. naive_solver.
  - intros v d' [[-> <-]|[Hne Hv]]%lookup_insert_Some; [lia|eauto].
Qed.

Lemma running_reach current k s nxt :
  running (eq current) k s → s.(depth) !! current = Some k → k < max_depth →
  s.(depth) !! nxt = None → nxt ≠ target → edge edges current nxt →
  running (eq current) k (with_queue (s.(queue) ++ [nxt]) (reach_node nxt current k s)).
Proof.
  intros Hr Hc Hk Hn Hnt He. pose proof (tree_reach s nxt current k (run_tree _ _ _ Hr) Hc Hn Hk He) as Ht.
  destruct Hr as [_ Htgt Hq Hlev Hdone Hsort Hnd Hcl]. split; cbn.
  - destruct Ht. by split.
  - by rewrite lookup_insert_ne.
  - intros x [Hx| ->%list_elem_of_singleton]%elem_of_app.
    + destruct (Hq x Hx) as (d & ? & ?). exists d. by rewrite lookup_insert_ne by congruence.
    + exists (k + 1). rewrite lookup_insert_eq. split; [done|lia].
  - intros v d [[-> <-]|[? ?]]%lookup_insert_Some; [lia|eauto].
  - intros v d [[-> <-]|[? ?]]%lookup_insert_Some; [set_solver|]. intros Hv. apply (Hdone v); set_solver.
  - intros i j x y dx dy Hij Hi Hj.
    assert (∀ z dz, <[nxt := k + 1]> (depth s) !! z = Some dz → dz ≤ k + 1) as Hle.
    { intros z dz [[-> <-]|[? ?]]%lookup_insert_Some; [lia|eauto]. }
    apply lookup_app_Some in Hj as [Hj|(Hlen & Hj)].
    + assert (i < length (queue s))%nat by (apply lookup_lt_Some in Hj; lia).
      rewrite lookup_app_l in Hi by done.
      destruct (Hq x) as (dx' & Hx & _); [by eapply list_elem_of_lookup_2|].
      destruct (Hq y) as (dy' & Hy & _); [by eapply list_elem_of_lookup_2|].
      rewrite !lookup_insert_ne by congruence. eauto.
    + apply list_lookup_singleton_Some in Hj as [_ <-]. rewrite lookup_insert_eq. intros Hdx [= <-]. eauto.
  - apply NoDup_app. split; [done|]. split; [|apply NoDup_singleton].
    intros x Hx ->%list_elem_of_singleton. destruct (Hq nxt Hx) as (? & ? & _). congruence.
  - intros u v d [[-> <-]|[? Hu]]%lookup_insert_Some; [set_solver|]. intros Hnq Hp Hd Huv.
    destruct (Hcl u v d) as (d' & Hd' & ?); [done|set_solver|done..|].
    exists d'. by rewrite lookup_insert_ne by congruence.
Qed.

Lemma work_reach s nxt current d :
  s.(depth) !! nxt = None → tree s → edge edges current nxt →
  work (with_queue (s.(queue) ++ [nxt]) (reach_node nxt current d s)) = work s.
Proof.
  intros Hn Ht (_ & _ & He). unfold work, unvisited. cbn. rewrite length_app. cbn.
  assert (nxt ∈ (list_to_set (omap e_to edges) : gset string) ∖ visited s) as Hin.
  { apply elem_of_difference. rewrite elem_of_list_to_set, list_elem_of_omap. split; [by eexists|].
    rewrite (tree_visited _ Ht), Hn. by intros [? ?]. }
  assert ((list_to_set (omap e_to edges) : gset string) ∖ visited s =
    {[nxt]} ∪ (list_to_set (omap e_to edges) ∖ ({[nxt]} ∪ visited s))) as ->.
  { apply set_eq. intros x. destruct (decide (x = nxt)); set_solver. }
  rewrite (size_union (C:=gset string) {[nxt]}), size_singleton by set_solver. lia.
Qed.

(** The target was found, at its distance. *)
Definition found (s : Search) : Prop :=
  tree s ∧ ∃ d, s.(depth) !! target = Some d ∧ is_Some (s.(parents) !! target) ∧
    ∀ q, walk (edge edges) source q target → d ≤ Z.of_nat (length q).

Lemma visit_next_spec current k nexts s :
  running (eq current) k s → s.(depth) !! current = Some k → current ∉ s.(queue) → k < max_depth →
  (∀ x, x ∈ nexts → edge edges current x) →
  let s' := visit_next target current k nexts s in
  (s'.(queue) = [] ∧ found s') ∨
  (running (eq current) k s' ∧ s'.(depth) !! current = Some k ∧ (current ∉ s'.(queue)) ∧ work s' = work s ∧
   ∀ x, x ∈ nexts → is_Some (s'.(depth) !! x)) ∧ (∀ x, is_Some (s.(depth) !! x) → is_Some (s'.(depth) !! x)).
Proof.
  revert s. induction nexts as [|nxt nexts IH]; intros s Hr Hc Hcq Hk Hn; cbn [visit_next].
  { right. split; [|done]. split_and!; [done..|set_solver]. }
  pose proof (run_tree _ _ _ Hr) as Ht.
  destruct (decide (nxt ∈ visited s)) as [Hv|Hv]; rewrite (tree_visited _ Ht) in Hv.
  { destruct (IH s) as [?|[(? & ? & ? & ? & Hin) Hmono]]; [done..|set_solver|by left|]. right. split; [|done].
    split_and!; [done..|]. intros x [->|Hx]%elem_of_cons; auto. }
  apply eq_None_not_Some in Hv.
  destruct (decide (nxt = target)) as [->|Hne].
  { left. split; [done|]. pose proof (tree_reach s target current k Ht Hc Hv Hk ltac:(set_solver)) as [].
    split; [by split|]. exists (k + 1). cbn. rewrite !lookup_insert_eq. split_and!; [done|by eexists|].
    intros q Hw. destruct (decide (Z.of_nat (length q) ≤ k)) as [Hle|]; [|lia].
    destruct (reached_within (eq current) k s k q target Hr) as (d & Hd & _); [lia| |done|done|congruence].
    intros u d Hd Hlt. split.
    - intros Hu. destruct (run_queue _ _ _ Hr u Hu) as (d' & ? & ?). simplify_eq. lia.
    - intros <-. simplify_eq. lia. }
  assert (current ≠ nxt) by congruence.
  destruct (IH (with_queue (queue s ++ [nxt]) (reach_node nxt current k s))) as [?|[(? & ? & ? & Hw & Hin) Hmono]].
  - apply running_reach; set_solver.
  - cbn. by rewrite lookup_insert_ne.
  - cbn. set_solver.
  - done.
  - set_solver.
  - by left.
  - right. split.
    + split_and!; [done..| |].
      * etrans; [exact Hw|]. apply work_reach; set_solver.
      * intros x [->|Hx]%elem_of_cons; [|auto]. apply Hmono. cbn. rewrite lookup_insert_eq. by eexists.
    + intros x Hx. apply Hmono. cbn. apply lookup_insert_is_Some'. by right.
Qed.
Lemma running_pop k s current rest d :
  running (λ _, False) k s → s.(queue) = current :: rest → s.(depth) !! current = Some d →
  running (eq current) d (with_queue rest s).
Proof.
  intros [Ht Htgt Hq Hlev Hdone Hsort Hnd Hcl] Hqueue Hd. rewrite Hqueue in *.
  assert (k ≤ d ≤ k + 1). { destruct (Hq current) as (d' & ? & ?); [set_solver|]. by simplify_eq. }
  split; cbn; rewrite ?Hqueue.
  - destruct Ht. by split.
  - done.
  - intros x Hx. destruct (Hq x) as (dx & Hdx & ?); [set_solver|]. exists dx. split; [done|].
    apply list_elem_of_lookup in Hx as [j Hj]. split; [|lia].
    by apply (Hsort 0%nat (S j) current x); [lia|..].
  - intros v dv Hv. apply Hlev in Hv. lia.
  - intros v dv Hv Hnv. destruct (decide (v = current)) as [->|]; [simplify_eq; lia|].
    assert (dv ≤ k) by (apply (Hdone v); [done|set_solver]). lia.
  - intros i j x y dx dy Hij Hi Hj. apply (Hsort (S i) (S j)); [lia|done..].
  - by apply NoDup_cons in Hnd as [_ ?].
  - intros u v du Hu Hnu Hp. apply Hcl; [done|set_solver|by intros []].
Qed.

Lemma running_expanded current k s :
  running (eq current) k s → s.(depth) !! current = Some k →
  (k < max_depth → ∀ v, edge edges current v → is_Some (s.(depth) !! v)) →
  running (λ _, False) k s.
Proof.
  intros [Ht Htgt Hq Hlev Hdone Hsort Hnd Hcl] Hc Hexp. split; [done..|].
  intros u v d Hu Hnq _ Hd He. destruct (decide (u = current)) as [->|Hne].
  - simplify_eq. destruct (Hexp Hd v He) as [d' Hd']. exists d'. split; [done|]. by apply (Hlev v).
  - apply (Hcl u v d); [done|done|congruence|done|done].
Qed.

(** Nothing within the depth limit leads to the target. *)
Definition unreachable (s : Search) : Prop :=
  s.(parents) !! target = None ∧ ∀ q, walk (edge edges) source q target → max_depth < Z.of_nat (length q).

Lemma bfs_stop fuel s : s.(queue) = [] → bfs adj target max_depth fuel s = Some s.
Proof. intros Hq. destruct fuel; cbn [bfs]; by rewrite Hq. Qed.

Lemma bfs_spec fuel k s :
  running (λ _, False) k s → (work s ≤ fuel)%nat →
  ∃ s', bfs adj target max_depth fuel s = Some s' ∧ (found s' ∨ unreachable s').
Proof.
  revert k s. induction fuel as [|fuel IH]; intros k s Hr Hw;
    (destruct (queue s) as [|current rest] eqn:Hq;
      [exists s; rewrite bfs_stop by done; split; [done|right]|]).
  1, 3: split;
    [apply eq_None_not_Some; intros [p Hp]; apply (tree_parent _ (run_tree _ _ _ Hr)) in Hp as (? & _ & Hd & _);
     by rewrite (run_target _ _ _ Hr) in Hd
    |intros q Hwalk; apply Z.nle_gt; intros Hle;
     destruct (reached_within (λ _, False) k s max_depth q target Hr) as (d & Hd & _);
       [lia|intros; rewrite Hq; set_solver|done|done|by rewrite (run_target _ _ _ Hr) in Hd]].
  { unfold work in Hw. rewrite Hq in Hw. cbn in Hw. lia. }
  cbn [bfs]. rewrite Hq. destruct (run_queue _ _ _ Hr current) as (d & Hd & _); [rewrite Hq; set_solver|].
  cbn [depth with_queue]. rewrite Hd. unfold default, id.
  pose proof (running_pop k s current rest d Hr Hq Hd) as Hp.
  assert (S (work (with_queue rest s)) = work s) as Hwork by (unfold work; rewrite Hq; done).
  pose proof (run_nodup _ _ _ Hr) as Hnd. rewrite Hq in Hnd. apply NoDup_cons in Hnd as [Hcr _].
  destruct (Z.leb_spec max_depth d) as [Hle|Hlt].
  - apply (IH d); [|lia]. eapply running_expanded; [done|done|lia].
  - pose proof (visit_next_spec current d (successors adj current) (with_queue rest s) Hp Hd Hcr Hlt) as Hv.
    destruct Hv as [[Hq' Hf]|[(Hr' & Hd' & _ & Hw' & Hall) _]].
    + intros x. by rewrite successors_spec.
    + eexists. rewrite bfs_stop by done. split; [done|by left].
    + apply (IH d); [|lia]. eapply running_expanded; [done|done|].
      intros _ v He. apply Hall. by apply successors_spec.
Qed.

(** Following the parents gives a walk of the node's depth. *)
Lemma walk_back_spec s d v node_path :
  tree s → s.(depth) !! v = Some (Z.of_nat d) → ∀ fuel, (d ≤ fuel)%nat →
  ∃ q r, walk_back s.(parents) fuel v node_path = Some (node_path ++ r) ∧
    reverse r ++ [v] = source :: q ∧ walk (edge edges) source q v ∧ length q = d.
Proof.
  intros Ht. revert v node_path. induction d as [|d IH]; intros v np Hd fuel Hf.
  - assert (parents s !! v = None) as Hnone.
    { apply eq_None_not_Some. intros [p Hp]. destruct (tree_parent _ Ht v p Hp) as (dp & Hdp & Hdv & _).
      assert (0 ≤ dp) by (by eapply tree_bound). simplify_eq. lia. }
    destruct (tree_reached _ Ht v) as [->|[? ?]]; [by eexists|..|congruence].
    exists [], []. rewrite app_nil_r. destruct fuel; cbn [walk_back]; by rewrite Hnone.
  - destruct (tree_reached _ Ht v) as [->|[p Hp]]; [by eexists|..].
    { rewrite (tree_source _ Ht) in Hd. simplify_eq. }
    destruct fuel as [|fuel]; [lia|]. cbn [walk_back]. rewrite Hp.
    destruct (tree_parent _ Ht v p Hp) as (dp & Hdp & Hdv & He). simplify_eq.
    assert (dp = Z.of_nat d) as -> by lia.
    destruct (IH p (np ++ [p]) Hdp fuel) as (q & r & Hwb & Hrev & Hw & Hlen); [lia|].
    exists (q ++ [v]), (p :: r). rewrite Hwb, <- (assoc_L (++)). split; [done|].
    rewrite reverse_cons, Hrev. split; [done|]. rewrite length_app, Hlen. cbn. split; [|lia].
    apply walk_snoc. by exists p.
Qed.

Lemma start_running :
  source ≠ target → 0 ≤ max_depth →
  running (λ _, False) 0 (mkSearch [source] ∅ {[source]} {[source := 0]}).
Proof.
  intros Hst Hmd.
  assert (∀ v d, ({[source := 0]} : gmap string Z) !! v = Some d → v = source ∧ d = 0) as Hone.
  { intros v d [? ?]%lookup_singleton_Some. done. }
  split; cbn.
  - split; cbn.
    + by rewrite lookup_singleton_eq.
    + done.
    + intros v p. by rewrite lookup_empty.
    + intros v [d [-> _]%Hone]. by left.
    + intros v. rewrite elem_of_singleton, lookup_singleton_is_Some. naive_solver.
    + intros v d [_ ->]%Hone. lia.
  - by rewrite lookup_singleton_ne.
  - intros x ->%list_elem_of_singleton. exists 0. rewrite lookup_singleton_eq. split; [done|lia].
  - intros v d [_ ->]%Hone. lia.
  - intros v d [-> ->]%Hone. set_solver.
  - intros i j x y dx dy Hij Hi Hj. apply list_lookup_singleton_Some in Hj as [-> _]. lia.
  - apply NoDup_singleton.
  - intros u v d [-> ->]%Hone. set_solver.
Qed.

Lemma start_work : (work (mkSearch [source] ∅ {[source]} {[source := 0%Z]}) ≤ S (length edges))%nat.
Proof.
  unfold work, unvisited. cbn. apply le_n_S. transitivity (size (list_to_set (omap e_to edges) : gset string)).
  - apply subseteq_size. set_solver.
  - transitivity (length (omap e_to edges)).
    + apply size_list_to_set_le.
    + induction edges as [|[f [t|]] l IH]; cbn; lia.
Qed.
End search.

(** ** Properties *)

Section properties.
Context {O : SetOrder} {L : SetOrderLaws O}.

Lemma clamp_bounds hi n : 1 ≤ hi → 1 ≤ clamp hi n ≤ hi.
Proof. unfold clamp. lia. Qed.

Lemma shortest_path_spec (edges : list Edge) (source target : string) (max_paths max_depth : Z) :
  ∃ r, find_paths_in_edges edges source target "shortest" max_paths max_depth = Some (Ok r) ∧
    r.(r_truncated) = false ∧ r.(r_path_count) = Z.of_nat (length r.(r_paths)) ∧
    ((∃ q, r.(r_paths) = [(source :: q, edge_path (source :: q))] ∧ walk (edge edges) source q target ∧
        Z.of_nat (length q) ≤ clamp 64 max_depth ∧
        ∀ q', walk (edge edges) source q' target → (length q ≤ length q')%nat) ∨
     (r.(r_paths) = [] ∧
        ∀ q, walk (edge edges) source q target → clamp 64 max_depth < Z.of_nat (length q))).
Proof.
  unfold find_paths_in_edges. rewrite decide_True by set_solver.
  pose proof (clamp_bounds 64 max_depth ltac:(lia)) as Hmd. set (md := clamp 64 max_depth) in *.
  destruct (decide (source = target)) as [->|Hst].
  { eexists. split; [done|]. split; [done|]. split; [done|]. left. exists []. cbn. split_and!; [done..|lia|lia]. }
  rewrite decide_True by done.
  destruct (bfs_spec edges target source md (S (length edges)) 0 _ (start_running edges target source md Hst
    ltac:(lia)) (start_work edges source)) as (s & -> & Hs).
  cbn [mbind option_bind]. destruct Hs as [[Ht (d & Hd & Hp & Hmin)]|[Hp Hfar]].
  - rewrite decide_True by done. pose proof (tree_bound _ _ _ _ Ht target d Hd) as Hb.
    destruct (walk_back_spec edges source md s (Z.to_nat d) target [target] Ht) with (fuel := Z.to_nat md)
      as (q & r & -> & Hrev & Hw & Hlen); [by rewrite Z2Nat.id by lia|lia|].
    cbn [mbind option_bind]. eexists. split; [done|]. split; [done|]. split; [done|]. left. exists q.
    cbn [r_paths fmap list_fmap]. change ([target] ++ r) with (target :: r).
    rewrite reverse_cons, Hrev. split; [done|]. split; [done|]. split; [lia|].
    intros q' Hq'. apply Hmin in Hq'. lia.
  - rewrite decide_False by (rewrite Hp; by intros [? ?]).
    eexists. split; [done|]. split; [done|]. split; [done|]. right. split; [done|]. exact Hfar.
Qed.

Lemma all_paths_spec (edges : list Edge) (source target : string) (max_paths max_depth : Z) :
  ∃ r, find_paths_in_edges edges source target "all" max_paths max_depth = Some (Ok r) ∧
    r.(r_path_count) = Z.of_nat (length r.(r_paths)) ∧ NoDup r.(r_paths).*1 ∧
    (∀ p es, (p, es) ∈ r.(r_paths) →
       es = edge_path p ∧ simple_path edges source target (clamp 64 max_depth) p) ∧
    (source ≠ target → r.(r_truncated) = bool_decide (r.(r_path_count) = clamp 200 max_paths)) ∧
    (r.(r_truncated) = false →
       ∀ p, simple_path edges source target (clamp 64 max_depth) p → p ∈ r.(r_paths).*1) ∧
    ∀ mode, mode ∉ ["shortest"; "all"]%string →
      find_paths_in_edges edges source target mode max_paths max_depth = Some (Raise ValueError).
Proof.
  unfold find_paths_in_edges. rewrite decide_True by set_solver.
  pose proof (clamp_bounds 64 max_depth ltac:(lia)) as Hmd. set (md := clamp 64 max_depth) in *.
  pose proof (clamp_bounds 200 max_paths ltac:(lia)) as Hmp. set (mp := clamp 200 max_paths) in *.
  assert (∀ l : list (list string), ((λ p, (p, edge_path p)) <$> l).*1 = l) as Hfst.
  { intros l. rewrite <- list_fmap_compose. apply list_fmap_id. }
  destruct (decide (source = target)) as [->|Hst].
  { eexists. split; [done|]. cbn. split_and!; [done|apply NoDup_singleton| |done| |].
    - intros p es [= -> ->]%list_elem_of_singleton. split; [done|]. exists [].
      split_and!; [done|done|apply NoDup_singleton|cbn; lia].
    - intros _ p ([|x q] & -> & Hw & Hnd & _); [set_solver|]. exfalso. apply NoDup_cons in Hnd as [Hn _].
      apply Hn. by eapply walk_arrives.
    - intros mode Hmode. by rewrite decide_False. }
  rewrite decide_False by done.
  rewrite (dfs_enum edges target mp md (Z.to_nat md)) by (cbn; lia).
  cbn [mbind option_bind limited app]. set (found := enum edges target (Z.to_nat md) source [source] {[source]}).
  assert (∀ p, p ∈ found ↔ simple_path edges source target md p) as Hfound.
  { intros p. unfold found. rewrite enum_elem by set_solver. unfold simple_path. split.
    - intros (q & -> & Hw & Hnd & Hlen & Hq). exists q. split; [done|]. split; [done|]. split; [|lia].
      apply NoDup_cons. set_solver.
    - intros (q & -> & Hw & Hnd & Hlen). apply NoDup_cons in Hnd as [Hn Hnd]. exists q.
      split_and!; [done|done|done|lia|set_solver]. }
  assert (NoDup found) as Hnd by (apply enum_nodup; set_solver).
  eexists. split; [done|]. cbn [r_path_count r_paths r_truncated]. rewrite !Hfst, length_fmap, length_take.
  split_and!; [done| | | | |].
  - by apply (sublist_NoDup _ found), sublist_take.
  - intros p es Hp. apply list_elem_of_fmap in Hp as (p' & [= -> ->] & Hp). split; [done|]. apply Hfound.
    rewrite <- (take_drop (Z.to_nat mp) found). apply elem_of_app. by left.
  - intros _. destruct (Z.leb_spec mp (Z.of_nat (length found))); symmetry;
      [apply bool_decide_eq_true|apply bool_decide_eq_false]; lia.
  - intros Hlt%Z.leb_gt p Hp. rewrite take_ge by lia. by apply Hfound.
  - intros mode Hmode. by rewrite decide_False.
Qed.
(** Every reported path is a walk from source to target. *)
Lemma find_paths_walk edges source target mode max_paths max_depth r p es :
  find_paths_in_edges edges source target mode max_paths max_depth = Some (Ok r) →
  (p, es) ∈ r.(r_paths) → ∃ q, p = source :: q ∧ walk (edge edges) source q target.
Proof.
  intros Hr Hp. destruct (decide (mode = "shortest")) as [->|Hs].
  { destruct (shortest_path_spec edges source target max_paths max_depth) as (r' & Hr' & _ & _ & Hcase).
    rewrite Hr in Hr'. simplify_eq. destruct Hcase as [(q & Hq & Hw & _)|[Hq _]]; rewrite Hq in Hp; [|set_solver].
    apply list_elem_of_singleton in Hp as [= -> ->]. by exists q. }
  destruct (all_paths_spec edges source target max_paths max_depth) as (r' & Hr' & _ & _ & Hall & _ & _ & Hbad).
  destruct (decide (mode = "all")) as [->|Ha].
  - rewrite Hr in Hr'. simplify_eq. destruct (Hall p es Hp) as [_ (q & -> & Hw & _)]. by exists q.
  - rewrite Hbad in Hr by set_solver. done.
Qed.

Lemma find_paths_total edges source target mode max_paths max_depth :
  ∃ r, find_paths_in_edges edges source target mode max_paths max_depth = Some r ∧
    ∀ e, r = Raise e → e = ValueError ∧ mode ∉ ["shortest"; "all"]%string.
Proof.
  destruct (shortest_path_spec edges source target max_paths max_depth) as (r1 & Hr1 & _).
  destruct (all_paths_spec edges source target max_paths max_depth) as (r2 & Hr2 & _ & _ & _ & _ & _ & Hbad).
  destruct (decide (mode = "shortest")) as [->|Hs]; [by exists (Ok r1)|].
  destruct (decide (mode = "all")) as [->|Ha]; [by exists (Ok r2)|].
  exists (Raise ValueError). rewrite Hbad by set_solver. split; [done|]. intros e [= <-]. set_solver.
Qed.

(** C33: the shortest-path query returns, and is right: with [mode] "shortest"
    the answer is either one path from source to target along the given edges,
    of at most [max_depth] (clamped to 1..64) edges and no longer than any
    other walk between them, or no path, and then every walk from source to
    target is longer than the limit.  It never reports truncation. *)
Theorem shortest_path_correct (edges : list Edge) (source target : string) (max_paths max_depth : Z) :
  ∃ r, find_paths_in_edges edges source target "shortest" max_paths max_depth = Some (Ok r) ∧
    r.(r_truncated) = false ∧ r.(r_path_count) = Z.of_nat (length r.(r_paths)) ∧
    ((∃ q, r.(r_paths) = [(source :: q, edge_path (source :: q))] ∧ walk (edge edges) source q target ∧
        Z.of_nat (length q) ≤ clamp 64 max_depth ∧
        ∀ q', walk (edge edges) source q' target → (length q ≤ length q')%nat) ∨
     (r.(r_paths) = [] ∧
        ∀ q, walk (edge edges) source q target → clamp 64 max_depth < Z.of_nat (length q))).
Proof. apply shortest_path_spec. Qed.

(** The all-paths query returns, and is right: with [mode] "all" it lists
    distinct simple paths of at most [max_depth] edges (clamped to 1..64); when
    it does not report truncation it lists all of them, and it reports
    truncation exactly when it reached [max_paths] (clamped to 1..200).  Any
    other mode raises [ValueError]. *)
Theorem all_paths_correct (edges : list Edge) (source target : string) (max_paths max_depth : Z) :
  ∃ r, find_paths_in_edges edges source target "all" max_paths max_depth = Some (Ok r) ∧
    r.(r_path_count) = Z.of_nat (length r.(r_paths)) ∧ NoDup r.(r_paths).*1 ∧
    (∀ p es, (p, es) ∈ r.(r_paths) →
       es = edge_path p ∧ simple_path edges source target (clamp 64 max_depth) p) ∧
    (source ≠ target → r.(r_truncated) = bool_decide (r.(r_path_count) = clamp 200 max_paths)) ∧
    (r.(r_truncated) = false →
       ∀ p, simple_path edges source target (clamp 64 max_depth) p → p ∈ r.(r_paths).*1) ∧
    ∀ mode, mode ∉ ["shortest"; "all"]%string →
      find_paths_in_edges edges source target mode max_paths max_depth = Some (Raise ValueError).
Proof. apply all_paths_spec. Qed.
End properties.

(** ** Witnesses *)

Definition elements_order : SetOrder := {| set_order := elements |}.
Lemma elements_order_laws : SetOrderLaws elements_order.
Proof. split. done. Qed.

(** Two ways from "a" to "d". *)
Definition diamond : list Edge :=
  (λ e, mkEdge (Some e.1) (Some e.2)) <$> [("a", "b"); ("a", "c"); ("b", "d"); ("c", "d")]%string.

Lemma diamond_walk : walk (edge diamond) "a" ["b"; "d"]%string "d".
Proof. repeat split; try done; unfold diamond; set_solver. Qed.

Lemma shortest_path_correct_witness :
  ∃ r, find_paths_in_edges (H := elements_order) diamond "a" "d" "shortest" 25 16 = Some (Ok r) ∧ r.(r_path_count) = 1.
Proof.
  destruct (shortest_path_correct (O := elements_order) (L := elements_order_laws) diamond "a" "d" 25 16)
    as (r & Hr & _ & Hcount & [(q & Hp & _)|[_ Hnone]]).
  - exists r. split; [exact Hr|]. by rewrite Hcount, Hp.
  - specialize (Hnone _ diamond_walk). vm_compute in Hnone. discriminate.
Defined.

Lemma all_paths_correct_witness :
  ∃ r, find_paths_in_edges (H := elements_order) diamond "a" "d" "all" 25 16 = Some (Ok r) ∧
    (r.(r_truncated) = false → ["a"; "b"; "d"]%string ∈ r.(r_paths).*1).
Proof.
  destruct (all_paths_correct (O := elements_order) (L := elements_order_laws) diamond "a" "d" 25 16)
    as (r & Hr & _ & _ & _ & _ & Hall & _).
  exists r. split; [exact Hr|]. intros Ht. apply (Hall Ht). exists ["b"; "d"]%string.
  split; [done|]. split; [exact diamond_walk|]. split; [|vm_compute; discriminate].
  repeat constructor; set_solver.
Defined.
