(* ===== verification/Database.v ===== *)
(** * The TrustDocs database ([trustdocs/database.py],
      [coc_framework/interfaces/postgres_backend.py])

    A table is the list of its rows in insertion order; the query helpers are
    the SQL statements they send: equality conditions joined by AND, an ORDER
    BY on [created_at], a LIMIT.  [SELECT ... LIMIT 1] without an order returns
    some matching row: [pick_row].  A violated key raises [DatabaseError].
    Identifiers drawn by [uuid4] and clock readings are arguments.  The
    in-memory fallback answers the same queries on the same rows for the tables
    it has; it lacks the three tables of the graph backend ([fallback_tables]). *)

From Stdlib Require Import ZArith Lia String.
From stdpp Require Import sorting.
From S2P Require Import Prelude PyData DateTime Crypto CoCNode Storage.

(** Which row an unordered [LIMIT 1] returns. *)
Class PickRow := { pick_row : ∀ {A : Type}, list A → option A }.
Class PickRowLaws (P : PickRow) := {
  pick_row_elem {A} (l : list A) x : pick_row l = Some x → x ∈ l;
  pick_row_None {A} (l : list A) : pick_row l = None → l = [];
}.

(** ** Query helpers *)

Section helpers.
Context {P : PickRow} {A : Type}.
Implicit Types (table : list A).

Definition find_one (cond : A → bool) table : option A := pick_row (List.filter cond table).

Definition by_key (key : A → Z) (x y : A) : Prop := key x ≤ key y.
#[global] Instance by_key_dec key x y : Decision (by_key key x y).
Proof. unfold by_key. apply _. Defined.

Definition find_many (order_by : A → Z) (limit : nat) (cond : A → bool) table : list A :=
  take limit (merge_sort (by_key order_by) (List.filter cond table)).

Definition update_one (id_of : A → string) (row_id : string) (updates : A → A) table : list A :=
  (λ row, if decide (id_of row = row_id) then updates row else row) <$> table.

Definition delete_one (id_of : A → string) (row_id : string) table : bool * list A :=
  (existsb (λ row, bool_decide (id_of row = row_id)) table,
   List.filter (λ row, negb (bool_decide (id_of row = row_id))) table).

Definition delete_where (cond : A → bool) table : Z * list A :=
  (Z.of_nat (length (List.filter cond table)), List.filter (λ row, negb (cond row)) table).

(** [clashes] are the unique keys of the table. *)
Definition insert_row (clashes : A → A → bool) (row : A) table : result (list A) :=
  if existsb (clashes row) table then Raise DatabaseError else Ok (table ++ [row]).
End helpers.

(** The default of [find_many]. *)
Definition LIMIT : nat := 100.

(** ** Rows *)

Record UserRow := mkUser {
  u_id : string;
  u_username : string;
  u_email : string;
  u_password_hash : string;
  u_encrypted_signing_key : bytes;
  u_verify_key_hex : string;
  u_peer_id : string;
  u_node_id : string;
  u_created_at : Z;
  u_last_seen_at : Z;
}.

Record SessionRow := mkSession {
  se_id : string;
  se_user_id : string;
  se_token_hash : string;
  se_expires_at : Z;
  se_created_at : Z;
}.

Record DocumentRow := mkDoc {
  dc_id : string;
  dc_owner_id : string;
  dc_filename : string;
  dc_mime_type : string;
  dc_size_bytes : Z;
  dc_storage_path : string;
  dc_storage_node : string;
  dc_content_hash : string;
  dc_coc_node_hash : string;
  dc_status : string;
  dc_created_at : Z;
  dc_deleted_at : option Z;
  dc_recycled_at : option Z;
}.

Record ShareRow := mkShareRow {
  fs_id : string;
  fs_document_id : string;
  fs_owner_id : string;
  fs_recipient_id : string;
  fs_child_coc_node_hash : string;
  fs_status : string;
  fs_created_at : Z;
  fs_revoked_at : option Z;
  fs_suspended_at : option Z;
}.

Record MessageRow := mkMessageRow {
  ms_id : string;
  ms_document_id : string;
  ms_sender_id : string;
  ms_body : string;
  ms_parent_message_id : option string;
  ms_is_pinned : bool;
  ms_created_at : Z;
}.

Record NodeRow := mkNodeRow {
  nr_node_hash : string;
  nr_content_hash : string;
  nr_parent_hash : option string;
  nr_owner_peer_id : string;
  nr_signature : option string;
  nr_depth : Z;
  nr_schema_version : Z;
  nr_created_at : Z;
}.

Record TombstoneRow := mkTombRow {
  tr_content_hash : string;
  tr_deleted_at : Z;
  tr_delete_after : Z;
  tr_originator_id : string;
  tr_node_hash : string;
}.

(** One call of the file log's [log_event]. *)
Record LogCall := mkLogCall {
  lc_event : string;
  lc_actor : string;
  lc_target : string;
  lc_details : string;
}.

(** The state of the service: the database, the stored files, the audit events
    and the watermark engine's known peers. *)
Record DB := mkDB {
  users : list UserRow;
  sessions : list SessionRow;
  documents : list DocumentRow;
  file_shares : list ShareRow;
  messages : list MessageRow;
  coc_nodes : list NodeRow;
  coc_recipients : list (string * string);
  tombstones : list TombstoneRow;
  files : gmap string bytes;
  audit_log : list LogCall;
  stegano_peers : list pystr;
}.

Definition set_users (f : list UserRow → list UserRow) (d : DB) : DB :=
  mkDB (f d.(users)) d.(sessions) d.(documents) d.(file_shares) d.(messages) d.(coc_nodes)
    d.(coc_recipients) d.(tombstones) d.(files) d.(audit_log) d.(stegano_peers).
Definition set_sessions (f : list SessionRow → list SessionRow) (d : DB) : DB :=
  mkDB d.(users) (f d.(sessions)) d.(documents) d.(file_shares) d.(messages) d.(coc_nodes)
    d.(coc_recipients) d.(tombstones) d.(files) d.(audit_log) d.(stegano_peers).
Definition set_documents (f : list DocumentRow → list DocumentRow) (d : DB) : DB :=
  mkDB d.(users) d.(sessions) (f d.(documents)) d.(file_shares) d.(messages) d.(coc_nodes)
    d.(coc_recipients) d.(tombstones) d.(files) d.(audit_log) d.(stegano_peers).
Definition set_shares (f : list ShareRow → list ShareRow) (d : DB) : DB :=
  mkDB d.(users) d.(sessions) d.(documents) (f d.(file_shares)) d.(messages) d.(coc_nodes)
    d.(coc_recipients) d.(tombstones) d.(files) d.(audit_log) d.(stegano_peers).
Definition set_messages (f : list MessageRow → list MessageRow) (d : DB) : DB :=
  mkDB d.(users) d.(sessions) d.(documents) d.(file_shares) (f d.(messages)) d.(coc_nodes)
    d.(coc_recipients) d.(tombstones) d.(files) d.(audit_log) d.(stegano_peers).
Definition set_graph (n : list NodeRow) (r : list (string * string)) (d : DB) : DB :=
  mkDB d.(users) d.(sessions) d.(documents) d.(file_shares) d.(messages) n r d.(tombstones)
    d.(files) d.(audit_log) d.(stegano_peers).
Definition set_tombstones (f : list TombstoneRow → list TombstoneRow) (d : DB) : DB :=
  mkDB d.(users) d.(sessions) d.(documents) d.(file_shares) d.(messages) d.(coc_nodes)
    d.(coc_recipients) (f d.(tombstones)) d.(files) d.(audit_log) d.(stegano_peers).
Definition set_files (f : gmap string bytes → gmap string bytes) (d : DB) : DB :=
  mkDB d.(users) d.(sessions) d.(documents) d.(file_shares) d.(messages) d.(coc_nodes)
    d.(coc_recipients) d.(tombstones) (f d.(files)) d.(audit_log) d.(stegano_peers).
Definition log_event (event actor target details : string) (d : DB) : DB :=
  mkDB d.(users) d.(sessions) d.(documents) d.(file_shares) d.(messages) d.(coc_nodes)
    d.(coc_recipients) d.(tombstones) d.(files) (d.(audit_log) ++ [mkLogCall event actor target details])
    d.(stegano_peers).
Definition set_stegano (k : list pystr) (d : DB) : DB :=
  mkDB d.(users) d.(sessions) d.(documents) d.(file_shares) d.(messages) d.(coc_nodes)
    d.(coc_recipients) d.(tombstones) d.(files) d.(audit_log) k.

(** The tables of the in-memory fallback. *)
Definition fallback_tables : list string :=
  ["users"; "documents"; "file_shares"; "messages"; "sessions"; "boardrooms"; "boardroom_members";
   "boardroom_proposals"; "shamir_shares"].

(** ** [PostgresStorageBackend] *)

(** [INSERT ... ON CONFLICT DO NOTHING] for the node and each recipient; a time
    stamp that does not parse raises, and every exception is logged and
    dropped. *)
Definition pg_add_node (n : CoCNode) (d : DB) : DB :=
  match fromisoformat n.(timestamp) with
  | None => d
  | Some ts =>
      let row := mkNodeRow n.(node_hash) n.(content_hash) n.(parent_hash) n.(owner_id)
        (match n.(signature) with None | Some [] => None | Some sig => Some (hex_of sig) end)
        n.(depth) n.(schema_version) ts in
      let nodes := if existsb (λ r, bool_decide (r.(nr_node_hash) = n.(node_hash))) d.(coc_nodes)
                   then d.(coc_nodes) else d.(coc_nodes) ++ [row] in
      let add recipients pid :=
        if decide ((n.(node_hash), pid) ∈ recipients) then recipients
        else recipients ++ [(n.(node_hash), pid)] in
      set_graph nodes (foldl add d.(coc_recipients) n.(recipient_ids)) d
  end.

(** The dictionary [get_node] builds: recipients and children by query. *)
Definition pg_node_dict (d : DB) (row : NodeRow) : NodeDict :=
  mkNodeDict (Some row.(nr_schema_version)) (Some row.(nr_node_hash)) (Some row.(nr_content_hash))
    row.(nr_parent_hash) (Some row.(nr_owner_peer_id))
    (Some (List.filter (λ r, bool_decide (r.1 = row.(nr_node_hash))) d.(coc_recipients)).*2)
    (Some (isoformat row.(nr_created_at)))
    (Some (nr_node_hash <$> List.filter (λ r, bool_decide (r.(nr_parent_hash) = Some row.(nr_node_hash)))
             d.(coc_nodes)))
    (Some row.(nr_depth)) row.(nr_signature).

Definition pg_get_node `{PickRow} (node_hash : string) (d : DB) : result (option CoCNode) :=
  match find_one (λ r, bool_decide (r.(nr_node_hash) = node_hash)) d.(coc_nodes) with
  | None => Ok None
  | Some row => Some <$> from_dict (pg_node_dict d row)
  end.

Definition pg_get_all_nodes `{PickRow} (d : DB) : result (list CoCNode) :=
  nodes ← mapR (λ row, pg_get_node row.(nr_node_hash) d)
            (merge_sort (by_key nr_created_at) d.(coc_nodes));
  Ok (omap (λ n : option CoCNode, n) (nodes : list (option CoCNode))).

Definition pg_add_tombstone (ts : ContentTombstone) (d : DB) : DB :=
  match fromisoformat ts.(ts_deleted_at), fromisoformat ts.(ts_delete_after) with
  | Some deleted, Some after =>
      if existsb (λ r, bool_decide (r.(tr_content_hash) = ts.(ts_content_hash))) d.(tombstones) then d
      else set_tombstones (λ t, t ++ [mkTombRow ts.(ts_content_hash) deleted after ts.(ts_originator_id)
                                        ts.(ts_node_hash)]) d
  | _, _ => d
  end.

Definition pg_get_tombstone `{PickRow} (c : string) (d : DB) : option ContentTombstone :=
  r ← find_one (λ r, bool_decide (r.(tr_content_hash) = c)) d.(tombstones);
  Some (mkTombstone r.(tr_content_hash) (isoformat r.(tr_deleted_at)) (isoformat r.(tr_delete_after))
          r.(tr_originator_id) r.(tr_node_hash)).

(** ** Facts about the helpers *)

Section facts.
Context {P : PickRow} {L : PickRowLaws P} {A : Type}.
Implicit Types (table : list A).

Lemma elem_of_filterb (cond : A → bool) table x : x ∈ List.filter cond table ↔ cond x = true ∧ x ∈ table.
Proof. rewrite !list_elem_of_In, List.filter_In. tauto. Qed.

Lemma find_one_Some cond table x : find_one cond table = Some x → cond x = true ∧ x ∈ table.
Proof. intros Hx%pick_row_elem. by apply elem_of_filterb. Qed.

Lemma find_one_None cond table : find_one cond table = None ↔ ∀ x, x ∈ table → cond x = false.
Proof.
  unfold find_one. split.
  - intros Hn%pick_row_None x Hx. destruct (cond x) eqn:Hc; [|done].
    assert (x ∈ List.filter cond table) as Hin by (by apply elem_of_filterb). rewrite Hn in Hin. set_solver.
  - intros Hc. destruct (pick_row _) as [x|] eqn:Hx; [|done].
    apply find_one_Some in Hx as [Ht Hin]. by rewrite Hc in Ht.
Qed.

Lemma find_many_elem order_by limit cond table x :
  x ∈ find_many order_by limit cond table → cond x = true ∧ x ∈ table.
Proof.
  intros Hx. apply elem_of_filterb. rewrite <- (merge_sort_Permutation (by_key order_by)).
  unfold find_many in Hx. rewrite <- (take_drop limit (merge_sort _ _)). apply elem_of_app. by left.
Qed.

Lemma length_sorted order_by (rows : list A) : length (merge_sort (by_key order_by) rows) = length rows.
Proof. by rewrite (merge_sort_Permutation _). Qed.

(** A query that returns fewer rows than its limit returns all of them. *)
Lemma find_many_all order_by limit cond table x :
  (length (List.filter cond table) ≤ limit)%nat → cond x = true → x ∈ table →
  x ∈ find_many order_by limit cond table.
Proof.
  intros Hlen Hc Hx. unfold find_many. rewrite take_ge by (by rewrite length_sorted).
  rewrite (merge_sort_Permutation _). by apply elem_of_filterb.
Qed.

Lemma find_many_length order_by limit cond table :
  length (find_many order_by limit cond table) = Nat.min limit (length (List.filter cond table)).
Proof. unfold find_many. by rewrite length_take, length_sorted. Qed.

Lemma update_one_elem (id_of : A → string) row_id updates table x :
  x ∈ update_one id_of row_id updates table ↔
  ∃ y, y ∈ table ∧ x = if decide (id_of y = row_id) then updates y else y.
Proof. unfold update_one. rewrite list_elem_of_fmap. naive_solver. Qed.
End facts.

Lemma insert_row_Ok {R} (clashes : R → R → bool) row (table t : list R) :
  insert_row clashes row table = Ok t → t = table ++ [row] ∧ ∀ x, x ∈ table → clashes row x = false.
Proof.
  unfold insert_row. destruct (existsb _ table) eqn:He; [done|]. intros [= <-]. split; [done|].
  intros x Hx. destruct (clashes row x) eqn:Hc; [|done].
  assert (existsb (clashes row) table = true); [|congruence].
  apply List.existsb_exists. exists x. by rewrite <- list_elem_of_In.
Qed.

(** The pick of the in-memory fallback: the first row. *)
Definition first_row : PickRow := {| pick_row A l := head l |}.
Lemma first_row_laws : PickRowLaws first_row.
Proof. split; intros A [|x l]; cbn; set_solver. Qed.
