(* ===== verification/Provenance.v ===== *)
(** * Provenance graphs ([trustdocs/trustflow_service.py])

    The graph queries of [TrustFlowService] over the PostgreSQL graph backend:
    the trace of one document, the graph a peer may see, and path queries
    restricted to them.  A stack is a list with its top first. *)

From Stdlib Require Import ZArith Lia String.
From stdpp Require Import sorting.
From S2P Require Import Prelude PyData DateTime Crypto CoCNode Storage Graph Database.

Definition map_result {A B} (f : A → B) (r : result A) : result B :=
  match r with Ok a => Ok (f a) | Raise e => Raise e end.

(** A node with what the user interface adds. *)
Record NodeView := mkView {
  nv_node : NodeDict;
  nv_owner_username : string;
  nv_is_online : bool;
  nv_filename : string;
}.

Definition presence_window : Z := 120 * 1000000.

(** [_augment_nodes]: the first hundred users and documents are consulted. *)
Definition augment_nodes `{PickRow} (now : Z) (nodes : list CoCNode) (d : DB) : list NodeView :=
  let user_map := dict_of ((λ u, (u.(u_peer_id), (u.(u_username), bool_decide (now - u.(u_last_seen_at) < presence_window))))
                             <$> find_many u_created_at LIMIT (λ _, true) d.(users)) in
  let doc_map := dict_of ((λ r, (r.(dc_coc_node_hash), r.(dc_filename)))
                            <$> find_many dc_created_at LIMIT (λ _, true) d.(documents)) in
  (λ n, let '(username, is_online) := default ("Unknown"%string, false) (user_map !! n.(owner_id)) in
        mkView (to_dict n) username is_online (default ""%string (doc_map !! n.(node_hash)))) <$> nodes.

Definition links `{SetOrder} (n : CoCNode) : list Edge :=
  (λ c, mkEdge (Some n.(node_hash)) (Some c)) <$> set_order n.(children_hashes).

(** The loop over a node's children: each child that is stored is pushed. *)
Fixpoint push_children (lookup : string → result (option CoCNode)) (children : list string)
    (stack : list CoCNode) : result (list CoCNode) :=
  match children with
  | [] => Ok stack
  | c :: children =>
      child ← lookup c;
      push_children lookup children (match child with Some n => n :: stack | None => stack end)
  end.

(** The state of a crawl: hashes seen, and the nodes and edges collected. *)
Record Crawl := mkCrawl {
  cr_seen : gset string;
  cr_nodes : list CoCNode;
  cr_edges : list Edge;
}.

Definition collect `{SetOrder} (n : CoCNode) (s : Crawl) : Crawl :=
  mkCrawl ({[n.(node_hash)]} ∪ s.(cr_seen)) (s.(cr_nodes) ++ [n]) (s.(cr_edges) ++ links n).

(** [while stack]; [None] when it does not end. *)
Fixpoint crawl `{SetOrder} (lookup : string → result (option CoCNode)) (fuel : nat) (stack : list CoCNode)
    (s : Crawl) : option (result Crawl) :=
  match stack with
  | [] => Some (Ok s)
  | n :: stack =>
      match fuel with
      | 0%nat => None
      | S fuel =>
          if decide (n.(node_hash) ∈ s.(cr_seen)) then crawl lookup fuel stack s
          else match push_children lookup (set_order n.(children_hashes)) stack with
               | Ok stack => crawl lookup fuel stack (collect n s)
               | Raise e => Some (Raise e)
               end
      end
  end.

Definition empty_crawl : Crawl := mkCrawl ∅ [] [].

Section service.
Context {P : PickRow} {O : SetOrder}.

(** [get_trace_for_document]. *)
Definition get_trace_for_document (now : Z) (root_hash : string) (d : DB)
    : option (result (list NodeView * list Edge)) :=
  match pg_get_node root_hash d with
  | Raise e => Some (Raise e)
  | Ok None => Some (Ok ([], []))
  | Ok (Some root) =>
      r ← crawl (λ h, pg_get_node h d) (S (length d.(coc_nodes))) [root] empty_crawl;
      Some (map_result (λ s, (augment_nodes now s.(cr_nodes) d, s.(cr_edges))) r)
  end.

(** [get_all_nodes]: the views, later ones replacing earlier ones of the same
    hash, and the parent links. *)
Definition get_all_nodes (now : Z) (d : DB) : result (gmap string NodeView * list Edge) :=
  nodes ← pg_get_all_nodes d;
  Ok (dict_of (zip (node_hash <$> nodes) (augment_nodes now nodes d)),
      omap (λ n, match n.(parent_hash) with
                 | None | Some ""%string => None
                 | Some p => Some (mkEdge (Some p) (Some n.(node_hash)))
                 end) nodes).

(** Climb to the topmost stored ancestor. *)
Fixpoint find_root (by_hash : gmap string CoCNode) (fuel : nat) (current : CoCNode) : option string :=
  match current.(parent_hash) ≫= (λ p, if decide (p = ""%string) then None else by_hash !! p) with
  | None => Some current.(node_hash)
  | Some parent =>
      match fuel with
      | 0%nat => None
      | S fuel => find_root by_hash fuel parent
      end
  end.

Definition visible_to (peer_id : string) (n : CoCNode) : bool :=
  bool_decide (n.(owner_id) = peer_id) || bool_decide (peer_id ∈ n.(recipient_ids)).

(** Step 3 of [get_graph_for_peer]: one crawl per root, sharing what was seen. *)
Fixpoint crawl_roots (by_hash : gmap string CoCNode) (fuel : nat) (roots : list string) (s : Crawl)
    : option (result Crawl) :=
  match roots with
  | [] => Some (Ok s)
  | root_hash :: roots =>
      match by_hash !! root_hash with
      | None => Some (Raise KeyError)
      | Some root =>
          r ← crawl (λ h, Ok (by_hash !! h)) fuel [root] s;
          match r with
          | Ok s => crawl_roots by_hash fuel roots s
          | Raise e => Some (Raise e)
          end
      end
  end.

(** [get_graph_for_peer] up to the augmentation; the edges are made unique and
    come in the order of a set. *)
Definition peer_graph (peer_id : string) (d : DB) : option (result (list CoCNode * list Edge)) :=
  match pg_get_all_nodes d with
  | Raise e => Some (Raise e)
  | Ok nodes =>
      let by_hash := dict_of ((λ n, (n.(node_hash), n)) <$> nodes) in
      roots ← mapM (find_root by_hash (length nodes)) (List.filter (visible_to peer_id) nodes);
      r ← crawl_roots by_hash (S (length d.(coc_nodes))) (set_order (list_to_set roots)) empty_crawl;
      Some (map_result (λ s, (s.(cr_nodes), remove_dups s.(cr_edges))) r)
  end.

Definition get_graph_for_peer (now : Z) (peer_id : string) (d : DB) : option (result (list NodeView * list Edge)) :=
  r ← peer_graph peer_id d;
  Some (map_result (λ '(nodes, edges), (augment_nodes now nodes d, edges)) r).

(** A path query on a graph; [Ok None] is the error
    "source_or_target_not_visible". *)
Definition graph_paths (graph : list NodeView * list Edge) (source target mode : string)
    (max_paths max_depth : Z) : option (result (option PathsResult)) :=
  let visible := (λ v, default ""%string v.(nv_node).(d_node_hash)) <$> graph.1 in
  if decide (source ∈ visible ∧ target ∈ visible) then
    r ← find_paths_in_edges graph.2 source target mode max_paths max_depth;
    Some (map_result Some r)
  else Some (Ok None).

Definition get_graph_paths_for_peer (now : Z) (peer_id source target mode : string)
    (max_paths max_depth : Z) (d : DB) : option (result (option PathsResult)) :=
  r ← get_graph_for_peer now peer_id d;
  match r with
  | Ok graph => graph_paths graph source target mode max_paths max_depth
  | Raise e => Some (Raise e)
  end.

Definition get_graph_paths_for_document (now : Z) (root_hash source target mode : string)
    (max_paths max_depth : Z) (d : DB) : option (result (option PathsResult)) :=
  r ← get_trace_for_document now root_hash d;
  match r with
  | Ok graph => graph_paths graph source target mode max_paths max_depth
  | Raise e => Some (Raise e)
  end.
End service.

(** ** Crawling *)

Section crawling.
Context {O : SetOrder} {OL : SetOrderLaws O}.
Context (store : string → option CoCNode) (univ : list string).
Context (store_key : ∀ h n, store h = Some n → n.(node_hash) = h).
Context (univ_nodup : NoDup univ) (univ_all : ∀ h, is_Some (store h) → h ∈ univ).

(** [b] is a stored child of the stored node [a]. *)
Definition child (a b : string) : Prop :=
  ∃ n, store a = Some n ∧ b ∈ n.(children_hashes) ∧ is_Some (store b).

Definition weight (h : string) : nat :=
  match store h with Some n => size n.(children_hashes) | None => 0 end.
Definition left_to_push (seen : gset string) : nat :=
  sum_list_with (λ h, if decide (h ∈ seen) then 0%nat else weight h) univ.

Record crawl_inv (stack : list CoCNode) (s : Crawl) : Prop := {
  ci_nodup : NoDup (node_hash <$> s.(cr_nodes));
  ci_seen h : h ∈ s.(cr_seen) ↔ h ∈ node_hash <$> s.(cr_nodes);
  ci_stored n : n ∈ s.(cr_nodes) → store n.(node_hash) = Some n;
  ci_edges : s.(cr_edges) = s.(cr_nodes) ≫= links;
  ci_closed a b : a ∈ s.(cr_seen) → child a b → b ∈ s.(cr_seen) ∨ b ∈ node_hash <$> stack;
}.

Lemma push_children_eq children stack :
  push_children (λ h, Ok (store h)) children stack = Ok (reverse (omap store children) ++ stack).
Proof.
  revert stack. induction children as [|c children IH]; intros stack; [done|].
  cbn [push_children mbind result_bind omap list_omap]. rewrite IH. destruct (store c); [|done].
  by rewrite reverse_cons, <- (assoc_L (++)).
Qed.

Lemma left_to_push_insert n seen :
  store n.(node_hash) = Some n → n.(node_hash) ∉ seen →
  left_to_push seen = (size n.(children_hashes) + left_to_push ({[n.(node_hash)]} ∪ seen))%nat.
Proof.
  intros Hn Hs. unfold left_to_push.
  assert (n.(node_hash) ∈ univ) as Hu by (apply univ_all; by eexists).
  apply list_elem_of_split in Hu as (l1 & l2 & ->).
  apply NoDup_app in univ_nodup as (_ & Hd & [Hn2 _]%NoDup_cons).
  assert (n.(node_hash) ∉ l1) as Hn1 by (intros Hx; apply (Hd _ Hx); set_solver).
  assert (∀ l, n.(node_hash) ∉ l →
    sum_list_with (λ h, if decide (h ∈ {[n.(node_hash)]} ∪ seen) then 0%nat else weight h) l =
    sum_list_with (λ h, if decide (h ∈ seen) then 0%nat else weight h) l) as Heq.
  { induction l as [|x l IH]; intros Hl; [done|]. cbn. rewrite IH by set_solver. f_equal.
    destruct (decide (x ∈ seen)); [by rewrite decide_True by set_solver|by rewrite decide_False by set_solver]. }
  rewrite !sum_list_with_app. cbn [sum_list_with]. rewrite !Heq by done.
  rewrite decide_False by done. rewrite decide_True by set_solver. unfold weight at 2. rewrite Hn. lia.
Qed.

Lemma length_omap_store l : (length (omap store l) ≤ length l)%nat.
Proof. induction l as [|x l IH]; cbn; [done|]. destruct (store x); cbn; lia. Qed.

Lemma crawl_inv_collect n stack s :
  crawl_inv (n :: stack) s → store n.(node_hash) = Some n → n.(node_hash) ∉ s.(cr_seen) →
  crawl_inv (reverse (omap store (set_order n.(children_hashes))) ++ stack) (collect n s).
Proof.
  intros [H1 H2 H3 H4 H5] Hn Hs. split; cbn.
  - rewrite fmap_app. apply NoDup_app. split; [done|]. split; [|apply NoDup_singleton].
    intros x Hx ->%list_elem_of_singleton. by apply H2 in Hx.
  - intros h. rewrite fmap_app, elem_of_app, elem_of_union, elem_of_singleton, H2. cbn. set_solver.
  - intros m [Hm| ->%list_elem_of_singleton]%elem_of_app; auto.
  - rewrite H4, bind_app. cbn. by rewrite app_nil_r.
  - intros a b [->%elem_of_singleton|Ha]%elem_of_union (m & Hm & Hb & [nb Hnb]).
    + simplify_eq. right. rewrite fmap_app, elem_of_app. left. rewrite fmap_reverse, elem_of_reverse.
      apply list_elem_of_fmap. exists nb. rewrite (store_key _ _ Hnb). split; [done|].
      apply list_elem_of_omap. exists b. rewrite (set_order_perm _), elem_of_elements. done.
    + destruct (H5 a b Ha) as [?|Hst]; [by exists m; eauto|set_solver|]. csimpl in Hst.
      apply elem_of_cons in Hst as [->|?]; [set_solver|]. right. rewrite fmap_app. set_solver.
Qed.

(** The crawl ends, and finds exactly what is reachable from the stack. *)
Lemma crawl_spec fuel stack s :
  (∀ n, n ∈ stack → store n.(node_hash) = Some n) → crawl_inv stack s →
  (length stack + left_to_push s.(cr_seen) ≤ fuel)%nat →
  ∃ s', crawl (λ h, Ok (store h)) fuel stack s = Some (Ok s') ∧ crawl_inv [] s' ∧
    s.(cr_seen) ⊆ s'.(cr_seen) ∧ (∀ n, n ∈ stack → n.(node_hash) ∈ s'.(cr_seen)) ∧
    ∀ h, h ∈ s'.(cr_seen) → h ∈ s.(cr_seen) ∨ ∃ n, n ∈ stack ∧ rtc child n.(node_hash) h.
Proof.
  revert stack s. induction fuel as [|fuel IH]; intros [|n stack] s Hst Hinv Hfuel; cbn [crawl];
    try (exists s; set_solver); [cbn in Hfuel; lia|].
  pose proof (Hst n ltac:(set_solver)) as Hn.
  destruct (decide (n.(node_hash) ∈ s.(cr_seen))) as [Hin|Hin].
  - destruct (IH stack s) as (s' & -> & Hi & Hsub & Hall & Hre); [set_solver| |cbn in Hfuel; lia|].
    { destruct Hinv as [H1 H2 H3 H4 H5]. split; [done..|]. intros a b Ha Hab.
      destruct (H5 a b Ha Hab) as [?|[->|?]%elem_of_cons]; auto. }
    exists s'. split; [done|]. split; [done|]. split; [done|]. split.
    + intros m [->|Hm]%elem_of_cons; [by apply Hsub|auto].
    + intros h [?|(m & ? & ?)]%Hre; [by left|right; exists m; set_solver].
  - rewrite push_children_eq. rewrite (left_to_push_insert n) in Hfuel by done. cbn [length] in Hfuel.
    destruct (IH (reverse (omap store (set_order n.(children_hashes))) ++ stack) (collect n s))
      as (s' & -> & Hi & Hsub & Hall & Hre).
    + intros m [Hm|Hm]%elem_of_app; [|set_solver]. rewrite elem_of_reverse in Hm.
      apply list_elem_of_omap in Hm as (h & _ & Hm). by rewrite (store_key _ _ Hm).
    + by apply crawl_inv_collect.
    + rewrite length_app, length_reverse. cbn [cr_seen collect].
      assert (length (omap store (set_order (children_hashes n))) ≤ size (children_hashes n))%nat; [|lia].
      transitivity (length (set_order (children_hashes n))); [apply length_omap_store|].
      by rewrite (set_order_perm _).
    + exists s'. cbn in Hsub. split; [done|]. split; [done|]. split; [set_solver|]. split.
      * intros m [->|Hm]%elem_of_cons; [set_solver|]. apply Hall. set_solver.
      * intros h [Hh|(m & Hm & Hrtc)]%Hre.
        -- cbn in Hh. apply elem_of_union in Hh as [->%elem_of_singleton|?]; [|by left]. right. exists n. set_solver.
        -- right. apply elem_of_app in Hm as [Hm|Hm]; [|exists m; set_solver]. exists n. split; [set_solver|].
           rewrite elem_of_reverse in Hm. apply list_elem_of_omap in Hm as (c & Hc & Hm).
           rewrite (set_order_perm _), elem_of_elements in Hc.
           eapply rtc_l; [|exact Hrtc]. exists n. rewrite (store_key _ _ Hm), Hm. eauto.
Qed.

Lemma left_to_push_le seen : (left_to_push seen ≤ left_to_push ∅)%nat.
Proof.
  unfold left_to_push. clear. induction univ as [|h hs IH]; cbn; [lia|].
  rewrite (decide_False (P := h ∈ ∅)) by set_solver. destruct (decide _); lia.
Qed.

Lemma empty_crawl_inv stack : crawl_inv stack empty_crawl.
Proof. clear store_key univ_nodup univ_all. split; cbn; try set_solver. constructor. Qed.

Lemma crawl_inv_stack stack stack' s :
  (∀ h, h ∈ node_hash <$> stack → h ∈ node_hash <$> stack') → crawl_inv stack s → crawl_inv stack' s.
Proof. intros Hs [H1 H2 H3 H4 H5]. split; [done..|]. intros a b Ha Hab. destruct (H5 a b Ha Hab); auto. Qed.

(** What a finished crawl found is closed under stored children. *)
Lemma crawl_inv_rtc s a b : crawl_inv [] s → a ∈ s.(cr_seen) → rtc child a b → b ∈ s.(cr_seen).
Proof.
  clear store_key univ_nodup univ_all OL. intros Hinv Ha. induction 1 as [|a c b Hac _ IH]; [done|]. apply IH.
  destruct (ci_closed _ _ Hinv a c Ha Hac); [done|set_solver].
Qed.
End crawling.

(** ** The stored graph *)

Section stored.
Context {P : PickRow} {PL : PickRowLaws P}.

(** What the keys of the table and the way rows are written guarantee. *)
Record graph_wf (d : DB) : Prop := {
  gw_keys : NoDup (nr_node_hash <$> d.(coc_nodes));
  gw_nonempty row : row ∈ d.(coc_nodes) → row.(nr_node_hash) ≠ ""%string;
  gw_decodes row : row ∈ d.(coc_nodes) → ∃ n, from_dict (pg_node_dict d row) = Ok n;
}.

Definition pg_store (d : DB) (h : string) : option CoCNode :=
  match pg_get_node h d with Ok o => o | Raise _ => None end.

(** [b] is stored with parent [a]. *)
Definition parent_link (d : DB) (a b : string) : Prop :=
  ∃ row, row ∈ d.(coc_nodes) ∧ row.(nr_node_hash) = b ∧ row.(nr_parent_hash) = Some a.

Context (d : DB) (Hwf : graph_wf d).

Lemma row_unique r1 r2 : r1 ∈ d.(coc_nodes) → r2 ∈ d.(coc_nodes) → r1.(nr_node_hash) = r2.(nr_node_hash) → r1 = r2.
Proof.
  intros H1 H2 Heq. apply list_elem_of_lookup in H1 as [i Hi]. apply list_elem_of_lookup in H2 as [j Hj].
  assert (i = j) as ->; [|congruence].
  eapply NoDup_lookup; [apply (gw_keys _ Hwf)|..]; rewrite list_lookup_fmap, ?Hi, ?Hj; [done|cbn; by rewrite Heq].
Qed.

Lemma from_dict_row row n : from_dict (pg_node_dict d row) = Ok n →
  n.(node_hash) = row.(nr_node_hash) ∧ n.(parent_hash) = row.(nr_parent_hash) ∧
  n.(children_hashes) = list_to_set (nr_node_hash <$>
    List.filter (λ r, bool_decide (r.(nr_parent_hash) = Some row.(nr_node_hash))) d.(coc_nodes)).
Proof.
  unfold from_dict, pg_node_dict. cbn [d_content_hash d_owner_id d_node_hash d_signature d_timestamp
    d_parent_hash d_children_hashes from_option_exn mbind result_bind default].
  destruct (match nr_signature row with Some _ => _ | None => _ end); cbn; [|done]. by intros [= <-].
Qed.

Lemma pg_get_node_row row : row ∈ d.(coc_nodes) →
  pg_get_node row.(nr_node_hash) d = Some <$> from_dict (pg_node_dict d row).
Proof.
  intros Hrow. unfold pg_get_node.
  destruct (find_one _ _) as [r|] eqn:Hf.
  - apply find_one_Some in Hf as [Hh%bool_decide_eq_true Hr]. by rewrite (row_unique r row Hr Hrow Hh).
  - eapply find_one_None in Hf; [|exact Hrow]. by rewrite bool_decide_eq_true_2 in Hf.
Qed.

Lemma pg_store_Some h n : pg_store d h = Some n ↔
  ∃ row, row ∈ d.(coc_nodes) ∧ row.(nr_node_hash) = h ∧ from_dict (pg_node_dict d row) = Ok n.
Proof.
  unfold pg_store. split.
  - destruct (pg_get_node h d) as [o|] eqn:Hg; [intros ->|done]. unfold pg_get_node in Hg.
    destruct (find_one _ _) as [r|] eqn:Hf; [|done]. apply find_one_Some in Hf as [Hh%bool_decide_eq_true Hr].
    exists r. destruct (from_dict _) as [m|]; cbn in Hg; naive_solver.
  - intros (row & Hrow & <- & Hn). by rewrite pg_get_node_row, Hn.
Qed.

Lemma pg_get_node_store h : pg_get_node h d = Ok (pg_store d h).
Proof.
  unfold pg_store. destruct (pg_get_node h d) as [o|e] eqn:Hg; [done|]. unfold pg_get_node in Hg.
  destruct (find_one _ _) as [r|] eqn:Hf; [|done]. apply find_one_Some in Hf as [_ Hr].
  destruct (gw_decodes _ Hwf r Hr) as [n Hn]. by rewrite Hn in Hg.
Qed.

Lemma pg_store_key h n : pg_store d h = Some n → n.(node_hash) = h.
Proof. intros (row & _ & <- & Hn)%pg_store_Some. by apply from_dict_row in Hn as [-> _]. Qed.

Lemma pg_store_is_Some h : is_Some (pg_store d h) ↔ h ∈ nr_node_hash <$> d.(coc_nodes).
Proof.
  rewrite list_elem_of_fmap. split.
  - intros [n (row & Hrow & <- & _)%pg_store_Some]. by exists row.
  - intros (row & -> & Hrow). destruct (gw_decodes _ Hwf row Hrow) as [n Hn]. exists n.
    apply pg_store_Some. by exists row.
Qed.

Lemma pg_children h n c : pg_store d h = Some n → c ∈ n.(children_hashes) ↔ parent_link d h c.
Proof.
  intros (row & Hrow & <- & Hn)%pg_store_Some. apply from_dict_row in Hn as (_ & _ & ->).
  rewrite elem_of_list_to_set, list_elem_of_fmap. unfold parent_link.
  setoid_rewrite elem_of_filterb. setoid_rewrite bool_decide_eq_true. naive_solver.
Qed.

Lemma pg_child a b : child (pg_store d) a b ↔ is_Some (pg_store d a) ∧ parent_link d a b.
Proof.
  unfold child. split.
  - intros (n & Hn & Hb & _). split; [by eexists|]. by rewrite <- (pg_children a n).
  - intros [[n Hn] Hl]. exists n. split; [done|]. split; [by rewrite (pg_children a n)|].
    destruct Hl as (row & Hrow & <- & _). apply pg_store_is_Some. by apply list_elem_of_fmap_2.
Qed.

Lemma sum_list_with_plus {A} (f g : A → nat) l :
  sum_list_with (λ x, f x + g x)%nat l = (sum_list_with f l + sum_list_with g l)%nat.
Proof. induction l as [|x l IH]; cbn; lia. Qed.

(** Each row is the child of at most one node: a crawl never pushes more nodes
    than there are rows. *)
Lemma pg_weight : (left_to_push (pg_store d) (nr_node_hash <$> d.(coc_nodes)) ∅ ≤ length d.(coc_nodes))%nat.
Proof.
  unfold left_to_push.
  assert (∀ rows hs, NoDup hs →
    (sum_list_with (λ h, length (List.filter (λ r, bool_decide (r.(nr_parent_hash) = Some h)) rows)) hs
     ≤ length rows)%nat) as Hcount.
  { intros rows hs Hnd. induction rows as [|r rows IH]; [clear; induction hs as [|h hs IH]; cbn in *; lia|].
    transitivity (sum_list_with (λ h, (if bool_decide (r.(nr_parent_hash) = Some h) then 1 else 0) +
      length (List.filter (λ r, bool_decide (r.(nr_parent_hash) = Some h)) rows))%nat hs).
    { clear. induction hs as [|h hs IH]; cbn in *; [lia|]. destruct (bool_decide _); cbn in *; lia. }
    assert (sum_list_with (λ h, if bool_decide (r.(nr_parent_hash) = Some h) then 1 else 0)%nat hs ≤ 1)%nat as H1.
    { clear IH. induction Hnd as [|h hs Hh Hnd IHh]; cbn; [lia|]. case_bool_decide as Hp; [|lia].
      assert (sum_list_with (λ h, if bool_decide (r.(nr_parent_hash) = Some h) then 1 else 0)%nat hs = 0)%nat; [|lia].
      clear IHh Hnd. induction hs as [|h' hs IHh]; [done|]. cbn.
      rewrite bool_decide_eq_false_2 by (rewrite Hp; set_solver). apply IHh. set_solver. }
    rewrite sum_list_with_plus. cbn [length]. lia. }
  etrans; [|apply (Hcount d.(coc_nodes) _ (gw_keys _ Hwf))].
  assert (∀ hs, (∀ h, h ∈ hs → h ∈ nr_node_hash <$> d.(coc_nodes)) →
    (sum_list_with (λ h, if decide (h ∈ (∅ : gset string)) then 0%nat else weight (pg_store d) h) hs ≤
     sum_list_with (λ h, length (List.filter (λ r, bool_decide (r.(nr_parent_hash) = Some h)) d.(coc_nodes))) hs)%nat)
    as Hle; [|by apply Hle].
  induction hs as [|h hs IH]; intros Hin; [done|]. cbn. rewrite decide_False by set_solver.
  apply Nat.add_le_mono; [|apply IH; set_solver]. unfold weight.
  destruct (pg_store d h) as [n|] eqn:Hn; [|lia]. apply pg_store_Some in Hn as (row & _ & <- & Hn).
  apply from_dict_row in Hn as (_ & _ & ->). etrans; [apply size_list_to_set_le|]. by rewrite length_fmap.
Qed.
Lemma augment_hashes now nodes :
  (λ v, default ""%string v.(nv_node).(d_node_hash)) <$> augment_nodes now nodes d = node_hash <$> nodes.
Proof.
  unfold augment_nodes. rewrite <- list_fmap_compose. apply list_fmap_ext. intros i n _. unfold compose.
  by destruct (default _ (_ !! owner_id n)).
Qed.

Lemma links_elem `{SetOrderLaws} nodes e :
  (∀ n, n ∈ nodes → pg_store d n.(node_hash) = Some n) →
  e ∈ nodes ≫= links ↔ ∃ a b, e = mkEdge (Some a) (Some b) ∧ a ∈ node_hash <$> nodes ∧ parent_link d a b.
Proof.
  intros Hst. rewrite list_elem_of_bind. unfold links. split.
  - intros (n & (c & -> & Hc)%list_elem_of_fmap & Hn). rewrite (set_order_perm _), elem_of_elements in Hc.
    exists n.(node_hash), c. split; [done|]. split; [by apply list_elem_of_fmap_2|].
    by rewrite <- (pg_children _ n) by auto.
  - intros (a & b & -> & (n & -> & Hn)%list_elem_of_fmap & Hl). exists n. split; [|done].
    apply list_elem_of_fmap. exists b. rewrite (set_order_perm _), elem_of_elements. split; [done|].
    by rewrite (pg_children _ n) by auto.
Qed.

Context {O : SetOrder} {OL : SetOrderLaws O}.

Lemma crawl_ext (f g : string → result (option CoCNode)) fuel stack s :
  (∀ h, f h = g h) → crawl f fuel stack s = crawl g fuel stack s.
Proof.
  intros Hfg. assert (∀ cs st, push_children f cs st = push_children g cs st) as Hpush.
  { induction cs as [|c cs IH]; intros st; [done|]. cbn. rewrite Hfg. by destruct (g c) as [[]|]; cbn. }
  revert stack s. induction fuel as [|fuel IH]; intros [|n stack] s; cbn; try done.
  case_decide; [done|]. rewrite Hpush. by destruct (push_children _ _ _).
Qed.

Lemma pg_crawl stack s :
  (∀ n, n ∈ stack → pg_store d n.(node_hash) = Some n) → crawl_inv (pg_store d) stack s → (length stack ≤ 1)%nat →
  ∃ s', crawl (λ h, Ok (pg_store d h)) (S (length d.(coc_nodes))) stack s = Some (Ok s') ∧
    crawl_inv (pg_store d) [] s' ∧ s.(cr_seen) ⊆ s'.(cr_seen) ∧
    (∀ n, n ∈ stack → n.(node_hash) ∈ s'.(cr_seen)) ∧
    ∀ h, h ∈ s'.(cr_seen) → h ∈ s.(cr_seen) ∨ ∃ n, n ∈ stack ∧ rtc (child (pg_store d)) n.(node_hash) h.
Proof.
  intros Hst Hinv Hlen.
  apply (crawl_spec (pg_store d) (nr_node_hash <$> d.(coc_nodes)) pg_store_key (gw_keys _ Hwf)); [|done|done|].
  - intros h. apply pg_store_is_Some.
  - pose proof (left_to_push_le (pg_store d) (nr_node_hash <$> d.(coc_nodes)) (cr_seen s)).
    pose proof pg_weight. lia.
Qed.

Lemma trace_spec now root_hash :
  match pg_store d root_hash with
  | None => get_trace_for_document now root_hash d = Some (Ok ([], []))
  | Some _ => ∃ nodes edges, get_trace_for_document now root_hash d = Some (Ok (augment_nodes now nodes d, edges)) ∧
      NoDup (node_hash <$> nodes) ∧
      (∀ n, n ∈ nodes → pg_store d n.(node_hash) = Some n) ∧
      (∀ h, h ∈ node_hash <$> nodes ↔ rtc (parent_link d) root_hash h) ∧
      edges = nodes ≫= links
  end.
Proof.
  unfold get_trace_for_document. rewrite pg_get_node_store.
  destruct (pg_store d root_hash) as [root|] eqn:Hroot; [|done].
  pose proof (pg_store_key _ _ Hroot) as Hkey.
  erewrite crawl_ext by (intros; apply pg_get_node_store).
  destruct (pg_crawl [root] empty_crawl) as (s & -> & Hi & _ & Hall & Hre); [|apply empty_crawl_inv|done|].
  { intros n ->%list_elem_of_singleton. by rewrite Hkey. }
  cbn. exists s.(cr_nodes), s.(cr_edges). split; [done|]. split; [apply Hi|]. split; [apply Hi|].
  split; [|apply Hi]. intros h. rewrite <- (ci_seen _ _ _ Hi). split.
  - intros [?|(n & ->%list_elem_of_singleton & Hr)]%Hre; [set_solver|]. rewrite Hkey in Hr.
    revert Hr. apply rtc_subrel. intros a b. rewrite pg_child. tauto.
  - intros Hr. eapply crawl_inv_rtc; [done|apply (Hall root); set_solver|]. rewrite Hkey.
    assert (is_Some (pg_store d root_hash)) as Hs by by eexists.
    clear -Hr Hs Hwf PL. induction Hr as [|a b c Hab _ IH]; [done|].
    eapply rtc_l; [apply pg_child; by split|]. apply IH.
    destruct Hab as (row & Hrow & <- & _). apply pg_store_is_Some. by apply list_elem_of_fmap_2.
Qed.
(** ** The graph of a peer *)

Lemma pg_all_nodes : ∃ nodes, pg_get_all_nodes d = Ok nodes ∧ length nodes = length d.(coc_nodes) ∧
  NoDup (node_hash <$> nodes) ∧ ∀ n, n ∈ nodes ↔ pg_store d n.(node_hash) = Some n.
Proof.
  set (rows := merge_sort (by_key nr_created_at) d.(coc_nodes)).
  assert (rows ≡ₚ d.(coc_nodes)) as Hperm by apply merge_sort_Permutation.
  set (decode row := default (mkNode 0 "" None "" [] "" ∅ 0 None "") (pg_store d row.(nr_node_hash))).
  assert (∀ row, row ∈ rows → pg_store d row.(nr_node_hash) = Some (decode row)) as Hdec.
  { intros row Hrow. rewrite Hperm in Hrow. unfold decode.
    destruct (pg_store d (nr_node_hash row)) eqn:Hs; [done|].
    assert (is_Some (pg_store d (nr_node_hash row))) as [? ?]; [|congruence].
    apply pg_store_is_Some. by apply list_elem_of_fmap_2. }
  exists (decode <$> rows). unfold pg_get_all_nodes. fold rows.
  rewrite (mapR_Ok_fmap _ (λ row, Some (decode row))) by (intros row Hrow; by rewrite pg_get_node_store, Hdec).
  assert (node_hash <$> (decode <$> rows) = nr_node_hash <$> rows) as Hh.
  { rewrite <- list_fmap_compose. apply list_fmap_ext. intros i row Hrow. cbn.
    apply (pg_store_key (nr_node_hash row)), Hdec. by eapply list_elem_of_lookup_2. }
  split; [|split; [|split]].
  - cbn. f_equal. clear. induction rows as [|r rows IH]; [done|]. cbn. by rewrite IH.
  - by rewrite length_fmap, Hperm.
  - rewrite Hh, Hperm. apply Hwf.
  - intros n. rewrite list_elem_of_fmap. split.
    + intros (row & -> & Hrow). pose proof (Hdec row Hrow) as Hs. by rewrite (pg_store_key _ _ Hs) at 1.
    + intros Hn. apply pg_store_Some in Hn as (row & Hrow & Hhash & Hn). exists row.
      rewrite Hperm. split; [|done]. assert (pg_store d (nr_node_hash row) = Some n) as Hs.
      { apply pg_store_Some. by exists row. }
      rewrite Hdec in Hs by (by rewrite Hperm). congruence.
Qed.

Lemma by_hash_lookup nodes h :
  NoDup (node_hash <$> nodes) → (∀ n, n ∈ nodes ↔ pg_store d n.(node_hash) = Some n) →
  dict_of ((λ n, (n.(node_hash), n)) <$> nodes) !! h = pg_store d h.
Proof.
  intros Hnd Hin.
  assert (((λ n, (n.(node_hash), n)) <$> nodes).*1 = node_hash <$> nodes) as Hkeys by (by rewrite <- list_fmap_compose).
  destruct (pg_store d h) as [n|] eqn:Hn.
  - pose proof (pg_store_key _ _ Hn) as <-. apply dict_of_in; [by rewrite Hkeys|].
    apply list_elem_of_fmap. exists n. split; [done|]. by apply Hin.
  - unfold dict_of. rewrite foldl_insert_notin; [done|]. rewrite Hkeys.
    intros (n & -> & Hn')%list_elem_of_fmap. apply Hin in Hn'. congruence.
Qed.

(** No cycles among the parent links: some rank falls towards the roots. *)
Definition acyclic : Prop := ∃ rank : string → nat,
  (∀ a b, parent_link d a b → is_Some (pg_store d a) → (rank a < rank b)%nat) ∧
  ∀ h, (rank h ≤ length d.(coc_nodes))%nat.

(** A stored node without a stored parent. *)
Definition top (r : string) : Prop := is_Some (pg_store d r) ∧ ∀ a, parent_link d a r → pg_store d a = None.

Lemma find_root_spec by_hash rank fuel n :
  (∀ h, by_hash !! h = pg_store d h) →
  (∀ a b, parent_link d a b → is_Some (pg_store d a) → (rank a < rank b)%nat) →
  pg_store d n.(node_hash) = Some n → (rank n.(node_hash) ≤ fuel)%nat →
  ∃ r, find_root by_hash fuel n = Some r ∧ top r ∧ rtc (child (pg_store d)) r n.(node_hash).
Proof.
  intros Hby Hrank. revert n. induction fuel as [|fuel IH]; intros n Hn Hle; cbn [find_root];
    pose proof (pg_store_Some n.(node_hash) n) as [Hrow _]; destruct (Hrow Hn) as (row & Hin & Hh & Hdec);
    apply from_dict_row in Hdec as (_ & Hpar & _);
    (destruct (parent_hash n ≫= _) as [m|] eqn:Hm;
      [|exists n.(node_hash); split; [done|]; split; [|done]]).
  2, 4: split; [by eexists|]; intros a (row' & Hin' & Hh' & Hp');
    assert (row' = row) as -> by (apply row_unique; [done..|congruence]);
    rewrite Hpar, Hp' in Hm; cbn in Hm; case_decide as Ha; [|by rewrite Hby in Hm]; subst a;
    apply eq_None_not_Some; intros (r0 & He & Hr0)%pg_store_is_Some%list_elem_of_fmap;
    by apply (gw_nonempty _ Hwf r0 Hr0).
  all: destruct (parent_hash n) as [p|] eqn:Hp; cbn in Hm; [|done]; case_decide; [done|]; rewrite Hby in Hm;
    pose proof (pg_store_key _ _ Hm) as Hmk;
    assert (parent_link d p n.(node_hash)) as Hl by (exists row; naive_solver);
    pose proof (Hrank p n.(node_hash) Hl ltac:(by eexists)).
  - lia.
  - destruct (IH m) as (r & -> & Ht & Hr); [by rewrite Hmk|rewrite Hmk; lia|]. exists r. split; [done|].
    split; [done|]. eapply rtc_r; [exact Hr|]. apply pg_child. rewrite Hmk. split; [by eexists|done].
Qed.

Lemma crawl_roots_spec by_hash roots s :
  (∀ h, by_hash !! h = pg_store d h) → (∀ r, r ∈ roots → is_Some (pg_store d r)) →
  crawl_inv (pg_store d) [] s →
  ∃ s', crawl_roots by_hash (S (length d.(coc_nodes))) roots s = Some (Ok s') ∧ crawl_inv (pg_store d) [] s' ∧
    ∀ h, h ∈ s'.(cr_seen) ↔ h ∈ s.(cr_seen) ∨ ∃ r, r ∈ roots ∧ rtc (child (pg_store d)) r h.
Proof.
  intros Hby. revert s. induction roots as [|r roots IH]; intros s Hst Hinv; cbn [crawl_roots].
  { exists s. split; [done|]. split; [done|]. set_solver. }
  rewrite Hby. destruct (Hst r) as [n Hn]; [set_solver|]. rewrite Hn.
  pose proof (pg_store_key _ _ Hn) as Hk.
  erewrite crawl_ext by (intros; by rewrite Hby).
  destruct (pg_crawl [n] s) as (s1 & -> & Hi1 & Hsub & Hall & Hre); [| |done|].
  { intros m ->%list_elem_of_singleton. by rewrite Hk. }
  { by apply (crawl_inv_stack _ []); [set_solver|]. }
  cbn. destruct (IH s1) as (s2 & -> & Hi2 & Hs2); [set_solver|done|]. exists s2. split; [done|]. split; [done|].
  intros h. rewrite Hs2. split.
  - intros [[?|(m & ->%list_elem_of_singleton & Hm)]%Hre|(r' & ? & ?)]; [by left| |].
    + right. exists r. rewrite Hk in Hm. split; [set_solver|done].
    + right. exists r'. split; [set_solver|done].
  - intros [?|(r' & [->|Hr']%elem_of_cons & Hh)]; [left; by apply Hsub| |right; by exists r'].
    left. eapply crawl_inv_rtc; [done|apply (Hall n); set_solver|]. by rewrite Hk.
Qed.

(** [v] is visible to the peer and lies in the same tree as [h]. *)
Definition in_visible_tree (peer_id h : string) : Prop :=
  ∃ v n r, pg_store d v = Some n ∧ visible_to peer_id n = true ∧ top r ∧
    rtc (parent_link d) r v ∧ rtc (parent_link d) r h.

Lemma rtc_child_link r h : is_Some (pg_store d r) → rtc (child (pg_store d)) r h ↔ rtc (parent_link d) r h.
Proof.
  intros Hs. split.
  - apply rtc_subrel. intros a b. rewrite pg_child. tauto.
  - intros Hr. induction Hr as [|a b c Hab _ IH]; [done|]. eapply rtc_l; [apply pg_child; by split|].
    apply IH. destruct Hab as (row & Hrow & <- & _). apply pg_store_is_Some. by apply list_elem_of_fmap_2.
Qed.

Lemma parent_unique a a' b : parent_link d a b → parent_link d a' b → a = a'.
Proof.
  intros (r & Hr & Hb & Ha) (r' & Hr' & Hb' & Ha').
  assert (r = r') as -> by (apply row_unique; [done..|congruence]). congruence.
Qed.

Lemma link_stored r v : is_Some (pg_store d r) → rtc (parent_link d) r v → is_Some (pg_store d v).
Proof.
  intros Hs Hr. induction Hr as [|a b c (row & Hrow & <- & _) _ IH]; [done|]. apply IH.
  apply pg_store_is_Some. by apply list_elem_of_fmap_2.
Qed.

(** Every node has one topmost ancestor. *)
Lemma top_unique r r' v :
  top r → top r' → rtc (parent_link d) r v → rtc (parent_link d) r' v → r = r'.
Proof.
  intros Hr Hr' H. revert v H. apply (rtc_ind_r (λ v, rtc (parent_link d) r' v → r = r')).
  - intros H'. apply rtc_inv_r in H' as [?|(a & Ha & Hl)]; [done|].
    destruct (link_stored r' a) as [? ?]; [apply Hr'|done|]. apply Hr in Hl. congruence.
  - intros a b Ha Hab IH H'. apply rtc_inv_r in H' as [<-|(a' & Ha' & Hl)].
    + destruct (link_stored r a) as [? ?]; [apply Hr|done|]. apply Hr' in Hab. congruence.
    + apply IH. by rewrite (parent_unique a a' b).
Qed.

Lemma find_roots by_hash rank ns fuel :
  (∀ h, by_hash !! h = pg_store d h) →
  (∀ a b, parent_link d a b → is_Some (pg_store d a) → (rank a < rank b)%nat) →
  (∀ n, n ∈ ns → pg_store d n.(node_hash) = Some n ∧ (rank n.(node_hash) ≤ fuel)%nat) →
  ∃ roots, mapM (find_root by_hash fuel) ns = Some roots ∧
    ∀ r, r ∈ roots ↔ ∃ n, n ∈ ns ∧ top r ∧ rtc (parent_link d) r n.(node_hash).
Proof.
  intros Hby Hrank. induction ns as [|n ns IH]; intros Hns.
  { exists []. split; [done|]. set_solver. }
  destruct IH as (roots & Hroots & Hin); [set_solver|]. destruct (Hns n) as [Hn Hle]; [set_solver|].
  destruct (find_root_spec by_hash rank fuel n Hby Hrank Hn Hle) as (r & Hr & Ht & Hrn).
  exists (r :: roots). cbn. rewrite Hr. cbn. rewrite Hroots. split; [done|].
  rewrite rtc_child_link in Hrn by apply Ht.
  intros x. rewrite elem_of_cons, Hin. split.
  - intros [->|(m & ? & ?)]; [exists n; set_solver|exists m; set_solver].
  - intros (m & [->|Hm]%elem_of_cons & Hx & Hxm); [|right; by exists m]. left. by eapply top_unique.
Qed.

Lemma peer_graph_spec peer_id : acyclic →
  ∃ nodes, peer_graph peer_id d = Some (Ok (nodes, remove_dups (nodes ≫= links))) ∧
    NoDup (node_hash <$> nodes) ∧ (∀ n, n ∈ nodes → pg_store d n.(node_hash) = Some n) ∧
    ∀ h, h ∈ node_hash <$> nodes ↔ in_visible_tree peer_id h.
Proof.
  intros (rank & Hrank & Hbound). unfold peer_graph.
  destruct pg_all_nodes as (all & -> & Hlen & Hnd & Hall).
  set (by_hash := dict_of _).
  assert (∀ h, by_hash !! h = pg_store d h) as Hby by (intros; by apply by_hash_lookup).
  destruct (find_roots by_hash rank (List.filter (visible_to peer_id) all) (length all) Hby Hrank)
    as (roots & -> & Hroots).
  { intros n [_ Hn%Hall]%elem_of_filterb. split; [done|]. by rewrite Hlen. }
  cbn [mbind option_bind]. destruct (crawl_roots_spec by_hash (set_order (list_to_set roots)) empty_crawl Hby)
    as (s & -> & Hi & Hs); [|apply empty_crawl_inv|].
  { intros r. rewrite (set_order_perm _), elem_of_elements, elem_of_list_to_set, Hroots. by intros (? & _ & [? _] & _). }
  exists s.(cr_nodes). cbn. rewrite (ci_edges _ _ _ Hi). split; [done|]. split; [apply Hi|]. split; [apply Hi|].
  intros h. rewrite <- (ci_seen _ _ _ Hi), Hs. unfold in_visible_tree.
  setoid_rewrite (set_order_perm _). setoid_rewrite elem_of_elements. setoid_rewrite elem_of_list_to_set.
  setoid_rewrite Hroots. setoid_rewrite elem_of_filterb. split.
  - intros [?|(r & (n & [Hv Hn%Hall] & Ht & Hr) & Hh)]; [set_solver|].
    exists n.(node_hash), n, r. split_and!; [done..|]. apply rtc_child_link; [apply Ht|done].
  - intros (v & n & r & Hv & Hvis & Ht & Hr & Hh). right. exists r. pose proof (pg_store_key _ _ Hv) as <-.
    split; [|apply rtc_child_link; [apply Ht|done]]. exists n. split_and!; [done|by apply Hall|done|done].
Qed.
End stored.

(** ** Writing nodes keeps the graph well-formed *)

Definition signature_decodes (s : option string) : Prop :=
  match s with None | Some ""%string => True | Some s => ∃ data, fromhex s = Ok data end.

Lemma from_dict_decodes d row :
  (∃ n, from_dict (pg_node_dict d row) = Ok n) ↔ signature_decodes row.(nr_signature).
Proof.
  unfold from_dict, pg_node_dict, signature_decodes. cbn -[fromhex].
  destruct row.(nr_signature) as [[|a s]|]; cbn -[fromhex]; [naive_solver| |naive_solver].
  destruct (fromhex (String a s)); cbn; naive_solver.
Qed.

Lemma pg_add_node_wf n d :
  graph_wf d → n.(node_hash) ≠ ""%string → (∀ sig, n.(signature) = Some sig → Forall is_byte sig) →
  graph_wf (pg_add_node n d).
Proof.
  intros [H1 H2 H3] Hne Hsig. unfold pg_add_node. destruct (fromisoformat _) as [ts|]; [|done].
  destruct (existsb _ d.(coc_nodes)) eqn:Hex; split; cbn -[from_dict pg_node_dict]; try done.
  - intros row Hrow. apply from_dict_decodes, from_dict_decodes with d. auto.
  - rewrite fmap_app. apply NoDup_app. split; [done|]. split; [|apply NoDup_singleton].
    intros h (row & -> & Hrow)%list_elem_of_fmap Hh%list_elem_of_singleton. cbn in Hh.
    assert (existsb (λ r, bool_decide (nr_node_hash r = node_hash n)) (coc_nodes d) = true); [|congruence].
    apply List.existsb_exists. exists row. rewrite <- list_elem_of_In. split; [done|]. by apply bool_decide_eq_true.
  - intros row [?| ->%list_elem_of_singleton]%elem_of_app; [auto|done].
  - intros row [?| ->%list_elem_of_singleton]%elem_of_app; apply from_dict_decodes.
    + apply from_dict_decodes with d. auto.
    + cbn. destruct (signature n) as [[|b sig]|] eqn:Hs; [done| |done].
      destruct (hex_of (b :: sig)) eqn:Hx; [done|]. exists (b :: sig). rewrite <- Hx. by apply fromhex_hex_of, Hsig.
Qed.

Section properties.
Context {P : PickRow} {PL : PickRowLaws P} {O : SetOrder} {OL : SetOrderLaws O}.

(** C34: the trace of a document is its whole distribution tree.  On a stored
    graph with unique hashes, [get_trace_for_document] ends (within one round
    per row and one more), and returns every node that descends from the root
    exactly once, with exactly the parent links below them; for a root that is
    not stored it returns nothing. *)
Theorem trace_for_document_correct (d : DB) (now : Z) (root_hash : string) :
  graph_wf d →
  match pg_store d root_hash with
  | None => get_trace_for_document now root_hash d = Some (Ok ([], []))
  | Some _ => ∃ nodes edges,
      get_trace_for_document now root_hash d = Some (Ok (augment_nodes now nodes d, edges)) ∧
      NoDup (node_hash <$> nodes) ∧
      (∀ n, n ∈ nodes → pg_store d n.(node_hash) = Some n) ∧
      (∀ h, h ∈ node_hash <$> nodes ↔ rtc (parent_link d) root_hash h) ∧
      (∀ e, e ∈ edges ↔ ∃ a b, e = mkEdge (Some a) (Some b) ∧
         rtc (parent_link d) root_hash a ∧ parent_link d a b)
  end.
Proof.
  intros Hwf. pose proof (trace_spec d Hwf now root_hash) as Ht.
  destruct (pg_store d root_hash); [|done]. destruct Ht as (nodes & edges & Heq & Hnd & Hst & Hin & ->).
  exists nodes, (nodes ≫= links). split_and!; [done..|]. intros e. rewrite links_elem by done.
  by setoid_rewrite Hin.
Qed.
Lemma visible_tree_link d peer_id a b :
  in_visible_tree d peer_id a → parent_link d a b → in_visible_tree d peer_id b.
Proof.
  intros (v & n & r & Hv & Hvis & Ht & Hr & Ha) Hab. exists v, n, r. split_and!; [done..|]. by eapply rtc_r.
Qed.

Lemma visible_tree_walk d peer_id edges q u v x :
  (∀ a b, mkEdge (Some a) (Some b) ∈ edges → parent_link d a b) →
  walk (edge edges) u q v → in_visible_tree d peer_id u → x ∈ u :: q → in_visible_tree d peer_id x.
Proof.
  intros He. revert u. induction q as [|y q IH]; intros u Hw Hu Hx.
  - by apply list_elem_of_singleton in Hx as ->.
  - destruct Hw as [(_ & _ & Huy) Hw]. apply elem_of_cons in Hx as [->|Hx]; [done|].
    apply (IH y Hw); [|done]. eapply visible_tree_link, He; done.
Qed.

(** A peer's graph is exactly the trees it takes part in, and path queries
    stay inside it.  On a stored graph with unique hashes and no cycle of
    parents, [get_graph_for_peer] ends and returns, once each, the nodes that
    share a root with some node the peer owns or received, with exactly the
    parent links among them; [get_graph_paths_for_peer] refuses a source or
    target outside that graph, raises only for an unknown mode, and every node
    on every path it reports belongs to the graph. *)
Theorem peer_graph_scoped (d : DB) (now : Z) (peer_id : string) :
  graph_wf d → acyclic d →
  (∃ nodes edges,
    get_graph_for_peer now peer_id d = Some (Ok (augment_nodes now nodes d, edges)) ∧
    NoDup (node_hash <$> nodes) ∧
    (∀ h, h ∈ node_hash <$> nodes ↔ in_visible_tree d peer_id h) ∧
    (∀ e, e ∈ edges ↔ ∃ a b, e = mkEdge (Some a) (Some b) ∧ in_visible_tree d peer_id a ∧ parent_link d a b)) ∧
  ∀ source target mode max_paths max_depth,
    match get_graph_paths_for_peer now peer_id source target mode max_paths max_depth d with
    | None => False
    | Some (Raise e) => e = ValueError ∧ mode ∉ ["shortest"; "all"]%string
    | Some (Ok None) => ¬ (in_visible_tree d peer_id source ∧ in_visible_tree d peer_id target)
    | Some (Ok (Some r)) =>
        in_visible_tree d peer_id source ∧ in_visible_tree d peer_id target ∧
        ∀ p es x, (p, es) ∈ r.(r_paths) → x ∈ p → in_visible_tree d peer_id x
    end.
Proof.
  intros Hwf Hac. destruct (peer_graph_spec d Hwf peer_id Hac) as (nodes & Hg & Hnd & Hst & Hin).
  assert (get_graph_for_peer now peer_id d =
    Some (Ok (augment_nodes now nodes d, remove_dups (nodes ≫= links)))) as Hgraph.
  { unfold get_graph_for_peer. by rewrite Hg. }
  assert (∀ e, e ∈ remove_dups (nodes ≫= links) ↔
    ∃ a b, e = mkEdge (Some a) (Some b) ∧ in_visible_tree d peer_id a ∧ parent_link d a b) as Hedges.
  { intros e. rewrite elem_of_remove_dups, links_elem by done. by setoid_rewrite Hin. }
  split; [by exists nodes, (remove_dups (nodes ≫= links))|].
  intros source target mode max_paths max_depth.
  unfold get_graph_paths_for_peer, graph_paths. rewrite Hgraph. cbn [mbind option_bind fst snd].
  rewrite augment_hashes. case_decide as Hvis; [|by rewrite !Hin in Hvis]. destruct Hvis as [Hs Ht].
  rewrite !Hin in Hs, Ht.
  destruct (find_paths_total (remove_dups (nodes ≫= links)) source target mode max_paths max_depth)
    as ([r|e] & Hr & He); rewrite Hr; cbn; [|by apply He].
  split; [done|]. split; [done|]. intros p es x Hp Hx.
  destruct (find_paths_walk _ _ _ _ _ _ _ _ _ Hr Hp) as (q & -> & Hw).
  eapply (visible_tree_walk d); [|exact Hw|exact Hs|exact Hx].
  intros a b (? & ? & [= <- <-] & _ & Hab)%Hedges. exact Hab.
Qed.
End properties.

(** ** Witnesses *)

Definition toy_row (h : string) (p : option string) (owner : string) : NodeRow :=
  mkNodeRow h "c" p owner None 0 2 0.

(** Two trees: "a" with children "b" and "c", and "x". *)
Definition toy_db : DB :=
  mkDB [] [] [] [] []
    [toy_row "a" None "ann"; toy_row "b" (Some "a") "bob"; toy_row "c" (Some "a") "cy"; toy_row "x" None "eve"]
    [("a", "bob")] [] ∅ [] [].

Lemma toy_graph_wf : graph_wf toy_db.
Proof.
  split.
  - change (NoDup ["a"; "b"; "c"; "x"]). repeat constructor; set_solver.
  - intros row Hrow. repeat (apply elem_of_cons in Hrow as [->|Hrow]; [done|]). set_solver.
  - intros row Hrow. unfold from_dict, pg_node_dict. cbn.
    repeat (apply elem_of_cons in Hrow as [->|Hrow]; [by eexists|]). set_solver.
Qed.

Lemma trace_for_document_correct_witness :
  ∃ nodes edges,
    get_trace_for_document (P := first_row) (O := elements_order) 0 "a" toy_db =
      Some (Ok (augment_nodes (H := first_row) 0 nodes toy_db, edges)) ∧
    NoDup (node_hash <$> nodes) ∧
    (∀ n, n ∈ nodes → pg_store (P := first_row) toy_db n.(node_hash) = Some n) ∧
    (∀ h, h ∈ node_hash <$> nodes ↔ rtc (parent_link toy_db) "a" h) ∧
    (∀ e, e ∈ edges ↔ ∃ a b, e = mkEdge (Some a) (Some b) ∧
       rtc (parent_link toy_db) "a" a ∧ parent_link toy_db a b).
Proof.
  exact (trace_for_document_correct (P := first_row) (PL := first_row_laws) (O := elements_order)
    (OL := elements_order_laws) toy_db 0 "a" toy_graph_wf).
Defined.

Lemma toy_acyclic : acyclic (P := first_row) toy_db.
Proof.
  exists (λ h, if decide (h = "a") then 0%nat else 1%nat). split.
  - intros a b (row & Hrow & <- & Hp) _.
    repeat (apply elem_of_cons in Hrow as [->|Hrow]; [try done; injection Hp as <-; vm_compute; lia|]).
    set_solver.
  - intros h. cbn. destruct (decide _); lia.
Qed.

Lemma peer_graph_scoped_witness :
  ∃ nodes edges,
    get_graph_for_peer (P := first_row) (O := elements_order) 0 "bob" toy_db =
      Some (Ok (augment_nodes (H := first_row) 0 nodes toy_db, edges)) ∧
    ∀ h, h ∈ node_hash <$> nodes ↔ in_visible_tree (P := first_row) toy_db "bob" h.
Proof.
  destruct (peer_graph_scoped (P := first_row) (PL := first_row_laws) (O := elements_order)
    (OL := elements_order_laws) toy_db 0 "bob" toy_graph_wf toy_acyclic) as [(nodes & edges & Hg & _ & Hh & _) _].
  by exists nodes, edges.
Defined.

(** The graph "bob" sees, evaluated. *)
Lemma toy_graph_bob :
  (map_result (λ g : list NodeView * list Edge, (λ v, default "" v.(nv_node).(d_node_hash)) <$> g.1)
     <$> get_graph_for_peer (P := first_row) (O := elements_order) 0 "bob" toy_db) = Some (Ok ["a"; "b"; "c"]).
Proof. vm_compute. reflexivity. Qed.
