(* ===== verification/Auth.v ===== *)
(** * Accounts and sessions ([trustdocs/auth/])

    Registration, login, sessions and the encryption of signing keys at rest.
    bcrypt, Argon2id, AES-GCM and SHA-256 are the parameter [AuthPrims] with
    their documented laws; drawn salts, nonces, tokens and identifiers are
    arguments.  Text is a [string] (its UTF-8 bytes). *)

From Stdlib Require Import ZArith Lia String.
From S2P Require Import Prelude PyData DateTime Crypto CoCNode Storage Database.

Class AuthPrims := {
  bcrypt_hash : string → string → string;              (* password, salt *)
  bcrypt_check : string → string → bool;
  argon2id : string → bytes → bytes;                   (* password, salt *)
  aes_encrypt : bytes → bytes → bytes → bytes;         (* key, nonce, data *)
  aes_decrypt : bytes → bytes → bytes → result bytes;
  sha256_text : string → string;
}.
Class AuthLaws (A : AuthPrims) := {
  bcrypt_ok p salt : bcrypt_check p (bcrypt_hash p salt) = true;
  aes_ok k n data : aes_decrypt k n (aes_encrypt k n data) = Ok data;
}.

(** [HTTPException(401)]. *)
Abbreviation unauthorized := (HTTPException 401).
Definition session_ttl_hours : Z := 24.

Section auth.
Context {A : AuthPrims} {P : PickRow}.

(** ** [auth/crypto.py] *)

Definition hash_password (salt password : string) : string := bcrypt_hash password salt.
Definition verify_password (password hashed : string) : bool := bcrypt_check password hashed.
Definition derive_wrapping_key (password : string) (salt : bytes) : bytes := argon2id password salt.

(** [salt] and [nonce] are the 16 and 12 random bytes. *)
Definition encrypt_signing_key (salt nonce signing_key_bytes : bytes) (password : string) : bytes :=
  salt ++ nonce ++ aes_encrypt (derive_wrapping_key password salt) nonce signing_key_bytes.

Definition decrypt_signing_key (encrypted_blob : bytes) (password : string) : result bytes :=
  let salt := take 16 encrypted_blob in
  let nonce := take 12 (drop 16 encrypted_blob) in
  let ciphertext := drop 28 encrypted_blob in
  aes_decrypt (derive_wrapping_key password salt) nonce ciphertext.

Definition hash_session_token (token : string) : string := sha256_text token.

(** ** [auth/dependencies.py] *)

Definition get_current_user (now : Z) (cookie : option string) : M DB UserRow :=
  match cookie with
  | None | Some ""%string => raise unauthorized
  | Some token =>
      session ← gets (λ d, find_one (λ s, bool_decide (s.(se_token_hash) = hash_session_token token)) d.(sessions));
      match session with
      | None => raise unauthorized
      | Some s =>
          if s.(se_expires_at) <? now then
            modify (set_sessions (λ t, (delete_one se_id s.(se_id) t).2)) ;; raise unauthorized
          else
            user ← gets (λ d, find_one (λ u, bool_decide (u.(u_id) = s.(se_user_id))) d.(users));
            match user with
            | None => raise unauthorized
            | Some u => mret u
            end
      end
  end.

Definition get_optional_user (now : Z) (cookie : option string) : M DB (option UserRow) := λ d,
  match get_current_user now cookie d with
  | (Ok u, d') => (Ok (Some u), d')
  | (Raise (HTTPException _), d') => (Ok None, d')
  | (Raise e, d') => (Raise e, d')
  end.

(** ** [auth/routes.py] *)

(** The unique columns of the table. *)
Definition user_clash (a b : UserRow) : bool :=
  bool_decide (a.(u_id) = b.(u_id)) || bool_decide (a.(u_username) = b.(u_username)) ||
  bool_decide (a.(u_email) = b.(u_email)) || bool_decide (a.(u_peer_id) = b.(u_peer_id)).

(** What [register] draws: identifiers, salts and the key pair. *)
Record RegisterDraw := mkRegDraw {
  rd_user_id : string;
  rd_peer_id : string;
  rd_bcrypt_salt : string;
  rd_salt : bytes;
  rd_nonce : bytes;
  rd_signing_key : bytes;
  rd_verify_key : bytes;
}.

Definition insert_user (u : UserRow) : M DB unit := λ d,
  match insert_row user_clash u d.(users) with
  | Ok t => (Ok (), set_users (λ _, t) d)
  | Raise e => (Raise e, d)
  end.

Definition register (now : Z) (node_id : string) (r : RegisterDraw) (username email password : string)
    : M DB UserRow :=
  existing ← gets (λ d, find_one (λ u, bool_decide (u.(u_username) = username)) d.(users));
  if existing is Some _ then raise (HTTPException 409)
  else
    existing ← gets (λ d, find_one (λ u, bool_decide (u.(u_email) = email)) d.(users));
    if existing is Some _ then raise (HTTPException 409)
    else
      let encrypted_sk := encrypt_signing_key r.(rd_salt) r.(rd_nonce) r.(rd_signing_key) password in
      let user := mkUser r.(rd_user_id) username email (hash_password r.(rd_bcrypt_salt) password) encrypted_sk
        (hex_of r.(rd_verify_key)) r.(rd_peer_id) node_id now now in
      insert_user user ;; mret user.

Definition session_clash (a b : SessionRow) : bool := bool_decide (a.(se_id) = b.(se_id)).

Definition insert_session (s : SessionRow) : M DB unit := λ d,
  match insert_row session_clash s d.(sessions) with
  | Ok t => (Ok (), set_sessions (λ _, t) d)
  | Raise e => (Raise e, d)
  end.

(** Returns the cookie; [token] and [session_id] are drawn. *)
Definition login (now : Z) (token session_id : string) (username password : string) : M DB string :=
  user ← gets (λ d, find_one (λ u, bool_decide (u.(u_username) = username)) d.(users));
  match user with
  | None => raise unauthorized
  | Some u =>
      if verify_password password u.(u_password_hash) then
        expires ← lift (add_seconds now (session_ttl_hours * 3600));
        insert_session (mkSession session_id u.(u_id) (hash_session_token token) expires now) ;;
        mret token
      else raise unauthorized
  end.

Definition logout (user : UserRow) : M DB unit :=
  modify (set_sessions (λ t, (delete_where (λ s, bool_decide (s.(se_user_id) = user.(u_id))) t).2)).

Definition heartbeat (now : Z) (user : UserRow) : M DB unit :=
  modify (set_users (update_one u_id user.(u_id) (λ u,
    mkUser u.(u_id) u.(u_username) u.(u_email) u.(u_password_hash) u.(u_encrypted_signing_key)
      u.(u_verify_key_hex) u.(u_peer_id) u.(u_node_id) u.(u_created_at) now))).
End auth.

(** ** Properties *)

Section properties.
Context {A : AuthPrims} {AL : AuthLaws A} {P : PickRow} {PL : PickRowLaws P}.

Lemma find_one_unique {R} (key : R → string) (k : string) (rows : list R) r :
  NoDup (key <$> rows) → r ∈ rows → key r = k → find_one (λ x, bool_decide (key x = k)) rows = Some r.
Proof.
  intros Hnd Hr Hk. destruct (find_one _ rows) as [x|] eqn:Hx.
  - apply find_one_Some in Hx as [Hkx%bool_decide_eq_true Hx]. f_equal.
    apply list_elem_of_lookup in Hr as [i Hi]. apply list_elem_of_lookup in Hx as [j Hj].
    assert (i = j) as ->; [|congruence].
    eapply NoDup_lookup; [done|..]; rewrite list_lookup_fmap, ?Hi, ?Hj; [done|cbn; congruence].
  - eapply find_one_None in Hx; [|exact Hr]. by rewrite bool_decide_eq_true_2 in Hx.
Qed.

Lemma register_Ok now node_id r username email password d d1 user :
  register now node_id r username email password d = (Ok user, d1) →
  user.(u_username) = username ∧ user.(u_password_hash) = bcrypt_hash password r.(rd_bcrypt_salt) ∧
  user.(u_encrypted_signing_key) = encrypt_signing_key r.(rd_salt) r.(rd_nonce) r.(rd_signing_key) password ∧
  d1 = set_users (λ _, d.(users) ++ [user]) d ∧
  ∀ x, x ∈ d.(users) → x.(u_username) ≠ username ∧ x.(u_id) ≠ user.(u_id).
Proof.
  unfold register, gets, insert_user, raise. unfold mbind, M_bind. cbv beta iota.
  destruct (find_one (λ u, bool_decide (u.(u_username) = username)) d.(users)) as [?|] eqn:Hname; [done|].
  cbv beta iota. destruct (find_one (λ u, bool_decide (u.(u_email) = email)) d.(users)) as [?|]; [done|].
  cbv beta iota. set (u := mkUser _ _ _ _ _ _ _ _ _ _). destruct (insert_row user_clash u d.(users)) as [rows|e] eqn:Hins; [|done].
  intros [= <- <-]. apply insert_row_Ok in Hins as [-> Hclash]. split_and!; [done..|].
  intros x Hx. split.
  - eapply find_one_None in Hname; [|exact Hx]. by apply bool_decide_eq_false in Hname.
  - pose proof (Hclash x Hx) as Hc. unfold user_clash in Hc. rewrite !orb_false_iff in Hc.
    destruct Hc as [[[Hid%bool_decide_eq_false _] _] _]. congruence.
Qed.

Lemma find_one_last {R} (cond : R → bool) rows r :
  (∀ x, x ∈ rows → cond x = false) → cond r = true → find_one cond (rows ++ [r]) = Some r.
Proof.
  intros Hrows Hr. destruct (find_one cond (rows ++ [r])) as [x|] eqn:Hx.
  - apply find_one_Some in Hx as [Hc [Hx| ->%list_elem_of_singleton]%elem_of_app]; [|done].
    by rewrite Hrows in Hc.
  - eapply find_one_None in Hx; [|apply elem_of_app; right; by apply list_elem_of_singleton]. congruence.
Qed.

Lemma decrypt_encrypt_key salt nonce key password : length salt = 16%nat → length nonce = 12%nat →
  decrypt_signing_key (encrypt_signing_key salt nonce key password) password = Ok key.
Proof.
  intros Hs Hn. unfold decrypt_signing_key, encrypt_signing_key.
  rewrite take_app_length' by done. rewrite drop_app_length' by done. rewrite take_app_length' by done.
  rewrite (assoc_L (++)), drop_app_length' by (rewrite length_app; lia). apply aes_ok.
Qed.

(** What the cookie gives access to when its session is the only one of its
    hash. *)
Lemma current_user_session t token s d :
  token ≠ ""%string → find_one (λ x, bool_decide (x.(se_token_hash) = hash_session_token token)) d.(sessions) = Some s →
  get_current_user t (Some token) d =
  if s.(se_expires_at) <? t then (Raise unauthorized, set_sessions (λ x, (delete_one se_id s.(se_id) x).2) d)
  else match find_one (λ u, bool_decide (u.(u_id) = s.(se_user_id))) d.(users) with
       | Some u => (Ok u, d)
       | None => (Raise unauthorized, d)
       end.
Proof.
  intros Ht Hs. unfold get_current_user, gets, raise, modify. unfold mbind, M_bind. destruct token; [done|].
  cbv beta iota. rewrite Hs. cbv beta iota. destruct (_ <? _); [done|]. cbv beta iota.
  by destruct (find_one _ d.(users)).
Qed.

(** C35: a session does what the cookie promises.  After a registration, a
    login with the password succeeds and one with any other text that bcrypt
    refuses fails; until the session expires the cookie identifies exactly that
    user, after that it is refused and the session is removed, and after
    [logout] it is refused at once.  The stored signing key opens with the
    password. *)
Theorem session_lifecycle (now t : Z) (node_id username email password token session_id : string)
    (r : RegisterDraw) (d d1 : DB) (user : UserRow) :
  NoDup (u_id <$> d.(users)) → token ≠ ""%string →
  (∀ s, s ∈ d.(sessions) → s.(se_token_hash) ≠ hash_session_token token ∧ s.(se_id) ≠ session_id) →
  length r.(rd_salt) = 16%nat → length r.(rd_nonce) = 12%nat → 0 ≤ now < max_datetime - 86400 * 1000000 →
  register now node_id r username email password d = (Ok user, d1) →
  ∃ d2, login now token session_id username password d1 = (Ok token, d2) ∧
  (∀ wrong, verify_password wrong user.(u_password_hash) = false →
     login now token session_id username wrong d1 = (Raise unauthorized, d1)) ∧
  decrypt_signing_key user.(u_encrypted_signing_key) password = Ok r.(rd_signing_key) ∧
  let expiry := now + session_ttl_hours * 3600 * 1000000 in
  (t ≤ expiry → get_current_user t (Some token) d2 = (Ok user, d2)) ∧
  (expiry < t → ∃ d3, get_current_user t (Some token) d2 = (Raise unauthorized, d3) ∧
     ∀ s, s ∈ d3.(sessions) → s.(se_id) ≠ session_id) ∧
  (get_current_user t (Some token) (logout user d2).2).1 = Raise unauthorized.
Proof.
  intros Hids Htok Hfresh Hsalt Hnonce Hnow Hreg.
  apply register_Ok in Hreg as (Hname & Hpw & Hsk & -> & Hother).
  assert (find_one (λ u, bool_decide (u.(u_username) = username)) (d.(users) ++ [user]) = Some user) as Hfind.
  { apply find_one_last; [|by apply bool_decide_eq_true]. intros x Hx. apply bool_decide_eq_false. by apply Hother. }
  set (s := mkSession session_id user.(u_id) (hash_session_token token)
              (now + session_ttl_hours * 3600 * 1000000) now).
  exists (set_sessions (λ _, d.(sessions) ++ [s]) (set_users (λ _, d.(users) ++ [user]) d)).
  assert (∀ pw, login now token session_id username pw (set_users (λ _, d.(users) ++ [user]) d) =
    if verify_password pw user.(u_password_hash)
    then (Ok token, set_sessions (λ _, d.(sessions) ++ [s]) (set_users (λ _, d.(users) ++ [user]) d))
    else (Raise unauthorized, set_users (λ _, d.(users) ++ [user]) d)) as Hlogin.
  { intros pw. unfold login, gets, lift, raise, insert_session. unfold mbind, M_bind.
    cbn [users set_users]. rewrite Hfind. cbv beta iota. destruct (verify_password _ _); [|done].
    unfold add_seconds. rewrite (proj2 (orb_false_iff _ _)) by (unfold session_ttl_hours; split; [apply Z.ltb_ge|apply Z.leb_gt]; lia).
    cbv beta iota. unfold insert_row. cbn [sessions set_users].
    destruct (existsb _ _) eqn:He; [|done].
    apply List.existsb_exists in He as (x & Hx & Hc%bool_decide_eq_true). apply list_elem_of_In, Hfresh in Hx.
    cbn in Hc. naive_solver. }
  split; [by rewrite Hlogin, Hpw; unfold verify_password; rewrite bcrypt_ok|].
  split; [intros wrong Hw; by rewrite Hlogin, Hw|].
  split; [rewrite Hsk; by apply decrypt_encrypt_key|]. intros expiry.
  assert (find_one (λ x, bool_decide (x.(se_token_hash) = hash_session_token token)) (d.(sessions) ++ [s]) = Some s) as Hs.
  { apply find_one_last; [|by apply bool_decide_eq_true]. intros x Hx. apply bool_decide_eq_false. by apply Hfresh. }
  split; [|split].
  - intros Ht. rewrite (current_user_session t token s) by done. cbn [se_expires_at s].
    rewrite (proj2 (Z.ltb_ge _ _)) by done. cbn [users set_sessions set_users se_user_id].
    rewrite (find_one_last _ _ user); [done| |by apply bool_decide_eq_true].
    intros x Hx. apply bool_decide_eq_false. by apply Hother.
  - intros Ht. eexists. rewrite (current_user_session t token s) by done. cbn [se_expires_at s].
    rewrite (proj2 (Z.ltb_lt _ _)) by done. split; [done|]. cbn.
    intros x [Hx _]%elem_of_filterb Hid. rewrite Hid, bool_decide_eq_true_2 in Hx; done.
  - unfold logout, modify, get_current_user, gets, raise. unfold mbind, M_bind. destruct token; [done|]. cbn.
    match goal with |- context [find_one ?c ?l] => destruct (find_one c l) as [x|] eqn:Hx end; [|done].
    apply find_one_Some in Hx as [Hh%bool_decide_eq_true [Hu Hx]%elem_of_filterb].
    apply elem_of_app in Hx as [Hx| ->%list_elem_of_singleton]; [by apply Hfresh in Hx as [? _]|].
    cbn in Hu. by rewrite bool_decide_eq_true_2 in Hu.
Qed.
End properties.

(** ** Witness *)

Definition toy_auth : AuthPrims := {|
  bcrypt_hash p salt := p;
  bcrypt_check p h := bool_decide (p = h);
  argon2id p salt := salt;
  aes_encrypt k n data := data;
  aes_decrypt k n data := Ok data;
  sha256_text s := s;
|}.
Lemma toy_auth_laws : AuthLaws toy_auth.
Proof. split; [|done]. intros p salt. by apply bool_decide_eq_true. Qed.

Definition no_rows : DB := mkDB [] [] [] [] [] [] [] [] ∅ [] [].
Definition toy_draws : RegisterDraw :=
  mkRegDraw "u1" "p1" "s" (replicate 16 1) (replicate 12 2) [5] [6].
Definition toy_user : UserRow :=
  mkUser "u1" "ann" "a@x" "pw" (replicate 16 1 ++ replicate 12 2 ++ [5]) "06" "p1" "B" 7 7.

Lemma session_lifecycle_witness :
  ∃ d2, login (A := toy_auth) (P := first_row) 7 "tok" "s1" "ann" "pw" (set_users (λ _, [toy_user]) no_rows) =
      (Ok "tok", d2) ∧
    get_current_user (A := toy_auth) (P := first_row) 8 (Some "tok") d2 = (Ok toy_user, d2).
Proof.
  destruct (session_lifecycle (A := toy_auth) (AL := toy_auth_laws) (P := first_row) (PL := first_row_laws)
    7 8 "B" "ann" "a@x" "pw" "tok" "s1" toy_draws no_rows (set_users (λ _, [toy_user]) no_rows) toy_user)
    as (d2 & Hlogin & _ & _ & Huser & _).
  - constructor.
  - done.
  - intros s Hs. by apply not_elem_of_nil in Hs.
  - reflexivity.
  - reflexivity.
  - split; [lia|]. vm_compute. reflexivity.
  - reflexivity.
  - exists d2. split; [exact Hlogin|]. apply Huser. vm_compute. discriminate.
Defined.
