(* ===== verification/Documents.v ===== *)
(** * Document routes ([trustdocs/documents/routes.py],
      [trustdocs/trustflow_service.py])

    Upload, sharing with a watermarked copy, revocation, the recycle bin and
    permanent deletion, as state-and-exception computations on the service
    state.  A route runs at one instant; identifiers it draws are arguments.
    Texts that are only stored and compared are [string]s; document contents are
    code points ([pystr]), and [text_of] is their UTF-8 form.  Peer ids are
    UUID text, so their code points are their bytes. *)

From Stdlib Require Import ZArith Lia Ascii String.
From stdpp Require Import pretty.
From S2P Require Import Prelude PyData DateTime Json Crypto CoCNode Storage AuditLog Steganography.
From S2P Require Import Graph Database Provenance.

(** ** Text and paths *)

(** [data.decode("utf-8", errors="replace")]: each maximal part of an ill-formed
    sequence becomes U+FFFD. *)
Definition second_ok (b0 b1 : Z) : bool :=
  is_cont b1 && (if b0 =? 224 then 160 <=? b1 else if b0 =? 237 then b1 <? 160
                 else if b0 =? 240 then 144 <=? b1 else if b0 =? 244 then b1 <? 144 else true).

Fixpoint decode_replace (data : bytes) : pystr :=
  match data with
  | [] => []
  | b0 :: r0 =>
      if b0 <? 128 then b0 :: decode_replace r0
      else if (b0 <? 194) || (244 <? b0) then 65533 :: decode_replace r0
      else match r0 with
      | [] => [65533]
      | b1 :: r1 =>
          if negb (second_ok b0 b1) then 65533 :: decode_replace r0
          else if b0 <? 224 then (b0 - 192) * 64 + (b1 - 128) :: decode_replace r1
          else match r1 with
          | [] => [65533]
          | b2 :: r2 =>
              if negb (is_cont b2) then 65533 :: decode_replace r1
              else if b0 <? 240
              then (b0 - 224) * 4096 + (b1 - 128) * 64 + (b2 - 128) :: decode_replace r2
              else match r2 with
              | [] => [65533]
              | b3 :: r3 =>
                  if negb (is_cont b3) then 65533 :: decode_replace r2
                  else (b0 - 240) * 262144 + (b1 - 128) * 4096 + (b2 - 128) * 64 + (b3 - 128)
                       :: decode_replace r3
              end
          end
      end
  end.

(** [Path(name).suffix]: from the last dot of the last component, unless that
    dot is its first or last character. *)
Fixpoint until_dot (s : pystr) : pystr :=
  match s with c :: s => if c =? 46 then [] else c :: until_dot s | [] => [] end.

Definition suffix (name : string) : string :=
  match last (List.filter (λ c, negb (bool_decide (c ∈ [[]; [46]]))) (split 47 (str name))) with
  | None => ""
  | Some c =>
      let ext := until_dot (reverse c) in
      if (0 <? Z.of_nat (length ext)) && (Z.of_nat (length ext) + 1 <? Z.of_nat (length c))
      then pystring (46 :: reverse ext) else ""
  end.

(** [A or B] on optional text. *)
Definition or_else (o : option string) (dflt : string) : string :=
  match o with None | Some ""%string => dflt | Some s => s end.

(** ** Rows *)

Definition with_status (status : string) (deleted recycled : option (option Z)) (r : DocumentRow) : DocumentRow :=
  mkDoc r.(dc_id) r.(dc_owner_id) r.(dc_filename) r.(dc_mime_type) r.(dc_size_bytes) r.(dc_storage_path)
    r.(dc_storage_node) r.(dc_content_hash) r.(dc_coc_node_hash) status r.(dc_created_at)
    (default r.(dc_deleted_at) deleted) (default r.(dc_recycled_at) recycled).

Definition with_share_status (status : string) (revoked suspended : option (option Z)) (s : ShareRow) : ShareRow :=
  mkShareRow s.(fs_id) s.(fs_document_id) s.(fs_owner_id) s.(fs_recipient_id) s.(fs_child_coc_node_hash)
    status s.(fs_created_at) (default s.(fs_revoked_at) revoked) (default s.(fs_suspended_at) suspended).

Definition is_document (doc_id : string) (r : DocumentRow) : bool := bool_decide (r.(dc_id) = doc_id).

Definition share_of (doc_id status : string) (s : ShareRow) : bool :=
  bool_decide (s.(fs_document_id) = doc_id) && bool_decide (s.(fs_status) = status).

Definition share_for (doc_id recipient_id : string) (s : ShareRow) : bool :=
  share_of doc_id "active" s && bool_decide (s.(fs_recipient_id) = recipient_id).

Record DocumentResponse := mkDocResponse {
  re_doc : DocumentRow;
  re_owner_username : string;
  re_is_owner : bool;
  re_share_count : Z;
}.

Record FileResponse := mkFile {
  fr_path : string;
  fr_filename : string;
  fr_mime_type : string;
}.

Definition max_file_size_mb : Z := 50.

Section routes.
Context {C : Crypto} {P : PickRow} {O : SetOrder} {D : Digest}.
(** [config.storage_dir], [config.node_id] and the service's signing key. *)
Context (storage_dir node_id : string) (system_signing_key : bytes).

(** ** [TrustFlowService] *)

Definition create_document_node (now : Z) (owner_peer_id : string) (content : pystr)
    (recipient_ids : list string) : M DB CoCNode :=
  text ← lift (text_of content);
  let node := new_node now (hash_content text) owner_peer_id system_signing_key recipient_ids None 0 in
  modify (pg_add_node node) ;;
  modify (log_event "UPLOAD" owner_peer_id node.(node_hash) "") ;;
  mret node.

(** [db.insert("coc_recipients", ...)] inside [try ... except: pass]. *)
Definition add_recipient (node_hash peer_id : string) (d : DB) : DB :=
  if decide ((node_hash, peer_id) ∈ d.(coc_recipients)) then d
  else set_graph d.(coc_nodes) (d.(coc_recipients) ++ [(node_hash, peer_id)]) d.

(** For one recipient, as the only caller has it. *)
Definition share_node (now : Z) (owner_peer_id : string) (parent_node : CoCNode) (recipient_peer_id : string)
    (content : pystr) : M DB (CoCNode * pystr) :=
  known ← gets stegano_peers;
  let '(out, known) := embed_watermark (iso_codes now) content (str recipient_peer_id)
    (parent_node.(CoCNode.depth) + 1) None true true true known in
  modify (set_stegano known) ;;
  watermarked ← lift out;
  text ← lift (text_of watermarked);
  let child_node := new_node now (hash_content text) owner_peer_id system_signing_key [recipient_peer_id]
    (Some parent_node.(node_hash)) (parent_node.(CoCNode.depth) + 1) in
  modify (pg_add_node child_node) ;;
  modify (add_recipient parent_node.(node_hash) recipient_peer_id) ;;
  modify (log_event "SHARE" owner_peer_id child_node.(node_hash)
            ("To: " +:+ pystring (take 8 (str recipient_peer_id)))) ;;
  mret (child_node, watermarked).

(** ** Routes *)

Definition doc_to_response (doc : DocumentRow) (user : UserRow) (d : DB) : DocumentResponse :=
  let owner := find_one (λ u, bool_decide (u.(u_id) = doc.(dc_owner_id))) d.(users) in
  let shares := find_many fs_created_at LIMIT (share_of doc.(dc_id) "active") d.(file_shares) in
  mkDocResponse doc (match owner with Some u => u.(u_username) | None => "unknown" end)
    (bool_decide (doc.(dc_owner_id) = user.(u_id))) (Z.of_nat (length shares)).

Definition doc_clash (a b : DocumentRow) : bool := bool_decide (a.(dc_id) = b.(dc_id)).
Definition share_clash (a b : ShareRow) : bool := bool_decide (a.(fs_id) = b.(fs_id)).

Definition insert_document (doc : DocumentRow) : M DB unit := λ d,
  match insert_row doc_clash doc d.(documents) with
  | Ok t => (Ok (), set_documents (λ _, t) d)
  | Raise e => (Raise e, d)
  end.

Definition insert_share (s : ShareRow) : M DB unit := λ d,
  match insert_row share_clash s d.(file_shares) with
  | Ok t => (Ok (), set_shares (λ _, t) d)
  | Raise e => (Raise e, d)
  end.

Definition upload_document (now : Z) (file_id : string) (filename content_type : option string)
    (content : bytes) (user : UserRow) : M DB DocumentResponse :=
  if max_file_size_mb * 1024 * 1024 <? Z.of_nat (length content) then raise (HTTPException 413)
  else
    let content_text := decode_replace content in
    let storage_path := storage_dir +:+ "/" +:+ file_id +:+ suffix (or_else filename "file") in
    modify (set_files (<[storage_path := content]>)) ;;
    node ← create_document_node now user.(u_peer_id) content_text [];
    let doc := mkDoc file_id user.(u_id) (or_else filename "untitled")
      (or_else content_type "application/octet-stream") (Z.of_nat (length content)) storage_path node_id
      node.(content_hash) node.(node_hash) "active" now None None in
    insert_document doc ;;
    gets (doc_to_response doc user).

(** [find_one] and the 404 for a document in the recycle bin or deleted. *)
Definition live_document (doc_id : string) : M DB DocumentRow :=
  doc ← gets (λ d, find_one (is_document doc_id) d.(documents));
  match doc with
  | None => raise (HTTPException 404)
  | Some doc => if decide (doc.(dc_status) ∈ ["deleted"; "recycled"]%string) then raise (HTTPException 404)
                else mret doc
  end.

Definition active_share (doc_id recipient_id : string) (d : DB) : option ShareRow :=
  find_one (share_for doc_id recipient_id) d.(file_shares).

(** Owner or active recipient; 403 otherwise. *)
Definition check_access (doc : DocumentRow) (doc_id : string) (user : UserRow) : M DB unit :=
  if decide (doc.(dc_owner_id) = user.(u_id)) then mret ()
  else
    share ← gets (active_share doc_id user.(u_id));
    if share is Some _ then mret () else raise (HTTPException 403).

Definition list_documents (user : UserRow) (d : DB) : list DocumentResponse * list DocumentResponse :=
  let owned := find_many dc_created_at LIMIT
    (λ r, bool_decide (r.(dc_owner_id) = user.(u_id)) && bool_decide (r.(dc_status) = "active"%string)) d.(documents) in
  let shares := find_many fs_created_at LIMIT
    (λ s, bool_decide (s.(fs_recipient_id) = user.(u_id)) && bool_decide (s.(fs_status) = "active"%string)) d.(file_shares) in
  ((λ r, doc_to_response r user d) <$> owned,
   omap (λ s, doc ← find_one (is_document s.(fs_document_id)) d.(documents);
              if decide (doc.(dc_status) = "active"%string) then Some (doc_to_response doc user d) else None) shares).

Definition list_recycled_documents (user : UserRow) (d : DB) : list DocumentResponse :=
  (λ r, doc_to_response r user d) <$> find_many dc_created_at LIMIT
    (λ r, bool_decide (r.(dc_owner_id) = user.(u_id)) && bool_decide (r.(dc_status) = "recycled"%string)) d.(documents).

Definition get_document (doc_id : string) (user : UserRow) : M DB DocumentResponse :=
  doc ← live_document doc_id;
  check_access doc doc_id user ;;
  gets (doc_to_response doc user).

Definition download_document (now : Z) (doc_id : string) (user : UserRow) : M DB FileResponse :=
  doc ← live_document doc_id;
  tombstone ← gets (pg_get_tombstone doc.(dc_content_hash));
  if (match tombstone with Some ts => negb (is_expired now ts) | None => false end)
  then raise (HTTPException 409)
  else
    check_access doc doc_id user ;;
    modify (log_event "ACCESS" user.(u_peer_id) doc.(dc_coc_node_hash) "") ;;
    mret (mkFile doc.(dc_storage_path) doc.(dc_filename) doc.(dc_mime_type)).

Definition copy_path (doc_id user_id filename : string) : string :=
  storage_dir +:+ "/" +:+ doc_id +:+ "_shared_" +:+ user_id +:+ suffix filename.

(** The parent node: stored, or rebuilt from the document row. *)
Definition parent_for_share (now : Z) (doc : DocumentRow) (parent_hash : string) (user : UserRow) : M DB CoCNode :=
  stored ← gets (pg_get_node parent_hash);
  stored ← lift stored;
  match stored with
  | Some n => mret n
  | None =>
      let n := new_node now doc.(dc_content_hash) user.(u_peer_id) system_signing_key [] None 0 in
      let n := mkNode n.(schema_version) n.(content_hash) n.(CoCNode.parent_hash) n.(owner_id) n.(recipient_ids)
        n.(timestamp) n.(children_hashes) n.(CoCNode.depth) n.(signature) parent_hash in
      modify (pg_add_node n) ;; mret n
  end.

(** Reading as text; a missing file raises on both attempts. *)
Definition read_text (path : string) : M DB pystr :=
  file ← gets (λ d, d.(files) !! path);
  match file with
  | Some data => mret (FileLog.universal_newlines (decode_replace data))
  | None => raise FileNotFoundError
  end.

Definition share_document (now : Z) (share_id doc_id recipient_username : string) (user : UserRow)
    : M DB ShareRow :=
  doc ← live_document doc_id;
  let is_owner := bool_decide (doc.(dc_owner_id) = user.(u_id)) in
  own_share ← gets (active_share doc_id user.(u_id));
  (if negb is_owner && negb (bool_decide (is_Some own_share)) then raise (HTTPException 403) else mret ()) ;;
  recipient ← gets (λ d, find_one (λ u, bool_decide (u.(u_username) = recipient_username)) d.(users));
  match recipient with
  | None => raise (HTTPException 404)
  | Some recipient =>
      if decide (recipient.(u_id) = user.(u_id)) then raise (HTTPException 400)
      else
        existing ← gets (active_share doc_id recipient.(u_id));
        if existing is Some _ then raise (HTTPException 409)
        else
          let parent_hash := if is_owner then doc.(dc_coc_node_hash)
            else match own_share with Some s => s.(fs_child_coc_node_hash) | None => "" end in
          parent_node ← parent_for_share now doc parent_hash user;
          let file_path := if is_owner then doc.(dc_storage_path)
            else copy_path doc_id user.(u_id) doc.(dc_filename) in
          content ← read_text file_path;
          '(child_node, watermarked) ← share_node now user.(u_peer_id) parent_node recipient.(u_peer_id) content;
          data ← lift (utf8_encode watermarked);
          modify (set_files (<[copy_path doc_id recipient.(u_id) doc.(dc_filename) := data]>)) ;;
          let share := mkShareRow share_id doc_id user.(u_id) recipient.(u_id) child_node.(node_hash)
            "active" now None None in
          insert_share share ;; mret share
  end.

Definition owned_document (doc_id : string) (user : UserRow) (ok : DocumentRow → bool) : M DB DocumentRow :=
  doc ← gets (λ d, find_one (is_document doc_id) d.(documents));
  match doc with
  | None => raise (HTTPException 404)
  | Some doc =>
      if ok doc then
        if decide (doc.(dc_owner_id) = user.(u_id)) then mret doc else raise (HTTPException 403)
      else raise (HTTPException 404)
  end.

Definition revoke_share (now : Z) (doc_id target_user_id : string) (user : UserRow) : M DB unit :=
  doc ← owned_document doc_id user (λ _, true);
  share ← gets (active_share doc_id target_user_id);
  match share with
  | None => raise (HTTPException 404)
  | Some s =>
      modify (set_shares (update_one fs_id s.(fs_id) (with_share_status "revoked" (Some (Some now)) None))) ;;
      modify (log_event "REVOKE_SHARE" user.(u_peer_id) s.(fs_child_coc_node_hash) "")
  end.

(** Update every share of a query's result, one by one. *)
Definition update_shares (shares : list ShareRow) (f : ShareRow → ShareRow) : M DB unit :=
  for_each shares (λ s, modify (set_shares (update_one fs_id s.(fs_id) f))).

Definition delete_document (now : Z) (doc_id : string) (user : UserRow) : M DB Z :=
  doc ← owned_document doc_id user (λ r, negb (bool_decide (r.(dc_status) ∈ ["deleted"; "recycled"]%string)));
  modify (set_documents (update_one dc_id doc_id (with_status "recycled" None (Some (Some now))))) ;;
  shares ← gets (λ d, find_many fs_created_at LIMIT (share_of doc_id "active") d.(file_shares));
  update_shares shares (with_share_status "suspended" None (Some (Some now))) ;;
  mret (Z.of_nat (length shares)).

Definition restore_document (doc_id : string) (restore_access : bool) (user : UserRow) : M DB Z :=
  doc ← owned_document doc_id user (λ r, bool_decide (r.(dc_status) = "recycled"%string));
  modify (set_documents (update_one dc_id doc_id (with_status "active" None (Some None)))) ;;
  shares ← gets (λ d, find_many fs_created_at LIMIT (share_of doc_id "suspended") d.(file_shares));
  if restore_access then
    update_shares shares (with_share_status "active" None (Some None)) ;; mret (Z.of_nat (length shares))
  else mret 0.

Definition purge_document (now : Z) (doc_id : string) (user : UserRow) : M DB Z :=
  doc ← owned_document doc_id user (λ r, bool_decide (r.(dc_status) = "recycled"%string));
  (if decide (doc.(dc_coc_node_hash) = ""%string) then mret ()
   else modify (log_event "DELETE" user.(u_peer_id) doc.(dc_coc_node_hash) "")) ;;
  modify (set_documents (update_one dc_id doc_id (with_status "deleted" (Some (Some now)) None))) ;;
  shares ← gets (λ d, find_many fs_created_at LIMIT (λ s, bool_decide (s.(fs_document_id) = doc_id)) d.(file_shares));
  update_shares shares (with_share_status "revoked" (Some (Some now)) None) ;;
  modify (set_files (delete doc.(dc_storage_path))) ;;
  mret (Z.of_nat (length shares)).
(** [get_document_trace]; [None] when the traversal does not end. *)
Definition get_document_trace (now : Z) (doc_id : string) (user : UserRow) (d : DB)
    : option (result (list NodeView * list Edge) * DB) :=
  match (doc ← live_document doc_id; check_access doc doc_id user ;; mret doc) d with
  | (Raise e, d) => Some (Raise e, d)
  | (Ok doc, d) =>
      let is_owner := bool_decide (doc.(dc_owner_id) = user.(u_id)) in
      let answer r d := Some (map_result (λ g : list NodeView * list Edge,
        if is_owner then g else (g.1, [])) r, d) in
      r ← get_trace_for_document now doc.(dc_coc_node_hash) d;
      match r with
      | Ok ([], _) =>
          if is_owner then
            let n := new_node now doc.(dc_content_hash) user.(u_peer_id) system_signing_key [] None 0 in
            let n := mkNode n.(schema_version) n.(content_hash) n.(CoCNode.parent_hash) n.(owner_id)
              n.(recipient_ids) n.(timestamp) n.(children_hashes) n.(CoCNode.depth) n.(signature)
              doc.(dc_coc_node_hash) in
            let d := pg_add_node n d in
            r ← get_trace_for_document now doc.(dc_coc_node_hash) d;
            answer r d
          else answer r d
      | r => answer r d
      end
  end.
End routes.

(** ** The document life cycle, abstractly

    What matters of a state: the documents and the shares.  [core_step us u op]
    is the change that call [op] by user [u] makes. *)

Definition core (d : DB) : list DocumentRow * list ShareRow := (d.(documents), d.(file_shares)).

Definition live (doc : DocumentRow) : Prop := doc.(dc_status) ∉ ["deleted"; "recycled"]%string.

(** Owner, or recipient of an active share. *)
Definition has_access (doc : DocumentRow) (u : string) (shares : list ShareRow) : Prop :=
  doc.(dc_owner_id) = u ∨ ∃ s, s ∈ shares ∧ share_for doc.(dc_id) u s = true.

(** Apply [f] to the rows with the given identifiers. *)
Definition mark (ids : list string) (f : ShareRow → ShareRow) (shares : list ShareRow) : list ShareRow :=
  (λ s, if decide (s.(fs_id) ∈ ids) then f s else s) <$> shares.

(** The calls a user can make, with what they draw. *)
Inductive doc_op :=
  | OpUpload (now : Z) (file_id : string) (filename content_type : option string) (content : bytes)
  | OpShare (now : Z) (share_id doc_id recipient_username : string)
  | OpRevoke (now : Z) (doc_id target_user_id : string)
  | OpDelete (now : Z) (doc_id : string)
  | OpRestore (doc_id : string) (restore_access : bool)
  | OpPurge (now : Z) (doc_id : string)
  | OpGet (doc_id : string)
  | OpDownload (now : Z) (doc_id : string).

(** What a successful call does, given the accounts [us]. *)
Inductive core_step (us : list UserRow) (u : string) :
    doc_op → list DocumentRow * list ShareRow → list DocumentRow * list ShareRow → Prop :=
  | cs_upload now filename content_type content docs shares doc :
      Z.of_nat (length content) ≤ max_file_size_mb * 1024 * 1024 →
      doc.(dc_owner_id) = u → doc.(dc_status) = "active"%string →
      doc.(dc_size_bytes) = Z.of_nat (length content) → (∀ x, x ∈ docs → x.(dc_id) ≠ doc.(dc_id)) →
      core_step us u (OpUpload now doc.(dc_id) filename content_type content) (docs, shares) (docs ++ [doc], shares)
  | cs_share now docs shares doc r s :
      doc ∈ docs → live doc → has_access doc u shares → r ∈ us → s.(fs_recipient_id) = r.(u_id) →
      s.(fs_document_id) = doc.(dc_id) → s.(fs_owner_id) = u → s.(fs_status) = "active"%string →
      s.(fs_recipient_id) ≠ u → (∀ x, x ∈ shares → x.(fs_id) ≠ s.(fs_id)) →
      (∀ x, x ∈ shares → share_for doc.(dc_id) s.(fs_recipient_id) x = false) →
      core_step us u (OpShare now s.(fs_id) doc.(dc_id) r.(u_username)) (docs, shares) (docs, shares ++ [s])
  | cs_revoke now docs shares doc s :
      doc ∈ docs → doc.(dc_owner_id) = u → s ∈ shares → share_for doc.(dc_id) s.(fs_recipient_id) s = true →
      core_step us u (OpRevoke now doc.(dc_id) s.(fs_recipient_id)) (docs, shares)
        (docs, mark [s.(fs_id)] (with_share_status "revoked" (Some (Some now)) None) shares)
  | cs_recycle now docs shares doc :
      doc ∈ docs → doc.(dc_owner_id) = u → live doc →
      core_step us u (OpDelete now doc.(dc_id)) (docs, shares)
        (update_one dc_id doc.(dc_id) (with_status "recycled" None (Some (Some now))) docs,
         mark (fs_id <$> find_many fs_created_at LIMIT (share_of doc.(dc_id) "active") shares)
           (with_share_status "suspended" None (Some (Some now))) shares)
  | cs_restore docs shares doc (restore_access : bool) :
      doc ∈ docs → doc.(dc_owner_id) = u → doc.(dc_status) = "recycled"%string →
      core_step us u (OpRestore doc.(dc_id) restore_access) (docs, shares)
        (update_one dc_id doc.(dc_id) (with_status "active" None (Some None)) docs,
         if restore_access
         then mark (fs_id <$> find_many fs_created_at LIMIT (share_of doc.(dc_id) "suspended") shares)
                (with_share_status "active" None (Some None)) shares
         else shares)
  | cs_purge now docs shares doc :
      doc ∈ docs → doc.(dc_owner_id) = u → doc.(dc_status) = "recycled"%string →
      core_step us u (OpPurge now doc.(dc_id)) (docs, shares)
        (update_one dc_id doc.(dc_id) (with_status "deleted" (Some (Some now)) None) docs,
         mark (fs_id <$> find_many fs_created_at LIMIT (λ s, bool_decide (s.(fs_document_id) = doc.(dc_id))) shares)
           (with_share_status "revoked" (Some (Some now)) None) shares)
  | cs_get docs shares doc :
      doc ∈ docs → live doc → has_access doc u shares →
      core_step us u (OpGet doc.(dc_id)) (docs, shares) (docs, shares)
  | cs_download now docs shares doc :
      doc ∈ docs → live doc → has_access doc u shares →
      core_step us u (OpDownload now doc.(dc_id)) (docs, shares) (docs, shares).

(** A call makes its step when it returns, and none when it raises. *)
Definition refines (us : list UserRow) (u : string) (op : doc_op) {A} (d : DB) (out : result A * DB) : Prop :=
  match out with
  | (Ok _, d') => core_step us u op (core d) (core d')
  | (Raise _, d') => core d' = core d
  end.

(** A change by some call, or none. *)
Definition evolves (c c' : list DocumentRow * list ShareRow) : Prop :=
  c' = c ∨ ∃ us u op, core_step us u op c c'.

(** ** The routes make such steps *)

(** A computation that leaves documents, shares and users alone. *)
Definition frames {A} (m : M DB A) : Prop :=
  ∀ d, core (m d).2 = core d ∧ users (m d).2 = users d.

Section frames.
Context {A B : Type}.

Lemma frames_bind (m : M DB A) (f : A → M DB B) : frames m → (∀ a, frames (f a)) → frames (m ≫= f).
Proof.
  intros Hm Hf d. unfold mbind, M_bind. destruct (m d) as [[a|e] d1] eqn:Hd.
  - destruct (Hf a d1) as [-> ->]. by pose proof (Hm d) as H; rewrite Hd in H.
  - by pose proof (Hm d) as H; rewrite Hd in H.
Qed.
Lemma frames_lift (r : result A) : frames (lift r).
Proof. by intros d. Qed.
Lemma frames_gets (f : DB → A) : frames (gets f).
Proof. by intros d. Qed.
Lemma frames_raise e : frames (@raise DB A e).
Proof. by intros d. Qed.
Lemma frames_ret (a : A) : frames (mret a).
Proof. by intros d. Qed.
End frames.

Lemma frames_modify f : (∀ d, core (f d) = core d ∧ users (f d) = users d) → frames (modify f).
Proof. intros Hf d. apply Hf. Qed.

Lemma pg_add_node_core n d : core (pg_add_node n d) = core d ∧ users (pg_add_node n d) = users d.
Proof. unfold pg_add_node. by destruct (fromisoformat _). Qed.
Lemma add_recipient_core h p d : core (add_recipient h p d) = core d ∧ users (add_recipient h p d) = users d.
Proof. unfold add_recipient. by case_decide. Qed.

Create HintDb frames.
#[export] Hint Resolve frames_bind frames_lift frames_gets frames_raise frames_ret frames_modify
  pg_add_node_core add_recipient_core : frames.
#[export] Hint Extern 4 (frames (if ?b then _ else _)) => destruct b : frames.
#[export] Hint Extern 4 (frames (match ?o with _ => _ end)) => destruct o : frames.

Section refinement.
Context {C : Crypto} {P : PickRow} {PL : PickRowLaws P} {O : SetOrder} {D : Digest}.
Context (storage_dir node_id : string) (system_signing_key : bytes).

Lemma create_document_node_frames now owner content rs :
  frames (create_document_node system_signing_key now owner content rs).
Proof. unfold create_document_node. eauto 10 with frames. Qed.
Lemma share_node_frames now owner parent rid content :
  frames (share_node system_signing_key now owner parent rid content).
Proof.
  unfold share_node. apply frames_bind; [auto with frames|]. intros known.
  destruct (embed_watermark _ _ _ _ _ _ _ _ _) as [out known']. eauto 20 with frames.
Qed.
Lemma parent_for_share_frames now doc h user : frames (parent_for_share system_signing_key now doc h user).
Proof.
  unfold parent_for_share. apply frames_bind; [auto with frames|]. intros stored.
  apply frames_bind; [auto with frames|]. intros [n|]; eauto with frames.
Qed.
Lemma read_text_frames path : frames (read_text path).
Proof. unfold read_text. apply frames_bind; [auto with frames|]. intros [data|]; auto with frames. Qed.

Lemma frames_core {A} (m : M DB A) d r d' : frames m → m d = (r, d') → core d' = core d ∧ users d' = users d.
Proof. intros Hm Hd. pose proof (Hm d) as H. by rewrite Hd in H. Qed.

Lemma live_document_inv doc_id d r d' : live_document doc_id d = (r, d') →
  d' = d ∧ ∀ doc, r = Ok doc → doc ∈ d.(documents) ∧ doc.(dc_id) = doc_id ∧ live doc.
Proof.
  unfold live_document, gets, raise. unfold mbind, M_bind. cbv beta iota.
  destruct (find_one _ _) as [doc|] eqn:Hf; [|intros [= <- <-]; done].
  apply find_one_Some in Hf as [Hid%bool_decide_eq_true Hin].
  case_decide as Hs; intros [= <- <-]; (split; [done|]); [done|]. by intros doc' [= <-].
Qed.

Lemma owned_document_inv doc_id user ok d r d' : owned_document doc_id user ok d = (r, d') →
  d' = d ∧ ∀ doc, r = Ok doc →
    doc ∈ d.(documents) ∧ doc.(dc_id) = doc_id ∧ doc.(dc_owner_id) = user.(u_id) ∧ ok doc = true.
Proof.
  unfold owned_document, gets, raise. unfold mbind, M_bind. cbv beta iota.
  destruct (find_one _ _) as [doc|] eqn:Hf; [|intros [= <- <-]; done].
  apply find_one_Some in Hf as [Hid%bool_decide_eq_true Hin].
  destruct (ok doc) eqn:Hok; [|intros [= <- <-]; done].
  case_decide as Hs; intros [= <- <-]; (split; [done|]); [|done]. by intros doc' [= <-].
Qed.

Lemma active_share_Some doc_id rid d s : active_share doc_id rid d = Some s →
  s ∈ d.(file_shares) ∧ share_for doc_id rid s = true.
Proof. intros [? ?]%find_one_Some. done. Qed.

Lemma active_share_None doc_id rid d : active_share doc_id rid d = None →
  ∀ s, s ∈ d.(file_shares) → share_for doc_id rid s = false.
Proof. unfold active_share. by rewrite find_one_None. Qed.

Lemma update_shares_eq shares f d :
  (∀ s, (f s).(fs_id) = s.(fs_id)) → (∀ s, f (f s) = f s) →
  update_shares shares f d = (Ok (), set_shares (mark (fs_id <$> shares) f) d).
Proof.
  intros Hid Hff. unfold update_shares. revert d. induction shares as [|s shares IH]; intros d; cbn [for_each].
  - assert (mark [] f d.(file_shares) = d.(file_shares)) as Hm.
    { unfold mark. rewrite <- (list_fmap_id d.(file_shares)) at 2. apply list_fmap_ext. intros i x _.
      by rewrite decide_False by set_solver. }
    unfold mret, M_ret, set_shares. cbn [fmap list_fmap]. rewrite Hm. by destruct d.
  - unfold mbind at 1, M_bind at 1. unfold modify at 1. rewrite IH. f_equal. unfold set_shares. cbn.
    f_equal. unfold mark, update_one. rewrite <- list_fmap_compose. apply list_fmap_ext. intros i x _. cbn.
    destruct (decide (fs_id x = fs_id s)) as [He|Hne].
    + rewrite Hid, (decide_True (P := fs_id x ∈ fs_id s :: (fs_id <$> shares))) by (rewrite He; set_solver).
      by case_decide.
    + destruct (decide (fs_id x ∈ fs_id <$> shares)); [by rewrite decide_True by set_solver|].
      by rewrite decide_False by set_solver.
Qed.

Lemma with_share_status_twice st r s x : with_share_status st r s (with_share_status st r s x) = with_share_status st r s x.
Proof. destruct x, r, s; done. Qed.

Lemma update_one_mark s f shares : update_one fs_id s f shares = mark [s] f shares.
Proof.
  unfold update_one, mark. apply list_fmap_ext. intros i x _. destruct (decide (fs_id x = s)) as [->|].
  - by rewrite decide_True by set_solver.
  - by rewrite decide_False by set_solver.
Qed.

Lemma upload_refines us now file_id filename ctype content user d :
  refines us user.(u_id) (OpUpload now file_id filename ctype content) d
    (upload_document storage_dir node_id system_signing_key now file_id filename ctype content user d).
Proof.
  unfold upload_document.
  destruct (Z.ltb_spec (max_file_size_mb * 1024 * 1024) (Z.of_nat (length content))) as [|Hlen]; [done|].
  destruct ((modify _ ;; _) d) as [r d'] eqn:Hd.
  apply bind_inv in Hd as [(e & _ & [=])|(? & d1 & [= _ <-] & Hd)].
  apply bind_inv in Hd as [(e & -> & He)|(node & d2 & Hn & Hd)].
  { apply frames_core in He as [He _]; [exact He|apply create_document_node_frames]. }
  apply frames_core in Hn as [Hcore _]; [|apply create_document_node_frames].
  assert (core d2 = core d) as Hc by done.
  apply bind_inv in Hd as [(e & -> & He)|(? & d3 & Hi & [= <- <-])].
  - unfold insert_document in He. destruct (insert_row _ _ _); [done|]. by injection He as _ <-.
  - unfold insert_document in Hi. destruct (insert_row _ _ _) as [rows|] eqn:Hins; [|done].
    injection Hi as _ <-. apply insert_row_Ok in Hins as [-> Hclash].
    injection Hc as Hdocs Hshares. rewrite Hdocs in Hclash. unfold refines, core. cbn. rewrite Hdocs, Hshares.
    eapply (cs_upload us (u_id user) now filename ctype content _ _ (mkDoc file_id _ _ _ _ _ _ _ _ _ _ _ _)); [done..|].
    intros y Hy Hid. specialize (Hclash y Hy). unfold doc_clash in Hclash.
    apply bool_decide_eq_false in Hclash. by apply Hclash.
Qed.

Lemma share_of_document doc_id st s : share_of doc_id st s = true ↔ s.(fs_document_id) = doc_id ∧ s.(fs_status) = st.
Proof. unfold share_of. by rewrite andb_true_iff, !bool_decide_eq_true. Qed.

(** A framed computation first: the change is what follows makes of it. *)
Lemma refines_frame {A B} us u op d d0 (m : M DB A) (f : A → M DB B) :
  frames m → core d0 = core d → users d0 = us →
  (∀ a d1, core d1 = core d → users d1 = us → refines us u op d (f a d1)) → refines us u op d ((m ≫= f) d0).
Proof.
  intros Hm Hc Hu Hf. destruct ((m ≫= f) d0) as [r d'] eqn:Hd.
  apply bind_inv in Hd as [(e & -> & He)|(a & d1 & Ha & Hfa)].
  - apply frames_core in He as [He _]; [|done]. cbn. congruence.
  - apply frames_core in Ha as [H1 H2]; [|done]. rewrite <- Hfa. apply Hf; congruence.
Qed.

(** Raising after a look at the state changes nothing. *)
Lemma refines_ret {A B} us u op d (m : M DB A) (f : A → M DB B) :
  (∀ r d', m d = (r, d') → d' = d) → (∀ a, m d = (Ok a, d) → refines us u op d (f a d)) →
  refines us u op d ((m ≫= f) d).
Proof.
  intros Hm Hf. unfold mbind, M_bind. destruct (m d) as [[a|e] d1] eqn:Hd.
  - rewrite (Hm _ _ eq_refl) in *. by apply Hf.
  - by rewrite (Hm _ _ eq_refl).
Qed.

Lemma refines_live {B} us u op d doc_id (f : DocumentRow → M DB B) :
  (∀ doc, doc ∈ d.(documents) → doc.(dc_id) = doc_id → live doc → refines us u op d (f doc d)) →
  refines us u op d ((live_document doc_id ≫= f) d).
Proof.
  intros Hf. apply refines_ret; [by intros r d' [-> _]%live_document_inv|].
  intros doc [_ Hdoc]%live_document_inv. destruct (Hdoc doc eq_refl) as (? & ? & ?). by apply Hf.
Qed.

Lemma refines_owned {B} us user op d doc_id ok (f : DocumentRow → M DB B) :
  (∀ doc, doc ∈ d.(documents) → doc.(dc_id) = doc_id → doc.(dc_owner_id) = user.(u_id) → ok doc = true →
     refines us user.(u_id) op d (f doc d)) →
  refines us user.(u_id) op d ((owned_document doc_id user ok ≫= f) d).
Proof.
  intros Hf. apply refines_ret; [by intros r d' [-> _]%owned_document_inv|].
  intros doc [_ Hdoc]%owned_document_inv. destruct (Hdoc doc eq_refl) as (? & ? & ? & ?). by apply Hf.
Qed.

Lemma check_access_eq doc user d :
  check_access doc doc.(dc_id) user d =
  (if decide (doc.(dc_owner_id) = user.(u_id)) then Ok ()
   else match active_share doc.(dc_id) user.(u_id) d with Some _ => Ok () | None => Raise (HTTPException 403) end, d).
Proof.
  unfold check_access, gets, raise. case_decide; [done|]. unfold mbind, M_bind. cbv beta iota.
  by destruct (active_share _ _ _).
Qed.

Lemma has_access_iff doc user d :
  has_access doc user.(u_id) d.(file_shares) ↔
  (if decide (doc.(dc_owner_id) = user.(u_id)) then True else is_Some (active_share doc.(dc_id) user.(u_id) d)).
Proof.
  unfold has_access. case_decide as Ho; [tauto|]. split.
  - intros [?|(s & Hs & Hf)]; [done|]. destruct (active_share _ _ d) eqn:Ha; [by eexists|].
    eapply active_share_None in Ha; [|exact Hs]. congruence.
  - intros [s Hs]. right. exists s. by apply active_share_Some.
Qed.

Lemma refines_access {B} us op doc user d (f : unit → M DB B) :
  (has_access doc user.(u_id) d.(file_shares) → refines us user.(u_id) op d (f () d)) →
  refines us user.(u_id) op d ((check_access doc doc.(dc_id) user ≫= f) d).
Proof.
  intros Hf. apply refines_ret; [intros r d'; rewrite check_access_eq; by intros [= _ <-]|].
  intros [] Ha. apply Hf, has_access_iff. rewrite check_access_eq in Ha. case_decide; [done|].
  destruct (active_share _ _ d); [by eexists|done].
Qed.

Lemma share_refines now share_id doc_id recipient user d :
  refines d.(users) user.(u_id) (OpShare now share_id doc_id recipient) d
    (share_document storage_dir system_signing_key now share_id doc_id recipient user d).
Proof.
  unfold share_document. apply refines_live. intros doc Hin <- Hlive.
  apply refines_ret; [by intros r d' [= _ <-]|]. intros own [= <-].
  set (is_owner := bool_decide (dc_owner_id doc = u_id user)) in *.
  apply refines_ret; [intros r d'; destruct (_ && _); by intros [= _ <-]|]. intros [] Hg.
  assert (has_access doc user.(u_id) d.(file_shares)) as Hacc.
  { unfold is_owner in Hg. destruct (bool_decide (dc_owner_id doc = _)) eqn:Ho; cbn in Hg.
    - left. by apply bool_decide_eq_true in Ho.
    - destruct (active_share (dc_id doc) (u_id user) d) as [s|] eqn:Hs; cbn in Hg; [|done].
      right. exists s. by apply active_share_Some. }
  clear Hg. apply refines_ret; [by intros r d' [= _ <-]|]. intros rcp [= <-].
  destruct (find_one _ _) as [rcp|] eqn:Hrcp; [|done].
  apply find_one_Some in Hrcp as [<-%bool_decide_eq_true Hrcp].
  case_decide as Hself; [done|]. apply refines_ret; [by intros r d' [= _ <-]|]. intros ex [= <-].
  destruct (active_share (dc_id doc) (u_id rcp) d) as [?|] eqn:Hex; [done|].
  apply refines_frame; [apply parent_for_share_frames|done..|]. intros parent d1 H1 U1.
  apply refines_frame; [apply read_text_frames|done..|]. intros content d2 H2 U2.
  apply refines_frame; [apply share_node_frames|done..|]. intros [child wm] d3 H3 U3.
  apply refines_frame; [apply frames_lift|done..|]. intros data d4 H4 U4.
  apply refines_frame; [by apply frames_modify|done..|]. intros _ d5 H5 U5.
  unfold mbind, M_bind, insert_share. destruct (insert_row _ _ _) as [rows|] eqn:Hins; [|done].
  apply insert_row_Ok in Hins as [-> Hclash].
  injection H5 as Hdocs Hshares. rewrite Hshares in Hclash. unfold refines, core. cbn. rewrite Hdocs, Hshares.
  eapply (cs_share _ _ now _ _ doc rcp (mkShareRow share_id _ _ _ _ _ _ _ _)); [done..| |].
  - intros y Hy Hid. specialize (Hclash y Hy). apply bool_decide_eq_false in Hclash. by apply Hclash.
  - by apply active_share_None.
Qed.

Lemma revoke_refines us now doc_id target user d :
  refines us user.(u_id) (OpRevoke now doc_id target) d (revoke_share now doc_id target user d).
Proof.
  unfold revoke_share. apply refines_owned. intros doc Hin <- Ho _.
  apply refines_ret; [by intros r d' [= _ <-]|]. intros own [= <-].
  destruct (active_share _ _ d) as [s|] eqn:Hs; [|done]. apply active_share_Some in Hs as [Hs Hf].
  pose proof Hf as [_ Hr%bool_decide_eq_true]%andb_true_iff. subst target.
  unfold mbind, M_bind, modify, refines, core. cbn. rewrite update_one_mark. by apply cs_revoke.
Qed.

Lemma delete_refines us now doc_id user d :
  refines us user.(u_id) (OpDelete now doc_id) d (delete_document now doc_id user d).
Proof.
  unfold delete_document. apply refines_owned. intros doc Hin <- Ho Hok%negb_true_iff%bool_decide_eq_false.
  unfold mbind, M_bind, modify at 1, gets. cbv beta iota.
  rewrite update_shares_eq by (done || apply with_share_status_twice). by apply cs_recycle.
Qed.

Lemma restore_refines us doc_id access user d :
  refines us user.(u_id) (OpRestore doc_id access) d (restore_document doc_id access user d).
Proof.
  unfold restore_document. apply refines_owned. intros doc Hin <- Ho Hok%bool_decide_eq_true.
  unfold mbind, M_bind, modify at 1, gets. cbv beta iota. destruct access.
  - rewrite update_shares_eq by (done || apply with_share_status_twice). by apply (cs_restore _ _ _ _ _ true).
  - by apply (cs_restore _ _ _ _ _ false).
Qed.

Lemma purge_refines us now doc_id user d :
  refines us user.(u_id) (OpPurge now doc_id) d (purge_document now doc_id user d).
Proof.
  unfold purge_document. apply refines_owned. intros doc Hin <- Ho Hok%bool_decide_eq_true.
  unfold mbind, M_bind, modify, gets, mret, M_ret. case_decide; cbv beta iota;
    rewrite update_shares_eq by (done || apply with_share_status_twice); by apply cs_purge.
Qed.

Lemma get_refines us doc_id user d :
  refines us user.(u_id) (OpGet doc_id) d (get_document doc_id user d).
Proof.
  unfold get_document. apply refines_live. intros doc Hin <- Hlive. apply refines_access. intros Hacc.
  by apply cs_get.
Qed.

Lemma download_refines us now doc_id user d :
  refines us user.(u_id) (OpDownload now doc_id) d (download_document now doc_id user d).
Proof.
  unfold download_document. apply refines_live. intros doc Hin <- Hlive.
  apply refines_ret; [by intros r d' [= _ <-]|]. intros ts [= <-].
  destruct (match pg_get_tombstone _ d with Some _ => _ | None => _ end); [done|].
  apply refines_access. intros Hacc. by apply cs_download.
Qed.
End refinement.

(** ** Histories *)

(** The invariant of documents and shares. *)
Record docs_inv (c : list DocumentRow * list ShareRow) : Prop := {
  di_ids : NoDup (dc_id <$> c.1);
  di_share_ids : NoDup (fs_id <$> c.2);
  di_status doc : doc ∈ c.1 → doc.(dc_status) ∈ ["active"; "recycled"; "deleted"]%string;
  di_share_status s : s ∈ c.2 → s.(fs_status) ∈ ["active"; "suspended"; "revoked"]%string;
  di_grant i s : c.2 !! i = Some s → ∃ doc, doc ∈ c.1 ∧ doc.(dc_id) = s.(fs_document_id) ∧
    (doc.(dc_owner_id) = s.(fs_owner_id) ∨
     ∃ j s', (j < i)%nat ∧ c.2 !! j = Some s' ∧ s'.(fs_document_id) = s.(fs_document_id) ∧
             s'.(fs_recipient_id) = s.(fs_owner_id));
}.

(** Access obtained from the owner through a chain of shares. *)
Inductive granted (shares : list ShareRow) (doc : DocumentRow) : string → Prop :=
  | granted_owner : granted shares doc doc.(dc_owner_id)
  | granted_share s : s ∈ shares → s.(fs_document_id) = doc.(dc_id) →
      granted shares doc s.(fs_owner_id) → granted shares doc s.(fs_recipient_id).

Lemma docs_inv_init : docs_inv ([], []).
Proof. split; cbn; try constructor; set_solver. Qed.

(** *** Updates of rows that keep identity, owner and the like *)

Lemma doc_unique docs a b : NoDup (dc_id <$> docs) → a ∈ docs → b ∈ docs → a.(dc_id) = b.(dc_id) → a = b.
Proof.
  intros Hnd Ha Hb Hab. apply list_elem_of_lookup in Ha as [i Hi]. apply list_elem_of_lookup in Hb as [j Hj].
  assert (i = j) as ->; [|congruence].
  eapply NoDup_lookup; [exact Hnd|..]; rewrite list_lookup_fmap, ?Hi, ?Hj; [done|cbn; by rewrite Hab].
Qed.

Lemma share_unique shares a b : NoDup (fs_id <$> shares) → a ∈ shares → b ∈ shares → a.(fs_id) = b.(fs_id) → a = b.
Proof.
  intros Hnd Ha Hb Hab. apply list_elem_of_lookup in Ha as [i Hi]. apply list_elem_of_lookup in Hb as [j Hj].
  assert (i = j) as ->; [|congruence].
  eapply NoDup_lookup; [exact Hnd|..]; rewrite list_lookup_fmap, ?Hi, ?Hj; [done|cbn; by rewrite Hab].
Qed.

Lemma update_docs_ids i st a b docs : dc_id <$> update_one dc_id i (with_status st a b) docs = dc_id <$> docs.
Proof.
  unfold update_one. rewrite <- list_fmap_compose. apply list_fmap_ext. intros k x _. cbn. by case_decide.
Qed.

Lemma mark_ids ids st a b shares : fs_id <$> mark ids (with_share_status st a b) shares = fs_id <$> shares.
Proof.
  unfold mark. rewrite <- list_fmap_compose. apply list_fmap_ext. intros k x _. cbn. by case_decide.
Qed.

(** A step keeps documents and grants: rows keep identity, owner and ends. *)
Definition same_doc (a b : DocumentRow) : Prop := a.(dc_id) = b.(dc_id) ∧ a.(dc_owner_id) = b.(dc_owner_id).
Definition same_share (a b : ShareRow) : Prop :=
  a.(fs_id) = b.(fs_id) ∧ a.(fs_document_id) = b.(fs_document_id) ∧ a.(fs_owner_id) = b.(fs_owner_id) ∧
  a.(fs_recipient_id) = b.(fs_recipient_id).

Lemma update_docs_same i st a b docs : Forall2 same_doc docs (update_one dc_id i (with_status st a b) docs).
Proof.
  unfold update_one. apply Forall2_fmap_r, Forall_Forall2_diag, Forall_forall. intros x _.
  unfold compose. by case_decide.
Qed.

Lemma mark_same ids st a b shares : Forall2 same_share shares (mark ids (with_share_status st a b) shares).
Proof.
  unfold mark. apply Forall2_fmap_r, Forall_Forall2_diag, Forall_forall. intros x _.
  unfold compose. by case_decide.
Qed.

(** Grounded grants survive such changes. *)
Lemma docs_inv_same docs shares docs' shares' :
  docs_inv (docs, shares) → Forall2 same_doc docs docs' → Forall2 same_share shares shares' →
  (∀ doc, doc ∈ docs' → doc.(dc_status) ∈ ["active"; "recycled"; "deleted"]%string) →
  (∀ s, s ∈ shares' → s.(fs_status) ∈ ["active"; "suspended"; "revoked"]%string) →
  docs_inv (docs', shares').
Proof.
  intros [H1 H2 _ _ H5] Hd Hs Hds Hss. cbn in *.
  assert (dc_id <$> docs' = dc_id <$> docs) as Hdi.
  { clear -Hd. induction Hd as [|a b l k [? _] _ IH]; [done|]. cbn. by rewrite IH; f_equal. }
  assert (fs_id <$> shares' = fs_id <$> shares) as Hsi.
  { clear -Hs. induction Hs as [|a b l k [? _] _ IH]; [done|]. cbn. by rewrite IH; f_equal. }
  split; cbn; [by rewrite Hdi|by rewrite Hsi|done|done|].
  intros i s' Hi.
  destruct (Forall2_lookup_r _ _ _ _ _ Hs Hi) as (s & Hsl & (_ & Hdoc & Hown & _)).
  destruct (H5 i s Hsl) as (doc & Hin & Hid & Hgr).
  apply list_elem_of_lookup in Hin as [k Hk].
  destruct (Forall2_lookup_l _ _ _ _ _ Hd Hk) as (doc' & Hk' & Hdid & Hdo). exists doc'.
  split; [by eapply list_elem_of_lookup_2|]. split; [congruence|].
  destruct Hgr as [?|(j & t & Hj & Ht & ? & ?)]; [left; congruence|].
  destruct (Forall2_lookup_l _ _ _ _ _ Hs Ht) as (t' & Ht' & (_ & ? & _ & ?)). right. exists j, t'.
  split; [done|]. split; [done|]. split; congruence.
Qed.

Lemma core_step_inv us u op c c' : core_step us u op c c' → docs_inv c → docs_inv c'.
Proof.
  intros Hstep Hinv.
  assert (∀ i st a b docs doc, (∀ x, x ∈ docs → x.(dc_status) ∈ ["active"; "recycled"; "deleted"]%string) →
    st ∈ ["active"; "recycled"; "deleted"]%string → doc ∈ update_one dc_id i (with_status st a b) docs →
    doc.(dc_status) ∈ ["active"; "recycled"; "deleted"]%string) as Hds.
  { intros i st a b docs doc Hall Hst (y & Hy & ->)%update_one_elem. case_decide; [done|by apply Hall]. }
  assert (∀ ids st a b shares s, (∀ x, x ∈ shares → x.(fs_status) ∈ ["active"; "suspended"; "revoked"]%string) →
    st ∈ ["active"; "suspended"; "revoked"]%string → s ∈ mark ids (with_share_status st a b) shares →
    s.(fs_status) ∈ ["active"; "suspended"; "revoked"]%string) as Hss.
  { intros ids st a b shares s Hall Hst (y & -> & Hy)%list_elem_of_fmap. case_decide; [done|by apply Hall]. }
  assert (∀ docs : list DocumentRow, Forall2 same_doc docs docs) as Hdr.
  { intros docs. apply Forall_Forall2_diag, Forall_forall. done. }
  assert (∀ shares : list ShareRow, Forall2 same_share shares shares) as Hsr.
  { intros shares. apply Forall_Forall2_diag, Forall_forall. done. }
  destruct Hstep as [now fn ct content docs shares doc _ Ho Hst _ Hnew|now docs shares doc r s Hin _ Hacc _ _ Hd Ho Hst _ Hnew _
    |now docs shares doc s Hin Ho Hs _|now docs shares doc Hin Ho _|docs shares doc acc Hin Ho _
    |now docs shares doc Hin Ho _|docs shares doc _ _ _|now docs shares doc _ _ _]; [..|done|done].
  - destruct Hinv as [H1 H2 H3 H4 H5]. cbn in *. split; cbn; [|done| |done|].
    + rewrite fmap_app. apply NoDup_app. split; [done|]. split; [|apply NoDup_singleton].
      intros x (y & -> & Hy)%list_elem_of_fmap Hx%list_elem_of_singleton. by apply (Hnew y).
    + intros y [?| ->%list_elem_of_singleton]%elem_of_app; [auto|]. rewrite Hst. set_solver.
    + intros i s Hi. destruct (H5 i s Hi) as (y & ? & ? & ?). exists y. set_solver.
  - destruct Hinv as [H1 H2 H3 H4 H5]. cbn in *. split; cbn; [done| |done| |].
    + rewrite fmap_app. apply NoDup_app. split; [done|]. split; [|apply NoDup_singleton].
      intros x (y & -> & Hy)%list_elem_of_fmap Hx%list_elem_of_singleton. by apply (Hnew y).
    + intros y [?| ->%list_elem_of_singleton]%elem_of_app; [auto|]. rewrite Hst. set_solver.
    + intros i t Hi. apply lookup_app_Some in Hi as [Hi|(Hlen & Hi)].
      * destruct (H5 i t Hi) as (y & ? & ? & [?|(j & t' & Hj & Ht & ?)]); exists y; [by auto|].
        split_and!; [done..|]. right. exists j, t'. rewrite lookup_app_l by (by eapply lookup_lt_Some). auto.
      * apply list_lookup_singleton_Some in Hi as [Hi <-]. exists doc. split; [done|]. split; [done|].
        destruct Hacc as [?|(t & Ht & Hf)]; [left; congruence|]. right.
        apply list_elem_of_lookup in Ht as [j Hj]. pose proof (lookup_lt_Some _ _ _ Hj).
        unfold share_for in Hf. apply andb_true_iff in Hf as [[? _]%share_of_document Hr%bool_decide_eq_true].
        exists j, t. split; [lia|]. rewrite lookup_app_l by done. split_and!; [done|congruence|congruence].
  - eapply docs_inv_same; [done|apply Hdr|apply mark_same|apply Hinv|]. intros x. apply Hss; [apply Hinv|set_solver].
  - eapply docs_inv_same; [done|apply update_docs_same|apply mark_same|intros x; apply Hds; [apply Hinv|set_solver]|].
    intros x. apply Hss; [apply Hinv|set_solver].
  - eapply docs_inv_same; [done|apply update_docs_same| |intros x; apply Hds; [apply Hinv|set_solver]|].
    + destruct acc; [apply mark_same|apply Hsr].
    + destruct acc; [|apply Hinv]. intros x. apply Hss; [apply Hinv|set_solver].
  - eapply docs_inv_same; [done|apply update_docs_same|apply mark_same|intros x; apply Hds; [apply Hinv|set_solver]|].
    intros x. apply Hss; [apply Hinv|set_solver].
Qed.

(** Deletion and revocation are final. *)
Lemma update_docs_keep i st a b docs doc other :
  NoDup (dc_id <$> docs) → doc ∈ docs → other ∈ docs → other.(dc_id) = i → other ≠ doc →
  doc ∈ update_one dc_id i (with_status st a b) docs.
Proof.
  intros Hnd Hdoc Hother Hi Hne. apply update_one_elem. exists doc. split; [done|].
  rewrite decide_False; [done|]. intros Heq. apply Hne. eapply doc_unique; [done..|congruence].
Qed.

Lemma mark_revoked shares ids st a b s :
  s ∈ shares → s.(fs_status) = "revoked"%string → (st = "revoked"%string ∨ s.(fs_id) ∉ ids) →
  ∃ s', s' ∈ mark ids (with_share_status st a b) shares ∧ same_share s s' ∧ s'.(fs_status) = "revoked"%string.
Proof.
  intros Hs Hr Hst. exists (if decide (s.(fs_id) ∈ ids) then with_share_status st a b s else s).
  split; [by apply list_elem_of_fmap; exists s|]. case_decide as Hin; [|done]. by destruct Hst as [->|].
Qed.

Lemma queried_not_revoked shares doc_id st s :
  NoDup (fs_id <$> shares) → s ∈ shares → s.(fs_status) = "revoked"%string → st ≠ "revoked"%string →
  s.(fs_id) ∉ fs_id <$> find_many fs_created_at LIMIT (share_of doc_id st) shares.
Proof.
  intros Hnd Hs Hr Hst (x & Hx & [[_ Hxs]%share_of_document Hin]%find_many_elem)%list_elem_of_fmap.
  assert (s = x) as -> by (eapply share_unique; done). congruence.
Qed.

Lemma core_step_final us u op c c' : docs_inv c → core_step us u op c c' →
  (∀ doc, doc ∈ c.1 → doc.(dc_status) = "deleted"%string → doc ∈ c'.1) ∧
  (∀ s, s ∈ c.2 → s.(fs_status) = "revoked"%string →
     ∃ s', s' ∈ c'.2 ∧ same_share s s' ∧ s'.(fs_status) = "revoked"%string).
Proof.
  intros Hinv Hstep. pose proof (di_ids _ Hinv) as Hnd. pose proof (di_share_ids _ Hinv) as Hns.
  assert (∀ s : ShareRow, same_share s s) as Hrefl by done.
  destruct Hstep as [now fn ct content docs shares doc _ Ho Hst _ Hnew|now docs shares doc r s Hin _ Hacc _ _ Hd Ho Hst _ Hnew _
    |now docs shares doc s Hin Ho Hs Hact|now docs shares doc Hin Ho Hl|docs shares doc acc Hin Ho Hst
    |now docs shares doc Hin Ho Hst|docs shares doc _ _ _|now docs shares doc _ _ _]; cbn [fst snd] in *; (split; [intros x Hx Hdel|intros x Hx Hrev]); try by eauto.
  - set_solver.
  - exists x. set_solver.
  - eapply mark_revoked; [done..|by left].
  - apply (update_docs_keep _ _ _ _ _ x doc); [done..|]. intros ->. apply Hl. rewrite Hdel. set_solver.
  - eapply mark_revoked; [done..|right; by apply queried_not_revoked].
  - apply (update_docs_keep _ _ _ _ _ x doc); [done..|]. intros ->. congruence.
  - destruct acc; [|by eauto]. eapply mark_revoked; [done..|right; by apply queried_not_revoked].
  - apply (update_docs_keep _ _ _ _ _ x doc); [done..|]. intros ->. congruence.
  - eapply mark_revoked; [done..|by left].
Qed.

Lemma evolves_inv c c' : evolves c c' → docs_inv c → docs_inv c'.
Proof. intros [->|(us & u & op & Hstep)]; [done|]. by eapply core_step_inv. Qed.

Lemma evolves_final c c' : docs_inv c → evolves c c' →
  (∀ doc, doc ∈ c.1 → doc.(dc_status) = "deleted"%string → doc ∈ c'.1) ∧
  (∀ s, s ∈ c.2 → s.(fs_status) = "revoked"%string →
     ∃ s', s' ∈ c'.2 ∧ same_share s s' ∧ s'.(fs_status) = "revoked"%string).
Proof.
  intros Hinv [->|(us & u & op & Hstep)]; [|by eapply core_step_final].
  split; [done|]. intros s Hs Hr. by exists s.
Qed.

Lemma granted_all docs shares s doc :
  docs_inv (docs, shares) → s ∈ shares → doc ∈ docs → s.(fs_document_id) = doc.(dc_id) →
  granted shares doc s.(fs_recipient_id).
Proof.
  intros Hinv Hs Hdoc. apply list_elem_of_lookup in Hs as [i Hi]. revert s Hi.
  induction (lt_wf i) as [i _ IH]. intros s Hi Hd. apply granted_share; [by eapply list_elem_of_lookup_2|done|].
  destruct (di_grant _ Hinv i s Hi) as (doc' & Hdoc' & Hid & Hgr). cbn in *.
  assert (doc' = doc) as -> by (eapply doc_unique; [apply Hinv|done..|congruence]).
  destruct Hgr as [<-|(j & t & Hj & Ht & ? & <-)]; [constructor|]. apply (IH j Hj t); [done|congruence].
Qed.

Section properties.
Context {C : Crypto} {P : PickRow} {PL : PickRowLaws P} {O : SetOrder} {D : Digest}.
Context (storage_dir node_id : string) (system_signing_key : bytes).

Definition exec_doc (user : UserRow) (op : doc_op) : M DB unit :=
  match op with
  | OpUpload now file_id filename content_type content =>
      upload_document storage_dir node_id system_signing_key now file_id filename content_type content user ;; mret ()
  | OpShare now share_id doc_id recipient =>
      share_document storage_dir system_signing_key now share_id doc_id recipient user ;; mret ()
  | OpRevoke now doc_id target => revoke_share now doc_id target user
  | OpDelete now doc_id => delete_document now doc_id user ;; mret ()
  | OpRestore doc_id access => restore_document doc_id access user ;; mret ()
  | OpPurge now doc_id => purge_document now doc_id user ;; mret ()
  | OpGet doc_id => get_document doc_id user ;; mret ()
  | OpDownload now doc_id => download_document now doc_id user ;; mret ()
  end.

Definition run_docs (ops : list (UserRow * doc_op)) (d : DB) : DB :=
  foldl (λ d uo, (exec_doc uo.1 uo.2 d).2) d ops.

Lemma refines_void {A} us u op d (m : M DB A) : refines us u op d (m d) → refines us u op d ((m ;; mret ()) d).
Proof. unfold mbind, M_bind. by destruct (m d) as [[a|e] d']. Qed.

Lemma exec_doc_refines user op d : refines d.(users) user.(u_id) op d (exec_doc user op d).
Proof.
  destruct op; cbn [exec_doc]; try apply refines_void.
  - apply upload_refines.
  - apply share_refines.
  - apply revoke_refines.
  - apply delete_refines.
  - apply restore_refines.
  - apply purge_refines.
  - apply get_refines.
  - apply download_refines.
Qed.

Lemma exec_doc_evolves user op d : evolves (core d) (core (exec_doc user op d).2).
Proof.
  pose proof (exec_doc_refines user op d) as H. destruct (exec_doc user op d) as [[[]|e] d']; cbn in *.
  - right. eauto.
  - by left.
Qed.

Lemma run_docs_inv ops d : docs_inv (core d) → docs_inv (core (run_docs ops d)).
Proof.
  revert d. induction ops as [|[u op] ops IH]; intros d Hd; [done|]. apply IH.
  eapply evolves_inv; [apply exec_doc_evolves|done].
Qed.

Lemma run_docs_final ops d : docs_inv (core d) →
  (∀ doc, doc ∈ documents d → doc.(dc_status) = "deleted"%string → doc ∈ documents (run_docs ops d)) ∧
  (∀ s, s ∈ file_shares d → s.(fs_status) = "revoked"%string →
     ∃ s', s' ∈ file_shares (run_docs ops d) ∧ same_share s s' ∧ s'.(fs_status) = "revoked"%string).
Proof.
  revert d. induction ops as [|[u op] ops IH]; intros d Hd; [split; [done|]; intros s Hs Hr; by exists s|].
  pose proof (exec_doc_evolves u op d) as Hstep. pose proof (evolves_inv _ _ Hstep Hd) as Hd'.
  destruct (evolves_final _ _ Hd Hstep) as [H1 H2]. destruct (IH _ Hd') as [H3 H4]. split.
  - intros doc Hdoc Hs. apply H3; [by apply H1|done].
  - intros s Hs Hr. destruct (H2 s Hs Hr) as (s1 & Hs1 & (E1 & E2 & E3 & E4) & Hr1).
    destruct (H4 s1 Hs1 Hr1) as (s2 & Hs2 & (F1 & F2 & F3 & F4) & Hr2). exists s2. split; [done|].
    split; [|done]. unfold same_share. split_and!; congruence.
Qed.

Lemma live_document_eq doc d :
  NoDup (dc_id <$> documents d) → doc ∈ documents d →
  live_document doc.(dc_id) d =
  (if decide (doc.(dc_status) ∈ ["deleted"; "recycled"]%string) then Raise (HTTPException 404) else Ok doc, d).
Proof.
  intros Hnd Hin. unfold live_document, gets, raise. unfold mbind, M_bind. cbv beta iota.
  destruct (find_one _ _) as [x|] eqn:Hf.
  - apply find_one_Some in Hf as [Hid%bool_decide_eq_true Hx].
    assert (x = doc) as -> by (by eapply doc_unique). by case_decide.
  - eapply find_one_None in Hf; [|exact Hin]. unfold is_document in Hf. by rewrite bool_decide_eq_true_2 in Hf.
Qed.

(** C37: over any history of calls by any users from a state without documents,
    whoever can read a document got it from the owner: [get_document] succeeds
    exactly for a live document and a user with access, and such a user is the
    owner or at the end of a chain of shares that starts with the owner.  A
    permanently deleted document stays deleted, whatever calls follow, and
    every later [get_document], [download_document] and [share_document] on it
    answers 404; a revoked share never becomes active again. *)
Theorem document_history (ops : list (UserRow * doc_op)) (d : DB) :
  core d = ([], []) →
  let d1 := run_docs ops d in
  (∀ doc user, doc ∈ documents d1 →
     ((∃ r, (get_document doc.(dc_id) user d1).1 = Ok r) ↔ live doc ∧ has_access doc user.(u_id) d1.(file_shares)) ∧
     (has_access doc user.(u_id) d1.(file_shares) → granted d1.(file_shares) doc user.(u_id))) ∧
  ∀ ops', let d2 := run_docs ops' d1 in
    (∀ doc user now share_id recipient, doc ∈ documents d1 → doc.(dc_status) = "deleted"%string →
       (get_document doc.(dc_id) user d2).1 = Raise (HTTPException 404) ∧
       (download_document now doc.(dc_id) user d2).1 = Raise (HTTPException 404) ∧
       (share_document storage_dir system_signing_key now share_id doc.(dc_id) recipient user d2).1 =
         Raise (HTTPException 404)) ∧
    (∀ s, s ∈ file_shares d1 → s.(fs_status) = "revoked"%string →
       ∃ s', s' ∈ file_shares d2 ∧ same_share s s' ∧ s'.(fs_status) = "revoked"%string).
Proof.
  intros Hd d1. assert (docs_inv (core d1)) as Hinv by (apply run_docs_inv; rewrite Hd; apply docs_inv_init).
  pose proof (di_ids _ Hinv) as Hnd. split.
  - intros doc user Hin. split.
    + unfold get_document. unfold mbind at 1, M_bind at 1. rewrite (live_document_eq doc) by done.
      unfold live. case_decide as Hs; [split; [by intros [? ?]|by intros [? _]]|].
      unfold mbind at 1, M_bind at 1. rewrite check_access_eq, has_access_iff.
      case_decide; [split; [done|intros _; by eexists]|].
      destruct (active_share _ _ _); [split; [by eauto|intros _; by eexists]|].
      split; [by intros [? ?]|by intros [_ [? ?]]].
    + intros [<-|(s & Hs & Hf)]; [constructor|]. unfold share_for in Hf.
      apply andb_true_iff in Hf as [[Hdoc _]%share_of_document <-%bool_decide_eq_true].
      eapply granted_all; [exact Hinv|done..].
  - intros ops' d2. destruct (run_docs_final ops' d1 Hinv) as [Hdel Hrev].
    assert (docs_inv (core d2)) as Hinv2 by by apply run_docs_inv.
    split; [|done]. intros doc user now sid rcp Hin Hs.
    assert (live_document doc.(dc_id) d2 = (Raise (HTTPException 404), d2)) as Hlive.
    { rewrite (live_document_eq doc); [|apply Hinv2|by apply Hdel]. rewrite decide_True; [done|]. rewrite Hs. set_solver. }
    split_and!; [unfold get_document|unfold download_document|unfold share_document];
      unfold mbind at 1, M_bind at 1; by rewrite Hlive.
Qed.

(** [download_document] serves a live document to exactly the owner and the
    active recipients (when no unexpired tombstone covers its content), records
    the access and changes nothing else; and it serves everybody the file the
    owner uploaded: a recipient downloads that file, not the watermarked copy
    [share_document] wrote for them. *)
Theorem download_document_exact (now : Z) (doc : DocumentRow) (user : UserRow) (d : DB) :
  NoDup (dc_id <$> documents d) → doc ∈ documents d →
  download_document now doc.(dc_id) user d =
  if decide (doc.(dc_status) ∈ ["deleted"; "recycled"]%string) then (Raise (HTTPException 404), d)
  else if (match pg_get_tombstone doc.(dc_content_hash) d with Some ts => negb (is_expired now ts) | None => false end)
  then (Raise (HTTPException 409), d)
  else if bool_decide (doc.(dc_owner_id) = user.(u_id)) || bool_decide (is_Some (active_share doc.(dc_id) user.(u_id) d))
  then (Ok (mkFile doc.(dc_storage_path) doc.(dc_filename) doc.(dc_mime_type)),
        log_event "ACCESS" user.(u_peer_id) doc.(dc_coc_node_hash) "" d)
  else (Raise (HTTPException 403), d).
Proof.
  intros Hnd Hin. unfold download_document. unfold mbind at 1, M_bind at 1. rewrite (live_document_eq doc) by done.
  case_decide; [done|]. unfold mbind at 1, M_bind at 1. unfold gets at 1. cbv beta iota.
  destruct (match pg_get_tombstone _ d with Some _ => _ | None => _ end); [done|].
  unfold mbind at 1, M_bind at 1. rewrite check_access_eq. destruct (decide (dc_owner_id doc = u_id user)) as [Ho|Ho].
  - rewrite bool_decide_eq_true_2 by done. done.
  - rewrite bool_decide_eq_false_2 by done. destruct (active_share _ _ d).
    + rewrite bool_decide_eq_true_2 by done. done.
    + rewrite bool_decide_eq_false_2 by (by intros [? ?]). done.
Qed.

(** Routes of the owner on a document in the right state. *)
Lemma owned_document_eq doc user (ok : DocumentRow → bool) d :
  NoDup (dc_id <$> documents d) → doc ∈ documents d → doc.(dc_owner_id) = user.(u_id) → ok doc = true →
  owned_document doc.(dc_id) user ok d = (Ok doc, d).
Proof.
  intros Hnd Hin Ho Hok. unfold owned_document, gets, raise. unfold mbind, M_bind. cbv beta iota.
  destruct (find_one _ _) as [x|] eqn:Hf.
  - apply find_one_Some in Hf as [Hid%bool_decide_eq_true Hx].
    assert (x = doc) as -> by (by eapply doc_unique). by rewrite Hok, decide_True.
  - eapply find_one_None in Hf; [|exact Hin]. unfold is_document in Hf. by rewrite bool_decide_eq_true_2 in Hf.
Qed.

Lemma delete_document_eq now doc owner d :
  NoDup (dc_id <$> documents d) → doc ∈ documents d → live doc → doc.(dc_owner_id) = owner.(u_id) →
  core (delete_document now doc.(dc_id) owner d).2 =
  (update_one dc_id doc.(dc_id) (with_status "recycled" None (Some (Some now))) d.(documents),
   mark (fs_id <$> find_many fs_created_at LIMIT (share_of doc.(dc_id) "active") d.(file_shares))
     (with_share_status "suspended" None (Some (Some now))) d.(file_shares)).
Proof.
  intros Hnd Hin Hl Ho. unfold delete_document. unfold mbind at 1, M_bind at 1.
  rewrite (owned_document_eq doc) by (done || by apply negb_true_iff, bool_decide_eq_false).
  unfold mbind, M_bind, modify at 1, gets. cbv beta iota.
  rewrite update_shares_eq by (done || apply with_share_status_twice). done.
Qed.

Lemma restore_document_eq doc owner d :
  NoDup (dc_id <$> documents d) → doc ∈ documents d → doc.(dc_status) = "recycled"%string →
  doc.(dc_owner_id) = owner.(u_id) →
  core (restore_document doc.(dc_id) false owner d).2 =
  (update_one dc_id doc.(dc_id) (with_status "active" None (Some None)) d.(documents), d.(file_shares)).
Proof.
  intros Hnd Hin Hs Ho. unfold restore_document. unfold mbind at 1, M_bind at 1.
  rewrite (owned_document_eq doc) by (done || by apply bool_decide_eq_true). done.
Qed.

(** The routes that only depend on documents and shares. *)
Definition settled (op : doc_op) : bool :=
  match op with OpUpload _ _ _ _ _ | OpShare _ _ _ _ | OpDownload _ _ => false | _ => true end.

Lemma exec_doc_enabled us user op d c' :
  NoDup (dc_id <$> documents d) → settled op = true → core_step us user.(u_id) op (core d) c' →
  (exec_doc user op d).1 = Ok ().
Proof.
  intros Hnd Hset Hstep. remember (core d) as c eqn:Hc.
  destruct Hstep as [| |now docs shares doc s Hin Ho Hs Hf|now docs shares doc Hin Ho Hl|docs shares doc acc Hin Ho Hst
    |now docs shares doc Hin Ho Hst|docs shares doc Hin Hl Hacc|]; try done; injection Hc as -> ->; cbn [exec_doc].
  - unfold revoke_share. unfold mbind at 1, M_bind at 1. rewrite (owned_document_eq doc) by done.
    unfold mbind at 1, M_bind at 1. unfold gets at 1. cbv beta iota.
    destruct (active_share _ _ d) eqn:Ha; [done|].
    eapply active_share_None in Ha; [|exact Hs]. congruence.
  - unfold delete_document. unfold mbind at 1 2, M_bind at 1 2.
    rewrite (owned_document_eq doc) by (done || by apply negb_true_iff, bool_decide_eq_false).
    unfold mbind, M_bind, modify at 1, gets. cbv beta iota.
    by rewrite update_shares_eq by (done || apply with_share_status_twice).
  - unfold restore_document. unfold mbind at 1 2, M_bind at 1 2.
    rewrite (owned_document_eq doc) by (done || by apply bool_decide_eq_true).
    unfold mbind, M_bind, modify at 1, gets. cbv beta iota. destruct acc; [|done].
    by rewrite update_shares_eq by (done || apply with_share_status_twice).
  - unfold purge_document. unfold mbind at 1 2, M_bind at 1 2.
    rewrite (owned_document_eq doc) by (done || by apply bool_decide_eq_true).
    unfold mbind, M_bind, modify, gets, mret, M_ret. case_decide; cbv beta iota;
      by rewrite update_shares_eq by (done || apply with_share_status_twice).
  - unfold get_document. unfold mbind at 1 2, M_bind at 1 2. rewrite (live_document_eq doc) by done.
    rewrite decide_False by done. unfold mbind, M_bind. rewrite check_access_eq.
    apply has_access_iff in Hacc. case_decide; [done|]. by destruct Hacc as [? ->].
Qed.

(** C36: the document routes implement the life cycle of documents and shares.
    Whatever the state, the user and the arguments, a route that returns made
    exactly the step of its kind, which only that user may make: an upload of
    at most 50 MB of their own, a share of a live document they can read with a
    registered user who has no active share, and, for the owner alone,
    revoking an active share, moving a live document to the recycle bin with
    the queried active shares suspended, restoring or permanently deleting a
    recycled one; reading takes access to a live document.  A route that raises
    left documents and shares as they were.  Conversely, with distinct document
    identifiers, the routes of the owner and [get_document] return whenever the
    life cycle has such a step. *)
Theorem document_routes_refine (user : UserRow) (op : doc_op) (d : DB) :
  match exec_doc user op d with
  | (Ok _, d') => core_step d.(users) user.(u_id) op (core d) (core d')
  | (Raise _, d') => core d' = core d
  end ∧
  (NoDup (dc_id <$> documents d) → settled op = true →
   ∀ c', core_step d.(users) user.(u_id) op (core d) c' → (exec_doc user op d).1 = Ok ()).
Proof. split; [apply exec_doc_refines|]. intros Hnd Hset c'. by apply exec_doc_enabled. Qed.

(** More active shares than the query returns: one is not marked. *)
Lemma unmarked_share doc_id f shares :
  NoDup (fs_id <$> shares) → (LIMIT < length (List.filter (share_of doc_id "active") shares))%nat →
  ∃ s, s ∈ mark (fs_id <$> find_many fs_created_at LIMIT (share_of doc_id "active") shares) f shares ∧
    share_of doc_id "active" s = true.
Proof.
  intros Hnd Hlen. set (q := find_many _ _ _ _).
  destruct (decide (Exists (λ s, s.(fs_id) ∉ fs_id <$> q) (List.filter (share_of doc_id "active") shares))) as [Hex|Hall].
  - apply Exists_exists in Hex as (s & [Hact Hs]%elem_of_filterb & Hq). exists s. split; [|done].
    apply list_elem_of_fmap. exists s. by rewrite decide_False.
  - exfalso. assert (length (fs_id <$> List.filter (share_of doc_id "active") shares) ≤ length (fs_id <$> q))%nat as Hle.
    { apply submseteq_length, NoDup_submseteq.
      - clear -Hnd. induction shares as [|x shares IH]; cbn; [constructor|]. apply NoDup_cons in Hnd as [Hx Hnd].
        destruct (share_of doc_id "active" x); [|by apply IH]. cbn. constructor; [|by apply IH].
        intros (y & Hy & [_ Hin]%elem_of_filterb)%list_elem_of_fmap. apply Hx, list_elem_of_fmap. eauto.
      - intros x (s & -> & Hs)%list_elem_of_fmap. destruct (decide (fs_id s ∈ fs_id <$> q)); [done|].
        exfalso. apply Hall, Exists_exists. eauto. }
    rewrite !length_fmap in Hle. unfold q in Hle. rewrite find_many_length in Hle. lia.
Qed.

(** The recycle bin suspends at most a hundred shares.  For an owner's live
    document with more active shares than the query limit, deleting it and
    restoring it without access leaves some share active throughout: its
    recipient can read the restored document at once. *)
Theorem recycle_leaves_shares (now : Z) (doc : DocumentRow) (owner : UserRow) (d : DB) :
  docs_inv (core d) → doc ∈ documents d → live doc → doc.(dc_owner_id) = owner.(u_id) →
  (LIMIT < length (List.filter (share_of doc.(dc_id) "active") d.(file_shares)))%nat →
  let d1 := (delete_document now doc.(dc_id) owner d).2 in
  let d2 := (restore_document doc.(dc_id) false owner d1).2 in
  ∃ s, s ∈ file_shares d2 ∧ share_of doc.(dc_id) "active" s = true ∧
    ∀ user, user.(u_id) = s.(fs_recipient_id) → ∃ r, (get_document doc.(dc_id) user d2).1 = Ok r.
Proof.
  intros Hinv Hin Hl Ho Hlen d1 d2. pose proof (di_ids _ Hinv) as Hnd. cbn in Hnd.
  pose proof (delete_document_eq now doc owner d Hnd Hin Hl Ho) as Hd1. fold d1 in Hd1. injection Hd1 as Hdocs1 Hsh1.
  set (doc1 := with_status "recycled" None (Some (Some now)) doc).
  assert (doc1 ∈ documents d1) as Hin1.
  { rewrite Hdocs1. apply update_one_elem. exists doc. by rewrite decide_True. }
  assert (NoDup (dc_id <$> documents d1)) as Hnd1 by (by rewrite Hdocs1, update_docs_ids).
  pose proof (restore_document_eq doc1 owner d1 Hnd1 Hin1 eq_refl Ho) as Hd2.
  change (restore_document (dc_id doc1) false owner d1).2 with d2 in Hd2. injection Hd2 as Hdocs2 Hsh2.
  set (doc2 := with_status "active" None (Some None) doc1).
  assert (doc2 ∈ documents d2) as Hin2.
  { rewrite Hdocs2. apply update_one_elem. exists doc1. by rewrite decide_True. }
  assert (NoDup (dc_id <$> documents d2)) as Hnd2 by (by rewrite Hdocs2, update_docs_ids).
  destruct (unmarked_share doc.(dc_id) (with_share_status "suspended" None (Some (Some now))) d.(file_shares))
    as (s & Hs & Hact); [apply Hinv|done|].
  exists s. rewrite Hsh2, Hsh1. split; [done|]. split; [done|]. intros user Hu.
  unfold get_document. unfold mbind at 1, M_bind at 1.
  change (dc_id doc) with (dc_id doc2). rewrite (live_document_eq doc2) by done.
  rewrite decide_False by (cbn; set_solver).
  unfold mbind at 1, M_bind at 1. rewrite check_access_eq.
  assert (has_access doc2 user.(u_id) d2.(file_shares)) as Hacc.
  { right. exists s. rewrite Hsh2, Hsh1. split; [done|]. unfold share_for. apply andb_true_iff. split; [done|].
    by apply bool_decide_eq_true. }
  apply has_access_iff in Hacc. case_decide; [by eexists|]. destruct Hacc as [? ->]. by eexists.
Qed.
End properties.

(** ** Witnesses *)

Definition toy_person (id name : string) : UserRow := mkUser id name "" "" [] "" id "B" 0 0.
Definition ann : UserRow := toy_person "u1" "ann".
Definition bob : UserRow := toy_person "u2" "bob".
Definition toy_state : DB := mkDB [ann; bob] [] [] [] [] [] [] [] ∅ [] [].

(** Ann uploads and shares with Bob, who downloads. *)
Definition toy_calls : list (UserRow * doc_op) :=
  [(ann, OpUpload 5 "d1" (Some "a.txt") None (str "hello big world"));
   (ann, OpShare 6 "s1" "d1" "bob"); (bob, OpDownload 7 "d1")].

Abbreviation toy_run := (run_docs (C := toy_crypto) (P := first_row) (D := toy_digest) "data" "B" [1]).

(** The owner recycles a document: the route returns and makes its step. *)
Definition one_share : DB :=
  mkDB [ann; bob] [] [mkDoc "d1" "u1" "a.txt" "text/plain" 5 "data/d1.txt" "B" "c" "h" "active" 0 None None]
    [mkShareRow "s1" "d1" "u1" "u2" "h" "active" 0 None None] [] [] [] [] ∅ [] [].

Lemma document_routes_refine_witness :
  ∃ d', exec_doc (C := toy_crypto) (P := first_row) (D := toy_digest) "data" "B" [1] ann (OpDelete 9 "d1") one_share =
      (Ok (), d') ∧
    core_step [ann; bob] "u1" (OpDelete 9 "d1") (core one_share) (core d').
Proof.
  destruct (document_routes_refine (C := toy_crypto) (P := first_row) (PL := first_row_laws) (D := toy_digest)
    "data" "B" [1] ann (OpDelete 9 "d1") one_share) as [Hstep Hok].
  assert ((exec_doc (C := toy_crypto) (P := first_row) (D := toy_digest) "data" "B" [1] ann (OpDelete 9 "d1")
    one_share).1 = Ok ()) as H.
  { eapply Hok; [apply NoDup_singleton|reflexivity|].
    eapply (cs_recycle _ _ 9 _ _ (mkDoc "d1" "u1" "a.txt" "text/plain" 5 "data/d1.txt" "B" "c" "h" "active" 0 None None));
      [by apply list_elem_of_singleton|reflexivity|]. unfold live. cbn. set_solver. }
  destruct (exec_doc _ _ _ _ _ _) as [r d']. cbn in H. subst r. by exists d'.
Defined.

Lemma document_history_witness :
  core toy_state = ([], []) ∧
  ∀ doc user, doc ∈ documents (toy_run toy_calls toy_state) →
    has_access doc user.(u_id) (file_shares (toy_run toy_calls toy_state)) →
    granted (file_shares (toy_run toy_calls toy_state)) doc user.(u_id).
Proof.
  split; [reflexivity|]. intros doc user Hdoc.
  apply (document_history (C := toy_crypto) (P := first_row) (PL := first_row_laws) (D := toy_digest)
    "data" "B" [1] toy_calls toy_state eq_refl). exact Hdoc.
Defined.

Definition toy_doc : DocumentRow :=
  mkDoc "d1" "u1" "a.txt" "text/plain" 5 "data/d1.txt" "B" "c" "h" "active" 0 None None.
Definition toy_share (i : nat) : ShareRow :=
  mkShareRow ("s" +:+ pretty i) "d1" "u1" ("r" +:+ pretty i) "h" "active" 0 None None.
Definition crowded : DB := mkDB [] [] [toy_doc] (toy_share <$> seq 0 101) [] [] [] [] ∅ [] [].

Lemma download_document_exact_witness :
  NoDup (dc_id <$> documents crowded) ∧
  download_document (P := first_row) 0 "d1" ann crowded =
    (Ok (mkFile "data/d1.txt" "a.txt" "text/plain"), log_event "ACCESS" "u1" "h" "" crowded).
Proof.
  assert (NoDup (dc_id <$> documents crowded)) as Hnd by apply NoDup_singleton.
  split; [exact Hnd|].
  exact (download_document_exact (P := first_row) (PL := first_row_laws) 0 toy_doc ann crowded Hnd
    ltac:(by apply list_elem_of_singleton)).
Defined.

Lemma crowded_inv : docs_inv (core crowded).
Proof.
  assert (∀ s, s ∈ toy_share <$> seq 0 101 → ∃ i, s = toy_share i) as Hall.
  { intros s (i & -> & _)%list_elem_of_fmap. by exists i. }
  split; cbn [core crowded fst snd documents file_shares].
  - apply NoDup_singleton.
  - rewrite <- list_fmap_compose.
    assert (Inj (=) (=) (fs_id ∘ toy_share)) by (intros i j Hij; by apply (inj pretty), (inj (String.append "s"))).
    apply (NoDup_fmap_2 _), NoDup_seq.
  - intros x ->%list_elem_of_singleton. set_solver.
  - intros s [i ->]%Hall. set_solver.
  - intros i s Hs. exists toy_doc. apply list_elem_of_lookup_2 in Hs. destruct (Hall s Hs) as [k ->].
    split; [by apply list_elem_of_singleton|]. split; [done|]. by left.
Qed.

Lemma crowded_shares : List.filter (share_of "d1" "active") (toy_share <$> seq 0 101) = toy_share <$> seq 0 101.
Proof. induction (seq 0 101) as [|i l IH]; [done|]. cbn. by rewrite IH. Qed.

Lemma recycle_leaves_shares_witness :
  let d1 := (delete_document (P := first_row) 5 "d1" ann crowded).2 in
  let d2 := (restore_document (P := first_row) "d1" false ann d1).2 in
  ∃ s, s ∈ file_shares d2 ∧ share_of "d1" "active" s = true ∧
    ∀ user, user.(u_id) = s.(fs_recipient_id) → ∃ r, (get_document (P := first_row) "d1" user d2).1 = Ok r.
Proof.
  apply (recycle_leaves_shares (P := first_row) (PL := first_row_laws) 5 toy_doc ann crowded).
  - apply crowded_inv.
  - by apply list_elem_of_singleton.
  - unfold live. cbn. set_solver.
  - reflexivity.
  - cbn [crowded file_shares toy_doc dc_id]. rewrite crowded_shares, length_fmap, length_seq. unfold LIMIT. lia.
Defined.

(** Two suspended shares of one recipient (from sharing, recycling, restoring
    without access, sharing again and recycling again) both come back when the
    document is restored with access, and revoking then ends only one of them. *)
Definition suspended_twice : DB :=
  mkDB [] [] [with_status "recycled" None None toy_doc]
    [mkShareRow "s1" "d1" "u1" "u2" "h" "suspended" 0 None None;
     mkShareRow "s2" "d1" "u1" "u2" "h" "suspended" 1 None None] [] [] [] [] ∅ [] [].

Lemma revoke_leaves_second_share :
  fs_status <$> file_shares (toy_run [(ann, OpRestore "d1" true); (ann, OpRevoke 10 "d1" "u2")] suspended_twice) =
  ["revoked"; "active"]%string.
Proof. vm_compute. reflexivity. Qed.
