(* ===== verification/Boardroom.v ===== *)
(** * Board rooms ([trustdocs/boardroom/routes.py])

    Proposals whose text is split among the members of a board room and can be
    read once a threshold of them has approved; with a time to live the text is
    time-locked before it is split.  The routes combine [SecretSharing],
    [TimeLock], [Steganography], [Json] and the query helpers of [Database].  A
    route runs at one instant; what it draws is an argument.  The table of
    members has no ordering column, so a query on it returns at most the limit
    in an order of the database's choosing: [pick_rows]. *)

From Stdlib Require Import ZArith Lia Ascii String.
From stdpp Require Import sorting pretty.
From S2P Require Import Prelude Primality PyData DateTime Json Shamir SecretSharing TimeLock Dicts Steganography.
From S2P Require Import Graph Database.

(** [SELECT ... LIMIT n] without an order. *)
Class PickRows := { pick_rows : ∀ {A : Type}, nat → list A → list A }.
Class PickRowsLaws (Q : PickRows) := {
  pick_rows_sub {A} n (l : list A) : pick_rows n l ⊆+ l;
  pick_rows_length {A} n (l : list A) : length (pick_rows n l) = Nat.min n (length l);
}.

(** ** Rows and state *)

Record BoardroomRow := mkRoom {
  br_id : string;
  br_name : string;
  br_threshold_m : Z;
  br_created_at : Z;
}.

Record MemberRow := mkMember {
  bm_boardroom_id : string;
  bm_user_id : string;
}.

Record ProposalRow := mkProposal {
  pp_id : string;
  pp_boardroom_id : string;
  pp_initiator_id : string;
  pp_title : string;
  pp_status : string;
  pp_lock_id : option string;
  pp_expires_at : option Z;
  pp_created_at : Z;
}.

Record ShamirRow := mkShamir {
  sh_id : string;
  sh_proposal_id : string;
  sh_user_id : string;
  sh_share_data : json;
  sh_submitted : bool;
  sh_created_at : Z;
}.

(** The tables the routes use, the audit events, and the service's time-lock
    and watermark engines. *)
Record Rooms := mkRooms {
  accounts : list UserRow;
  boardrooms : list BoardroomRow;
  boardroom_members : list MemberRow;
  boardroom_proposals : list ProposalRow;
  shamir_shares : list ShamirRow;
  room_log : list LogCall;
  timelock_engine : TimeLock.Engine;
  stegano_known : known_peers;
}.

Definition set_boardrooms (t : list BoardroomRow) (s : Rooms) : Rooms :=
  mkRooms s.(accounts) t s.(boardroom_members) s.(boardroom_proposals) s.(shamir_shares) s.(room_log)
    s.(timelock_engine) s.(stegano_known).
Definition set_members (t : list MemberRow) (s : Rooms) : Rooms :=
  mkRooms s.(accounts) s.(boardrooms) t s.(boardroom_proposals) s.(shamir_shares) s.(room_log)
    s.(timelock_engine) s.(stegano_known).
Definition set_proposals (t : list ProposalRow) (s : Rooms) : Rooms :=
  mkRooms s.(accounts) s.(boardrooms) s.(boardroom_members) t s.(shamir_shares) s.(room_log)
    s.(timelock_engine) s.(stegano_known).
Definition set_shamir (t : list ShamirRow) (s : Rooms) : Rooms :=
  mkRooms s.(accounts) s.(boardrooms) s.(boardroom_members) s.(boardroom_proposals) t s.(room_log)
    s.(timelock_engine) s.(stegano_known).
Definition room_event (event actor target : string) (s : Rooms) : Rooms :=
  mkRooms s.(accounts) s.(boardrooms) s.(boardroom_members) s.(boardroom_proposals) s.(shamir_shares)
    (s.(room_log) ++ [mkLogCall event actor target ""]) s.(timelock_engine) s.(stegano_known).
Definition set_engine (e : TimeLock.Engine) (s : Rooms) : Rooms :=
  mkRooms s.(accounts) s.(boardrooms) s.(boardroom_members) s.(boardroom_proposals) s.(shamir_shares) s.(room_log)
    e s.(stegano_known).
Definition set_known (k : known_peers) (s : Rooms) : Rooms :=
  mkRooms s.(accounts) s.(boardrooms) s.(boardroom_members) s.(boardroom_proposals) s.(shamir_shares) s.(room_log)
    s.(timelock_engine) k.

(** ** Routes *)

Section routes.
Context {P : PickRow} {Q : PickRows} {O : SetOrder} {SP : SharingPrims} {D : Digest}.

(** [except HTTPException: raise] and [except Exception: raise HTTPException(500)]. *)
Definition guarded {A} (m : M Rooms A) : M Rooms A := λ s,
  match m s with
  | (Ok a, s) => (Ok a, s)
  | (Raise (HTTPException code), s) => (Raise (HTTPException code), s)
  | (Raise _, s) => (Raise (HTTPException 500), s)
  end.

Definition insert_into {A} (clashes : A → A → bool) (get : Rooms → list A) (set : list A → Rooms → Rooms)
    (row : A) : M Rooms unit := λ s,
  match insert_row clashes row (get s) with
  | Ok t => (Ok (), set t s)
  | Raise e => (Raise e, s)
  end.

(** A [TEXT] column holds no NUL. *)
Definition has_nul (text : string) : bool := existsb (λ c, c =? 0) (str text).

Definition insert_with_text {A} (text : A → string) (clashes : A → A → bool) (get : Rooms → list A)
    (set : list A → Rooms → Rooms) (row : A) : M Rooms unit :=
  if has_nul (text row) then raise DatabaseError else insert_into clashes get set row.

Definition insert_boardroom : BoardroomRow → M Rooms unit :=
  insert_with_text br_name (λ a b, bool_decide (a.(br_id) = b.(br_id))) boardrooms set_boardrooms.
Definition insert_member : MemberRow → M Rooms unit :=
  insert_into (λ a b, bool_decide (a.(bm_boardroom_id) = b.(bm_boardroom_id)) &&
                      bool_decide (a.(bm_user_id) = b.(bm_user_id))) boardroom_members set_members.
Definition insert_proposal : ProposalRow → M Rooms unit :=
  insert_with_text pp_title (λ a b, bool_decide (a.(pp_id) = b.(pp_id))) boardroom_proposals set_proposals.
Definition insert_shamir : ShamirRow → M Rooms unit :=
  insert_into (λ a b, bool_decide (a.(sh_id) = b.(sh_id)) ||
                      (bool_decide (a.(sh_proposal_id) = b.(sh_proposal_id)) &&
                       bool_decide (a.(sh_user_id) = b.(sh_user_id)))) shamir_shares set_shamir.

Definition of_room (room_id : string) (m : MemberRow) : bool := bool_decide (m.(bm_boardroom_id) = room_id).
Definition is_member (room_id user_id : string) (m : MemberRow) : bool :=
  of_room room_id m && bool_decide (m.(bm_user_id) = user_id).
Definition of_proposal (proposal_id : string) (r : ShamirRow) : bool := bool_decide (r.(sh_proposal_id) = proposal_id).

Definition find_room (room_id : string) (s : Rooms) : option BoardroomRow :=
  find_one (λ b, bool_decide (b.(br_id) = room_id)) s.(boardrooms).
Definition find_proposal (proposal_id : string) (s : Rooms) : option ProposalRow :=
  find_one (λ p, bool_decide (p.(pp_id) = proposal_id)) s.(boardroom_proposals).
Definition membership (room_id user_id : string) (s : Rooms) : option MemberRow :=
  find_one (is_member room_id user_id) s.(boardroom_members).
(** A query result, or the error for an empty one. *)
Definition require {A} (code : Z) (query : Rooms → option A) : M Rooms A :=
  r ← gets query; match r with Some a => mret a | None => raise (HTTPException code) end.

Definition create_boardroom (now : Z) (room_id name : string) (threshold_m : Z) (member_usernames : list string)
    (user : UserRow) : M Rooms string := guarded (
  let usernames : gset string := {[user.(u_username)]} ∪ list_to_set member_usernames in
  members ← gets (λ s, mapR (λ username, from_option_exn (HTTPException 404)
    (find_one (λ u, bool_decide (u.(u_username) = username)) s.(accounts))) (set_order usernames));
  members ← lift members;
  if Z.of_nat (length members) <? 2 then raise (HTTPException 400)
  else if (Z.of_nat (length members) <? threshold_m) || (threshold_m <? 2) then raise (HTTPException 400)
  else
    insert_boardroom (mkRoom room_id name threshold_m now) ;;
    for_each members (λ member, insert_member (mkMember room_id member.(u_id))) ;;
    modify (room_event "BOARDROOM_CREATED" user.(u_peer_id)
      ("Boardroom ID: " +:+ room_id +:+ " Threshold: " +:+ pretty threshold_m)) ;;
    mret room_id).

Definition list_boardrooms (user : UserRow) (s : Rooms) : list (BoardroomRow * Z) :=
  omap (λ m, br ← find_room m.(bm_boardroom_id) s;
             Some (br, Z.of_nat (length (pick_rows LIMIT (List.filter (of_room br.(br_id)) s.(boardroom_members))))))
    (pick_rows LIMIT (List.filter (λ m, bool_decide (m.(bm_user_id) = user.(u_id))) s.(boardroom_members))).

(** What [create_proposal] draws. *)
Record ProposalDraw := mkDraw {
  pd_id : string;
  pd_share_id : nat → string;
  pd_lock : TimeLock.lock_entropy;
  pd_split : entropy;
}.

(** The time-lock branch: the lock and the text to split. *)
Definition apply_timelock (now : Z) (r : TimeLock.lock_entropy) (content : pystr) (ttl : Z)
    : M Rooms (option (string * Z) * pystr) := λ s,
  match TimeLock.encrypt r now content ttl s.(timelock_engine) with
  | Raise _ => (Raise (HTTPException 500), s)
  | Ok (encrypted, e) =>
      let m := TimeLock.metadata encrypted in
      match fromisoformat (TimeLock.expires_at m) with
      | None => (Raise (HTTPException 500), set_engine e s)
      | Some expires_at =>
          (Ok (Some (TimeLock.lock_id m, expires_at), dumps (encrypted_json encrypted)), set_engine e s)
      end
  end.

(** A dictionary in a JSONB column: serialized on insertion, parsed by the database. *)
Definition jsonb (v : json) : result json :=
  match loads (dumps v) with Ok d => Ok d | Raise _ => Raise DatabaseError end.

(** One turn of the loop over [enumerate(all_members)]. *)
Definition hand_out (now : Z) (r : ProposalDraw) (shares : list Share) (im : nat * MemberRow) : M Rooms unit :=
  share ← lift (from_option_exn IndexError (shares !! im.1));
  data ← lift (jsonb (share_to_dict share));
  insert_shamir (mkShamir (r.(pd_share_id) im.1) r.(pd_id) im.2.(bm_user_id) data false now).

Definition create_proposal (now : Z) (r : ProposalDraw) (boardroom_id title : string) (content : pystr)
    (ttl_seconds : option Z) (user : UserRow) : M Rooms string :=
  if (match ttl_seconds with Some ttl => ttl <? 60 | None => false end) then raise (HTTPException 422)
  else guarded (
    boardroom ← require 404 (find_room boardroom_id);
    require 403 (membership boardroom_id user.(u_id)) ;;
    all_members ← gets (λ s, pick_rows LIMIT (List.filter (of_room boardroom_id) s.(boardroom_members)));
    '(lock, content_to_split) ←
      match ttl_seconds with
      | Some ttl => apply_timelock now r.(pd_lock) content ttl
      | None => mret (None, content)
      end;
    '(shares, _) ← lift (split_secret r.(pd_split) content_to_split boardroom.(br_threshold_m)
                           (Z.of_nat (length all_members)));
    let lock := if lock is Some (""%string, _) then None else lock in
    insert_proposal (mkProposal r.(pd_id) boardroom_id user.(u_id) title "pending" (fst <$> lock)
      (snd <$> lock) now) ;;
    for_each (imap pair all_members) (hand_out now r shares) ;;
    modify (room_event "PROPOSAL_INITIATED" user.(u_peer_id)
      ("Proposal ID: " +:+ r.(pd_id) +:+
       match ttl_seconds with Some ttl => " | TimeLock TTL: " +:+ pretty ttl +:+ "s" | None => "" end)) ;;
    mret r.(pd_id)).

(** The submitted shares among the rows of the query. *)
Definition submitted_shares (proposal_id : string) (s : Rooms) : list ShamirRow :=
  List.filter sh_submitted (find_many sh_created_at LIMIT (of_proposal proposal_id) s.(shamir_shares)).

Definition with_submitted (r : ShamirRow) : ShamirRow :=
  mkShamir r.(sh_id) r.(sh_proposal_id) r.(sh_user_id) r.(sh_share_data) true r.(sh_created_at).
Definition with_proposal_status (st : string) (p : ProposalRow) : ProposalRow :=
  mkProposal p.(pp_id) p.(pp_boardroom_id) p.(pp_initiator_id) p.(pp_title) st p.(pp_lock_id)
    p.(pp_expires_at) p.(pp_created_at).

(** The answer is whether the threshold is met. *)
Definition approve_proposal (proposal_id : string) (user : UserRow) : M Rooms bool := guarded (
  share_record ← require 404 (λ s, find_one (λ r, of_proposal proposal_id r && bool_decide (r.(sh_user_id) = user.(u_id)))
                                     s.(shamir_shares));
  if share_record.(sh_submitted) then raise (HTTPException 400)
  else
    modify (λ s, set_shamir (update_one sh_id share_record.(sh_id) with_submitted s.(shamir_shares)) s) ;;
    modify (room_event "SHARE_SUBMITTED" user.(u_peer_id) ("Proposal ID: " +:+ proposal_id)) ;;
    proposal ← require 404 (find_proposal proposal_id);
    boardroom ← require 404 (find_room proposal.(pp_boardroom_id));
    submitted ← gets (submitted_shares proposal_id);
    let met := boardroom.(br_threshold_m) <=? Z.of_nat (length submitted) in
    (if met && negb (bool_decide (proposal.(pp_status) = "executed"%string)) then
       modify (λ s, set_proposals (update_one pp_id proposal_id (with_proposal_status "executed")
                                     s.(boardroom_proposals)) s) ;;
       modify (room_event "PROPOSAL_EXECUTED" user.(u_peer_id)
         ("Threshold " +:+ pretty boardroom.(br_threshold_m) +:+ " met for Proposal " +:+ proposal_id))
     else mret ()) ;;
    mret met).

(** What [unlock_proposal] returns; the remaining time in microseconds. *)
Record UnlockResponse := mkUnlock {
  ur_title : string;
  ur_content : pystr;
  ur_status : string;
  ur_remaining : option (option Z);
}.

(** [get_status], then [decrypt] of the reconstructed record. *)
Definition open_timelock (random : bytes) (now : Z) (lock_id : string) (plaintext : pystr) : M Rooms pystr := λ s,
  let '(status, e) := TimeLock.get_status random now lock_id s.(timelock_engine) in
  let s := set_engine e s in
  match status with
  | TimeLock.EXPIRED | TimeLock.DESTROYED => (Raise (HTTPException 403), s)
  | TimeLock.ACTIVE =>
      match (v ← loads plaintext; json_encrypted v) with
      | Raise _ => (Raise (HTTPException 500), s)
      | Ok encrypted =>
          let '(decrypted, e) := TimeLock.decrypt random now encrypted s.(timelock_engine) in
          let s := set_engine e s in
          match decrypted with
          | None => (Raise (HTTPException 403), s)
          | Some plaintext => (Ok plaintext, s)
          end
      end
  end.

(** The reader's copy; without a mark when marking fails. *)
Definition issue_copy (now : Z) (proposal_id : string) (plaintext : pystr) (user : UserRow) : M Rooms pystr := λ s,
  let '(out, known) := embed_watermark (iso_codes now) plaintext (str user.(u_peer_id)) 0 None true true true
    s.(stegano_known) in
  let s := set_known known s in
  match out with
  | Ok watermarked => (Ok watermarked, room_event "PROPOSAL_UNLOCKED" user.(u_peer_id)
      ("Proposal " +:+ proposal_id +:+ " | Watermarked copy issued") s)
  | Raise _ => (Ok plaintext, room_event "PROPOSAL_UNLOCKED" user.(u_peer_id)
      ("Proposal " +:+ proposal_id +:+ " | Watermarking failed") s)
  end.

Definition unlock_proposal (random : bytes) (now : Z) (proposal_id : string) (user : UserRow)
    : M Rooms UnlockResponse := guarded (
  proposal ← require 404 (find_proposal proposal_id);
  boardroom ← require 404 (find_room proposal.(pp_boardroom_id));
  require 403 (membership boardroom.(br_id) user.(u_id)) ;;
  submitted ← gets (submitted_shares proposal_id);
  if Z.of_nat (length submitted) <? boardroom.(br_threshold_m) then raise (HTTPException 403)
  else
    share_objects ← lift (mapR (λ r, share_from_dict r.(sh_share_data)) (slice_to boardroom.(br_threshold_m) submitted));
    plaintext ← (match reconstruct_secret share_objects None with
                 | Ok (Some (c :: text)) => mret (c :: text)
                 | _ => raise (HTTPException 500)
                 end);
    plaintext ← (match proposal.(pp_lock_id) with
                 | None | Some ""%string => mret plaintext
                 | Some lock_id => open_timelock random now lock_id plaintext
                 end);
    copy ← issue_copy now proposal_id plaintext user;
    remaining ← gets (λ s, lock_id ← proposal.(pp_lock_id);
      if decide (lock_id = ""%string) then None
      else Some (TimeLock.get_remaining_time now lock_id s.(timelock_engine)));
    mret (mkUnlock proposal.(pp_title) copy proposal.(pp_status) remaining)).

(** One entry of [list_proposals]. *)
Record ProposalView := mkProposalView {
  pv_row : ProposalRow;
  pv_initiator_username : string;
  pv_approvals : Z;
  pv_user_has_approved : bool;
  pv_has_timelock : bool;
  pv_timelock_expired : bool;
}.

Definition list_proposals (now : Z) (boardroom_id : string) (user : UserRow) : M Rooms (list ProposalView) := guarded (
  require 403 (membership boardroom_id user.(u_id)) ;;
  gets (λ s, (λ p,
    let shares := find_many sh_created_at LIMIT (of_proposal p.(pp_id)) s.(shamir_shares) in
    let own := List.filter (λ r, bool_decide (r.(sh_user_id) = user.(u_id))) shares in
    let initiator := find_one (λ u, bool_decide (u.(u_id) = p.(pp_initiator_id))) s.(accounts) in
    let lock := match p.(pp_lock_id) with Some ""%string => None | l => l end in
    mkProposalView p (match initiator with Some u => u.(u_username) | None => "unknown" end)
      (Z.of_nat (length (List.filter sh_submitted shares)))
      (match own with r :: _ => r.(sh_submitted) | [] => false end)
      (bool_decide (is_Some lock))
      (match lock, p.(pp_expires_at) with
       | None, _ => false
       | Some _, None => true
       | Some lock_id, Some _ =>
           match TimeLock.get_remaining_time now lock_id s.(timelock_engine) with
           | None => true
           | Some remaining => remaining <=? 0
           end
       end)) <$>
    find_many pp_created_at LIMIT (λ p, bool_decide (p.(pp_boardroom_id) = boardroom_id)) s.(boardroom_proposals))).
End routes.

(** ** Tables grow by rows that clash with none *)

Lemma insert_into_inv {A} clashes get set (row : A) s r s' :
  insert_into clashes get set row s = (r, s') →
  (∃ e, r = Raise e ∧ s' = s) ∨
  r = Ok () ∧ s' = set (get s ++ [row]) s ∧ ∀ x, x ∈ get s → clashes row x = false.
Proof.
  unfold insert_into. destruct (insert_row _ _ _) as [t|e] eqn:Hi; intros [= <- <-]; [right|left; eauto].
  by apply insert_row_Ok in Hi as [-> ?].
Qed.

Lemma insert_with_text_inv {A} text clashes get set (row : A) s r s' :
  insert_with_text text clashes get set row s = (r, s') →
  (∃ e, r = Raise e ∧ s' = s) ∨
  r = Ok () ∧ s' = set (get s ++ [row]) s ∧ ∀ x, x ∈ get s → clashes row x = false.
Proof.
  unfold insert_with_text. destruct (has_nul _); [intros [= <- <-]; left; eauto|apply insert_into_inv].
Qed.

Lemma insert_into_fresh {A} clashes get set (row : A) s :
  (∀ x, x ∈ get s → clashes row x = false) → insert_into clashes get set row s = (Ok (), set (get s ++ [row]) s).
Proof.
  intros Hf. unfold insert_into, insert_row. destruct (existsb _ _) eqn:He; [|done].
  apply List.existsb_exists in He as (x & Hx & Hc). rewrite Hf in Hc; [done|]. by apply list_elem_of_In.
Qed.

Lemma NoDup_snoc_key {A B} (f : A → B) l x : NoDup (f <$> l) → (∀ y, y ∈ l → f x ≠ f y) → NoDup (f <$> l ++ [x]).
Proof.
  intros Hnd Hx. rewrite fmap_app. apply NoDup_app. split; [done|]. split; [|apply NoDup_singleton].
  intros b (y & -> & Hy)%list_elem_of_fmap Hb%list_elem_of_singleton. by apply (Hx y).
Qed.

Lemma guarded_inv {A} (m : M Rooms A) s r s' : guarded m s = (r, s') →
  ∃ r', m s = (r', s') ∧ ((∃ a, r = Ok a ∧ r' = Ok a) ∨ ∃ e e', r = Raise e ∧ r' = Raise e').
Proof.
  unfold guarded. destruct (m s) as [[a|e] s1]; [|destruct e]; intros [= <- <-]; eexists; (split; [done|]); eauto 10.
Qed.

Lemma guarded_Ok {A} (m : M Rooms A) s a s' : m s = (Ok a, s') → guarded m s = (Ok a, s').
Proof. unfold guarded. by intros ->. Qed.

Lemma require_inv {A} code (q : Rooms → option A) s r s' : require code q s = (r, s') →
  s' = s ∧ ((∃ e, r = Raise e) ∨ ∃ a, r = Ok a ∧ q s = Some a).
Proof.
  unfold require, gets, raise. unfold mbind, M_bind. cbv beta iota.
  destruct (q s); intros [= <- <-]; eauto 10.
Qed.

Lemma require_Some {A} code (q : Rooms → option A) s a : q s = Some a → require code q s = (Ok a, s).
Proof. intros Hq. unfold require, gets. unfold mbind, M_bind. by rewrite Hq. Qed.

(** ** The invariant of the tables *)

Abbreviation rows_of pid s := (List.filter (of_proposal pid) (shamir_shares s)).
(** The shares of a proposal that were submitted. *)
Definition approvals (pid : string) (s : Rooms) : list ShamirRow := List.filter sh_submitted (rows_of pid s).
Definition holder (r : ShamirRow) : string * string := (r.(sh_proposal_id), r.(sh_user_id)).

Record rooms_inv (s : Rooms) : Prop := {
  ri_rooms : NoDup (br_id <$> s.(boardrooms));
  ri_members : NoDup s.(boardroom_members);
  ri_proposals : NoDup (pp_id <$> s.(boardroom_proposals));
  ri_shares : NoDup (sh_id <$> s.(shamir_shares));
  ri_holders : NoDup (holder <$> s.(shamir_shares));
  ri_threshold room : room ∈ s.(boardrooms) → 2 ≤ room.(br_threshold_m);
  ri_room p : p ∈ s.(boardroom_proposals) → ∃ room, room ∈ s.(boardrooms) ∧ room.(br_id) = p.(pp_boardroom_id);
  ri_share r : r ∈ s.(shamir_shares) → ∃ p, p ∈ s.(boardroom_proposals) ∧ p.(pp_id) = r.(sh_proposal_id) ∧
    mkMember p.(pp_boardroom_id) r.(sh_user_id) ∈ s.(boardroom_members);
  ri_limit pid : (length (rows_of pid s) ≤ LIMIT)%nat;
  ri_status p room : p ∈ s.(boardroom_proposals) → room ∈ s.(boardrooms) → room.(br_id) = p.(pp_boardroom_id) →
    p.(pp_status) = "executed"%string ↔ room.(br_threshold_m) ≤ Z.of_nat (length (approvals p.(pp_id) s));
}.

(** The four tables are untouched. *)
Definition same_tables (s s' : Rooms) : Prop :=
  s'.(boardrooms) = s.(boardrooms) ∧ s'.(boardroom_members) = s.(boardroom_members) ∧
  s'.(boardroom_proposals) = s.(boardroom_proposals) ∧ s'.(shamir_shares) = s.(shamir_shares).

Lemma same_tables_inv s s' : same_tables s s' → rooms_inv s → rooms_inv s'.
Proof.
  intros (H1 & H2 & H3 & H4) [I1 I2 I3 I4 I5 I6 I7 I8 I9 I10].
  unfold approvals in *. split; unfold approvals; rewrite ?H1, ?H2, ?H3, ?H4; done.
Qed.

Lemma no_rooms_inv s : s.(boardrooms) = [] → s.(boardroom_members) = [] → s.(boardroom_proposals) = [] →
  s.(shamir_shares) = [] → rooms_inv s.
Proof.
  intros E1 E2 E3 E4. split; rewrite ?E1, ?E2, ?E3, ?E4; try constructor; try set_solver.
  unfold LIMIT. cbn. lia.
Qed.

Lemma key_unique {A B} (f : A → B) l a b : NoDup (f <$> l) → a ∈ l → b ∈ l → f a = f b → a = b.
Proof.
  intros Hnd Ha Hb Hab. apply list_elem_of_lookup in Ha as [i Hi]. apply list_elem_of_lookup in Hb as [j Hj].
  assert (i = j) as ->; [|congruence].
  eapply NoDup_lookup; [exact Hnd|..]; rewrite list_lookup_fmap, ?Hi, ?Hj; [done|cbn; by rewrite Hab].
Qed.

Lemma filterb_submseteq {A} (f : A → bool) (l : list A) : List.filter f l ⊆+ l.
Proof. induction l as [|x l IH]; cbn; [done|]. destruct (f x); [by apply submseteq_skip|by apply submseteq_cons]. Qed.

(** ** What the routes do to the tables *)

Section outcomes.
Context {P : PickRow} {PL : PickRowLaws P} {Q : PickRows} {QL : PickRowsLaws Q} {O : SetOrder} {SP : SharingPrims}
  {D : Digest}.

Lemma set_members_id s : set_members s.(boardroom_members) s = s.
Proof. by destruct s. Qed.
Lemma set_shamir_id s : set_shamir s.(shamir_shares) s = s.
Proof. by destruct s. Qed.

Lemma insert_members room_id us s r s' :
  for_each us (λ u, insert_member (mkMember room_id u.(u_id))) s = (r, s') →
  ∃ ms, s' = set_members (s.(boardroom_members) ++ ms) s ∧
    (NoDup s.(boardroom_members) → NoDup (s.(boardroom_members) ++ ms)).
Proof.
  revert s. induction us as [|u us IH]; intros s; cbn [for_each].
  { intros [= _ <-]. exists []. rewrite app_nil_r, set_members_id. done. }
  intros [(e & _ & He)|([] & s1 & H1 & H2)]%bind_inv.
  - apply insert_into_inv in He as [(e' & _ & ->)|[[=] _]]. exists []. rewrite app_nil_r, set_members_id. done.
  - apply insert_into_inv in H1 as [(e' & [=] & _)|(_ & -> & Hf)]. apply IH in H2 as (ms & -> & Hnd).
    cbn [set_members boardroom_members] in *. exists (mkMember room_id u.(u_id) :: ms).
    rewrite <- (assoc_L (++)) in *. split; [done|]. intros Hn. apply Hnd, NoDup_app. split; [done|].
    split; [|apply NoDup_singleton]. intros x Hx ->%list_elem_of_singleton. specialize (Hf _ Hx). cbn in Hf.
    by rewrite !bool_decide_eq_true_2 in Hf.
Qed.

(** A board room is opened, perhaps without all its members, or nothing happens. *)
Lemma create_boardroom_outcome now room_id name thr names user s r s' :
  create_boardroom now room_id name thr names user s = (r, s') →
  s'.(boardroom_proposals) = s.(boardroom_proposals) ∧ s'.(shamir_shares) = s.(shamir_shares) ∧
  s'.(timelock_engine) = s.(timelock_engine) ∧
  ∃ rs ms, s'.(boardrooms) = s.(boardrooms) ++ rs ∧ s'.(boardroom_members) = s.(boardroom_members) ++ ms ∧
    (NoDup s.(boardroom_members) → NoDup s'.(boardroom_members)) ∧
    (NoDup (br_id <$> s.(boardrooms)) → NoDup (br_id <$> s'.(boardrooms))) ∧
    ∀ room, room ∈ rs → 2 ≤ room.(br_threshold_m).
Proof.
  intros (r' & Hm & _)%guarded_inv. cbv zeta in Hm.
  assert (s'.(boardroom_proposals) = s.(boardroom_proposals) ∧ s'.(shamir_shares) = s.(shamir_shares) ∧
    s'.(timelock_engine) = s.(timelock_engine) ∧ s'.(boardroom_members) = s.(boardroom_members) ∧
    s'.(boardrooms) = s.(boardrooms) ∨ ∃ ms, 2 ≤ thr ∧ (∀ x, x ∈ s.(boardrooms) → room_id ≠ x.(br_id)) ∧
    (NoDup s.(boardroom_members) → NoDup (s.(boardroom_members) ++ ms)) ∧
    s'.(boardroom_proposals) = s.(boardroom_proposals) ∧ s'.(shamir_shares) = s.(shamir_shares) ∧
    s'.(timelock_engine) = s.(timelock_engine) ∧ s'.(boardroom_members) = s.(boardroom_members) ++ ms ∧
    s'.(boardrooms) = s.(boardrooms) ++ [mkRoom room_id name thr now]) as Hcases.
  { apply bind_inv in Hm as [(e & _ & [=])|(x & s1 & [= <- <-] & Hm)].
    apply bind_inv in Hm as [(e & _ & [= _ <-])|(members & s1 & [= _ <-] & Hm)]; [by left|].
    destruct (Z.of_nat (length members) <? 2); [injection Hm as _ <-; by left|].
    destruct (_ <? thr); [injection Hm as _ <-; by left|]. cbn [orb] in Hm.
    destruct (Z.ltb_spec thr 2); [injection Hm as _ <-; by left|].
    apply bind_inv in Hm as [(e & _ & He)|([] & s1 & H1 & Hm)].
    { apply insert_with_text_inv in He as [(? & _ & ->)|[[=] _]]. by left. }
    apply insert_with_text_inv in H1 as [(e' & [=] & _)|(_ & -> & Hf)]. right.
    assert (∃ r2 s2, for_each members (λ u, insert_member (mkMember room_id u.(u_id)))
      (set_boardrooms (s.(boardrooms) ++ [mkRoom room_id name thr now]) s) = (r2, s2) ∧
      boardroom_proposals s' = boardroom_proposals s2 ∧ shamir_shares s' = shamir_shares s2 ∧
      timelock_engine s' = timelock_engine s2 ∧ boardroom_members s' = boardroom_members s2 ∧
      boardrooms s' = boardrooms s2) as (r2 & s2 & Hl & ? & ? & ? & ? & ?).
    { apply bind_inv in Hm as [(e & _ & He)|([] & s2 & H2 & [= _ <-])]; do 2 eexists; (split; [eassumption|]); done. }
    apply insert_members in Hl as (ms & -> & Hnd). exists ms. cbn in *.
    split; [done|]. split; [|done].
    intros x Hx. specialize (Hf x Hx). by apply bool_decide_eq_false in Hf. }
  destruct Hcases as [(? & ? & ? & Hm' & Hr)|(ms & Hthr & Hf & Hnd & ? & ? & ? & Hm' & Hr)];
    (split; [done|]); (split; [done|]); (split; [done|]).
  - exists [], []. rewrite Hm', Hr, !app_nil_r. set_solver.
  - exists [mkRoom room_id name thr now], ms. rewrite Hm', Hr. split; [done|]. split; [done|]. split; [done|]. split.
    + intros Hn. by apply NoDup_snoc_key.
    + intros room ->%list_elem_of_singleton. done.
Qed.

Lemma hand_out_inv now r shares im s res s' : hand_out now r shares im s = (res, s') →
  (∃ e, res = Raise e ∧ s' = s) ∨ ∃ data,
    let row := mkShamir (r.(pd_share_id) im.1) r.(pd_id) im.2.(bm_user_id) data false now in
    res = Ok () ∧ s' = set_shamir (s.(shamir_shares) ++ [row]) s ∧
    ∀ x, x ∈ s.(shamir_shares) → row.(sh_id) ≠ x.(sh_id) ∧ holder row ≠ holder x.
Proof.
  unfold hand_out. intros [(e & -> & [= _ <-])|(share & s1 & [= _ <-] & H)]%bind_inv; [left; eauto|].
  apply bind_inv in H as [(e & -> & [= _ <-])|(data & s1 & [= _ <-] & H)]; [left; eauto|].
  apply insert_into_inv in H as [(e & -> & ->)|(-> & -> & Hf)]; [left; eauto|]. right. exists data. cbv zeta.
  split; [done|]. split; [done|]. intros x Hx. specialize (Hf x Hx). cbn in *.
  apply orb_false_iff in Hf as [?%bool_decide_eq_false Hf]. split; [done|]. unfold holder. cbn. intros [= ? ?].
  by rewrite !bool_decide_eq_true_2 in Hf.
Qed.

(** The loop hands out unsubmitted shares of this proposal to these members. *)
Lemma hand_out_loop now r shares ims s res s' : for_each ims (hand_out now r shares) s = (res, s') →
  ∃ rows, s' = set_shamir (s.(shamir_shares) ++ rows) s ∧ (length rows ≤ length ims)%nat ∧
    (∀ row, row ∈ rows → row.(sh_proposal_id) = r.(pd_id) ∧ row.(sh_submitted) = false ∧
       ∃ im, im ∈ ims ∧ row.(sh_user_id) = im.2.(bm_user_id)) ∧
    (NoDup (sh_id <$> s.(shamir_shares)) → NoDup (sh_id <$> s.(shamir_shares) ++ rows)) ∧
    (NoDup (holder <$> s.(shamir_shares)) → NoDup (holder <$> s.(shamir_shares) ++ rows)).
Proof.
  revert s. induction ims as [|im ims IH]; intros s; cbn [for_each].
  { intros [= _ <-]. exists []. rewrite app_nil_r, set_shamir_id. cbn. set_solver. }
  intros [(e & _ & He)|([] & s1 & H1 & H2)]%bind_inv.
  - apply hand_out_inv in He as [(e' & _ & ->)|(? & [=] & _)]. exists []. rewrite app_nil_r, set_shamir_id. cbn.
    split; [done|]. split; [lia|]. set_solver.
  - apply hand_out_inv in H1 as [(e' & [=] & _)|(data & _ & -> & Hf)]. apply IH in H2 as (rows & -> & Hlen & Hrows & N1 & N2).
    set (row := mkShamir _ _ _ _ _ _) in *. cbn [set_shamir shamir_shares] in *. exists (row :: rows).
    rewrite <- (assoc_L (++)) in *. split; [done|]. split; [cbn; lia|]. split; [|split].
    + intros x [->|Hx]%elem_of_cons; [split_and!; [done..|]; exists im; set_solver|].
      destruct (Hrows x Hx) as (? & ? & im' & ? & ?). split_and!; [done..|]. exists im'. set_solver.
    + intros Hn. apply N1, NoDup_snoc_key; [done|]. intros y Hy. by apply Hf.
    + intros Hn. apply N2, NoDup_snoc_key; [done|]. intros y Hy. by apply Hf.
Qed.

Lemma find_room_Some room_id s room : find_room room_id s = Some room → room ∈ s.(boardrooms) ∧ room.(br_id) = room_id.
Proof. intros [?%bool_decide_eq_true ?]%find_one_Some. done. Qed.
Lemma find_proposal_Some pid s p : find_proposal pid s = Some p → p ∈ s.(boardroom_proposals) ∧ p.(pp_id) = pid.
Proof. intros [?%bool_decide_eq_true ?]%find_one_Some. done. Qed.
Lemma is_member_eq room_id user_id m : is_member room_id user_id m = true ↔ m = mkMember room_id user_id.
Proof.
  unfold is_member, of_room. rewrite andb_true_iff, !bool_decide_eq_true. destruct m; cbn. split; [by intros [-> ->]|].
  by intros [= -> ->].
Qed.
Lemma membership_Some room_id user_id s m : membership room_id user_id s = Some m →
  mkMember room_id user_id ∈ s.(boardroom_members).
Proof. by intros [->%is_member_eq ?]%find_one_Some. Qed.

(** A new proposal, perhaps without all its shares, or nothing in the tables. *)
Definition proposed (room_id pid : string) (s s' : Rooms) : Prop :=
  ∃ p rows, s'.(boardrooms) = s.(boardrooms) ∧ s'.(boardroom_members) = s.(boardroom_members) ∧
    s'.(boardroom_proposals) = s.(boardroom_proposals) ++ [p] ∧ s'.(shamir_shares) = s.(shamir_shares) ++ rows ∧
    (∃ room, room ∈ s.(boardrooms) ∧ room.(br_id) = room_id) ∧
    p.(pp_id) = pid ∧ p.(pp_boardroom_id) = room_id ∧ p.(pp_status) = "pending"%string ∧
    (∀ x, x ∈ s.(boardroom_proposals) → pid ≠ x.(pp_id)) ∧ (length rows ≤ LIMIT)%nat ∧
    (∀ row, row ∈ rows → row.(sh_proposal_id) = pid ∧ row.(sh_submitted) = false ∧
       mkMember room_id row.(sh_user_id) ∈ s.(boardroom_members)) ∧
    (NoDup (sh_id <$> s.(shamir_shares)) → NoDup (sh_id <$> s'.(shamir_shares))) ∧
    (NoDup (holder <$> s.(shamir_shares)) → NoDup (holder <$> s'.(shamir_shares))).

Lemma hand_out_proposed now r shares room_id room p s s1 s2 res :
  for_each (imap pair (pick_rows LIMIT (List.filter (of_room room_id) s.(boardroom_members)))) (hand_out now r shares) s1 =
    (res, s2) →
  room ∈ s.(boardrooms) → room.(br_id) = room_id →
  s1.(boardrooms) = s.(boardrooms) → s1.(boardroom_members) = s.(boardroom_members) →
  s1.(shamir_shares) = s.(shamir_shares) → s1.(boardroom_proposals) = s.(boardroom_proposals) ++ [p] →
  p.(pp_id) = r.(pd_id) → p.(pp_boardroom_id) = room_id → p.(pp_status) = "pending"%string →
  (∀ x, x ∈ s.(boardroom_proposals) → r.(pd_id) ≠ x.(pp_id)) →
  proposed room_id r.(pd_id) s s2 ∧ s2.(timelock_engine) = s1.(timelock_engine).
Proof.
  intros Hl Hroom Hid E1 E2 E4 E3 Hpid Hpr Hst Hf.
  apply hand_out_loop in Hl as (rows & -> & Hlen & Hrows & N1 & N2). split; [|done].
  exists p, rows. cbn. rewrite E4 in *. split_and!; try done.
  - eauto.
  - rewrite length_imap, pick_rows_length in Hlen. lia.
  - intros row Hrow. destruct (Hrows row Hrow) as (? & ? & [i m] & Him & ->). split_and!; [done..|]. cbn.
    apply elem_of_lookup_imap in Him as (j & m' & [= -> ->] & Hm).
    apply list_elem_of_lookup_2 in Hm. eapply elem_of_submseteq in Hm; [|apply pick_rows_sub].
    apply elem_of_filterb in Hm as [<-%bool_decide_eq_true Hm]. by destruct m'.
Qed.

Lemma apply_timelock_inv now r content ttl s res s' : apply_timelock now r content ttl s = (res, s') →
  s' = s ∨ s' = set_engine (TimeLock.exec [] now (TimeLock.OpEncrypt r content ttl) s.(timelock_engine)) s.
Proof.
  unfold apply_timelock. cbn [TimeLock.exec]. destruct (TimeLock.encrypt _ _ _ _ _) as [[enc e]|ex]; [|intros [= _ <-]; by left].
  destruct (fromisoformat _); intros [= _ <-]; by right.
Qed.

Lemma create_proposal_outcome now r room_id title content ttl user s res s' :
  create_proposal now r room_id title content ttl user s = (res, s') →
  (same_tables s s' ∨ proposed room_id r.(pd_id) s s') ∧
  (s'.(timelock_engine) = s.(timelock_engine) ∨ ∃ ttl,
     s'.(timelock_engine) = TimeLock.exec [] now (TimeLock.OpEncrypt r.(pd_lock) content ttl) s.(timelock_engine)).
Proof.
  unfold create_proposal. destruct (match ttl with Some _ => _ | None => _ end).
  { intros [= _ <-]. split; by left. }
  intros (res' & Hm & _)%guarded_inv.
  apply bind_inv in Hm as [(e & _ & [-> _]%require_inv)|(room & s1 & [-> Hq]%require_inv & Hm)]; [split; by left|].
  destruct Hq as [[? [=]]|(? & [= <-] & [Hroom Hid]%find_room_Some)].
  apply bind_inv in Hm as [(e & _ & [-> _]%require_inv)|(mem & s1 & [-> _]%require_inv & Hm)]; [split; by left|].
  apply bind_inv in Hm as [(e & _ & [=])|(members & s1 & [= <- <-] & Hm)].
  apply bind_inv in Hm as [(e & _ & He)|([lock text] & s1 & Hlock & Hm)].
  { destruct ttl as [ttl|]; [|done]. apply apply_timelock_inv in He as [->| ->]; [split; by left|].
    split; [by left|]. right. by eexists. }
  assert (s1 = s ∨ ∃ ttl, s1 = set_engine (TimeLock.exec [] now (TimeLock.OpEncrypt r.(pd_lock) content ttl)
    s.(timelock_engine)) s) as Hs1.
  { destruct ttl as [ttl|]; [apply apply_timelock_inv in Hlock as [->| ->]; eauto|].
    injection Hlock as _ _ <-. by left. }
  assert (same_tables s s1 ∧ (s1.(timelock_engine) = s.(timelock_engine) ∨ ∃ ttl,
     s1.(timelock_engine) = TimeLock.exec [] now (TimeLock.OpEncrypt r.(pd_lock) content ttl) s.(timelock_engine)))
    as [Hsame Heng] by (destruct Hs1 as [->|[ttl' ->]]; (split; [done|]); eauto).
  clear Hs1 Hlock. destruct Hsame as (E1 & E2 & E3 & E4).
  apply bind_inv in Hm as [(e & _ & [= _ <-])|([shares key] & s2 & [= _ <-] & Hm)]; [split; [by left|done]|].
  apply bind_inv in Hm as [(e & _ & He)|([] & s2 & Hins & Hm)].
  { apply insert_with_text_inv in He as [(? & _ & ->)|[[=] _]]. split; [by left|done]. }
  apply insert_with_text_inv in Hins as [(? & [=] & _)|(_ & -> & Hf)]. rewrite E3 in Hf, Hm.
  assert (∀ x, x ∈ s.(boardroom_proposals) → r.(pd_id) ≠ x.(pp_id)) as Hnew.
  { intros x Hx. specialize (Hf x Hx). by apply bool_decide_eq_false in Hf. }
  apply bind_inv in Hm as [(e & _ & Hl)|([] & s3 & Hl & [= _ <-])];
    destruct (hand_out_proposed _ _ _ _ _ _ s _ _ _ Hl Hroom Hid E1 E2 E4 eq_refl eq_refl eq_refl eq_refl Hnew)
      as [(p & rows & Hp) Heq]; (split; [right; by exists p, rows|]); cbn; by rewrite Heq.
Qed.

Lemma submitted_shares_perm pid s : (length (rows_of pid s) ≤ LIMIT)%nat → submitted_shares pid s ≡ₚ approvals pid s.
Proof.
  intros Hlen. unfold submitted_shares, find_many, approvals. rewrite take_ge by (by rewrite length_sorted).
  assert (∀ l l' : list ShamirRow, l ≡ₚ l' → List.filter sh_submitted l ≡ₚ List.filter sh_submitted l') as Hf.
  { intros l l'. induction 1 as [|x l l' _ IH|x y l|l l1 l2 _ IH1 _ IH2]; cbn; [done|by destruct (sh_submitted x); rewrite ?IH| |by rewrite IH1].
    destruct (sh_submitted x), (sh_submitted y); try done. constructor. }
  apply Hf, merge_sort_Permutation.
Qed.

Lemma rows_update pid i s :
  rows_of pid (set_shamir (update_one sh_id i with_submitted s.(shamir_shares)) s) =
  update_one sh_id i with_submitted (rows_of pid s).
Proof.
  cbn. unfold update_one. induction s.(shamir_shares) as [|r l IH]; [done|]. cbn.
  assert (of_proposal pid (if decide (sh_id r = i) then with_submitted r else r) = of_proposal pid r) as ->
    by (by case_decide).
  destruct (of_proposal pid r); [cbn; by rewrite IH|done].
Qed.

Lemma update_one_same {A} (id_of : A → string) i f l : (∀ x, x ∈ l → id_of x ≠ i) → update_one id_of i f l = l.
Proof.
  intros Hl. unfold update_one. rewrite <- (list_fmap_id l) at 2. apply list_fmap_ext. intros k x Hx.
  rewrite decide_False; [done|]. by eapply Hl, list_elem_of_lookup_2.
Qed.

Lemma update_one_keys {A B} (id_of : A → string) i f (key : A → B) l :
  (∀ x, key (f x) = key x) → key <$> update_one id_of i f l = key <$> l.
Proof.
  intros Hk. unfold update_one. rewrite <- list_fmap_compose. apply list_fmap_ext. intros k x _. cbn.
  case_decide; [apply Hk|done].
Qed.

Lemma submit_more i l :
  (length (List.filter sh_submitted l) ≤ length (List.filter sh_submitted (update_one sh_id i with_submitted l)))%nat.
Proof.
  unfold update_one. induction l as [|r l IH]; cbn; [done|].
  case_decide; cbn; destruct (sh_submitted r); cbn; lia.
Qed.

(** The proposals after a share was submitted. *)
Definition settle (pid : string) (room : BoardroomRow) (p : ProposalRow) (s : Rooms) : list ProposalRow :=
  if (room.(br_threshold_m) <=? Z.of_nat (length (approvals pid s))) &&
     negb (bool_decide (p.(pp_status) = "executed"%string))
  then update_one pp_id pid (with_proposal_status "executed") s.(boardroom_proposals)
  else s.(boardroom_proposals).

Lemma find_proposal_in pid s p : rooms_inv s → p ∈ s.(boardroom_proposals) → p.(pp_id) = pid → find_proposal pid s = Some p.
Proof.
  intros Hinv Hp <-. destruct (find_proposal _ _) as [x|] eqn:Hf.
  - apply find_proposal_Some in Hf as [Hx Hid]. f_equal. by eapply (key_unique pp_id); [apply Hinv|..].
  - eapply find_one_None in Hf; [|exact Hp]. cbn in Hf. by rewrite bool_decide_eq_true_2 in Hf.
Qed.

Lemma find_room_in room_id s room : rooms_inv s → room ∈ s.(boardrooms) → room.(br_id) = room_id → find_room room_id s = Some room.
Proof.
  intros Hinv Hp <-. destruct (find_room _ _) as [x|] eqn:Hf.
  - apply find_room_Some in Hf as [Hx Hid]. f_equal. by eapply (key_unique br_id); [apply Hinv|..].
  - eapply find_one_None in Hf; [|exact Hp]. cbn in Hf. by rewrite bool_decide_eq_true_2 in Hf.
Qed.

Lemma approve_outcome pid user s : rooms_inv s →
  let '(res, s') := approve_proposal pid user s in
  s'.(timelock_engine) = s.(timelock_engine) ∧
  (same_tables s s' ∧ (∀ r, r ∈ s.(shamir_shares) → holder r = (pid, user.(u_id)) → r.(sh_submitted) = true) ∨
   ∃ row p room, row ∈ s.(shamir_shares) ∧ holder row = (pid, user.(u_id)) ∧
     p ∈ s.(boardroom_proposals) ∧ p.(pp_id) = pid ∧ room ∈ s.(boardrooms) ∧ room.(br_id) = p.(pp_boardroom_id) ∧
     s'.(boardrooms) = s.(boardrooms) ∧ s'.(boardroom_members) = s.(boardroom_members) ∧
     s'.(shamir_shares) = update_one sh_id row.(sh_id) with_submitted s.(shamir_shares) ∧
     s'.(boardroom_proposals) = settle pid room p (set_shamir s'.(shamir_shares) s)).
Proof.
  intros Hinv. destruct (approve_proposal pid user s) as [res s'] eqn:Ha.
  apply guarded_inv in Ha as (res' & Hm & _).
  apply bind_inv in Hm as [(e & _ & Hr)|(row & s1 & [-> Hq]%require_inv & Hm)].
  { unfold require in Hr. unfold mbind, M_bind, gets in Hr. destruct (find_one _ _) as [row|] eqn:Hf; [done|].
    injection Hr as _ <-. split; [done|]. left. split; [done|]. intros r Hin [= Hp Hu].
    eapply find_one_None in Hf; [|exact Hin]. cbn in Hf. unfold of_proposal in Hf. by rewrite !bool_decide_eq_true_2 in Hf. }
  destruct Hq as [[? [=]]|(? & [= <-] & [Hc Hrow]%find_one_Some)].
  apply andb_true_iff in Hc as [Hpid%bool_decide_eq_true Huid%bool_decide_eq_true].
  destruct (sh_submitted row) eqn:Hsub.
  { injection Hm as _ <-. split; [done|]. left. split; [done|]. intros r Hin [= Hp Hu].
    assert (r = row) as ->; [|done]. eapply (key_unique holder); [apply Hinv|done..|]. unfold holder. congruence. }
  apply bind_inv in Hm as [(e & _ & [=])|([] & s1 & [= <-] & Hm)].
  apply bind_inv in Hm as [(e & _ & [=])|([] & s2 & [= <-] & Hm)].
  destruct (ri_share _ Hinv _ Hrow) as (p & Hp & Hppid & _). rewrite Hpid in Hppid.
  destruct (ri_room _ Hinv _ Hp) as (room & Hroom & Hrid).
  unfold mbind at 1, M_bind at 1 in Hm. rewrite (require_Some _ _ _ p) in Hm by (by apply (find_proposal_in _ s)).
  unfold mbind at 1, M_bind at 1 in Hm. rewrite (require_Some _ _ _ room) in Hm by (by apply (find_room_in _ s)).
  apply bind_inv in Hm as [(e & _ & [=])|(subs & s1 & [= <- <-] & Hm)]. set (s1 := room_event _ _ _ _) in Hm.
  assert (length (submitted_shares pid s1) = length (approvals pid (set_shamir
    (update_one sh_id (sh_id row) with_submitted s.(shamir_shares)) s))) as Hlen.
  { change (approvals pid (set_shamir _ s)) with (approvals pid s1). apply Permutation_length, submitted_shares_perm.
    change (rows_of pid s1) with (rows_of pid (set_shamir (update_one sh_id (sh_id row) with_submitted s.(shamir_shares)) s)).
    rewrite rows_update. unfold update_one. rewrite length_fmap. apply Hinv. }
  rewrite Hlen in Hm.
  destruct (_ && _) eqn:Hmet in Hm;
    apply bind_inv in Hm as [(e & _ & [=])|([] & s2 & [= <-] & [= _ <-])]; (split; [done|]); right;
    exists row, p, room; (split_and!; try done; [by unfold holder; rewrite Hpid, Huid|]);
    unfold settle; cbn [room_event set_proposals set_shamir shamir_shares boardroom_proposals s1]; by rewrite Hmet.
Qed.

(** Calls of the time-lock engine that read. *)
Definition reading (op : TimeLock.engine_op) : Prop :=
  match op with TimeLock.OpDecrypt _ | TimeLock.OpGetStatus _ => True | _ => False end.
(** [s'] differs from [s] by such calls, the log and the known peers. *)
Definition read_only (random : bytes) (now : Z) (s s' : Rooms) : Prop :=
  same_tables s s' ∧ ∃ ops, Forall reading ops ∧
    s'.(timelock_engine) = foldl (λ e op, TimeLock.exec random now op e) s.(timelock_engine) ops.

Lemma read_only_refl random now s s' :
  same_tables s s' → s'.(timelock_engine) = s.(timelock_engine) → read_only random now s s'.
Proof. intros Hs He. split; [done|]. exists []. split; [constructor|done]. Qed.

Lemma open_timelock_read random now lock_id text s : read_only random now s (open_timelock random now lock_id text s).2.
Proof.
  unfold open_timelock. destruct (TimeLock.get_status random now lock_id s.(timelock_engine)) as [st e] eqn:He.
  assert (e = TimeLock.exec random now (TimeLock.OpGetStatus lock_id) s.(timelock_engine)) as -> by (cbn; by rewrite He).
  destruct st; try (split; [done|]; exists [TimeLock.OpGetStatus lock_id]; split; [by repeat constructor|done]).
  destruct (loads text ≫= json_encrypted) as [enc|ex];
    [|split; [done|]; exists [TimeLock.OpGetStatus lock_id]; split; [by repeat constructor|done]].
  cbn [timelock_engine set_engine]. destruct (TimeLock.decrypt random now enc _) as [out e] eqn:Hd.
  split; [by destruct out|]. exists [TimeLock.OpGetStatus lock_id; TimeLock.OpDecrypt enc].
  split; [by repeat constructor|]. transitivity e; [by destruct out|].
  change (e = (TimeLock.decrypt random now enc (TimeLock.exec random now (TimeLock.OpGetStatus lock_id) s.(timelock_engine))).2).
  by rewrite Hd.
Qed.

Lemma issue_copy_read random now pid text user s :
  read_only random now s (issue_copy now pid text user s).2 ∧ ∃ copy, (issue_copy now pid text user s).1 = Ok copy.
Proof.
  unfold issue_copy. destruct (embed_watermark _ _ _ _ _ _ _ _ _) as [[w|e] k]; cbn; (split; [by apply read_only_refl|eauto]).
Qed.

Lemma read_only_trans random now s1 s2 s3 : read_only random now s1 s2 → read_only random now s2 s3 → read_only random now s1 s3.
Proof.
  intros [(A1 & A2 & A3 & A4) (o1 & F1 & E1)] [(B1 & B2 & B3 & B4) (o2 & F2 & E2)]. split.
  - unfold same_tables. split_and!; congruence.
  - exists (o1 ++ o2). split; [by apply Forall_app|]. by rewrite foldl_app, <- E1.
Qed.

(** Unlocking leaves the tables alone, and succeeds only for a member and
    enough submitted shares. *)
Lemma unlock_outcome random now pid user s res s' : rooms_inv s → unlock_proposal random now pid user s = (res, s') →
  read_only random now s s' ∧
  ∀ out, res = Ok out → ∃ p room, p ∈ s.(boardroom_proposals) ∧ p.(pp_id) = pid ∧ room ∈ s.(boardrooms) ∧
    room.(br_id) = p.(pp_boardroom_id) ∧ mkMember room.(br_id) user.(u_id) ∈ s.(boardroom_members) ∧
    room.(br_threshold_m) ≤ Z.of_nat (length (approvals pid s)).
Proof.
  intros Hinv (res' & Hm & Hres)%guarded_inv.
  enough (read_only random now s s' ∧ ∀ out, res' = Ok out → ∃ p room, p ∈ s.(boardroom_proposals) ∧ p.(pp_id) = pid ∧
    room ∈ s.(boardrooms) ∧ room.(br_id) = p.(pp_boardroom_id) ∧ mkMember room.(br_id) user.(u_id) ∈ s.(boardroom_members) ∧
    room.(br_threshold_m) ≤ Z.of_nat (length (approvals pid s))) as [H1 H2].
  { split; [done|]. intros out ->. apply (H2 out). destruct Hres as [(? & [= <-] & ->)|(? & ? & [=] & _)]. done. }
  assert (read_only random now s s) as Hrefl by by apply read_only_refl.
  apply bind_inv in Hm as [(e & -> & [-> _]%require_inv)|(p & s1 & [-> Hq]%require_inv & Hm)]; [done|].
  destruct Hq as [[? [=]]|(? & [= <-] & [Hp Hpid]%find_proposal_Some)].
  apply bind_inv in Hm as [(e & -> & [-> _]%require_inv)|(room & s1 & [-> Hq]%require_inv & Hm)]; [done|].
  destruct Hq as [[? [=]]|(? & [= <-] & [Hroom Hrid]%find_room_Some)].
  apply bind_inv in Hm as [(e & -> & [-> _]%require_inv)|(mem & s1 & [-> Hq]%require_inv & Hm)]; [done|].
  destruct Hq as [[? [=]]|(? & [= <-] & Hmem%membership_Some)].
  apply bind_inv in Hm as [(e & _ & [=])|(subs & s1 & [= <- <-] & Hm)].
  destruct (Z.ltb_spec (Z.of_nat (length (submitted_shares pid s))) room.(br_threshold_m)) as [|Hquorum].
  { by injection Hm as <- <-. }
  rewrite submitted_shares_perm in Hquorum by apply Hinv.
  split; [|intros out _; by exists p, room]. clear Hres Hquorum.
  apply bind_inv in Hm as [(e & -> & [= _ <-])|(objs & s1 & [= _ <-] & Hm)]; [done|].
  apply bind_inv in Hm as [(e & _ & He)|(text & s1 & Ht & Hm)].
  { destruct (reconstruct_secret objs None) as [[[|c text]|]|]; by injection He as _ <-. }
  assert (s1 = s) as -> by (destruct (reconstruct_secret objs None) as [[[|c text']|]|]; by injection Ht as _ <-).
  assert (∀ r1 s1, (match p.(pp_lock_id) with None | Some ""%string => mret text
      | Some lock_id => open_timelock random now lock_id text end) s = (r1, s1) → read_only random now s s1) as Hopen.
  { intros r1 s1. pose proof (open_timelock_read random now) as Ho.
    destruct (pp_lock_id p) as [[|c id]|]; [by intros [= _ <-]| |by intros [= _ <-]].
    specialize (Ho (String c id) text s). intros Heq. by rewrite Heq in Ho. }
  apply bind_inv in Hm as [(e & _ & He)|(text' & s1 & Ht'%Hopen & Hm)]; [by eapply Hopen|].
  destruct (issue_copy_read random now pid text' user s1) as [Hread [copy Hcopy]].
  apply bind_inv in Hm as [(e & _ & He)|(copy' & s2 & Hc & [= _ <-])].
  - rewrite He in Hcopy. done.
  - eapply read_only_trans; [exact Ht'|]. by rewrite Hc in Hread.
Qed.
End outcomes.

(** ** Histories *)

(** The calls, the daemon's clean-up passes, and changes of the accounts. *)
Inductive room_op :=
  | RCreate (now : Z) (room_id name : string) (threshold_m : Z) (member_usernames : list string)
  | RPropose (now : Z) (r : ProposalDraw) (boardroom_id title : string) (content : pystr) (ttl_seconds : option Z)
  | RApprove (proposal_id : string)
  | RUnlock (random : bytes) (now : Z) (proposal_id : string)
  | RCleanup (random : bytes) (now : Z)
  | RAccounts (t : list UserRow).

Section histories.
Context {P : PickRow} {PL : PickRowLaws P} {Q : PickRows} {QL : PickRowsLaws Q} {O : SetOrder} {SP : SharingPrims}
  {D : Digest}.

Definition exec_room (user : UserRow) (op : room_op) (s : Rooms) : Rooms :=
  match op with
  | RCreate now room_id name thr names => (create_boardroom now room_id name thr names user s).2
  | RPropose now r room_id title content ttl => (create_proposal now r room_id title content ttl user s).2
  | RApprove pid => (approve_proposal pid user s).2
  | RUnlock random now pid => (unlock_proposal random now pid user s).2
  | RCleanup random now => set_engine (TimeLock.exec random now TimeLock.OpCleanup s.(timelock_engine)) s
  | RAccounts t => mkRooms t s.(boardrooms) s.(boardroom_members) s.(boardroom_proposals) s.(shamir_shares) s.(room_log)
      s.(timelock_engine) s.(stegano_known)
  end.

Definition run_rooms (ops : list (UserRow * room_op)) (s : Rooms) : Rooms :=
  foldl (λ s uo, exec_room uo.1 uo.2 s) s ops.

(** Every submitted share was submitted by its holder. *)
Definition submitted_by (hist : list (UserRow * room_op)) (s : Rooms) : Prop :=
  ∀ r, r ∈ s.(shamir_shares) → r.(sh_submitted) = true →
    ∃ user, (user, RApprove r.(sh_proposal_id)) ∈ hist ∧ user.(u_id) = r.(sh_user_id).

(** *** The invariant is kept *)

Lemma filterb_none {A} (f : A → bool) l : (∀ x, x ∈ l → f x = false) → List.filter f l = [].
Proof. induction l as [|x l IH]; intros Hf; [done|]. cbn. rewrite Hf by set_solver. apply IH. set_solver. Qed.
Lemma filterb_all {A} (f : A → bool) l : (∀ x, x ∈ l → f x = true) → List.filter f l = l.
Proof. induction l as [|x l IH]; intros Hf; [done|]. cbn. rewrite Hf by set_solver. rewrite IH; [done|set_solver]. Qed.

Lemma no_rows pid s : rooms_inv s → (∀ x, x ∈ s.(boardroom_proposals) → pid ≠ x.(pp_id)) → rows_of pid s = [].
Proof.
  intros Hinv Hnew. apply filterb_none. intros r Hr. destruct (ri_share _ Hinv _ Hr) as (p & Hp & Hid & _).
  apply bool_decide_eq_false. intros <-. by apply (Hnew p).
Qed.

Lemma created_inv s s' :
  s'.(boardroom_proposals) = s.(boardroom_proposals) → s'.(shamir_shares) = s.(shamir_shares) →
  (∃ rs ms, s'.(boardrooms) = s.(boardrooms) ++ rs ∧ s'.(boardroom_members) = s.(boardroom_members) ++ ms ∧
    (NoDup s.(boardroom_members) → NoDup s'.(boardroom_members)) ∧
    (NoDup (br_id <$> s.(boardrooms)) → NoDup (br_id <$> s'.(boardrooms))) ∧
    ∀ room, room ∈ rs → 2 ≤ room.(br_threshold_m)) →
  rooms_inv s → rooms_inv s'.
Proof.
  intros E3 E4 (rs & ms & E1 & E2 & N2 & N1 & Hthr) [I1 I2 I3 I4 I5 I6 I7 I8 I9 I10].
  specialize (N1 I1). specialize (N2 I2). unfold approvals in *.
  split; unfold approvals; rewrite ?E3, ?E4; try done.
  - rewrite E1. intros room [?|?]%elem_of_app; auto.
  - intros p Hp. destruct (I7 p Hp) as (room & ? & ?). exists room. rewrite E1. set_solver.
  - intros r Hr. destruct (I8 r Hr) as (p & ? & ? & ?). exists p. rewrite E2. set_solver.
  - intros p room Hp Hroom Hid. apply I10; [done| |done]. destruct (I7 p Hp) as (room' & Hr' & Hid').
    assert (room = room') as ->; [|done]. eapply (key_unique br_id); [exact N1|done| |congruence].
    rewrite E1. set_solver.
Qed.

Lemma proposed_inv room_id pid s s' : proposed room_id pid s s' → rooms_inv s → rooms_inv s'.
Proof.
  intros (p & rows & E1 & E2 & E3 & E4 & Hroom & Hpid & Hpr & Hst & Hnew & Hlen & Hrows & N4 & N5) Hinv.
  pose proof (no_rows pid s Hinv Hnew) as Hnone.
  assert (∀ q, approvals q s' = approvals q s) as Happ.
  { intros q. unfold approvals. rewrite E4, !List.filter_app, (filterb_none _ (List.filter _ rows)), app_nil_r; [done|].
    intros r [_ Hr]%elem_of_filterb. by apply Hrows. }
  destruct Hinv as [I1 I2 I3 I4 I5 I6 I7 I8 I9 I10]. split; rewrite ?E1, ?E2; auto.
  - rewrite E3. apply NoDup_snoc_key; [done|]. rewrite Hpid. done.
  - rewrite E3. intros q [Hq| ->%list_elem_of_singleton]%elem_of_app; [by apply I7|]. rewrite Hpr. done.
  - rewrite E3, E4. intros r [Hr|Hr]%elem_of_app.
    + destruct (I8 r Hr) as (q & ? & ?). exists q. set_solver.
    + destruct (Hrows r Hr) as (? & ? & ?). exists p. split; [set_solver|]. split; [congruence|]. by rewrite Hpr.
  - intros q. rewrite E4, List.filter_app, length_app. destruct (decide (q = pid)) as [->|Hne].
    + rewrite Hnone. cbn. pose proof (submseteq_length _ _ (filterb_submseteq (of_proposal pid) rows)). lia.
    + rewrite (filterb_none _ rows), Nat.add_0_r; [apply I9|]. intros r Hr. apply bool_decide_eq_false.
      destruct (Hrows r Hr) as (-> & _). done.
  - rewrite E3. intros q room Hq Hin Hid. rewrite Happ. apply elem_of_app in Hq as [Hq| ->%list_elem_of_singleton].
    + by apply I10.
    + unfold approvals. rewrite Hpid, Hnone, Hst. cbn. specialize (I6 _ Hin). split; [done|lia].
Qed.

Lemma approvals_update pid i s :
  approvals pid (set_shamir (update_one sh_id i with_submitted s.(shamir_shares)) s) =
  List.filter sh_submitted (update_one sh_id i with_submitted (rows_of pid s)).
Proof. unfold approvals. by rewrite rows_update. Qed.

Lemma settle_keys pid room p s : pp_id <$> settle pid room p s = pp_id <$> s.(boardroom_proposals).
Proof. unfold settle. destruct (_ && _); [by apply update_one_keys|done]. Qed.

(** Rows of [settle] are the old ones, up to the status of this proposal. *)
Lemma settle_elem pid room p s q : q ∈ settle pid room p s →
  ∃ q0, q0 ∈ s.(boardroom_proposals) ∧ (q = q0 ∨ q = with_proposal_status "executed" q0 ∧ q0.(pp_id) = pid).
Proof.
  unfold settle. destruct (_ && _); [|by eauto].
  intros (q0 & Hq0 & ->)%update_one_elem. exists q0. split; [done|]. case_decide; auto.
Qed.

Lemma approved_inv pid row p room s s' :
  row ∈ s.(shamir_shares) → row.(sh_proposal_id) = pid → p ∈ s.(boardroom_proposals) → p.(pp_id) = pid →
  room ∈ s.(boardrooms) → room.(br_id) = p.(pp_boardroom_id) →
  s'.(boardrooms) = s.(boardrooms) → s'.(boardroom_members) = s.(boardroom_members) →
  s'.(shamir_shares) = update_one sh_id row.(sh_id) with_submitted s.(shamir_shares) →
  s'.(boardroom_proposals) = settle pid room p (set_shamir s'.(shamir_shares) s) →
  rooms_inv s → rooms_inv s'.
Proof.
  intros Hrow Hrp Hp Hpp Hroom Hrid E1 E2 E4 E3 Hinv. pose proof Hinv as [I1 I2 I3 I4 I5 I6 I7 I8 I9 I10].
  rewrite E4 in E3. set (s1 := set_shamir _ s) in E3.
  assert (∀ q, approvals q s' = approvals q s1) as Happ by (intros q; unfold approvals; by rewrite E4).
  assert (∀ q, q ≠ pid → approvals q s1 = approvals q s) as Hother.
  { intros q Hne. unfold s1. rewrite approvals_update, update_one_same; [done|].
    intros r [Hq%bool_decide_eq_true Hr]%elem_of_filterb Hid. apply Hne.
    assert (r = row) as -> by (by eapply (key_unique sh_id)). congruence. }
  assert ((length (approvals pid s) ≤ length (approvals pid s1))%nat) as Hmore.
  { unfold s1. rewrite approvals_update. apply submit_more. }
  assert (∀ r, r ∈ s'.(shamir_shares) → ∃ r0, r0 ∈ s.(shamir_shares) ∧ holder r = holder r0) as Hold.
  { rewrite E4. intros r (r0 & Hr0 & ->)%update_one_elem. exists r0. split; [done|]. by case_decide. }
  split; rewrite ?E1, ?E2; auto.
  - rewrite E3, settle_keys. done.
  - rewrite E4, update_one_keys; done.
  - rewrite E4, update_one_keys; done.
  - rewrite E3. intros q (q0 & Hq0 & Hq)%settle_elem. destruct (I7 q0 Hq0) as (rm & ? & ?). exists rm.
    split; [done|]. by destruct Hq as [->|[-> _]].
  - intros r (r0 & Hr0 & [= -> ->])%Hold. destruct (I8 r0 Hr0) as (q0 & Hq0 & Hid & Hmem).
    assert (∃ q, q ∈ s'.(boardroom_proposals) ∧ q.(pp_id) = q0.(pp_id) ∧ q.(pp_boardroom_id) = q0.(pp_boardroom_id))
      as (q & ? & ? & ?); [|exists q; split; [done|]; split; congruence].
    rewrite E3. unfold settle. destruct (_ && _); [|by exists q0].
    exists (if decide (q0.(pp_id) = pid) then with_proposal_status "executed" q0 else q0).
    split; [apply update_one_elem; by exists q0|]. by case_decide.
  - intros q. change (rows_of q s') with (List.filter (of_proposal q) s'.(shamir_shares)). rewrite E4.
    change (List.filter (of_proposal q) _) with (rows_of q s1). unfold s1. rewrite rows_update.
    unfold update_one. rewrite length_fmap. apply I9.
  - rewrite E3. intros q rm Hq Hrm Hrq. rewrite Happ. apply settle_elem in Hq as Hq'. destruct Hq' as (q0 & Hq0 & Hcase).
    assert (q.(pp_id) = q0.(pp_id) ∧ q.(pp_boardroom_id) = q0.(pp_boardroom_id)) as [Eid Erm] by (by destruct Hcase as [->|[-> _]]).
    destruct (decide (q0.(pp_id) = pid)) as [Hqp|Hqp].
    + assert (q0 = p) as -> by (eapply (key_unique pp_id); [exact I3|done..|congruence]).
      assert (rm = room) as -> by (eapply (key_unique br_id); [exact I1|done..|congruence]).
      rewrite Eid, Hqp. specialize (I10 p room Hp Hroom Hrid). rewrite Hpp in I10.
      unfold settle in Hq. destruct (Z.leb_spec room.(br_threshold_m) (Z.of_nat (length (approvals pid s1)))) as [Hle|Hlt]; cbn [andb] in Hq.
      * split; [done|intros _]. destruct (bool_decide_reflect (p.(pp_status) = "executed"%string)) as [Hex|Hex]; cbn [negb] in Hq.
        -- destruct Hcase as [->|[-> _]]; [done|done].
        -- apply update_one_elem in Hq as (q1 & Hq1 & ->).
           assert (q1 = p) as -> by (eapply (key_unique pp_id); [exact I3|done..|]; revert Eid; case_decide; cbn; congruence).
           by rewrite decide_True.
      * split; [|lia]. intros Hex. destruct Hcase as [->|[-> _]].
        -- apply I10 in Hex. lia.
        -- assert (with_proposal_status "executed" p = p) as Heq; [|rewrite Heq in Hex; apply I10 in Hex; lia].
           eapply (key_unique pp_id); [exact I3|done..].
    + assert (q = q0) as -> by (destruct Hcase as [|[_ ?]]; done).
      rewrite Hother by congruence. by apply I10.
Qed.

(** *** Rows persist *)

(** The same share, perhaps submitted since. *)
Definition later (r r' : ShamirRow) : Prop := r' = r ∨ r' = with_submitted r.

(** What every call keeps. *)
Record grows (s s' : Rooms) : Prop := {
  gr_rooms room : room ∈ s.(boardrooms) → room ∈ s'.(boardrooms);
  gr_members m : m ∈ s.(boardroom_members) → m ∈ s'.(boardroom_members);
  gr_proposals p : p ∈ s.(boardroom_proposals) → ∃ st, with_proposal_status st p ∈ s'.(boardroom_proposals);
  gr_rows p : p ∈ s.(boardroom_proposals) → Forall2 later (rows_of p.(pp_id) s) (rows_of p.(pp_id) s');
}.

Lemma with_status_id p : with_proposal_status p.(pp_status) p = p.
Proof. by destruct p. Qed.
#[local] Instance later_trans : Transitive later.
Proof. intros x y z [->| ->] [->| ->]; unfold later; auto. Qed.
Lemma later_refl l : Forall2 later l l.
Proof. apply Forall_Forall2_diag, Forall_forall. by left. Qed.

Lemma grows_same s s' : same_tables s s' → grows s s'.
Proof.
  intros (E1 & E2 & E3 & E4). split; rewrite ?E1, ?E2; try done.
  - intros p Hp. exists p.(pp_status). by rewrite E3, with_status_id.
  - intros p _. rewrite E4. apply later_refl.
Qed.

Lemma grows_trans s1 s2 s3 : grows s1 s2 → grows s2 s3 → grows s1 s3.
Proof.
  intros [A1 A2 A3 A4] [B1 B2 B3 B4]. split; auto.
  - intros p Hp. destruct (A3 p Hp) as (st & Hst). destruct (B3 _ Hst) as (st' & Hst'). by exists st'.
  - intros p Hp. destruct (A3 p Hp) as (st & Hst). specialize (B4 _ Hst). cbn in B4. specialize (A4 p Hp).
    by etrans.
Qed.

Lemma later_update i l : Forall2 later l (update_one sh_id i with_submitted l).
Proof.
  unfold update_one. apply Forall2_fmap_r, Forall_Forall2_diag, Forall_forall. intros x _. unfold compose, later.
  case_decide; auto.
Qed.

Lemma grows_proposed room_id pid s s' : proposed room_id pid s s' → grows s s'.
Proof.
  intros (p & rows & E1 & E2 & E3 & E4 & _ & _ & _ & _ & Hnew & _ & Hrows & _). split; rewrite ?E1, ?E2; try done.
  - intros q Hq. exists q.(pp_status). rewrite E3, with_status_id. set_solver.
  - intros q Hq. rewrite E4, List.filter_app, (filterb_none _ rows), app_nil_r; [apply later_refl|].
    intros r Hr. destruct (Hrows r Hr) as (Hpid & _). apply bool_decide_eq_false. rewrite Hpid. by apply Hnew.
Qed.

(** What a call by [user] does to the shares: it keeps the invariant and the
    rows, submits at most the caller's own share, and an approval leaves that
    share submitted. *)
Definition advances (user : UserRow) (op : room_op) (s s' : Rooms) : Prop :=
  rooms_inv s' ∧ grows s s' ∧
  (∀ r', r' ∈ s'.(shamir_shares) → r'.(sh_submitted) = true →
     (∃ r, r ∈ s.(shamir_shares) ∧ r.(sh_submitted) = true ∧ holder r = holder r') ∨
     op = RApprove r'.(sh_proposal_id) ∧ user.(u_id) = r'.(sh_user_id)) ∧
  (∀ pid r', op = RApprove pid → r' ∈ s'.(shamir_shares) → holder r' = (pid, user.(u_id)) → r'.(sh_submitted) = true).

Lemma advances_same user op s s' : rooms_inv s → same_tables s s' →
  (∀ pid r, op = RApprove pid → r ∈ s.(shamir_shares) → holder r = (pid, user.(u_id)) → r.(sh_submitted) = true) →
  advances user op s s'.
Proof.
  intros Hinv Hs Happ. split; [by eapply same_tables_inv|]. split; [by apply grows_same|].
  destruct Hs as (_ & _ & _ & ->). eauto 10.
Qed.

Lemma advances_create user now room_id name thr names s : rooms_inv s →
  advances user (RCreate now room_id name thr names) s (create_boardroom now room_id name thr names user s).2.
Proof.
  intros Hinv. destruct (create_boardroom now room_id name thr names user s) as [res s1] eqn:Hc. cbn [snd].
  apply create_boardroom_outcome in Hc as (E3 & E4 & _ & rs & ms & E1 & E2 & Hrest).
  split; [eapply created_inv; [done..|by exists rs, ms|done]|]. split.
  { split; rewrite ?E1, ?E2, ?E3, ?E4.
    - intros room Hroom. apply elem_of_app. by left.
    - intros m Hm. apply elem_of_app. by left.
    - intros p Hp. exists p.(pp_status). by rewrite with_status_id.
    - intros p _. apply later_refl. }
  split; [|done]. rewrite E4. intros r Hr Hs. left. eauto.
Qed.

Lemma advances_propose user now r room_id title content ttl s : rooms_inv s →
  advances user (RPropose now r room_id title content ttl) s (create_proposal now r room_id title content ttl user s).2.
Proof.
  intros Hinv. destruct (create_proposal now r room_id title content ttl user s) as [res s1] eqn:Hc. cbn [snd].
  apply create_proposal_outcome in Hc as [[Hs|Hp] _]; [by apply advances_same|].
  split; [by eapply proposed_inv|]. split; [by eapply grows_proposed|]. split; [|done].
  destruct Hp as (p & rows & _ & _ & _ & E4 & _ & _ & _ & _ & _ & _ & Hrows & _). rewrite E4.
  intros r' [Hr'|Hr']%elem_of_app Hsub; [left; eauto|]. destruct (Hrows r' Hr') as (_ & Hf & _). congruence.
Qed.

Lemma advances_approve user pid s : rooms_inv s → advances user (RApprove pid) s (approve_proposal pid user s).2.
Proof.
  intros Hinv. pose proof (approve_outcome pid user s Hinv) as Ha. destruct (approve_proposal pid user s) as [res s1]. cbn [snd].
  destruct Ha as [_ [[Hs Hsub]|(row & p & room & Hrow & Hh & Hp & Hpp & Hroom & Hrid & E1 & E2 & E4 & E3)]].
  { apply advances_same; [done..|]. intros pid' r [= <-]. apply Hsub. }
  assert (row.(sh_proposal_id) = pid ∧ row.(sh_user_id) = user.(u_id)) as [Hrp Hru] by (by injection Hh).
  split; [by eapply (approved_inv pid row p room s s1)|]. split.
  { split; rewrite ?E1, ?E2; try done.
    - intros q Hq. rewrite E3. unfold settle. destruct (_ && _); [|exists q.(pp_status); by rewrite with_status_id].
      destruct (decide (q.(pp_id) = pid)).
      + exists "executed"%string. apply update_one_elem. exists q. by rewrite decide_True.
      + exists q.(pp_status). rewrite with_status_id. apply update_one_elem. exists q. by rewrite decide_False.
    - intros q _. rewrite E4.
      change (List.filter _ (update_one _ _ _ _)) with
        (rows_of q.(pp_id) (set_shamir (update_one sh_id row.(sh_id) with_submitted s.(shamir_shares)) s)).
      rewrite rows_update. apply later_update. }
  split; rewrite E4.
  - intros r' (r & Hr & ->)%update_one_elem. case_decide as Hid; [|intros ?; left; eauto].
    assert (r = row) as -> by (by eapply (key_unique sh_id); [apply Hinv|..]). intros _. right. cbn. split; congruence.
  - intros pid' r' [= <-] (r & Hr & ->)%update_one_elem. case_decide as Hid; [done|].
    intros Hh'. exfalso. apply Hid. f_equal. eapply (key_unique holder); [apply Hinv|done..|congruence].
Qed.

Lemma exec_room_advances user op s : rooms_inv s → advances user op s (exec_room user op s).
Proof.
  intros Hinv. destruct op as [now room_id name thr names|now r room_id title content ttl|pid|random now pid|random now|t];
    cbn [exec_room].
  - by apply advances_create.
  - by apply advances_propose.
  - by apply advances_approve.
  - destruct (unlock_proposal random now pid user s) as [res s1] eqn:Hu. cbn [snd].
    apply unlock_outcome in Hu as [[Hs _] _]; [by apply advances_same|done].
  - by apply advances_same.
  - by apply advances_same.
Qed.

Lemma run_rooms_app ops ops' s : run_rooms (ops ++ ops') s = run_rooms ops' (run_rooms ops s).
Proof. apply foldl_app. Qed.

Lemma run_rooms_inv ops s : rooms_inv s → rooms_inv (run_rooms ops s) ∧ grows s (run_rooms ops s).
Proof.
  revert s. induction ops as [|[u op] ops IH]; intros s Hs; [split; [done|by apply grows_same]|].
  destruct (exec_room_advances u op s Hs) as (Hi & Hg & _). destruct (IH _ Hi) as [? ?]. split; [done|]. by eapply grows_trans.
Qed.

Lemma run_rooms_submitted ops hist s : rooms_inv s → submitted_by hist s → submitted_by (hist ++ ops) (run_rooms ops s).
Proof.
  revert hist s. induction ops as [|[u op] ops IH]; intros hist s Hs Hb; [by rewrite app_nil_r|].
  destruct (exec_room_advances u op s Hs) as (Hi & _ & Hsub & _).
  rewrite (cons_middle (u, op) hist ops), (assoc_L (++)). apply IH; [done|]. intros r' Hr' Ht.
  destruct (Hsub r' Hr' Ht) as [(r & Hr & Hrt & [= <- <-])|[-> <-]].
  - destruct (Hb r Hr Hrt) as (v & ? & ?). exists v. set_solver.
  - exists u. set_solver.
Qed.

(** ** The quorum *)

Lemma holders_NoDup pid s : rooms_inv s → NoDup (sh_user_id <$> rows_of pid s).
Proof.
  intros Hinv. pose proof (ri_holders _ Hinv) as Hnd. clear Hinv. induction s.(shamir_shares) as [|r l IH]; [constructor|].
  csimpl in *. apply NoDup_cons in Hnd as [Hr Hnd]. destruct (bool_decide_reflect (sh_proposal_id r = pid)) as [Hp|Hp];
    unfold of_proposal at 1; [rewrite bool_decide_eq_true_2 by done|rewrite bool_decide_eq_false_2 by done; by apply IH].
  csimpl. constructor; [|by apply IH]. intros (x & Hx & [Hxp%bool_decide_eq_true Hin]%elem_of_filterb)%list_elem_of_fmap.
  apply Hr, list_elem_of_fmap. exists x. split; [|done]. unfold holder. congruence.
Qed.

Lemma approvers_NoDup pid s : rooms_inv s → NoDup (sh_user_id <$> approvals pid s).
Proof.
  intros Hinv. pose proof (holders_NoDup pid s Hinv) as Hnd. unfold approvals.
  pose proof (filterb_submseteq sh_submitted (rows_of pid s)) as [k Hk]%submseteq_Permutation.
  rewrite Hk, fmap_app in Hnd. by apply NoDup_app in Hnd as [? _].
Qed.

Lemma approvals_member pid s p r : rooms_inv s → p ∈ s.(boardroom_proposals) → p.(pp_id) = pid → r ∈ rows_of pid s →
  mkMember p.(pp_boardroom_id) r.(sh_user_id) ∈ s.(boardroom_members).
Proof.
  intros Hinv Hp Hpid [Hr%bool_decide_eq_true Hin]%elem_of_filterb.
  destruct (ri_share _ Hinv _ Hin) as (q & Hq & Hid & Hm).
  assert (q = p) as ->; [|done]. eapply (key_unique pp_id); [apply Hinv|done..|congruence].
Qed.

(** C39: a proposal is opened by its board room only.  Over any history of calls
    by any users, clean-up passes and account changes, from a state without
    board rooms: the threshold of a board room is at least 2; a proposal is
    marked executed only if at least a threshold of different members of its
    board room have each approved it themselves; and [unlock_proposal] returns
    its content only for an executed proposal and to a member. *)
Theorem proposal_quorum (hist : list (UserRow * room_op)) (s0 : Rooms) :
  s0.(boardrooms) = [] → s0.(boardroom_members) = [] → s0.(boardroom_proposals) = [] → s0.(shamir_shares) = [] →
  let s := run_rooms hist s0 in
  ∀ p room, p ∈ s.(boardroom_proposals) → room ∈ s.(boardrooms) → room.(br_id) = p.(pp_boardroom_id) →
    2 ≤ room.(br_threshold_m) ∧
    (p.(pp_status) = "executed"%string →
       ∃ approvers, NoDup approvers ∧ room.(br_threshold_m) ≤ Z.of_nat (length approvers) ∧
         ∀ a, a ∈ approvers → mkMember room.(br_id) a ∈ s.(boardroom_members) ∧
           ∃ user, (user, RApprove p.(pp_id)) ∈ hist ∧ user.(u_id) = a) ∧
    ∀ random now user out, (unlock_proposal random now p.(pp_id) user s).1 = Ok out →
      p.(pp_status) = "executed"%string ∧ mkMember room.(br_id) user.(u_id) ∈ s.(boardroom_members).
Proof.
  intros E1 E2 E3 E4 s p room Hp Hroom Hid. pose proof (no_rooms_inv s0 E1 E2 E3 E4) as H0.
  destruct (run_rooms_inv hist s0 H0) as [Hinv _]. fold s in Hinv.
  assert (submitted_by hist s) as Hby.
  { apply (run_rooms_submitted hist [] s0); [done|]. intros r. rewrite E4. set_solver. }
  split; [by apply (ri_threshold _ Hinv)|]. split.
  - intros Hex. exists (sh_user_id <$> approvals p.(pp_id) s). split; [by apply approvers_NoDup|].
    split; [rewrite length_fmap; by apply (ri_status _ Hinv)|].
    intros a (r & -> & [Hsub Hr]%elem_of_filterb)%list_elem_of_fmap. rewrite Hid. split.
    + by eapply approvals_member.
    + apply elem_of_filterb in Hr as [<-%bool_decide_eq_true Hr]. by apply Hby.
  - intros random now user out Hu. destruct (unlock_proposal _ _ _ _ s) as [res s'] eqn:Hrun. cbn in Hu.
    destruct (unlock_outcome _ _ _ _ _ _ _ Hinv Hrun) as [_ Hout].
    destruct (Hout out Hu) as (q & rm & Hq & Hqid & Hrm & Hrid & Hmem & Hcount).
    assert (q = p) as -> by (by eapply (key_unique pp_id); [apply Hinv|..]).
    assert (rm = room) as -> by (eapply (key_unique br_id); [apply Hinv|done..|congruence]).
    split; [by apply (ri_status _ Hinv p room)|done].
Qed.

(** ** Proposals open *)

(** *** The time-lock engine under the calls *)

Definition op_time (op : room_op) : option Z :=
  match op with
  | RPropose now _ _ _ _ _ | RUnlock _ now _ | RCleanup _ now => Some now
  | _ => None
  end.
(** The calls of the engine a route makes. *)
Definition engine_call (op : room_op) (top : TimeLock.engine_op) : Prop :=
  match top with
  | TimeLock.OpDecrypt _ | TimeLock.OpGetStatus _ | TimeLock.OpCleanup => True
  | TimeLock.OpEncrypt r _ _ => match op with RPropose _ d _ _ _ _ => d.(pd_lock) = r | _ => False end
  | _ => False
  end.

Lemma exec_room_engine (Φ : TimeLock.Engine → Prop) user op s : rooms_inv s →
  (∀ random now top e, op_time op = Some now → engine_call op top → Φ e → Φ (TimeLock.exec random now top e)) →
  Φ s.(timelock_engine) → Φ (exec_room user op s).(timelock_engine).
Proof.
  intros Hinv Hcall H0. destruct op as [now room_id name thr names|now r room_id title content ttl|pid|random now pid|random now|t];
    cbn [exec_room].
  - destruct (create_boardroom _ _ _ _ _ _ s) as [res s1] eqn:Hc.
    apply create_boardroom_outcome in Hc as (_ & _ & He & _). cbn. by rewrite He.
  - destruct (create_proposal _ _ _ _ _ _ _ s) as [res s1] eqn:Hc. cbn.
    apply create_proposal_outcome in Hc as [_ [->|[ttl' ->]]]; [done|]. by apply Hcall.
  - pose proof (approve_outcome pid user s Hinv) as Ha. destruct (approve_proposal pid user s) as [res s1].
    destruct Ha as [He _]. cbn. by rewrite He.
  - destruct (unlock_proposal random now pid user s) as [res s1] eqn:Hu. cbn [snd].
    apply unlock_outcome in Hu as [[_ (ops & Hops & ->)] _]; [|done]. clear -Hcall Hops H0. revert Hops H0.
    generalize s.(timelock_engine). induction ops as [|top ops IH]; intros e Hops He; cbn; [done|].
    apply Forall_cons in Hops as [Htop Hops]. apply IH; [done|]. apply Hcall; [done| |done]. by destruct top.
  - cbn. by apply (Hcall random now TimeLock.OpCleanup).
  - done.
Qed.

Definition fresh_lock (id : string) (op : room_op) : Prop :=
  match op with RPropose _ d _ _ _ _ => TimeLock.le_lock_id d.(pd_lock) ≠ id | _ => True end.

(** The key is held until [expiry] and not longer, and nobody destroyed the lock. *)
Definition lock_kept (id : string) (key : bytes) (expiry : Z) (e : TimeLock.Engine) : Prop :=
  TimeLock.held id key expiry e ∧ ∃ m, TimeLock.metadata_store e !! id = Some m ∧ TimeLock.status m ≠ "DESTROYED"%string.
Definition lock_bounded (id : string) (expiry : Z) (e : TimeLock.Engine) : Prop :=
  (∀ k t, TimeLock.key_store e !! id = Some (k, t) → t ≤ expiry) ∧
  ∃ m, TimeLock.metadata_store e !! id = Some m ∧ TimeLock.status m ≠ "DESTROYED"%string.

Lemma exec_metadata op top random now id e : engine_call op top → fresh_lock id op →
  (∃ m, TimeLock.metadata_store e !! id = Some m ∧ TimeLock.status m ≠ "DESTROYED"%string) →
  ∃ m, TimeLock.metadata_store (TimeLock.exec random now top e) !! id = Some m ∧ TimeLock.status m ≠ "DESTROYED"%string.
Proof.
  intros Hc Hf (m & Hm & Hst). destruct top as [r content ttl|enc|id'|id'|id' a|]; try done; cbn.
  - assert (TimeLock.le_lock_id r ≠ id) by (destruct op; try done; cbn in Hc, Hf; congruence).
    unfold TimeLock.encrypt. destruct (add_seconds now ttl); [|by eauto]. cbn. destruct (utf8_encode content); [|by eauto].
    cbn. rewrite lookup_insert_ne by done. eauto.
  - unfold TimeLock.decrypt. destruct (TimeLock.get_key _ _ _ _) as [[k|] ks]; cbn; [by eauto|].
    destruct (decide (TimeLock.lock_id (TimeLock.metadata enc) = id)) as [->|].
    + rewrite lookup_alter_eq, Hm. cbn. eexists. split; [done|]. by case_decide.
    + rewrite lookup_alter_ne by done. eauto.
  - unfold TimeLock.get_status. destruct (TimeLock.metadata_store e !! id'); [|by eauto]. case_decide; [by eauto|].
    destruct (TimeLock.has_key _ _ _ _); cbn. eauto.
  - eauto.
Qed.

Lemma engine_call_fresh op top id : engine_call op top → fresh_lock id op → TimeLock.fresh_id id top.
Proof. destruct top; try done. destruct op; try done. cbn. by intros ->. Qed.

Lemma run_lock_kept id key expiry now2 ops s : rooms_inv s →
  Forall (λ uo, fresh_lock id uo.2 ∧ ∀ t, op_time uo.2 = Some t → t ≤ now2) ops → now2 ≤ expiry →
  lock_kept id key expiry s.(timelock_engine) → lock_kept id key expiry (run_rooms ops s).(timelock_engine).
Proof.
  intros Hinv Hops Hle. revert s Hinv. induction Hops as [|[u op] ops [Hf Ht] _ IH]; intros s Hinv Hk; [done|].
  cbn [fst snd] in *. apply IH; [by apply exec_room_advances|].
  apply exec_room_engine; [done| |done]. intros random now top e Hnow Hc [Hheld Hmeta]. specialize (Ht now Hnow). split.
  - apply TimeLock.exec_held; [|lia|done]. destruct top; try done. by apply (engine_call_fresh op (TimeLock.OpEncrypt r content ttl)).
  - by eapply exec_metadata.
Qed.

Lemma run_lock_bounded id expiry ops s : rooms_inv s → Forall (λ uo, fresh_lock id uo.2) ops →
  lock_bounded id expiry s.(timelock_engine) → lock_bounded id expiry (run_rooms ops s).(timelock_engine).
Proof.
  intros Hinv Hops. revert s Hinv. induction Hops as [|[u op] ops Hf _ IH]; intros s Hinv Hk; [done|].
  cbn [fst snd] in *. apply IH; [by apply exec_room_advances|].
  apply exec_room_engine; [done| |done]. intros random now top e Hnow Hc [Hb Hmeta]. split; [|by eapply exec_metadata].
  intros k t. destruct (TimeLock.exec_key random now top e id (engine_call_fresh _ _ _ Hc Hf))
    as [->|[[-> _]|(k' & t0 & a & t' & -> & _)]]; [apply Hb|done|done].
Qed.

(** *** Creating a proposal succeeds *)

Lemma hand_out_run now r shares k l s :
  (∀ i, (i < length l)%nat → is_Some (shares !! (k + i)%nat)) →
  (∀ sh, sh ∈ shares → wf_json (share_to_dict sh)) →
  Inj (=) (=) r.(pd_share_id) → NoDup (bm_user_id <$> l) →
  (∀ i m x, l !! i = Some m → x ∈ s.(shamir_shares) →
     sh_id x ≠ r.(pd_share_id) (k + i)%nat ∧ holder x ≠ (r.(pd_id), m.(bm_user_id))) →
  ∃ rows, for_each (imap (λ i m, ((k + i)%nat, m)) l) (hand_out now r shares) s =
      (Ok (), set_shamir (s.(shamir_shares) ++ rows) s) ∧ length rows = length l ∧
    ∀ i m sh, l !! i = Some m → shares !! (k + i)%nat = Some sh →
      rows !! i = Some (mkShamir (r.(pd_share_id) (k + i)%nat) r.(pd_id) m.(bm_user_id) (share_to_dict sh) false now).
Proof.
  intros Hsh Hwf Hinj. revert k s Hsh. induction l as [|m l IH]; intros k s Hsh Hnd Hfresh.
  { exists []. cbn. rewrite app_nil_r, set_shamir_id. done. }
  csimpl in Hnd. apply NoDup_cons in Hnd as [Hm Hnd].
  destruct (Hsh 0%nat) as [sh Hsh0]; [cbn; lia|]. rewrite Nat.add_0_r in Hsh0.
  set (row := mkShamir (r.(pd_share_id) k) r.(pd_id) m.(bm_user_id) (share_to_dict sh) false now).
  assert (hand_out now r shares (k, m) s = (Ok (), set_shamir (s.(shamir_shares) ++ [row]) s)) as Hfirst.
  { unfold hand_out, lift, mbind, M_bind. cbn [fst snd]. rewrite Hsh0. cbn [from_option_exn]. unfold jsonb.
    rewrite loads_dumps by (eapply Hwf, list_elem_of_lookup_2, Hsh0). apply insert_into_fresh.
    intros x Hx. destruct (Hfresh 0%nat m x eq_refl Hx) as [H1 H2]. rewrite Nat.add_0_r in H1. cbn.
    rewrite bool_decide_eq_false_2 by congruence. cbn. apply andb_false_iff.
    destruct (decide (r.(pd_id) = sh_proposal_id x)) as [Hp|]; [right|left; by apply bool_decide_eq_false].
    apply bool_decide_eq_false. intros Hu. apply H2. unfold holder. congruence. }
  destruct (IH (S k) (set_shamir (s.(shamir_shares) ++ [row]) s)) as (rows & Hrun & Hlen & Hrows).
  - intros i Hi. replace (S k + i)%nat with (k + S i)%nat by lia. apply Hsh. cbn. lia.
  - done.
  - cbn [set_shamir shamir_shares]. intros i m' x Hi Hx. apply elem_of_app in Hx as [Hx|Hx].
    + replace (S k + i)%nat with (k + S i)%nat by lia. by apply (Hfresh (S i) m' x).
    + apply list_elem_of_singleton in Hx as ->. cbn. split.
      * intros Heq%Hinj. lia.
      * intros [= Heq]. apply Hm. rewrite Heq. apply list_elem_of_fmap_2. by eapply list_elem_of_lookup_2.
  - exists (row :: rows). cbn [imap for_each]. unfold mbind, M_bind. rewrite Nat.add_0_r, Hfirst.
    cbn [set_shamir shamir_shares] in Hrun. rewrite <- (assoc_L (++)) in Hrun.
    rewrite (imap_ext _ (λ i m, ((S k + i)%nat, m))) by (intros i x _; cbn; f_equal; lia).
    rewrite Hrun. split; [done|]. split; [cbn; by rewrite Hlen|].
    intros [|i] m' sh' Hi Hs'.
    + cbn in Hi. injection Hi as <-. rewrite Nat.add_0_r in Hs' |- *. rewrite Hsh0 in Hs'. by injection Hs' as <-.
    + cbn in Hi |- *. replace (k + S i)%nat with (S k + i)%nat in * by lia. by apply Hrows.
Qed.

(** What the draws of [create_proposal] are like: random values of their
    documented form, and identifiers that are new. *)
Record draw_ok (r : ProposalDraw) (s : Rooms) : Prop := {
  do_split : entropy_ok r.(pd_split);
  do_share_id : Forall is_scalar r.(pd_split).(e_share_id);
  do_nonce : Forall is_byte (TimeLock.le_nonce r.(pd_lock));
  do_lock_id : TimeLock.le_lock_id r.(pd_lock) ≠ ""%string;
  do_ids : Inj (=) (=) r.(pd_share_id);
  do_new p : p ∈ s.(boardroom_proposals) → r.(pd_id) ≠ p.(pp_id);
  do_new_ids x i : x ∈ s.(shamir_shares) → sh_id x ≠ r.(pd_share_id) i;
}.

(** A time to live the route accepts, within the range of date-times. *)
Definition ttl_ok (now : Z) (ttl : option Z) : Prop :=
  match ttl with Some t => 60 ≤ t ∧ 0 ≤ now + t * 1000000 < max_datetime | None => True end.
Definition deadline (now : Z) (ttl : option Z) : option Z := (λ t, now + t * 1000000) <$> ttl.

Context {L : SharingLaws SP}.

(** The text that is split. *)
Definition split_text (r : ProposalDraw) (now : Z) (content : pystr) (plain : bytes) (ttl : option Z) : pystr :=
  match ttl with
  | None => content
  | Some t => dumps (encrypted_json (TimeLock.sealed r.(pd_lock) now t plain))
  end.

Lemma sealed_wf r now t content plain : Forall is_byte (TimeLock.le_nonce r) → Forall is_scalar content →
  utf8_encode content = Ok plain → wf_json (encrypted_json (TimeLock.sealed r now t plain)).
Proof.
  intros Hn Hsc Henc. apply encrypted_json_wf; [|done|apply ascii_text_scalar, sha256_ascii].
  by eapply aesgcm_encrypt_bytes, utf8_encode_bytes.
Qed.

Lemma split_text_scalar r now content plain ttl : Forall is_byte (TimeLock.le_nonce r.(pd_lock)) →
  Forall is_scalar content → utf8_encode content = Ok plain → content ≠ [] →
  Forall is_scalar (split_text r now content plain ttl) ∧ split_text r now content plain ttl ≠ [].
Proof.
  intros Hn Hsc Henc Hne. destruct ttl as [t|]; [|done]. cbn [split_text].
  assert (wf_json (encrypted_json (TimeLock.sealed r.(pd_lock) now t plain))) as Hwf by (by eapply sealed_wf).
  split; [|by apply dumps_nonempty]. eapply Forall_impl; [by apply dumps_printable|].
  intros c [? ?]. apply ascii_scalar. lia.
Qed.

Lemma make_share_wf e thr num data hybrid ct pts i sh : Forall is_scalar e.(e_share_id) → Forall is_byte e.(e_nonce) →
  Forall is_byte ct → make_share e thr num (sha256_hexdigest data) hybrid ct pts i = Ok sh → wf_json (share_to_dict sh).
Proof.
  intros Hid Hn Hct. unfold make_share, compute_share_mac. destruct (utf8_encode _) as [bs|]; [|done]. cbn. intros [= <-].
  apply share_to_dict_wf; cbn.
  - apply join_scalar, Forall_fmap, Forall_forall. intros x _. apply hex_scalar.
  - apply Forall_app. split; [done|]. constructor; [by apply ascii_scalar|]. apply str_scalar.
  - apply ascii_text_scalar, sha256_ascii.
  - apply ascii_text_scalar, hmac_ascii.
  - destruct hybrid; [by apply bytes_hex_scalar|constructor].
  - destruct hybrid; [by apply bytes_hex_scalar|constructor].
Qed.

(** Splitting encodable text: well-formed shares, any threshold of which give it back. *)
Lemma split_total e text thr num : entropy_ok e → Forall is_scalar e.(e_share_id) → Forall is_scalar text →
  2 ≤ thr ≤ num → num < PRIME →
  ∃ shares key, split_secret e text thr num = Ok (shares, key) ∧ length shares = Z.to_nat num ∧
    (∀ sh, sh ∈ shares → wf_json (share_to_dict sh)) ∧
    ∀ sel, sel ⊆+ shares → thr ≤ Z.of_nat (length sel) → reconstruct_secret sel None = Ok (Some text).
Proof.
  intros He Hid Hsc Hthr Hnum. destruct (utf8_encode_total _ Hsc) as [bs Henc].
  pose proof (utf8_encode_bytes _ _ Hsc Henc) as Hb.
  destruct (split_secret_shape e He _ _ _ _ Henc Hb Hthr) as (h & c & shares & Hsplit & Hc & Hmade).
  exists shares, e.(e_hmac_key). split; [done|]. split; [|split].
  - by rewrite <- (Forall2_length _ _ _ Hmade), length_seq.
  - intros sh [i Hi]%list_elem_of_lookup. destruct (Forall2_lookup_r _ _ _ _ _ Hmade Hi) as (j & _ & Hok).
    eapply make_share_wf; [exact Hid|apply He| |exact Hok]. unfold payload. destruct (_ <? _); [|constructor].
    by apply aesgcm_encrypt_bytes.
  - intros sel Hsel Hlen. eapply reconstruct_made; eauto.
Qed.

(** The branch on the time to live. *)
Lemma timelock_branch now r content plain ttl s : draw_ok r s → Forall is_scalar content → utf8_encode content = Ok plain →
  ttl_ok now ttl →
  ∃ e1, match ttl with
        | Some t => apply_timelock now r.(pd_lock) content t
        | None => mret (None, content)
        end s = (Ok ((λ x, (TimeLock.le_lock_id r.(pd_lock), x)) <$> deadline now ttl, split_text r now content plain ttl),
                 set_engine e1 s) ∧
    ∀ x, deadline now ttl = Some x →
      lock_kept (TimeLock.le_lock_id r.(pd_lock)) (TimeLock.le_key r.(pd_lock)) x e1 ∧
      lock_bounded (TimeLock.le_lock_id r.(pd_lock)) x e1.
Proof.
  intros Hd Hsc Henc Ht. destruct ttl as [t|]; [|exists s.(timelock_engine); split; [by destruct s|done]].
  destruct Ht as [_ Ht]. cbn [deadline fmap option_fmap option_map split_text]. unfold apply_timelock.
  rewrite (TimeLock.encrypt_sealed _ _ _ _ plain) by done. cbv zeta. cbn [TimeLock.sealed TimeLock.metadata TimeLock.expires_at].
  rewrite fromisoformat_isoformat by done. eexists. split; [reflexivity|]. intros x [= <-].
  assert (∃ m, (<[TimeLock.le_lock_id r.(pd_lock) := TimeLock.metadata (TimeLock.sealed r.(pd_lock) now t plain)]>
      (TimeLock.metadata_store s.(timelock_engine))) !! TimeLock.le_lock_id r.(pd_lock) = Some m ∧
    TimeLock.status m ≠ "DESTROYED"%string) as Hm by (rewrite lookup_insert_eq; by eexists).
  split; (split; [|exact Hm]).
  - exists (now + t * 1000000). cbn. unfold TimeLock.store_key. by rewrite lookup_insert_eq.
  - intros k t'. cbn. unfold TimeLock.store_key. rewrite lookup_insert_eq. by intros [= _ <-].
Qed.

(** The members a room's query returns: all of them, when they fit. *)
Lemma room_members room_id s : rooms_inv s → (length (List.filter (of_room room_id) s.(boardroom_members)) ≤ LIMIT)%nat →
  let l := pick_rows LIMIT (List.filter (of_room room_id) s.(boardroom_members)) in
  length l = length (List.filter (of_room room_id) s.(boardroom_members)) ∧ NoDup (bm_user_id <$> l) ∧
  ∀ u, mkMember room_id u ∈ s.(boardroom_members) → u ∈ bm_user_id <$> l.
Proof.
  intros Hinv Hlen l. pose proof (pick_rows_length LIMIT (List.filter (of_room room_id) s.(boardroom_members))) as Hl.
  fold l in Hl. rewrite Nat.min_r in Hl by done.
  assert (l ≡ₚ List.filter (of_room room_id) s.(boardroom_members)) as Hperm.
  { apply submseteq_length_Permutation; [apply pick_rows_sub|by rewrite Hl]. }
  split; [done|]. split.
  - rewrite Hperm. pose proof (ri_members _ Hinv) as Hnd. clear -Hnd.
    induction s.(boardroom_members) as [|m ms IH]; [constructor|]. apply NoDup_cons in Hnd as [Hm Hnd]. cbn.
    destruct (of_room room_id m) eqn:Hr; [|by apply IH]. csimpl. constructor; [|by apply IH].
    intros (x & Hx & [Hxr Hin]%elem_of_filterb)%list_elem_of_fmap. apply Hm.
    apply bool_decide_eq_true in Hr, Hxr. destruct m, x; cbn in *. by subst.
  - intros u Hu. rewrite Hperm. apply list_elem_of_fmap. exists (mkMember room_id u). split; [done|].
    apply elem_of_filterb. split; [by apply bool_decide_eq_true|done].
Qed.

Lemma membership_in room_id user_id s : mkMember room_id user_id ∈ s.(boardroom_members) →
  ∃ m, membership room_id user_id s = Some m.
Proof.
  intros Hm. destruct (membership room_id user_id s) eqn:Hf; [by eexists|].
  eapply find_one_None in Hf; [|exact Hm]. assert (is_member room_id user_id (mkMember room_id user_id) = true) by by apply is_member_eq.
  congruence.
Qed.

(** The rows [hand_out] writes: one for each member, with that member's share. *)
Lemma handed_rows now r (l : list MemberRow) shares rows :
  length rows = length l → length shares = length l →
  (∀ i m sh, l !! i = Some m → shares !! i = Some sh →
     rows !! i = Some (mkShamir (r.(pd_share_id) i) r.(pd_id) m.(bm_user_id) (share_to_dict sh) false now)) →
  (∀ row, row ∈ rows → of_proposal r.(pd_id) row = true) ∧
  Forall2 (λ row sh, row.(sh_share_data) = share_to_dict sh) rows shares ∧
  ∀ m, m ∈ l → m.(bm_user_id) ∈ sh_user_id <$> rows.
Proof.
  intros Hrlen Hslen Hrows.
  assert (∀ i row, rows !! i = Some row → ∃ m sh, l !! i = Some m ∧ shares !! i = Some sh ∧
    row = mkShamir (r.(pd_share_id) i) r.(pd_id) m.(bm_user_id) (share_to_dict sh) false now) as Hrow.
  { intros i row Hi. pose proof (lookup_lt_Some _ _ _ Hi) as Hlt.
    destruct (lookup_lt_is_Some_2 l i) as [m Hm]; [lia|]. destruct (lookup_lt_is_Some_2 shares i) as [sh Hsh]; [lia|].
    exists m, sh. split; [done|]. split; [done|]. specialize (Hrows i m sh Hm Hsh). rewrite Hi in Hrows. by injection Hrows. }
  split; [|split].
  - intros row (i & Hi)%list_elem_of_lookup. destruct (Hrow i row Hi) as (m & sh & _ & _ & ->). by apply bool_decide_eq_true.
  - apply Forall2_same_length_lookup_2; [by rewrite Hrlen, Hslen|].
    intros i row sh Hi Hsh. destruct (Hrow i row Hi) as (m & sh' & _ & Hsh' & ->). cbn. congruence.
  - intros m (i & Hi)%list_elem_of_lookup. pose proof (lookup_lt_Some _ _ _ Hi) as Hlt.
    destruct (lookup_lt_is_Some_2 rows i) as [row Hr]; [lia|].
    apply list_elem_of_fmap. exists row. split; [|by eapply list_elem_of_lookup_2].
    destruct (Hrow i row Hr) as (m' & sh & Hm' & _ & ->). cbn. congruence.
Qed.

Lemma create_proposal_run now r room title content plain ttl user s :
  rooms_inv s → draw_ok r s → room ∈ s.(boardrooms) → mkMember room.(br_id) user.(u_id) ∈ s.(boardroom_members) →
  room.(br_threshold_m) ≤ Z.of_nat (length (List.filter (of_room room.(br_id)) s.(boardroom_members))) →
  (length (List.filter (of_room room.(br_id)) s.(boardroom_members)) ≤ LIMIT)%nat →
  has_nul title = false → Forall is_scalar content → content ≠ [] → utf8_encode content = Ok plain → ttl_ok now ttl →
  ∃ shares s1, create_proposal now r room.(br_id) title content ttl user s = (Ok r.(pd_id), s1) ∧
    mkProposal r.(pd_id) room.(br_id) user.(u_id) title "pending"
      ((λ _, TimeLock.le_lock_id r.(pd_lock)) <$> ttl) (deadline now ttl) now ∈ s1.(boardroom_proposals) ∧
    Forall2 (λ row sh, row.(sh_share_data) = share_to_dict sh) (rows_of r.(pd_id) s1) shares ∧
    (∀ u, mkMember room.(br_id) u ∈ s.(boardroom_members) → u ∈ sh_user_id <$> rows_of r.(pd_id) s1) ∧
    (∀ sel, sel ⊆+ shares → room.(br_threshold_m) ≤ Z.of_nat (length sel) →
       reconstruct_secret sel None = Ok (Some (split_text r now content plain ttl))) ∧
    ∀ x, deadline now ttl = Some x →
      lock_kept (TimeLock.le_lock_id r.(pd_lock)) (TimeLock.le_key r.(pd_lock)) x s1.(timelock_engine) ∧
      lock_bounded (TimeLock.le_lock_id r.(pd_lock)) x s1.(timelock_engine).
Proof.
  intros Hinv Hd Hroom Hmem Hthr Hlim Htitle Hsc Hne Henc Httl.
  destruct (room_members _ _ Hinv Hlim) as (Hlen & Hnd & Hall). set (l := pick_rows LIMIT _) in *.
  destruct (timelock_branch now r content plain ttl s Hd Hsc Henc Httl) as (e1 & Hlock & Hkept).
  destruct (split_text_scalar r now content plain ttl (do_nonce _ _ Hd) Hsc Henc Hne) as [Htsc _].
  destruct (split_total r.(pd_split) (split_text r now content plain ttl) room.(br_threshold_m) (Z.of_nat (length l)))
    as (shares & key & Hsplit & Hslen & Hwf & Hrec).
  { apply Hd. } { apply Hd. } { done. }
  { rewrite Hlen. split; [by apply (ri_threshold _ Hinv)|lia]. }
  { rewrite Hlen. transitivity (Z.of_nat (S LIMIT)); [lia|]. by vm_compute. }
  rewrite Nat2Z.id in Hslen.
  set (p := mkProposal r.(pd_id) room.(br_id) user.(u_id) title "pending"
      ((λ _, TimeLock.le_lock_id r.(pd_lock)) <$> ttl) (deadline now ttl) now).
  set (s2 := set_proposals (s.(boardroom_proposals) ++ [p]) (set_engine e1 s)).
  destruct (hand_out_run now r shares 0 l s2) as (rows & Hrun & Hrlen & Hrows).
  { intros i Hi. apply lookup_lt_is_Some. by rewrite Nat.add_0_l, Hslen. } { done. } { apply Hd. } { done. }
  { intros i m x Hi Hx. split; [by apply (do_new_ids _ _ Hd)|]. intros [= Hp _].
    destruct (ri_share _ Hinv x Hx) as (q & Hq & Hqid & _). apply (do_new _ _ Hd q Hq). congruence. }
  destruct (handed_rows now r l shares rows Hrlen Hslen Hrows) as (Hmine & Hdata & Husers).
  assert (List.filter (of_proposal r.(pd_id)) (s.(shamir_shares) ++ rows) = rows) as Hof.
  { rewrite List.filter_app, no_rows by (done || apply Hd). by apply filterb_all. }
  exists shares. eexists. split; [|split; [|split; [|split; [|split; [exact Hrec|]]]]].
  - unfold create_proposal.
    assert (match ttl with Some t => t <? 60 | None => false end = false) as ->.
    { destruct ttl as [t|]; [|done]. destruct Httl as [Ht _]. by apply Z.ltb_ge. }
    apply guarded_Ok. unfold mbind at 1, M_bind at 1. rewrite (require_Some _ _ _ room) by (by apply find_room_in).
    destruct (membership_in _ _ _ Hmem) as [m Hm]. unfold mbind at 1, M_bind at 1. rewrite (require_Some _ _ _ m) by done.
    unfold mbind at 1, M_bind at 1. unfold gets at 1. cbv beta iota. fold l.
    unfold mbind at 1, M_bind at 1. rewrite Hlock. cbv beta iota.
    unfold mbind at 1, M_bind at 1, lift. rewrite Hsplit. cbv beta iota.
    assert ((if (λ x, (TimeLock.le_lock_id r.(pd_lock), x)) <$> deadline now ttl is Some (""%string, _) then None
       else (λ x, (TimeLock.le_lock_id r.(pd_lock), x)) <$> deadline now ttl) =
       (λ x, (TimeLock.le_lock_id r.(pd_lock), x)) <$> deadline now ttl) as ->.
    { pose proof (do_lock_id _ _ Hd). destruct ttl; [|done]. cbn. by destruct (TimeLock.le_lock_id r.(pd_lock)). }
    assert (∀ q, q = p → insert_proposal q (set_engine e1 s) = (Ok (), s2)) as Hins.
    { intros q ->. unfold insert_proposal, insert_with_text. cbn [pp_title p]. rewrite Htitle.
      rewrite insert_into_fresh; [done|]. intros x Hx. apply bool_decide_eq_false.
      by apply (do_new _ _ Hd). }
    unfold mbind at 1, M_bind at 1. rewrite Hins by (unfold p; by destruct ttl). cbv beta iota.
    unfold mbind at 1, M_bind at 1. change (imap pair l) with (imap (λ i m, ((0 + i)%nat, m)) l). rewrite Hrun.
    reflexivity.
  - cbn. set_solver.
  - cbn. by rewrite Hof.
  - cbn. rewrite Hof. intros u (m & -> & Hm)%Hall%list_elem_of_fmap. by apply Husers.
  - exact Hkept.
Qed.

(** *** Approvals count *)

Lemma later_users l l' : Forall2 later l l' → sh_user_id <$> l' = sh_user_id <$> l.
Proof. induction 1 as [|r r' l l' Hr _ IH]; [done|]. csimpl. rewrite IH. f_equal. by destruct Hr as [->| ->]. Qed.
Lemma later_data l l' (shares : list Share) :
  Forall2 later l l' → Forall2 (λ r sh, r.(sh_share_data) = share_to_dict sh) l shares →
  Forall2 (λ r sh, r.(sh_share_data) = share_to_dict sh) l' shares.
Proof.
  intros Hl. revert shares. induction Hl as [|r r' l l' Hr _ IH]; intros shares Hs; [done|].
  apply Forall2_cons_inv_l in Hs as (sh & shares' & Hd & Hs & ->). constructor; [|by apply IH]. by destruct Hr as [->| ->].
Qed.

Lemma run_approved ops user s p : rooms_inv s → p ∈ s.(boardroom_proposals) → (user, RApprove p.(pp_id)) ∈ ops →
  user.(u_id) ∈ sh_user_id <$> rows_of p.(pp_id) s →
  user.(u_id) ∈ sh_user_id <$> approvals p.(pp_id) (run_rooms ops s).
Proof.
  intros Hinv Hp (ops1 & ops2 & ->)%list_elem_of_split Hrow. unfold run_rooms. rewrite foldl_app. cbn [foldl].
  fold (run_rooms ops1 s). destruct (run_rooms_inv ops1 s Hinv) as [I1 G1]. set (s1 := run_rooms ops1 s) in *.
  cbn [fst snd]. destruct (exec_room_advances user (RApprove p.(pp_id)) s1 I1) as (I2 & G2 & _ & Hsub).
  set (s2 := exec_room user (RApprove p.(pp_id)) s1) in *. change (foldl _ s2 ops2) with (run_rooms ops2 s2).
  destruct (run_rooms_inv ops2 s2 I2) as [_ G3].
  pose proof (grows_trans _ _ _ G1 G2) as G12. rewrite <- (later_users _ _ (gr_rows _ _ G12 p Hp)) in Hrow.
  destruct (gr_proposals _ _ G12 p Hp) as (st & Hp2). pose proof (gr_rows _ _ G3 _ Hp2) as Hl. cbn in Hl.
  apply list_elem_of_fmap in Hrow as (row & Hu & [i Hi]%list_elem_of_lookup).
  destruct (Forall2_lookup_l _ _ _ _ _ Hl Hi) as (row' & Hi' & Hlater).
  apply list_elem_of_fmap. exists row'. split; [rewrite Hu; by destruct Hlater as [->| ->]|].
  apply elem_of_filterb. split; [|by eapply list_elem_of_lookup_2].
  apply list_elem_of_lookup_2, elem_of_filterb in Hi as [Hpid%bool_decide_eq_true Hin].
  assert (sh_submitted row = true) as Hs by (apply (Hsub p.(pp_id) row eq_refl Hin); unfold holder; by rewrite Hpid, Hu).
  by destruct Hlater as [->| ->].
Qed.

(** *** Unlocking *)

Definition no_share : Share := mkShare 0 [] [] [] 0 0 [] false [] [].
Definition share_of_row (r : ShamirRow) : Share := catch (share_from_dict r.(sh_share_data)) (λ _, no_share).

Lemma rows_shares rows shares : Forall2 (λ r sh, r.(sh_share_data) = share_to_dict sh) rows shares →
  share_of_row <$> rows = shares ∧ ∀ r, r ∈ rows → share_from_dict r.(sh_share_data) = Ok (share_of_row r).
Proof.
  induction 1 as [|r sh rows shares Hd _ [IH1 IH2]]; [split; [done|set_solver]|].
  assert (share_from_dict r.(sh_share_data) = Ok sh) as Hr by (rewrite Hd; apply share_from_to_dict).
  assert (share_of_row r = sh) as Hsh by (unfold share_of_row; by rewrite Hr).
  split; [csimpl; by rewrite Hsh, IH1|]. intros r' [->|Hr']%elem_of_cons; [by rewrite Hr, Hsh|by apply IH2].
Qed.

(** Enough submitted shares give the text that was split. *)
Lemma quorum_text pid thr text shares s : rooms_inv s → 0 ≤ thr →
  Forall2 (λ r sh, r.(sh_share_data) = share_to_dict sh) (rows_of pid s) shares →
  (∀ sel, sel ⊆+ shares → thr ≤ Z.of_nat (length sel) → reconstruct_secret sel None = Ok (Some text)) →
  thr ≤ Z.of_nat (length (approvals pid s)) →
  ∃ objs, mapR (λ r, share_from_dict r.(sh_share_data)) (slice_to thr (submitted_shares pid s)) = Ok objs ∧
    reconstruct_secret objs None = Ok (Some text).
Proof.
  intros Hinv Hthr Hdata Hrec Hlen. destruct (rows_shares _ _ Hdata) as [<- Hread].
  pose proof (submitted_shares_perm pid s (ri_limit _ Hinv pid)) as Hperm.
  rewrite slice_to_nonneg by done.
  assert (take (Z.to_nat thr) (submitted_shares pid s) ⊆+ rows_of pid s) as Hsub.
  { etrans; [apply sublist_submseteq, sublist_take|]. rewrite Hperm. apply filterb_submseteq. }
  exists (share_of_row <$> take (Z.to_nat thr) (submitted_shares pid s)). split.
  - apply mapR_Ok_fmap. intros r Hr. apply Hread. by eapply elem_of_submseteq.
  - apply Hrec; [by apply fmap_submseteq|]. rewrite length_fmap, length_take, Hperm. lia.
Qed.

Context {DL : DigestLaws D}.

(** [copy] is the text marked for the reader: what [embed_watermark] makes of
    it; and when the text has no watermark characters of its own, the mark names
    the reader to whoever checks the copy. *)
Definition marked_for (now : Z) (text : pystr) (user : UserRow) (copy : pystr) : Prop :=
  (embed_watermark (iso_codes now) text (str user.(u_peer_id)) 0 None true true true []).1 = Ok copy ∧
  (Forall mark_free text → ∀ known, verify_watermark copy (str user.(u_peer_id)) known = Ok true).

Lemma issue_copy_marked now pid text user s : 0 ≤ now < max_datetime → Forall is_scalar text →
  ∃ copy s', issue_copy now pid text user s = (Ok copy, s') ∧ marked_for now text user copy.
Proof.
  intros Hnow Htext. destruct (watermark_survives (iso_codes now) text (str user.(u_peer_id)) 0 None true true s.(stegano_known))
    as (out & bs & seed & Hembed & _ & _ & Hread); [done|apply str_scalar| |].
  { eapply Forall_impl; [by apply iso_codes_range|]. intros x Hx. apply ascii_is_scalar. cbn in Hx. lia. }
  unfold issue_copy. rewrite Hembed. do 2 eexists. split; [reflexivity|]. split.
  - exact (f_equal fst Hembed).
  - intros Hm known. by apply (Hread Hm None known).
Qed.

(** The lock is open until the deadline. *)
Lemma open_timelock_kept random now2 r now t content plain s :
  Forall is_byte (TimeLock.le_nonce r.(pd_lock)) → Forall is_scalar content → utf8_encode content = Ok plain →
  lock_kept (TimeLock.le_lock_id r.(pd_lock)) (TimeLock.le_key r.(pd_lock)) (now + t * 1000000) s.(timelock_engine) →
  now2 ≤ now + t * 1000000 →
  ∃ s', open_timelock random now2 (TimeLock.le_lock_id r.(pd_lock))
    (split_text r now content plain (Some t)) s = (Ok content, s').
Proof.
  intros Hn Hsc Henc [Hheld (m & Hm & Hst)] Hle. pose proof Hheld as (x & Hx & Hxle).
  unfold open_timelock, TimeLock.get_status. rewrite Hm, decide_False by done.
  unfold TimeLock.has_key, TimeLock.get_key. rewrite Hx, (proj2 (Z.ltb_ge _ _)) by lia.
  rewrite bool_decide_eq_true_2 by (by eexists). cbn [split_text].
  rewrite loads_dumps by (by eapply sealed_wf). cbn [mbind result_bind]. rewrite json_encrypted_json; [|by eapply aesgcm_encrypt_bytes, utf8_encode_bytes|done].
  cbn [timelock_engine set_engine]. erewrite TimeLock.decrypt_held; [by eexists|done..|].
  exact Hle.
Qed.

Lemma open_timelock_late random now2 id expiry text s :
  lock_bounded id expiry s.(timelock_engine) → expiry < now2 →
  (open_timelock random now2 id text s).1 = Raise (HTTPException 403).
Proof.
  intros [Hb (m & Hm & Hst)] Hlt. unfold open_timelock, TimeLock.get_status. rewrite Hm, decide_False by done.
  unfold TimeLock.has_key, TimeLock.get_key. destruct (TimeLock.key_store _ !! id) as [[k x]|] eqn:Hx.
  - specialize (Hb k x eq_refl). rewrite (proj2 (Z.ltb_lt _ _)) by lia. rewrite bool_decide_eq_false_2 by (by intros [? ?]). done.
  - rewrite bool_decide_eq_false_2 by (by intros [? ?]). done.
Qed.

(** [unlock_proposal] up to the reconstruction, when there is a quorum. *)
Lemma unlock_run random now2 pid reader s p room text shares :
  rooms_inv s → p ∈ s.(boardroom_proposals) → p.(pp_id) = pid → room ∈ s.(boardrooms) → room.(br_id) = p.(pp_boardroom_id) →
  mkMember room.(br_id) reader.(u_id) ∈ s.(boardroom_members) →
  Forall2 (λ r sh, r.(sh_share_data) = share_to_dict sh) (rows_of pid s) shares →
  (∀ sel, sel ⊆+ shares → room.(br_threshold_m) ≤ Z.of_nat (length sel) → reconstruct_secret sel None = Ok (Some text)) →
  text ≠ [] → room.(br_threshold_m) ≤ Z.of_nat (length (approvals pid s)) → 0 ≤ now2 < max_datetime →
  (∀ out s', Forall is_scalar out → match p.(pp_lock_id) with None | Some ""%string => mret text
     | Some lock_id => open_timelock random now2 lock_id text end s = (Ok out, s') →
     ∃ u, (unlock_proposal random now2 pid reader s).1 = Ok u ∧ u.(ur_title) = p.(pp_title) ∧
       marked_for now2 out reader u.(ur_content)) ∧
  (∀ s', match p.(pp_lock_id) with None | Some ""%string => mret text
     | Some lock_id => open_timelock random now2 lock_id text end s = (Raise (HTTPException 403), s') →
     (unlock_proposal random now2 pid reader s).1 = Raise (HTTPException 403)).
Proof.
  intros Hinv Hp Hpid Hroom Hrid Hmem Hdata Hrec Hne Hq Hnow2.
  pose proof (ri_threshold _ Hinv _ Hroom) as Hthr.
  destruct (quorum_text pid room.(br_threshold_m) text shares s Hinv ltac:(lia) Hdata Hrec Hq) as (objs & Hobjs & Htext).
  destruct (membership_in _ _ _ Hmem) as [m Hm]. destruct text as [|c text]; [done|].
  set (opening := match p.(pp_lock_id) with None | Some ""%string => mret (c :: text)
    | Some lock_id => open_timelock random now2 lock_id (c :: text) end).
  assert (∀ res s', opening s = (res, s') → unlock_proposal random now2 pid reader s =
    guarded (λ _, (plaintext ← (λ _, (res, s')); copy ← issue_copy now2 pid plaintext reader;
      remaining ← gets (λ s, lock_id ← p.(pp_lock_id); if decide (lock_id = ""%string) then None
        else Some (TimeLock.get_remaining_time now2 lock_id s.(timelock_engine)));
      mret (mkUnlock p.(pp_title) copy p.(pp_status) remaining)) s) s) as Hrun.
  { intros res s' Hopen. unfold unlock_proposal, guarded.
    unfold mbind at 1, M_bind at 1. rewrite (require_Some _ _ _ p) by (by apply find_proposal_in).
    unfold mbind at 1, M_bind at 1. rewrite (require_Some _ _ _ room) by (by apply find_room_in).
    unfold mbind at 1, M_bind at 1. rewrite (require_Some _ _ _ m) by done.
    unfold mbind at 1, M_bind at 1. unfold gets at 1. cbv beta iota.
    rewrite (Permutation_length (submitted_shares_perm pid s (ri_limit _ Hinv pid))), (proj2 (Z.ltb_ge _ _)) by done.
    unfold mbind at 1, M_bind at 1, lift. rewrite Hobjs. cbv beta iota.
    unfold mbind at 1, M_bind at 1. rewrite Htext. cbv beta iota. unfold mret at 1, M_ret at 1. cbv beta iota.
    unfold mbind at 1, M_bind at 1. fold opening. rewrite Hopen.
    unfold mbind at 3, M_bind at 3. done. }
  split.
  - intros out s' Hout Hopen. rewrite (Hrun _ _ Hopen).
    destruct (issue_copy_marked now2 pid out reader s' Hnow2 Hout) as (copy & s'' & Hc & Hmark).
    unfold guarded, mbind, M_bind. rewrite Hc. by eexists.
  - intros s' Hopen. by rewrite (Hrun _ _ Hopen).
Qed.

(** C40: a proposal opens for its board room, as long as its timer runs.  In a
    state that satisfies the invariant, a member of a board room of at most a
    hundred members, at least a threshold of them, can create a proposal with
    any title without NUL, any non-empty text and a time to live of at least a
    minute that ends within the range of date-times: [create_proposal] returns.
    Whatever calls follow, once a threshold of different members have approved
    it, [unlock_proposal] returns to every member that text marked for that
    reader: it is what [embed_watermark] makes of the text and the reader's id,
    and if the text has no watermark characters of its own, [verify_watermark]
    confirms the reader; with a time to live it does so up to the deadline, and
    answers 403 after it. *)
Theorem proposal_opens (now : Z) (r : ProposalDraw) (room : BoardroomRow) (title : string) (content : pystr)
    (ttl : option Z) (author : UserRow) (s : Rooms) :
  rooms_inv s → draw_ok r s → room ∈ s.(boardrooms) → mkMember room.(br_id) author.(u_id) ∈ s.(boardroom_members) →
  room.(br_threshold_m) ≤ Z.of_nat (length (List.filter (of_room room.(br_id)) s.(boardroom_members))) →
  (length (List.filter (of_room room.(br_id)) s.(boardroom_members)) ≤ LIMIT)%nat →
  has_nul title = false → Forall is_scalar content → content ≠ [] → ttl_ok now ttl →
  ∃ s1, create_proposal now r room.(br_id) title content ttl author s = (Ok r.(pd_id), s1) ∧
  ∀ ops approvers random now2 reader, 0 ≤ now2 < max_datetime →
    Forall (λ uo, fresh_lock (TimeLock.le_lock_id r.(pd_lock)) uo.2 ∧ ∀ t, op_time uo.2 = Some t → t ≤ now2) ops →
    NoDup approvers → room.(br_threshold_m) ≤ Z.of_nat (length approvers) →
    (∀ a, a ∈ approvers → mkMember room.(br_id) a ∈ s.(boardroom_members) ∧
       ∃ user, (user, RApprove r.(pd_id)) ∈ ops ∧ user.(u_id) = a) →
    mkMember room.(br_id) reader.(u_id) ∈ s.(boardroom_members) →
    let out := (unlock_proposal random now2 r.(pd_id) reader (run_rooms ops s1)).1 in
    if match deadline now ttl with Some x => now2 <=? x | None => true end
    then ∃ u, out = Ok u ∧ u.(ur_title) = title ∧ marked_for now2 content reader u.(ur_content)
    else out = Raise (HTTPException 403).
Proof.
  intros Hinv Hd Hroom Hauthor Hthr Hlim Htitle Hsc Hne Httl. destruct (utf8_encode_total _ Hsc) as [plain Henc].
  destruct (create_proposal_run now r room title content plain ttl author s) as (shares & s1 & Hrun & Hp & Hdata & Husers & Hrec & Hlock);
    [done..|]. exists s1. split; [done|]. intros ops approvers random now2 reader Hnow2 Hops Hnd Hlen Happ Hreader.
  set (p := mkProposal _ _ _ _ _ _ _ _) in Hp.
  pose proof (exec_room_advances author (RPropose now r room.(br_id) title content ttl) s Hinv) as (I1 & G1 & _).
  cbn [exec_room] in I1, G1. rewrite Hrun in I1, G1. cbn [snd] in I1, G1.
  destruct (run_rooms_inv ops s1 I1) as [I2 G2]. set (s2 := run_rooms ops s1) in *.
  destruct (gr_proposals _ _ G2 p Hp) as (st & Hp2). pose proof (gr_rows _ _ G2 p Hp) as Hlater. cbn [pp_id p] in Hlater.
  assert (room.(br_threshold_m) ≤ Z.of_nat (length (approvals r.(pd_id) s2))) as Hquorum.
  { rewrite <- (length_fmap sh_user_id). etrans; [exact Hlen|]. apply inj_le, submseteq_length, NoDup_submseteq; [done|].
    intros a Ha. destruct (Happ a Ha) as (Hma & user & Hin & <-).
    apply (run_approved ops user s1 p I1 Hp Hin). by apply Husers. }
  destruct (split_text_scalar r now content plain ttl (do_nonce _ _ Hd) Hsc Henc Hne) as [_ Htext].
  destruct (unlock_run random now2 r.(pd_id) reader s2 (with_proposal_status st p) room
    (split_text r now content plain ttl) shares) as [Hopen Hlate]; try done.
  { by apply (gr_rooms _ _ G2), (gr_rooms _ _ G1). } { by apply (gr_members _ _ G2), (gr_members _ _ G1). }
  { by eapply later_data. }
  cbn [with_proposal_status pp_lock_id pp_title p] in Hopen, Hlate.
  destruct ttl as [t|]; [|cbn; eapply Hopen; [done|reflexivity]].
  destruct (Hlock (now + t * 1000000) eq_refl) as [Hkept Hbounded]. pose proof (do_lock_id _ _ Hd) as Hid.
  cbn [deadline fmap option_fmap option_map] in Hopen, Hlate |- *.
  destruct (TimeLock.le_lock_id r.(pd_lock)) as [|ch id] eqn:Hlid; [done|]. rewrite <- Hlid in *.
  destruct (Z.leb_spec now2 (now + t * 1000000)) as [Hle|Hgt].
  - destruct (open_timelock_kept random now2 r now t content plain s2) as [s3 H3]; try done; [apply Hd| |by eapply Hopen].
    by eapply run_lock_kept.
  - pose proof (open_timelock_late random now2 (TimeLock.le_lock_id r.(pd_lock)) (now + t * 1000000)
      (split_text r now content plain (Some t)) s2) as Hl.
    destruct (open_timelock random now2 _ _ s2) as [res s3] eqn:Ho. cbn [fst] in Hl. eapply Hlate. rewrite Hl; [reflexivity| |done].
    apply run_lock_bounded; [done| |done]. eapply Forall_impl; [exact Hops|]. by intros [? ?] [? _].
Qed.
End histories.

(** ** Witnesses *)

Definition first_rows : PickRows := {| pick_rows A n l := take n l |}.
Lemma first_rows_laws : PickRowsLaws first_rows.
Proof. split; intros A n l; [apply sublist_submseteq, sublist_take|apply length_take]. Qed.

Definition toy_account (id name : string) : UserRow := mkUser id name "" "" [] "" id "B" 0 0.
Definition eve : UserRow := toy_account "u1" "eve".
Definition dan : UserRow := toy_account "u2" "dan".
Definition toy_draw : ProposalDraw :=
  mkDraw "p1" (λ i, "s" +:+ pretty i) (TimeLock.mkEntropy "lock" [9] [7]) toy_entropy.
Definition empty_rooms : Rooms := mkRooms [eve; dan] [] [] [] [] [] TimeLock.init_engine [].

(** Eve opens a board room with Dan. *)
Definition toy_room : BoardroomRow := mkRoom "b1" "board" 2 5.
Definition toy_opening : UserRow * room_op := (eve, RCreate 5 "b1" "board" 2 ["dan"]).

Abbreviation toy_rooms := (run_rooms (P := first_row) (Q := first_rows) (O := elements_order) (SP := toy_prims)
  (D := toy_digest)).
Definition toy_board : Rooms :=
  mkRooms [eve; dan] [toy_room] [mkMember "b1" "u1"; mkMember "b1" "u2"] [] []
    [mkLogCall "BOARDROOM_CREATED" "u1" "Boardroom ID: b1 Threshold: 2" ""] TimeLock.init_engine [].

Lemma toy_board_run : toy_rooms [toy_opening] empty_rooms = toy_board.
Proof. reflexivity. Qed.

Lemma empty_rooms_inv : rooms_inv empty_rooms.
Proof. by apply no_rooms_inv. Qed.

Lemma toy_board_inv : rooms_inv toy_board.
Proof.
  rewrite <- toy_board_run. apply (run_rooms_inv (P := first_row) (PL := first_row_laws) (Q := first_rows)
    (QL := first_rows_laws) [toy_opening] empty_rooms empty_rooms_inv).
Qed.

Lemma toy_board_draw_ok : draw_ok toy_draw toy_board.
Proof.
  split; cbn.
  - apply toy_entropy_ok.
  - constructor.
  - by repeat constructor.
  - done.
  - intros i j Hij. by apply (inj pretty), (inj (String.append "s")).
  - set_solver.
  - set_solver.
Qed.

Lemma toy_members u : u ∈ ["u1"; "u2"]%string → mkMember "b1" u ∈ toy_board.(boardroom_members).
Proof. cbn. set_solver. Qed.

Definition toy_approvals : list (UserRow * room_op) :=
  [(eve, RApprove "p1"); (dan, RApprove "p1"); (dan, RCleanup [] 1000)].

Lemma toy_approved a : a ∈ ["u1"; "u2"]%string →
  mkMember "b1" a ∈ toy_board.(boardroom_members) ∧ ∃ user, (user, RApprove "p1") ∈ toy_approvals ∧ user.(u_id) = a.
Proof.
  intros Ha. split; [by apply toy_members|]. unfold toy_approvals.
  apply elem_of_cons in Ha as [->|Ha%list_elem_of_singleton]; [exists eve|exists dan; subst a]; split; done || set_solver.
Qed.

Lemma toy_times now2 : 1000 ≤ now2 →
  Forall (λ uo, fresh_lock "lock" uo.2 ∧ ∀ t, op_time uo.2 = Some t → t ≤ now2) toy_approvals.
Proof. intros Hnow. repeat (constructor; [split; [done|by intros t [= <-]]|]). constructor. Qed.

Lemma toy_users : NoDup ["u1"; "u2"]%string.
Proof. repeat constructor; set_solver. Qed.
Lemma toy_dan : "u2"%string ∈ ["u1"; "u2"]%string.
Proof. set_solver. Qed.

(** Dan reads the plan while its hour lasts, after he and Eve approved. *)
Lemma proposal_opens_witness :
  ∃ s1, create_proposal (P := first_row) (Q := first_rows) (SP := toy_prims) 6 toy_draw "b1" "plan" (str "hi")
      (Some 3600) eve toy_board = (Ok "p1"%string, s1) ∧
    let s2 := toy_rooms toy_approvals s1 in
    (∃ u, (unlock_proposal (P := first_row) (SP := toy_prims) (D := toy_digest) [] 2000 "p1" dan s2).1 = Ok u ∧
       u.(ur_title) = "plan"%string ∧ u.(ur_content) ≠ str "hi" ∧
       verify_watermark (D := toy_digest) u.(ur_content) (str dan.(u_peer_id)) [] = Ok true) ∧
    (unlock_proposal (P := first_row) (SP := toy_prims) (D := toy_digest) [] 3600000007 "p1" dan s2).1 =
      Raise (HTTPException 403).
Proof.
  destruct (proposal_opens (P := first_row) (PL := first_row_laws) (Q := first_rows) (QL := first_rows_laws)
    (O := elements_order) (SP := toy_prims) (L := toy_laws) (D := toy_digest) (DL := toy_digest_laws)
    6 toy_draw toy_room "plan" (str "hi") (Some 3600) eve toy_board) as (s1 & Hs1 & Hopen).
  - exact toy_board_inv.
  - exact toy_board_draw_ok.
  - by apply list_elem_of_singleton.
  - apply toy_members. by left.
  - vm_compute. discriminate.
  - by apply Nat.leb_le.
  - reflexivity.
  - apply str_scalar.
  - vm_compute. discriminate.
  - split; [lia|]. vm_compute. by split.
  - exists s1. split; [exact Hs1|]. cbv zeta.
    split.
    + destruct (Hopen toy_approvals ["u1"; "u2"]%string [] 2000 dan) as (u & Hu & Htitle & Hembed & Hverify);
        [vm_compute; by split|by apply toy_times|exact toy_users|vm_compute; discriminate|exact toy_approved|by apply toy_members, toy_dan|].
      exists u. split; [exact Hu|]. split; [exact Htitle|]. split.
      * intros Heq. rewrite Heq in Hembed. vm_compute in Hembed. discriminate.
      * apply Hverify. repeat constructor; discriminate.
    + apply (Hopen toy_approvals ["u1"; "u2"]%string [] 3600000007 dan);
        [vm_compute; by split|by apply toy_times|exact toy_users|vm_compute; discriminate|exact toy_approved|by apply toy_members, toy_dan].
Defined.

Definition toy_propose : room_op := RPropose 6 toy_draw "b1" "plan" (str "hi") None.
Definition toy_run_inv := run_rooms_inv (P := first_row) (PL := first_row_laws) (Q := first_rows) (QL := first_rows_laws)
  (O := elements_order) (SP := toy_prims) (D := toy_digest).

(** Eve's proposal in the history of both approvals. *)
Lemma proposal_quorum_witness :
  let hist := [toy_opening] ++ [(eve, toy_propose)] ++ [(eve, RApprove "p1"); (dan, RApprove "p1")] in
  let s := toy_rooms hist empty_rooms in
  ∃ p, p ∈ s.(boardroom_proposals) ∧ p.(pp_id) = "p1"%string ∧
    (p.(pp_status) = "executed"%string →
       ∃ approvers, NoDup approvers ∧ 2 ≤ Z.of_nat (length approvers) ∧
         ∀ a, a ∈ approvers → mkMember "b1" a ∈ s.(boardroom_members) ∧
           ∃ user, (user, RApprove "p1") ∈ hist ∧ user.(u_id) = a).
Proof.
  intros hist s.
  destruct (create_proposal_run (P := first_row) (PL := first_row_laws) (Q := first_rows) (QL := first_rows_laws)
    (SP := toy_prims) (L := toy_laws) 6 toy_draw toy_room "plan" (str "hi") (str "hi") None eve toy_board)
    as (shares & s1 & Hrun & Hp & _).
  - exact toy_board_inv.
  - exact toy_board_draw_ok.
  - by apply list_elem_of_singleton.
  - apply toy_members. by left.
  - vm_compute. discriminate.
  - by apply Nat.leb_le.
  - reflexivity.
  - apply str_scalar.
  - vm_compute. discriminate.
  - reflexivity.
  - done.
  - assert (toy_rooms [(eve, toy_propose)] toy_board = s1) as Hs1.
    { unfold run_rooms. cbn [foldl fst snd exec_room toy_propose]. change "b1"%string with (br_id toy_room). by rewrite Hrun. }
    destruct (toy_run_inv [(eve, toy_propose)] toy_board toy_board_inv) as [I1 G1]. rewrite Hs1 in I1, G1.
    destruct (toy_run_inv [(eve, RApprove "p1"); (dan, RApprove "p1")] s1 I1) as [_ G2].
    assert (toy_rooms [(eve, RApprove "p1"); (dan, RApprove "p1")] s1 = s) as Hs.
    { unfold s, hist. rewrite (run_rooms_app [toy_opening]), toy_board_run.
      by rewrite (run_rooms_app [(eve, toy_propose)]), Hs1. }
    rewrite Hs in G2. destruct (gr_proposals _ _ G2 _ Hp) as (st & Hst).
    assert (toy_room ∈ s.(boardrooms)) as Hroom by (apply (gr_rooms _ _ G2), (gr_rooms _ _ G1); by left).
    exists (with_proposal_status st (mkProposal "p1" "b1" "u1" "plan" "pending" None None 6)).
    split; [exact Hst|]. split; [reflexivity|].
    apply (proposal_quorum (P := first_row) (PL := first_row_laws) (Q := first_rows) (QL := first_rows_laws)
      (O := elements_order) (SP := toy_prims) (D := toy_digest) hist empty_rooms eq_refl eq_refl eq_refl eq_refl
      (with_proposal_status st (mkProposal "p1" "b1" "u1" "plan" "pending" None None 6)) toy_room Hst Hroom eq_refl).
Defined.
