(* ===== verification/Chat.v ===== *)
(** * Chat and comments ([trustdocs/chat.py], [trustdocs/comments.py])

    Per-document chat rooms over WebSockets, the message listing and the older
    comment routes, on the database of [Database].  A WebSocket is a number; a
    handler is either waiting for its client's next frame ([members]) or gone.
    Connecting and receiving one frame each run as one step: the sends of a
    broadcast are not interleaved with other handlers.  [failing] are the
    clients a send to which raises. *)

From Stdlib Require Import ZArith Lia String.
From stdpp Require Import sorting.
From S2P Require Import Prelude PyData DateTime Json Crypto CoCNode Storage Steganography.
From S2P Require Import Graph Database Provenance Auth Documents.

(** ** State *)

Inductive frame :=
  | ErrorFrame (message : string)
  | JoinedFrame (username : string)
  | MessageFrame (row : MessageRow) (sender : string).   (* the fields of the row, and the name *)

Record Sent := mkSent {
  st_client : nat;
  st_room : string;
  st_frame : frame;
}.

Record Chat := mkChat {
  db : DB;
  rooms : gmap string (gset nat);
  members : gmap nat (string * UserRow);
  sent : list Sent;
}.

Definition set_db (d : DB) (c : Chat) : Chat := mkChat d c.(rooms) c.(members) c.(sent).
Definition send (ws : nat) (room : string) (f : frame) (c : Chat) : Chat :=
  mkChat c.(db) c.(rooms) c.(members) (c.(sent) ++ [mkSent ws room f]).

(** A frame from the client: a chat message, something the loop ignores, or
    something that ends the handler (a disconnect, a value that is no dict). *)
Inductive incoming :=
  | InMessage (body : string) (parent_message_id : option string) (is_pinned : bool)
  | InIgnored
  | InBroken.

Section chat.
Context {A : AuthPrims} {P : PickRow}.

(** ** Access *)

(** [find_one("documents", id=doc_id)], unless its status is one of [hidden]. *)
Definition visible_document (hidden : list string) (doc_id : string) (d : DB) : option DocumentRow :=
  match find_one (is_document doc_id) d.(documents) with
  | Some doc => if decide (doc.(dc_status) ∈ hidden) then None else Some doc
  | None => None
  end.

(** Owner or active recipient. *)
Definition may_read (doc : DocumentRow) (doc_id : string) (user : UserRow) (d : DB) : bool :=
  bool_decide (doc.(dc_owner_id) = user.(u_id)) || bool_decide (is_Some (active_share doc_id user.(u_id) d)).

(** ** Listing *)

Record MessageResponse := mkMessageResponse {
  mr_row : MessageRow;
  mr_sender_username : string;
}.

Definition message_response (d : DB) (m : MessageRow) : MessageResponse :=
  mkMessageResponse m
    (match find_one (λ u, bool_decide (u.(u_id) = m.(ms_sender_id))) d.(users) with
     | Some u => u.(u_username)
     | None => "unknown"
     end).

Definition document_messages (doc_id : string) (d : DB) : list MessageRow :=
  find_many ms_created_at 100 (λ m, bool_decide (m.(ms_document_id) = doc_id)) d.(messages).

Definition get_messages (doc_id : string) (user : UserRow) : M DB (list MessageResponse) :=
  doc ← gets (visible_document ["deleted"%string] doc_id);
  match doc with
  | None => raise (HTTPException 404)
  | Some doc =>
      ok ← gets (may_read doc doc_id user);
      if ok : bool then gets (λ d, message_response d <$> document_messages doc_id d)
      else raise (HTTPException 404)
  end.

(** A message that replies to another one. *)
Definition is_reply (m : MessageRow) : bool :=
  match m.(ms_parent_message_id) with None | Some ""%string => false | Some _ => true end.

Definition list_comments (doc_id : string) (user : UserRow) : M DB (list MessageResponse) :=
  doc ← gets (visible_document ["deleted"; "recycled"]%string doc_id);
  match doc with
  | None => raise (HTTPException 404)
  | Some doc =>
      ok ← gets (may_read doc doc_id user);
      if ok : bool
      then gets (λ d, message_response d <$> List.filter is_reply (document_messages doc_id d))
      else raise (HTTPException 404)
  end.

(** ** Storing a message *)

(** [db.insert("messages", ...)]: the id is unique and the parent, when given,
    is a stored message. *)
Definition insert_message (m : MessageRow) : M DB unit := λ d,
  let parent_known := match m.(ms_parent_message_id) with
    | None => true
    | Some p => existsb (λ m', bool_decide (m'.(ms_id) = p)) d.(messages)
    end in
  if negb parent_known then (Raise DatabaseError, d)
  else match insert_row (λ a b, bool_decide (a.(ms_id) = b.(ms_id))) m d.(messages) with
  | Ok t => (Ok (), set_messages (λ _, t) d)
  | Raise e => (Raise e, d)
  end.

Definition create_comment (now : Z) (id doc_id body : string) (parent_message_id : option string) (user : UserRow)
    : M DB MessageResponse :=
  doc ← gets (visible_document ["deleted"; "recycled"]%string doc_id);
  match doc with
  | None => raise (HTTPException 404)
  | Some doc =>
      ok ← gets (may_read doc doc_id user);
      if ok : bool then
        let row := mkMessageRow id doc_id user.(u_id) body parent_message_id false now in
        insert_message row ;;
        mret (mkMessageResponse row user.(u_username))
      else raise (HTTPException 403)
  end.

(** ** [websocket_document] *)

(** Up to the joining of the room: the user, or the error frame; [None] for an
    initial frame without a usable token. *)
Definition authenticate (token : option string) (doc_id : string) (d : DB) : string + UserRow :=
  match token with
  | None => inl ""%string
  | Some token =>
      match find_one (λ s, bool_decide (s.(se_token_hash) = hash_session_token token)) d.(sessions) with
      | None => inl "Authentication failed"%string
      | Some session =>
          match find_one (λ u, bool_decide (u.(u_id) = session.(se_user_id))) d.(users) with
          | None => inl "User not found"%string
          | Some user =>
              match visible_document ["deleted"%string] doc_id d with
              | None => inl "Document not found"%string
              | Some doc => if may_read doc doc_id user d then inr user else inl "Access denied"%string
              end
          end
      end
  end.

Definition connect (ws : nat) (token : option string) (doc_id : string) (c : Chat) : Chat :=
  match authenticate token doc_id c.(db) with
  | inl ""%string => c
  | inl message => send ws doc_id (ErrorFrame message) c
  | inr user =>
      send ws doc_id (JoinedFrame user.(u_username))
        (mkChat c.(db) (<[doc_id := default ∅ (c.(rooms) !! doc_id) ∪ {[ws]}]> c.(rooms))
           (<[ws := (doc_id, user)]> c.(members)) c.(sent))
  end.

(** The [finally] clause. *)
Definition leave_room (ws : nat) (doc_id : string) (rooms : gmap string (gset nat)) : gmap string (gset nat) :=
  match rooms !! doc_id with
  | None => rooms
  | Some clients =>
      if decide (clients ∖ {[ws]} = ∅) then delete doc_id rooms else <[doc_id := clients ∖ {[ws]}]> rooms
  end.

Definition disconnect (ws : nat) (doc_id : string) (c : Chat) : Chat :=
  mkChat c.(db) (leave_room ws doc_id c.(rooms)) (delete ws c.(members)) c.(sent).

(** Send to every client of the room, then drop those that failed. *)
Definition broadcast (doc_id : string) (f : frame) (failing : gset nat) (c : Chat) : Chat :=
  let clients := default ∅ (c.(rooms) !! doc_id) in
  mkChat c.(db)
    (if decide (clients ∩ failing = ∅) then c.(rooms) else <[doc_id := clients ∖ failing]> c.(rooms))
    c.(members)
    (c.(sent) ++ ((λ ws, mkSent ws doc_id f) <$> elements (clients ∖ failing))).

(** One turn of the loop of the handler of [ws]. *)
Definition receive (now : Z) (id : string) (failing : gset nat) (ws : nat) (data : incoming) (c : Chat) : Chat :=
  match c.(members) !! ws with
  | None => c
  | Some (doc_id, user) =>
      match data with
      | InIgnored | InMessage ""%string _ _ => c
      | InBroken => disconnect ws doc_id c
      | InMessage body parent_message_id is_pinned =>
          let row := mkMessageRow id doc_id user.(u_id) body parent_message_id is_pinned now in
          match insert_message row c.(db) with
          | (Raise _, d) => disconnect ws doc_id (set_db d c)
          | (Ok _, d) => broadcast doc_id (MessageFrame row user.(u_username)) failing (set_db d c)
          end
      end
  end.
End chat.

(** ** Histories *)

(** Document calls leave the messages alone. *)
Definition keeps_messages {R} (m : M DB R) : Prop := ∀ d, messages (m d).2 = messages d.

Lemma keeps_bind {R S} (m : M DB R) (f : R → M DB S) :
  keeps_messages m → (∀ a, keeps_messages (f a)) → keeps_messages (m ≫= f).
Proof.
  intros Hm Hf d. unfold mbind, M_bind. specialize (Hm d). destruct (m d) as [[a|e] d1]; [|done].
  by rewrite (Hf a d1).
Qed.
Lemma keeps_pure {R} (m : M DB R) : (∀ d, (m d).2 = d) → keeps_messages m.
Proof. intros Hm d. by rewrite Hm. Qed.
Lemma keeps_modify f : (∀ d, messages (f d) = messages d) → keeps_messages (modify f).
Proof. intros Hf d. apply Hf. Qed.
Lemma keeps_for_each {R} (l : list R) body : (∀ x, keeps_messages (body x)) → keeps_messages (for_each l body).
Proof. intros Hb. induction l as [|x l IH]; simpl; [by apply keeps_pure|]. by apply keeps_bind. Qed.

(** Step through a route; every change is to another table. *)
Ltac keeps :=
  repeat first
    [ apply keeps_bind; [|intros ?]
    | apply keeps_for_each; intros ?
    | apply keeps_modify; intros ?; done
    | apply keeps_pure; intros ?; done
    | match goal with
      | |- keeps_messages (match ?o with _ => _ end) => destruct o
      | |- keeps_messages (if ?o then _ else _) => destruct o
      end ].

Section histories.
Context {C : Crypto} {A : AuthPrims} {P : PickRow} {PL : PickRowLaws P} {O : SetOrder} {D : Digest}.
Context (storage_dir node_id : string) (system_signing_key : bytes).

Lemma pg_add_node_messages n d : messages (pg_add_node n d) = messages d.
Proof. unfold pg_add_node. by destruct (fromisoformat _). Qed.
Lemma keeps_add_node n : keeps_messages (modify (pg_add_node n)).
Proof. apply keeps_modify, pg_add_node_messages. Qed.
Lemma keeps_add_recipient h p : keeps_messages (modify (add_recipient h p)).
Proof. apply keeps_modify. intros d. unfold add_recipient. by case_decide. Qed.
Lemma keeps_insert_document doc : keeps_messages (insert_document doc).
Proof. intros d. unfold insert_document. by destruct (insert_row _ _ _). Qed.
Lemma keeps_insert_share s : keeps_messages (insert_share s).
Proof. intros d. unfold insert_share. by destruct (insert_row _ _ _). Qed.

Ltac keeps_all := repeat first
  [apply keeps_add_node | apply keeps_add_recipient | apply keeps_insert_document | apply keeps_insert_share | progress keeps].

Lemma exec_doc_messages user op d :
  messages (exec_doc storage_dir node_id system_signing_key user op d).2 = messages d.
Proof.
  revert d. change (keeps_messages (exec_doc storage_dir node_id system_signing_key user op)).
  destruct op; cbn [exec_doc].
  - unfold upload_document, create_document_node. keeps_all.
  - unfold share_document, live_document, parent_for_share, read_text, share_node. keeps_all.
  - unfold revoke_share, owned_document. keeps_all.
  - unfold delete_document, owned_document, update_shares. keeps_all.
  - unfold restore_document, owned_document, update_shares. keeps_all.
  - unfold purge_document, owned_document, update_shares. keeps_all.
  - unfold get_document, live_document, check_access. keeps_all.
  - unfold download_document, live_document, check_access. keeps_all.
Qed.

Inductive chat_op :=
  | OpConnect (ws : nat) (token : option string) (doc_id : string)
  | OpReceive (now : Z) (id : string) (failing : gset nat) (ws : nat) (data : incoming)
  | OpComment (now : Z) (id doc_id body : string) (parent : option string) (user : UserRow)
  | OpDocument (user : UserRow) (op : doc_op)
  | OpAccounts (us : list UserRow) (ss : list SessionRow).   (* registrations, logins, logouts *)

(** A WebSocket that connects is a new one. *)
Definition exec_chat (c : Chat) (op : chat_op) : Chat :=
  match op with
  | OpConnect ws token doc_id =>
      if decide (c.(members) !! ws = None) then connect ws token doc_id c else c
  | OpReceive now id failing ws data => receive now id failing ws data c
  | OpComment now id doc_id body parent user => set_db (create_comment now id doc_id body parent user c.(db)).2 c
  | OpDocument user op => set_db (exec_doc storage_dir node_id system_signing_key user op c.(db)).2 c
  | OpAccounts us ss => set_db (set_sessions (λ _, ss) (set_users (λ _, us) c.(db))) c
  end.

Definition run_chat (ops : list chat_op) (c : Chat) : Chat := foldl exec_chat c ops.

(** User [u] may read document [doc_id]: it exists, not deleted, and [u] is its
    owner or holds an active share. *)
Definition readable (doc_id u : string) (d : DB) : Prop :=
  ∃ doc, doc ∈ d.(documents) ∧ doc.(dc_id) = doc_id ∧ doc.(dc_status) ≠ "deleted"%string ∧
    has_access doc u d.(file_shares).

(** [token] is a session of [user], who may read the document. *)
Definition entitled (token doc_id : string) (user : UserRow) (d : DB) : Prop :=
  (∃ s, s ∈ d.(sessions) ∧ s.(se_token_hash) = hash_session_token token ∧ s.(se_user_id) = user.(u_id)) ∧
  user ∈ d.(users) ∧ readable doc_id user.(u_id) d.

Lemma visible_readable hidden doc_id doc user d :
  "deleted"%string ∈ hidden → visible_document hidden doc_id d = Some doc → may_read doc doc_id user d = true →
  readable doc_id user.(u_id) d.
Proof.
  intros Hh Hv Hr. unfold visible_document in Hv. destruct (find_one _ _) as [x|] eqn:Hf; [|done].
  case_decide as Hs; [done|]. injection Hv as ->. apply find_one_Some in Hf as [Hid%bool_decide_eq_true Hin].
  exists doc. split; [done|]. split; [done|]. split; [intros Heq; apply Hs; by rewrite Heq|]. unfold may_read in Hr.
  apply orb_true_iff in Hr as [Ho%bool_decide_eq_true|[s Hs']%bool_decide_eq_true]; [by left|right].
  unfold active_share in Hs'. apply find_one_Some in Hs' as [Hc Hin']. exists s. split; [done|]. by rewrite Hid.
Qed.

Lemma authenticate_entitled token doc_id user d :
  authenticate token doc_id d = inr user → ∃ t, token = Some t ∧ entitled t doc_id user d.
Proof.
  unfold authenticate. destruct token as [t|]; [|done].
  destruct (find_one _ (sessions d)) as [s|] eqn:Hs; [|done].
  destruct (find_one _ (users d)) as [u|] eqn:Hu; [|done].
  destruct (visible_document _ _ _) as [doc|] eqn:Hv; [|done].
  destruct (may_read doc doc_id u d) eqn:Hr; [|done]. intros [= <-]. exists t. split; [done|].
  apply find_one_Some in Hs as [Hst%bool_decide_eq_true Hsin], Hu as [Hui%bool_decide_eq_true Huin].
  split; [exists s; split; [done|]; split; [done|congruence]|]. split; [done|].
  eapply visible_readable; [|exact Hv|exact Hr]. set_solver.
Qed.

Lemma insert_message_inv m d r d' : insert_message m d = (r, d') →
  d' = d ∧ (∃ e, r = Raise e) ∨ r = Ok () ∧ d' = set_messages (λ _, d.(messages) ++ [m]) d.
Proof.
  unfold insert_message. destruct (negb _); [intros [= <- <-]; left; eauto|].
  destruct (insert_row _ _ _) as [t|e] eqn:Hi; intros [= <- <-]; [right|left; eauto].
  by apply insert_row_Ok in Hi as [-> _].
Qed.

Lemma create_comment_inv now id doc_id body parent user d r d' :
  create_comment now id doc_id body parent user d = (r, d') →
  d' = d ∨ d' = set_messages (λ _, d.(messages) ++ [mkMessageRow id doc_id user.(u_id) body parent false now]) d ∧
    readable doc_id user.(u_id) d.
Proof.
  unfold create_comment. intros [(e & _ & [=])|(doc & d1 & [= <- <-] & H)]%bind_inv.
  destruct (visible_document _ _ _) as [doc|] eqn:Hv; [|injection H as _ <-; by left].
  apply bind_inv in H as [(e & _ & [=])|(ok & d1 & [= <- <-] & H)].
  destruct (may_read doc doc_id user d) eqn:Hr; [|injection H as _ <-; by left].
  assert (readable doc_id user.(u_id) d) by (eapply visible_readable; [|exact Hv|exact Hr]; set_solver).
  apply bind_inv in H as [(e & _ & [[-> _]|[_ ->]]%insert_message_inv)|([] & d1 & [[-> _]|[_ ->]]%insert_message_inv & [= _ <-])];
    auto.
Qed.

Section run.
Context (c0 : Chat).

(** [ws] joined the room of [doc_id] as a user entitled to it then. *)
Definition joined (ops : list chat_op) (ws : nat) (doc_id : string) (user : UserRow) : Prop :=
  ∃ pre post token, ops = pre ++ OpConnect ws (Some token) doc_id :: post ∧
    entitled token doc_id user (run_chat pre c0).(db).

(** The comment route stored the row for a user who might read the document. *)
Definition commented (ops : list chat_op) (row : MessageRow) : Prop :=
  ∃ pre post now user, ops = pre ++ OpComment now row.(ms_id) row.(ms_document_id) row.(ms_body)
      row.(ms_parent_message_id) user :: post ∧ user.(u_id) = row.(ms_sender_id) ∧
    readable row.(ms_document_id) user.(u_id) (run_chat pre c0).(db).

Lemma joined_snoc ops op ws doc_id user : joined ops ws doc_id user → joined (ops ++ [op]) ws doc_id user.
Proof.
  intros (pre & post & t & -> & He). exists pre, (post ++ [op]), t. split; [|done]. by rewrite <- app_assoc.
Qed.
Lemma commented_snoc ops op row : commented ops row → commented (ops ++ [op]) row.
Proof.
  intros (pre & post & now & u & -> & He). exists pre, (post ++ [op]), now, u. split; [|done]. by rewrite <- app_assoc.
Qed.

(** Who is in a room, who was sent what, and what is stored. *)
Record chat_inv (ops : list chat_op) (c : Chat) : Prop := {
  ci_members ws doc_id user : c.(members) !! ws = Some (doc_id, user) → joined ops ws doc_id user;
  ci_rooms doc_id clients ws : c.(rooms) !! doc_id = Some clients → ws ∈ clients →
    ∃ user, c.(members) !! ws = Some (doc_id, user);
  ci_sent m row name : m ∈ c.(sent) → m.(st_frame) = MessageFrame row name →
    row.(ms_document_id) = m.(st_room) ∧ row ∈ c.(db).(messages) ∧
    ∃ user, joined ops m.(st_client) m.(st_room) user;
  ci_rows row : row ∈ c.(db).(messages) →
    commented ops row ∨ ∃ ws user, joined ops ws row.(ms_document_id) user ∧ user.(u_id) = row.(ms_sender_id);
}.

(** A change that only extends the database. *)
Lemma chat_inv_db ops op c d :
  chat_inv ops c → c.(db).(messages) ⊆ d.(messages) →
  (∀ row, row ∈ d.(messages) → row ∈ c.(db).(messages) ∨ commented (ops ++ [op]) row ∨
    ∃ ws user, joined ops ws row.(ms_document_id) user ∧ user.(u_id) = row.(ms_sender_id)) →
  chat_inv (ops ++ [op]) (set_db d c).
Proof.
  intros [Hm Hr Hs Hw] Hsub Hnew. split; cbn.
  - intros ws doc_id user Hws. by apply joined_snoc, Hm.
  - done.
  - intros m row name Hin Hf. destruct (Hs m row name Hin Hf) as (? & ? & user & ?).
    split; [done|]. split; [by apply Hsub|]. exists user. by apply joined_snoc.
  - intros row Hrow. destruct (Hnew row Hrow) as [Hold|[Hc|(ws & u & Hj & Hu)]]; [|by left|].
    + destruct (Hw row Hold) as [?|(ws & u & Hj & Hu)]; [left; by apply commented_snoc|].
      right. exists ws, u. split; [by apply joined_snoc|done].
    + right. exists ws, u. split; [by apply joined_snoc|done].
Qed.
Lemma chat_inv_same ops op c : chat_inv ops c → chat_inv (ops ++ [op]) c.
Proof. intros Hi. destruct c. apply (chat_inv_db ops op _ db0 Hi); [done|]. intros row Hrow. by left. Qed.

Lemma chat_inv_disconnect ops c ws doc_id user :
  chat_inv ops c → c.(members) !! ws = Some (doc_id, user) → chat_inv ops (disconnect ws doc_id c).
Proof.
  intros [Hm Hr Hs Hw] Hws. split; cbn; [|..|done|done].
  - intros ws' d' u' [_ Hl]%lookup_delete_Some. by apply Hm.
  - intros d' clients ws' Hl Hin.
    assert (∃ cl, c.(rooms) !! d' = Some cl ∧ ws' ∈ cl ∧ ws' ≠ ws) as (cl & Hcl & Hin' & Hne).
    { unfold leave_room in Hl. destruct (rooms c !! doc_id) as [cl|] eqn:Hd.
      - assert (d' = doc_id ∧ clients = cl ∖ {[ws]} ∨ d' ≠ doc_id ∧ rooms c !! d' = Some clients) as [[-> ->]|[Hne Hl']].
        { destruct (decide (d' = doc_id)) as [->|Hne]; [left|right].
          - case_decide; [by rewrite lookup_delete_eq in Hl|]. rewrite lookup_insert_eq in Hl. by injection Hl as <-.
          - split; [done|]. case_decide; [by rewrite lookup_delete_ne in Hl|by rewrite lookup_insert_ne in Hl]. }
        + exists cl. set_solver.
        + exists clients. split; [done|]. split; [done|]. intros ->.
          destruct (Hr _ _ _ Hl' Hin) as [u Hu]. congruence.
      - exists clients. split; [done|]. split; [done|]. intros ->. destruct (Hr _ _ _ Hl Hin) as [u Hu].
        assert (d' = doc_id) as -> by congruence. congruence. }
    destruct (Hr _ _ _ Hcl Hin') as [u Hu]. exists u. by rewrite lookup_delete_ne.
Qed.

Lemma chat_inv_broadcast ops c doc_id row name failing :
  chat_inv ops c → row.(ms_document_id) = doc_id → row ∈ c.(db).(messages) →
  chat_inv ops (broadcast doc_id (MessageFrame row name) failing c).
Proof.
  intros [Hm Hr Hs Hw] Hdoc Hrow. split; cbn; [done|..|done].
  - intros d' clients ws Hl Hin. case_decide; [by eapply Hr|].
    destruct (decide (d' = doc_id)) as [->|Hne]; [|rewrite lookup_insert_ne in Hl by done; by eapply Hr].
    rewrite lookup_insert_eq in Hl. injection Hl as <-. destruct (rooms c !! doc_id) as [cl|] eqn:Hcl; cbn in Hin.
    + eapply Hr; [exact Hcl|set_solver].
    + set_solver.
  - intros m row' name' [Hin|Hin]%elem_of_app Hf; [by eapply Hs|].
    apply list_elem_of_fmap in Hin as (ws & -> & Hws%elem_of_elements). cbn in Hf |- *. injection Hf as <- <-.
    split; [done|]. split; [done|]. destruct (rooms c !! doc_id) as [cl|] eqn:Hcl; cbn in Hws; [|set_solver].
    destruct (Hr doc_id cl ws Hcl) as [user Hu]; [set_solver|]. exists user. by apply Hm.
Qed.

Lemma chat_inv_receive ops c now id failing ws data :
  chat_inv ops c → chat_inv (ops ++ [OpReceive now id failing ws data]) (receive now id failing ws data c).
Proof.
  intros Hi. unfold receive. destruct (members c !! ws) as [[doc_id user]|] eqn:Hws; [|by apply chat_inv_same].
  assert (chat_inv (ops ++ [OpReceive now id failing ws data]) (disconnect ws doc_id c)) as Hgone.
  { eapply chat_inv_disconnect; [by apply chat_inv_same|done]. }
  destruct data as [[|a body] parent pinned| |]; try by apply chat_inv_same.
  2: exact Hgone.
  set (row := mkMessageRow _ _ _ _ _ _ _). destruct (insert_message row (db c)) as [r d] eqn:Hins.
  apply insert_message_inv in Hins as [[-> [e ->]]|[-> ->]]; [by destruct c|].
  apply chat_inv_broadcast; [|done|cbn; set_solver]. apply chat_inv_db; [done|cbn; set_solver|].
  cbn. intros row' [Hold|Hnew]%elem_of_app; [by left|]. apply list_elem_of_singleton in Hnew as ->.
  right; right. exists ws, user. split; [|done]. by apply (ci_members _ _ Hi).
Qed.

Lemma chat_inv_connect ops c ws token doc_id :
  c = run_chat ops c0 → chat_inv ops c → c.(members) !! ws = None →
  chat_inv (ops ++ [OpConnect ws token doc_id]) (connect ws token doc_id c).
Proof.
  intros Hc Hi Hnone. unfold connect. destruct (authenticate token doc_id (db c)) as [[|a msg]|user] eqn:Ha.
  - by apply chat_inv_same.
  - destruct (chat_inv_same _ (OpConnect ws token doc_id) _ Hi) as [Hm Hr Hs Hw]. split; cbn; try done.
    intros m row name [Hin|Hin]%elem_of_app Hf; [by eapply Hs|]. apply list_elem_of_singleton in Hin as ->. done.
  - apply authenticate_entitled in Ha as (t & -> & He).
    destruct (chat_inv_same _ (OpConnect ws (Some t) doc_id) _ Hi) as [Hm Hr Hs Hw]. split; cbn.
    + intros ws' d' u' [[<- [= <- <-]]|[_ Hl]]%lookup_insert_Some; [|by apply Hm].
      exists ops, [], t. split; [done|]. by rewrite <- Hc.
    + intros d' clients ws' Hl Hin. destruct (decide (ws' = ws)) as [->|Hne].
      * destruct (decide (d' = doc_id)) as [->|Hd]; [exists user; by rewrite lookup_insert_eq|].
        rewrite lookup_insert_ne in Hl by done. destruct (Hr _ _ _ Hl Hin) as [u Hu]. congruence.
      * rewrite lookup_insert_ne by done. destruct (decide (d' = doc_id)) as [->|Hd].
        -- rewrite lookup_insert_eq in Hl. injection Hl as <-.
           destruct (rooms c !! doc_id) as [cl|] eqn:Hcl; cbn in Hin; [|set_solver].
           eapply Hr; [exact Hcl|set_solver].
        -- rewrite lookup_insert_ne in Hl by done. by eapply Hr.
    + intros m row name [Hin|Hin]%elem_of_app Hf; [by eapply Hs|]. apply list_elem_of_singleton in Hin as ->. done.
    + done.
Qed.

Lemma run_chat_inv ops :
  c0.(rooms) = ∅ → c0.(members) = ∅ → c0.(sent) = [] → c0.(db).(messages) = [] → chat_inv ops (run_chat ops c0).
Proof.
  intros Hr Hm Hs Hd. induction ops as [|op ops IH] using rev_ind.
  { split; cbn; rewrite ?Hr, ?Hm, ?Hs, ?Hd; intros; try set_solver; by rewrite lookup_empty in *. }
  unfold run_chat in *. rewrite foldl_app. cbn [foldl]. set (c := foldl exec_chat c0 ops) in *.
  destruct op as [ws token doc_id|now id failing ws data|now id doc_id body parent user|user op|us ss]; cbn [exec_chat].
  - case_decide; [by apply chat_inv_connect|by apply chat_inv_same].
  - by apply chat_inv_receive.
  - destruct (create_comment now id doc_id body parent user (db c)) as [r d] eqn:Hc.
    apply create_comment_inv in Hc as [->|[-> Hread]]; cbn [snd].
    + apply chat_inv_db; [done|done|]. intros row Hrow. by left.
    + apply chat_inv_db; [done|cbn; set_solver|]. cbn. intros row [Hold|Hnew]%elem_of_app; [by left|].
      apply list_elem_of_singleton in Hnew as ->. right; left. exists ops, [], now, user. by split.
  - apply chat_inv_db; [done|by rewrite exec_doc_messages|]. intros row. rewrite exec_doc_messages. by left.
  - apply chat_inv_db; [done|done|]. intros row Hrow. by left.
Qed.
End run.

(** C38: chat stays among those with access.  Over any history of connections,
    frames, failing clients, comments, document calls and account changes, from
    a state without chat: a message is sent only to a WebSocket that joined the
    room of its document with the session of a user who, at that moment, owned
    the document or held an active share of it, and the document was not
    deleted; it is a stored message of that document; and every stored message
    was written by such a user, in the room or through the comment route. *)
Theorem chat_confined (ops : list chat_op) (c0 : Chat) :
  c0.(rooms) = ∅ → c0.(members) = ∅ → c0.(sent) = [] → c0.(db).(messages) = [] →
  let c := run_chat ops c0 in
  (∀ m row name, m ∈ c.(sent) → m.(st_frame) = MessageFrame row name →
    row.(ms_document_id) = m.(st_room) ∧ row ∈ c.(db).(messages) ∧
    ∃ user, joined c0 ops m.(st_client) m.(st_room) user) ∧
  ∀ row, row ∈ c.(db).(messages) →
    commented c0 ops row ∨ ∃ ws user, joined c0 ops ws row.(ms_document_id) user ∧ user.(u_id) = row.(ms_sender_id).
Proof.
  intros Hr Hm Hs Hd c. destruct (run_chat_inv c0 ops Hr Hm Hs Hd) as [_ _ Hsent Hrows]. split; [exact Hsent|exact Hrows].
Qed.

(** The listing has at most a hundred messages, and they are the oldest ones:
    a message that is left out is not older than any that is listed. *)
Lemma get_messages_oldest doc_id d m m' :
  m ∈ document_messages doc_id d → m' ∈ d.(messages) → m'.(ms_document_id) = doc_id →
  m' ∉ document_messages doc_id d → m.(ms_created_at) ≤ m'.(ms_created_at).
Proof.
  unfold document_messages, find_many. set (cond := λ m, bool_decide _). set (l := merge_sort _ _).
  intros Hm Hin Hdoc Hnot.
  assert (StronglySorted (by_key ms_created_at) l) as Hsorted.
  { assert (Transitive (by_key ms_created_at)) by (unfold by_key; intros ???; lia).
    assert (Total (by_key ms_created_at)) by (unfold by_key; intros ??; lia). by apply (StronglySorted_merge_sort _). }
  assert (m' ∈ l) as Hl.
  { unfold l. rewrite (merge_sort_Permutation _). apply elem_of_filterb. split; [by apply bool_decide_eq_true|done]. }
  rewrite <- (take_drop 100 l) in Hl, Hsorted. apply elem_of_app in Hl as [?|Hl]; [done|].
  by apply (StronglySorted_app_1_elem_of (by_key ms_created_at) (take 100 l) (drop 100 l)).
Qed.

(** Access is checked when a client joins and not again: whatever the shares are
    by now, a connected client receives what is said in the room. *)
Lemma member_receives now id ws ws' doc_id user user' body c :
  c.(members) !! ws = Some (doc_id, user) → c.(members) !! ws' = Some (doc_id, user') →
  (∃ clients, c.(rooms) !! doc_id = Some clients ∧ ws' ∈ clients) → body ≠ ""%string →
  (∀ m, m ∈ c.(db).(messages) → m.(ms_id) ≠ id) →
  ∃ m, m ∈ (receive now id ∅ ws (InMessage body None false) c).(sent) ∧ m.(st_client) = ws' ∧
    m.(st_frame) = MessageFrame (mkMessageRow id doc_id user.(u_id) body None false now) user.(u_username).
Proof.
  intros Hws _ (clients & Hcl & Hin) Hb Hid. unfold receive. rewrite Hws. destruct body as [|a body]; [done|].
  set (row := mkMessageRow _ _ _ _ _ _ _).
  assert (insert_message row (db c) = (Ok (), set_messages (λ _, messages (db c) ++ [row]) (db c))) as ->.
  { unfold insert_message, insert_row. cbn [ms_parent_message_id row negb].
    destruct (existsb _ (messages (db c))) eqn:He; [|done]. exfalso.
    apply existsb_exists in He as (m & Hm%list_elem_of_In & Heq%bool_decide_eq_true). by apply (Hid m). }
  exists (mkSent ws' doc_id (MessageFrame row user.(u_username))). split; [|done]. cbn.
  apply elem_of_app. right. apply list_elem_of_fmap. exists ws'. split; [done|]. rewrite Hcl. cbn. set_solver.
Qed.
End histories.

(** ** A small room *)

Definition toy_room : Chat :=
  mkChat (mkDB [ann] [mkSession "s1" "u1" "key" 0 0] [toy_doc] [] [] [] [] [] ∅ [] []) ∅ ∅ [].

Definition toy_chat : list chat_op :=
  [OpConnect 7 (Some "key"%string) "d1"; OpReceive 3 "m1" ∅ 7 (InMessage "hello" None false)].

Definition toy_message : MessageRow := mkMessageRow "m1" "d1" "u1" "hello" None false 3.

Lemma chat_confined_witness :
  let c := run_chat (C := toy_crypto) (A := toy_auth) (P := first_row) (D := toy_digest)
    "data" "B" [1] toy_chat toy_room in
  mkSent 7 "d1" (MessageFrame toy_message "ann") ∈ c.(sent) ∧
  ∃ user, joined (C := toy_crypto) (A := toy_auth) (P := first_row) (D := toy_digest)
    "data" "B" [1] toy_room toy_chat 7 "d1" user.
Proof.
  intros c. assert (mkSent 7 "d1" (MessageFrame toy_message "ann") ∈ c.(sent)) as Hin.
  { replace c.(sent) with [mkSent 7 "d1" (JoinedFrame "ann"); mkSent 7 "d1" (MessageFrame toy_message "ann")]
      by reflexivity. set_solver. }
  split; [exact Hin|].
  destruct (chat_confined (C := toy_crypto) (A := toy_auth) (P := first_row) (PL := first_row_laws) (D := toy_digest)
    "data" "B" [1] toy_chat toy_room eq_refl eq_refl eq_refl eq_refl) as [Hsent _].
  by destruct (Hsent _ _ _ Hin eq_refl) as (_ & _ & Hjoined).
Defined.

(** The WebSocket handler does not look at the expiry of a session: one that
    [get_current_user] refuses still opens the room. *)
Lemma expired_session_joins :
  (get_current_user (A := toy_auth) (P := first_row) 1 (Some "key"%string) toy_room.(db)).1 = Raise (HTTPException 401) ∧
  authenticate (A := toy_auth) (P := first_row) (Some "key"%string) "d1" toy_room.(db) = inr ann.
Proof. split; reflexivity. Qed.
