(* ===== verification/Admin.v ===== *)
(** * Administration routes ([trustdocs/admin.py])

    The peer status panel, the graph views and path queries over [Provenance],
    the integrity check of the file log of [AuditLog], leak attribution with
    [Steganography], and the event feed.  Routes take the user that
    [get_current_user] found; [list_peers] takes none.  [None] where a
    traversal does not end. *)

From Stdlib Require Import ZArith Lia String.
From S2P Require Import Prelude PyData DateTime Json Crypto CoCNode Storage AuditLog Steganography.
From S2P Require Import Graph Database Provenance Auth Documents.

(** ** Peers *)

Record PeerStatusResponse := mkPeerStatus {
  ps_peer_id : string;
  ps_is_online : bool;
}.

Definition list_peers `{PickRow} (now : Z) (d : DB) : list PeerStatusResponse :=
  (λ u, mkPeerStatus u.(u_peer_id) (bool_decide (now - u.(u_last_seen_at) < presence_window)))
    <$> find_many u_created_at LIMIT (λ _, true) d.(users).

Section routes.
Context {P : PickRow} {O : SetOrder} {D : Digest}.

(** ** Graphs *)

Definition get_graph (now : Z) (user : UserRow) (d : DB) : result (gmap string NodeView * list Edge) :=
  get_all_nodes now d.

Definition get_my_graph (now : Z) (user : UserRow) (d : DB) : option (result (list NodeView * list Edge)) :=
  get_graph_for_peer now user.(u_peer_id) d.

(** The document of a [scope="file"] query. *)
Definition scoped_document (document_id : option string) (user : UserRow) : M DB DocumentRow :=
  match document_id with
  | None | Some ""%string => raise (HTTPException 400)
  | Some doc_id =>
      doc ← live_document doc_id;
      check_access doc doc_id user ;;
      mret doc
  end.

(** The last part of the route: an invisible end is a 404. *)
Definition path_response (r : result (option PathsResult)) : result PathsResult :=
  match r with
  | Ok None => Raise (HTTPException 404)
  | Ok (Some paths) => Ok paths
  | Raise e => Raise e
  end.

Definition get_graph_path (now : Z) (source target mode scope : string) (document_id : option string)
    (max_paths max_depth : Z) (user : UserRow) (d : DB) : option (result PathsResult) :=
  if negb (bool_decide (mode ∈ ["shortest"; "all"]%string)) then Some (Raise (HTTPException 400))
  else if negb (bool_decide (scope ∈ ["my"; "file"]%string)) then Some (Raise (HTTPException 400))
  else if decide (scope = "my"%string) then
    path_response <$> get_graph_paths_for_peer now user.(u_peer_id) source target mode max_paths max_depth d
  else
    match (scoped_document document_id user d).1 with
    | Raise e => Some (Raise e)
    | Ok doc =>
        path_response <$> get_graph_paths_for_document now doc.(dc_coc_node_hash) source target mode max_paths max_depth d
    end.

(** ** The audit log *)

(** A line that is not blank and not a comment is an entry. *)
Definition chain_length (file : option pystr) : Z :=
  match file with
  | None => 0
  | Some file =>
      Z.of_nat (length (filter (λ l, strip l ≠ [] ∧ FileLog.starts_with_hash l = false) (FileLog.readlines file)))
  end.

Definition verify_log (sha256 : pystr → pystr) (file : option pystr) : bool * Z :=
  (FileLog.verify_log_integrity sha256 file, chain_length file).

(** ** Leaks *)

(** [trustflow.detect_leak]. *)
Definition service_detect_leak (content : pystr) (candidate_peer_ids : list pystr) : M DB ExtractionResult :=
  for_each candidate_peer_ids (λ pid, modify (λ d, set_stegano (register_peer pid d.(stegano_peers)) d)) ;;
  known ← gets stegano_peers;
  lift (extract_watermark content (Some candidate_peer_ids) known).

Record LeakDetectResponse := mkLeak {
  lk_leak_detected : bool;
  lk_suspected_peer_id : option json;
  lk_confidence : Z * Z;
  lk_method : string;
}.

Definition detect_leak (content : pystr) (candidate_peer_ids : option (list pystr)) (user : UserRow)
    : M DB LeakDetectResponse :=
  candidates ← match candidate_peer_ids with
    | None | Some [] =>
        gets (λ d, (λ u, str u.(u_peer_id)) <$> find_many u_created_at LIMIT (λ _, true) d.(users))
    | Some l => mret l
    end;
  result ← service_detect_leak content candidates;
  mret (mkLeak result.(success) (if result.(success) then result.(er_peer_id) else None)
          result.(confidence) result.(method)).
End routes.

(** ** The event feed *)

(** The connected clients, and what they were sent. *)
Record Feed := mkFeed {
  admin_ws_clients : gset nat;
  delivered : list (nat * string);
}.

Definition admin_connect (ws : nat) (f : Feed) : Feed := mkFeed (f.(admin_ws_clients) ∪ {[ws]}) f.(delivered).
Definition admin_disconnect (ws : nat) (f : Feed) : Feed := mkFeed (f.(admin_ws_clients) ∖ {[ws]}) f.(delivered).

(** Clients a send to which raises are dropped. *)
Definition broadcast_admin_event (message : string) (failing : gset nat) (f : Feed) : Feed :=
  mkFeed (f.(admin_ws_clients) ∖ failing)
    (f.(delivered) ++ ((λ ws, (ws, message)) <$> elements (f.(admin_ws_clients) ∖ failing))).

(** ** Properties *)

Section properties.
Context {P : PickRow} {PL : PickRowLaws P} {O : SetOrder} {D : Digest}.

Lemma check_access_inv doc doc_id user d r d' :
  check_access doc doc_id user d = (r, d') → d' = d ∧ (r = Ok () → doc.(dc_owner_id) = user.(u_id) ∨
    ∃ s, s ∈ d.(file_shares) ∧ share_for doc_id user.(u_id) s = true).
Proof.
  unfold check_access. case_decide; [intros [= <- <-]; auto|]. unfold mbind, M_bind, gets.
  destruct (active_share doc_id (u_id user) d) as [s|] eqn:Hs; intros [= <- <-]; [|done].
  split; [done|]. intros _. right. exists s. unfold active_share in Hs. by apply find_one_Some in Hs as [? ?].
Qed.

(** A path query answers only about what the user may see: their own graph, or
    the trace of a live document they own or hold an active share of. *)
Lemma graph_path_access now source target mode scope document_id max_paths max_depth user d r :
  get_graph_path now source target mode scope document_id max_paths max_depth user d = Some (Ok r) →
  (scope = "my"%string ∧
   get_graph_paths_for_peer now user.(u_peer_id) source target mode max_paths max_depth d = Some (Ok (Some r))) ∨
  (scope = "file"%string ∧ ∃ doc, doc ∈ d.(documents) ∧ live doc ∧ has_access doc user.(u_id) d.(file_shares) ∧
   document_id = Some doc.(dc_id) ∧
   get_graph_paths_for_document now doc.(dc_coc_node_hash) source target mode max_paths max_depth d = Some (Ok (Some r))).
Proof.
  unfold get_graph_path. case_bool_decide as Hmode; [|done]. case_bool_decide as Hscope; [|done]. cbn [negb].
  assert (∀ o, path_response <$> o = Some (Ok r) → o = Some (Ok (Some r))) as Hresp.
  { intros [[[p|]|e]|]; cbn; congruence. }
  case_decide as Hmy; [intros Hr%Hresp; by left|].
  destruct (scoped_document document_id user d) as [[doc|e] d'] eqn:Hd; cbn [fst]; [|done]. intros Hr%Hresp.
  right. split; [set_solver|]. unfold scoped_document in Hd.
  destruct document_id as [[|a id]|]; [done| |done].
  apply bind_inv in Hd as [(e & [=] & _)|(doc' & d1 & [-> Hlive]%live_document_inv & Hd)].
  apply bind_inv in Hd as [(e & [=] & _)|([] & d1 & [-> Hacc]%check_access_inv & [= <- <-])].
  destruct (Hlive doc' eq_refl) as (Hin & Hid & Hl). exists doc'. split; [done|]. split; [done|]. split; [|by rewrite Hid].
  destruct (Hacc eq_refl) as [?|(s & Hs & Hf)]; [by left|]. right. exists s. by rewrite Hid.
Qed.

(** The feed reaches exactly the clients that are connected and do not fail. *)
Lemma feed_reaches message failing f ws :
  (ws, message) ∈ drop (length f.(delivered)) (broadcast_admin_event message failing f).(delivered) ↔
  ws ∈ (broadcast_admin_event message failing f).(admin_ws_clients).
Proof.
  cbn. rewrite drop_app_length, list_elem_of_fmap. split.
  - by intros (x & [= ->] & Hx%elem_of_elements).
  - intros Hx. exists ws. by rewrite elem_of_elements.
Qed.
End properties.
