(* ===== verification/Simulation.v ===== *)
(** * The simulation engine
      ([coc_framework/simulation_engine.py] and the feature methods of
       [Peer] in [coc_framework/core/network_sim.py])

    A scenario lists peers and timed events; every tick handles the events of
    its time, then sleeps while scheduled deliveries complete.  [Sim] is the
    engine with the objects it shares with its peers: the network of
    [NetworkSim], the engines for secret sharing, time locks and watermarks,
    the message registry and the record of distributed shares.  Peers keep
    their data in [InMemoryStorage].  An event is the list of its JSON items.
    What one event draws (clock, nonces, keys) is a [Draw].

    The constructor is modelled with validation on, its default, and from the
    validation on; so events have the types the validator demands, and a
    reader that finds another type raises [TypeError].  Text with lone
    surrogates cannot be hashed, signed or printed: it raises [UnicodeError]
    where it enters the framework and is found in no table. *)

From Stdlib Require Import ZArith Lia Ascii String.
From stdpp Require Import pretty sorting.
From S2P Require Import Prelude PyData DateTime Json Crypto CoCNode Storage DeletionEngine NetworkSim.
From S2P Require Import SecretSharing TimeLock Dicts Steganography Validation.

(** ** Reading events *)

Abbreviation event := (list (pystr * json)).

(** [event[k]] and [event.get(k)] for text; [null] is [None]. *)
Definition req_str (k : string) (ev : event) : result pystr :=
  match field k ev with
  | None => Raise KeyError
  | Some (JStr s) => Ok s
  | Some _ => Raise TypeError
  end.
Definition opt_str (k : string) (ev : event) : result (option pystr) :=
  match field k ev with
  | None | Some JNull => Ok None
  | Some (JStr s) => Ok (Some s)
  | Some _ => Raise TypeError
  end.

Definition req_int (k : string) (ev : event) : result Z :=
  match field k ev with
  | None => Raise KeyError
  | Some v => from_option_exn TypeError (as_int v)
  end.
Definition opt_int (k : string) (ev : event) : result (option Z) :=
  match field k ev with
  | None | Some JNull => Ok None
  | Some v => Some <$> from_option_exn TypeError (as_int v)
  end.

Definition req_list (k : string) (ev : event) : result (list json) :=
  match field k ev with
  | None => Raise KeyError
  | Some (JArr l) => Ok l
  | Some _ => Raise TypeError
  end.
Definition opt_list (k : string) (ev : event) : result (option (list json)) :=
  match field k ev with
  | None => Ok None
  | Some (JArr l) => Ok (Some l)
  | Some _ => Raise TypeError
  end.

Definition as_text (v : json) : result pystr :=
  match v with JStr s => Ok s | _ => Raise TypeError end.

(** A list of ids as the network uses them. *)
Definition ids_of (l : list json) : result (list string) := mapR (λ v, s ← as_text v; text_of s) l.

(** [bool(o)] of optional text: the text when it is there and not empty. *)
Definition nonempty (o : option pystr) : option pystr :=
  match o with Some [] => None | _ => o end.

Definition float_is_zero (l : pystr) : bool :=
  match l with 45 :: l => float_le_zero l | _ => float_le_zero l end.

(** [bool(v)]. *)
Definition truthy (v : json) : bool :=
  match v with
  | JNull | JStr [] | JArr [] | JObj [] => false
  | JBool b => b
  | JInt n => negb (n =? 0)
  | JFloat l => negb (float_is_zero l)
  | _ => true
  end.

(** [event["time"]], which is an integer in a validated event. *)
Definition time_of (ev : event) : option Z := field "time" ev ≫= as_int.

(** ** The engine's state *)

Record Distribution := mkDistribution {
  ds_originator : pystr;
  ds_recipients : list string;
  ds_share_map : list (string * Share);
}.

Record Sim := mkSim {
  world : World InMemory.storage;
  peer_ids : list string;                               (* the keys of [self.peers], in order *)
  sharing : option SecretSharingEngine;
  timelock : option TimeLock.Engine;
  stegano : option known_peers;
  received_shares : gmap string (gmap pystr Share);     (* [peer._received_shares], by peer *)
  distributed_shares : gmap pystr Distribution;
  message_registry : gmap pystr string;
  tick_count : Z;
  events : list event;
}.

Definition set_world (w : World InMemory.storage) (s : Sim) : Sim :=
  mkSim w s.(peer_ids) s.(sharing) s.(timelock) s.(stegano) s.(received_shares) s.(distributed_shares)
    s.(message_registry) s.(tick_count) s.(events).
Definition set_sharing (e : SecretSharingEngine) (s : Sim) : Sim :=
  mkSim s.(world) s.(peer_ids) (Some e) s.(timelock) s.(stegano) s.(received_shares) s.(distributed_shares)
    s.(message_registry) s.(tick_count) s.(events).
Definition set_timelock (e : TimeLock.Engine) (s : Sim) : Sim :=
  mkSim s.(world) s.(peer_ids) s.(sharing) (Some e) s.(stegano) s.(received_shares) s.(distributed_shares)
    s.(message_registry) s.(tick_count) s.(events).
Definition set_stegano (k : known_peers) (s : Sim) : Sim :=
  mkSim s.(world) s.(peer_ids) s.(sharing) s.(timelock) (Some k) s.(received_shares) s.(distributed_shares)
    s.(message_registry) s.(tick_count) s.(events).
Definition set_distribution (hash : pystr) (d : Distribution) (s : Sim) : Sim :=
  mkSim s.(world) s.(peer_ids) s.(sharing) s.(timelock) s.(stegano) s.(received_shares)
    (<[hash := d]> s.(distributed_shares)) s.(message_registry) s.(tick_count) s.(events).
Definition set_registry (message_id : pystr) (node_hash : string) (s : Sim) : Sim :=
  mkSim s.(world) s.(peer_ids) s.(sharing) s.(timelock) s.(stegano) s.(received_shares) s.(distributed_shares)
    (<[message_id := node_hash]> s.(message_registry)) s.(tick_count) s.(events).
Definition end_tick (s : Sim) : Sim :=
  mkSim s.(world) s.(peer_ids) s.(sharing) s.(timelock) s.(stegano) s.(received_shares) s.(distributed_shares)
    s.(message_registry) (s.(tick_count) + 1) s.(events).

(** A call into the network. *)
Definition net {A} (m : M (World InMemory.storage) A) : M Sim A := λ s,
  let '(r, w) := m s.(world) in (r, set_world w s).

(** [try: m except Exception: ...], where the handler only logs. *)
Definition try_ (m : M Sim unit) : M Sim unit := λ s,
  match m s with (Raise _, s') => (Ok (), s') | r => r end.

(** [self.peers.get(id)]: the id of the peer. *)
Definition find (id : pystr) (s : Sim) : option string :=
  match text_of id with
  | Ok i => (λ _, i) <$> s.(world).(peers) !! i
  | Raise _ => None
  end.

(** What handling one event draws. *)
Record Draw := mkDraw {
  dr_now : Z;
  dr_nonce_of : string → string;
  dr_sharing : entropy;
  dr_lock : TimeLock.lock_entropy;
  dr_random : bytes;
}.

(** [peer.storage.get_node] and [get_content]. *)
Definition stored_node (id h : string) (s : Sim) : option CoCNode :=
  p ← s.(world).(peers) !! id; InMemory.get_node h p.(storage).
Definition stored_content (id c : string) (s : Sim) : option string :=
  p ← s.(world).(peers) !! id; InMemory.get_content c p.(storage).

Section engine.
Context {C : Crypto} {P : SharingPrims} {D : Digest}.

(** ** The feature methods of [Peer] *)

Definition distribute_shares (d : Draw) (self : string) (content : pystr) (recipient_ids : list string)
    (threshold : option Z) : M Sim (list (string * Share)) :=
  engine ← gets sharing;
  match engine with
  | None => raise RuntimeError
  | Some engine =>
      '(share_map, engine) ← lift (split_content d.(dr_sharing) engine content recipient_ids threshold);
      modify (set_sharing engine) ;;
      let items := omap (λ id, pair id <$> share_map !! id) (first_keys recipient_ids) in
      for_each items (λ '(peer_id, share),
        net (send_message d.(dr_now) self peer_id (OtherMsg "secret_share" (share_to_dict share)))) ;;
      mret items
  end.

Definition collect_and_reconstruct (self : string) (content_hash : pystr) (collected_shares : list Share)
    : M Sim (option pystr) :=
  engine ← gets sharing;
  match engine with
  | None => raise RuntimeError
  | Some engine =>
      own_share ← gets (λ s, received ← s.(received_shares) !! self; received !! content_hash);
      let shares_list := match own_share with
        | Some own_share => if decide (own_share ∈ collected_shares) then collected_shares
                            else collected_shares ++ [own_share]
        | None => collected_shares
        end in
      match shares_list with
      | [] => mret None
      | _ => lift (reconstruct_content engine shares_list true)
      end
  end.

Definition create_timelocked_content (d : Draw) (self : string) (content : pystr) (ttl_seconds : Z)
    (recipient_ids : list string) : M Sim TimeLock.EncryptedContent :=
  engine ← gets timelock;
  match engine with
  | None => raise RuntimeError
  | Some engine =>
      '(encrypted, engine) ← lift (TimeLock.encrypt d.(dr_lock) d.(dr_now) content ttl_seconds engine);
      modify (set_timelock engine) ;;
      for_each recipient_ids (λ peer_id,
        net (send_message d.(dr_now) self peer_id (OtherMsg "timelocked_content" (encrypted_json encrypted)))) ;;
      mret encrypted
  end.

Definition destroy_timelock (d : Draw) (lock_id : pystr) : M Sim bool :=
  engine ← gets timelock;
  match engine with
  | None => raise RuntimeError
  | Some engine =>
      match text_of lock_id with
      | Raise _ => mret false
      | Ok lock_id =>
          let '(success, engine) := TimeLock.destroy d.(dr_random) lock_id engine in
          modify (set_timelock engine) ;; mret success
      end
  end.

(** [stegano_engine.embed_watermark(content, peer_id)] with its defaults. *)
Definition embed (d : Draw) (known : known_peers) (content : pystr) (peer_id : string) : M Sim string :=
  peer_id ← lift (code_points peer_id);
  let '(marked, known) :=
    embed_watermark (str (isoformat d.(dr_now))) content peer_id 0 None true true true known in
  modify (set_stegano known) ;;
  marked ← lift marked; lift (text_of marked).

Definition forward_with_watermark (d : Draw) (self : string) (parent_node : CoCNode)
    (recipient_ids : list string) (content : string) : M Sim CoCNode :=
  known ← gets stegano;
  match known with
  | None => raise RuntimeError
  | Some _ =>
      '(child_node, _) ← net (forward_coc_message d.(dr_now) self parent_node recipient_ids);
      content ← lift (code_points content);
      for_each recipient_ids (λ recipient_id,
        known ← gets (λ s, default [] s.(stegano));
        watermarked_content ← embed d known content recipient_id;
        net (send_message d.(dr_now) self recipient_id (CocData (to_dict child_node) watermarked_content))) ;;
      mret child_node
  end.

(** ** Message registry *)

Definition register_message (message_id : option pystr) (node_hash : string) : M Sim unit :=
  match nonempty message_id with
  | Some message_id => modify (set_registry message_id node_hash)
  | None => mret ()
  end.

Definition get_node_hash (message_id : pystr) (s : Sim) : option string := s.(message_registry) !! message_id.

(** A node hash given directly under [hash_key] or as a message id under
    [id_key]. *)
Definition resolve (hash_key id_key : string) (ev : event) : M Sim (option string) :=
  given ← lift (opt_str hash_key ev);
  match nonempty given with
  | Some h => mret (match text_of h with Ok h => Some h | Raise _ => None end)
  | None =>
      message_id ← lift (opt_str id_key ev);
      match nonempty message_id with
      | Some message_id => gets (get_node_hash message_id)
      | None => mret None
      end
  end.

(** ** Core event handlers *)

Definition handle_create_message (d : Draw) (ev : event) : M Sim unit :=
  originator_id ← lift (req_str "originator_id" ev);
  originator ← gets (find originator_id);
  match originator with
  | None => mret ()
  | Some originator =>
      content ← lift (req_str "content" ev);
      recipients ← lift (req_list "recipient_ids" ev);
      content ← lift (text_of content);
      recipient_ids ← lift (ids_of recipients);
      node ← net (create_coc_root d.(dr_now) originator content recipient_ids);
      message_id ← lift (opt_str "message_id" ev);
      register_message message_id node.(node_hash) ;;
      for_each recipient_ids (λ recipient_id,
        net (send_message d.(dr_now) originator recipient_id (CocData (to_dict node) content)))
  end.

(** The plain branch of [_handle_forward_message]: the content sent along is
    the content hash. *)
Definition forward_plain (d : Draw) (sender : string) (parent_node : CoCNode) (ev : event) : M Sim unit :=
  recipients ← lift (req_list "recipient_ids" ev);
  recipient_ids ← lift (ids_of recipients);
  '(child_node, _) ← net (forward_coc_message d.(dr_now) sender parent_node recipient_ids);
  message_id ← lift (opt_str "message_id" ev);
  register_message message_id child_node.(node_hash) ;;
  for_each recipient_ids (λ recipient_id,
    net (send_message d.(dr_now) sender recipient_id
      (CocData (to_dict child_node) child_node.(CoCNode.content_hash)))).

Definition handle_forward_message (d : Draw) (ev : event) : M Sim unit :=
  sender_id ← lift (req_str "sender_id" ev);
  sender ← gets (find sender_id);
  match sender with
  | None => mret ()
  | Some sender =>
      parent_node_hash ← resolve "parent_node_hash" "parent_message_id" ev;
      match parent_node_hash with
      | None => mret ()
      | Some parent_node_hash =>
          parent_node ← gets (stored_node sender parent_node_hash);
          match parent_node with
          | None => mret ()
          | Some parent_node =>
              use_watermark ← gets (λ s,
                truthy (default (JBool false) (field "use_watermark" ev)) && bool_decide (is_Some s.(stegano)));
              content ← gets (stored_content sender parent_node.(CoCNode.content_hash));
              match use_watermark : bool, content with
              | true, Some (String _ _ as content) =>
                  recipients ← lift (req_list "recipient_ids" ev);
                  recipient_ids ← lift (ids_of recipients);
                  child_node ← forward_with_watermark d sender parent_node recipient_ids content;
                  message_id ← lift (opt_str "message_id" ev);
                  register_message message_id child_node.(node_hash)
              | _, _ => forward_plain d sender parent_node ev
              end
          end
      end
  end.

Definition handle_delete_message (d : Draw) (ev : event) : M Sim unit :=
  originator_id ← lift (req_str "originator_id" ev);
  originator ← gets (find originator_id);
  match originator with
  | None => mret ()
  | Some originator =>
      node_hash ← resolve "node_hash" "message_id" ev;
      match node_hash with
      | None => mret ()
      | Some node_hash =>
          node_to_delete ← gets (stored_node originator node_hash);
          match node_to_delete with
          | None => mret ()
          | Some node => net (initiate_deletion d.(dr_now) d.(dr_nonce_of) originator node)
          end
      end
  end.

(** ** Feature event handlers *)

(** [if not engine: warn and return]. *)
Definition when_enabled {E} (engine : Sim → option E) (m : M Sim unit) : M Sim unit :=
  enabled ← gets (λ s, bool_decide (is_Some (engine s)));
  if enabled : bool then m else mret ().

Definition handle_distribute_shares (d : Draw) (ev : event) : M Sim unit :=
  when_enabled sharing (
    originator_id ← lift (req_str "originator_id" ev);
    originator ← gets (find originator_id);
    match originator with
    | None => mret ()
    | Some originator => try_ (
        content ← lift (req_str "content" ev);
        recipients ← lift (req_list "recipient_ids" ev);
        threshold ← lift (opt_int "threshold" ev);
        recipient_ids ← lift (ids_of recipients);
        share_map ← distribute_shares d originator content recipient_ids threshold;
        share0 ← lift (from_option_exn IndexError (share_map !! 0%nat));
        modify (set_distribution share0.2.(SecretSharing.content_hash)
          (mkDistribution originator_id recipient_ids share_map)))
    end).

(** The share of [content_hash] that a contributor received; only text can
    name a peer, and a list or dict is no key. *)
Definition contribution (content_hash : pystr) (contributor : json) : M Sim (option (string * Share)) :=
  match contributor with
  | JStr peer_id => gets (λ s,
      id ← find peer_id s; received ← s.(received_shares) !! id;
      share ← received !! content_hash; Some (id, share))
  | JArr _ | JObj _ => raise TypeError
  | _ => mret None
  end.

Fixpoint collect_shares (content_hash : pystr) (contributors : list json) : M Sim (list (string * Share)) :=
  match contributors with
  | [] => mret []
  | c :: contributors =>
      share ← contribution content_hash c;
      shares ← collect_shares content_hash contributors;
      mret (match share with
            | Some (id, share) => (id, share) :: filter (λ kv, kv.1 ≠ id) shares
            | None => shares
            end)
  end.

Definition handle_reconstruct_secret (d : Draw) (ev : event) : M Sim unit :=
  when_enabled sharing (
    requester_id ← lift (req_str "requester_id" ev);
    requester ← gets (find requester_id);
    match requester with
    | None => mret ()
    | Some requester =>
        content_hash ← lift (req_str "content_hash" ev);
        contributor_ids ← lift (opt_list "contributor_ids" ev);
        collected_shares ← collect_shares content_hash (default [] contributor_ids);
        try_ (
          reconstructed ← collect_and_reconstruct requester content_hash collected_shares.*2;
          match nonempty reconstructed with
          | Some reconstructed =>
              hash ← lift (text_of content_hash);
              text ← lift (text_of reconstructed);
              net (update_storage requester (add_content d.(dr_now) hash text))
          | None => mret ()
          end)
    end).

Definition handle_timelock_content (d : Draw) (ev : event) : M Sim unit :=
  when_enabled timelock (
    originator_id ← lift (req_str "originator_id" ev);
    originator ← gets (find originator_id);
    match originator with
    | None => mret ()
    | Some originator => try_ (
        content ← lift (req_str "content" ev);
        ttl_seconds ← lift (req_int "ttl_seconds" ev);
        recipients ← lift (opt_list "recipient_ids" ev);
        recipient_ids ← lift (ids_of (default [] recipients));
        create_timelocked_content d originator content ttl_seconds recipient_ids ;;
        mret ())
    end).

Definition handle_destroy_timelock (d : Draw) (ev : event) : M Sim unit :=
  when_enabled timelock (
    peer_id ← lift (req_str "peer_id" ev);
    peer ← gets (find peer_id);
    match peer with
    | None => mret ()
    | Some _ =>
        lock_id ← lift (req_str "lock_id" ev);
        destroy_timelock d lock_id ;;
        mret ()
    end).

Definition handle_watermark_forward (d : Draw) (ev : event) : M Sim unit :=
  when_enabled stegano (
    sender_id ← lift (req_str "sender_id" ev);
    sender ← gets (find sender_id);
    match sender with
    | None => mret ()
    | Some sender =>
        h ← lift (req_str "parent_node_hash" ev);
        parent_node ← gets (λ s, match text_of h with Ok h => stored_node sender h s | Raise _ => None end);
        match parent_node with
        | None => mret ()
        | Some parent_node =>
            content ← gets (stored_content sender parent_node.(CoCNode.content_hash));
            match content with
            | Some (String _ _ as content) => try_ (
                recipients ← lift (req_list "recipient_ids" ev);
                recipient_ids ← lift (ids_of recipients);
                forward_with_watermark d sender parent_node recipient_ids content ;;
                mret ())
            | _ => mret ()
            end
        end
    end).

(** [result.peer_id[:8]]: text and lists have slices. *)
Definition sliceable (v : option json) : result unit :=
  match v with Some (JStr _) | Some (JArr _) => Ok () | _ => Raise TypeError end.

(** The suspects named, or all peers. *)
Definition suspects_of (named : option (list json)) : M Sim (list pystr) :=
  match named with
  | Some l => lift (mapR as_text l)
  | None => ids ← gets peer_ids; lift (mapR code_points ids)
  end.

Definition find_leak (ev : event) (suspect_ids : list pystr) : M Sim ExtractionResult :=
  for_each suspect_ids (λ suspect_id,
    modify (λ s, set_stegano (register_peer suspect_id (default [] s.(stegano))) s)) ;;
  leaked_content ← lift (req_str "leaked_content" ev);
  known ← gets (λ s, default [] s.(stegano));
  lift (extract_watermark leaked_content (Some suspect_ids) known).

Definition handle_detect_leak (ev : event) : M Sim unit :=
  when_enabled stegano (
    investigator_id ← lift (req_str "investigator_id" ev);
    investigator ← gets (find investigator_id);
    match investigator with
    | None => mret ()
    | Some _ =>
        named ← lift (opt_list "suspect_ids" ev);
        suspect_ids ← suspects_of named;
        result ← find_leak ev suspect_ids;
        if result.(success) then lift (sliceable result.(er_peer_id)) else mret ()
    end).

(** ** Dispatch *)

Definition handle_event (d : Draw) (ev : event) : M Sim unit :=
  match field "type" ev with
  | Some (JStr event_type) =>
      let named (name : string) := bool_decide (event_type = str name) in
      if named "PEER_ONLINE" then
        peer_id ← lift (req_str "peer_id" ev);
        peer ← gets (find peer_id);
        match peer with
        | Some peer => net (go_online TOKEN_VALIDITY_SECONDS DEFAULT_TOMBSTONE_GRACE_SECONDS
                              d.(dr_now) d.(dr_nonce_of) peer)
        | None => mret ()
        end
      else if named "PEER_OFFLINE" then
        peer_id ← lift (req_str "peer_id" ev);
        peer ← gets (find peer_id);
        match peer with
        | Some peer => net (go_offline d.(dr_now) peer)
        | None => mret ()
        end
      else if named "CREATE_MESSAGE" then handle_create_message d ev
      else if named "FORWARD_MESSAGE" then handle_forward_message d ev
      else if named "DELETE_MESSAGE" then handle_delete_message d ev
      else if named "DISTRIBUTE_SHARES" then handle_distribute_shares d ev
      else if named "RECONSTRUCT_SECRET" then handle_reconstruct_secret d ev
      else if named "TIMELOCK_CONTENT" then handle_timelock_content d ev
      else if named "DESTROY_TIMELOCK" then handle_destroy_timelock d ev
      else if named "WATERMARK_FORWARD" then handle_watermark_forward d ev
      else if named "DETECT_LEAK" then handle_detect_leak ev
      else mret ()
  | _ => mret ()
  end.

(** ** [tick], from its start to the sleep *)

Definition events_for_this_tick (s : Sim) : list event :=
  filter (λ ev, time_of ev = Some s.(tick_count)) s.(events).

(** One turn of the loop: every exception is caught and logged. *)
Definition tick_event (d : Draw) (ev : event) : M Sim unit := try_ (handle_event d ev).

(** ** The constructor *)

(** [sorted(events, key=time)]: a stable sort. *)
Fixpoint insert_event (te : Z * event) (l : list (Z * event)) : list (Z * event) :=
  match l with
  | [] => [te]
  | te' :: l => if te.1 <? te'.1 then te :: te' :: l else te' :: insert_event te l
  end.

Definition sorted_events (l : list (Z * event)) : list (Z * event) := foldl (flip insert_event) [] l.

(** The event and its key. *)
Definition timed (v : json) : result (Z * event) :=
  match v with
  | JObj ev => t ← req_int "time" ev; Ok (t, ev)
  | _ => Raise TypeError
  end.

Definition new_peer (now : Z) (key : bytes) (id : string) : Peer InMemory.storage :=
  mkPeer id key true InMemory.init [] now 24.

(** [self.peers[peer_id] = peer; self.network.add_peer(peer)]; [keys i] is the
    key pair of the [i]th peer. *)
Definition add_peers (now : Z) (keys : nat → bytes) (ids : list string) (w : World InMemory.storage)
    : World InMemory.storage :=
  foldl (λ w iid, (NetworkSim.register_peer (new_peer now (keys iid.1) iid.2) w).2) w (imap pair ids).

(** The ids [_setup_simulation] creates peers for. *)
Definition setup_ids (scenario settings : event) : result (list string) :=
  match field "peers" scenario with
  | Some (JArr configs) =>
      mapR (λ v, match v with
                 | JObj config => id ← req_str "id" config; text_of id
                 | _ => Raise TypeError
                 end) configs
  | Some _ => Raise TypeError
  | None =>
      total_peers ← opt_int "total_peers" settings;
      Ok ((λ i, "peer_" +:+ pretty (Z.of_nat i)) <$> seq 0 (Z.to_nat (default 0 total_peers)))
  end.

Definition setting (k : string) (settings : event) : bool :=
  truthy (default (JBool false) (field k settings)).

Definition init (now : Z) (keys : nat → bytes) (scenario : json) : result Sim :=
  verdict ← validate_scenario scenario;
  if negb verdict.(is_valid) then Raise ValidationError
  else match scenario with
  | JObj items =>
      settings ← match field "settings" items with
                 | None => Ok []
                 | Some (JObj settings) => Ok settings
                 | Some _ => Raise AttributeError
                 end;
      threshold ← opt_int "secret_sharing_threshold" settings;
      let sharing := if setting "enable_secret_sharing" settings
                     then Some (SecretSharing.init_engine (default 3 threshold) 5) else None in
      let timelock := if setting "enable_timelock" settings then Some TimeLock.init_engine else None in
      let stegano := if setting "enable_steganography" settings then Some [] else None in
      events ← opt_list "events" items;
      events ← mapR timed (default [] events);
      ids ← setup_ids items settings;
      Ok (mkSim (add_peers now keys ids (mkWorld ∅ ∅ [] [] [])) (first_keys ids) sharing timelock stegano
            ∅ ∅ ∅ 0 (sorted_events events).*2)
  | _ => Raise AttributeError
  end.

(** ** The simulation in motion *)

(** Between two awaits the engine is handling the rest of a tick's events;
    otherwise it sleeps in a tick or is idle between two. *)
Inductive phase := Idle | Handling (rest : list event) | Sleeping.

(** A step at time [now]: the engine moves on, or, while it does not run, a
    scheduled delivery completes or the key store's thread clears expired
    keys.  The last index is what the step handled, with its tick. *)
Inductive sim_step (now : Z) : phase → Sim → phase → Sim → list (Z * event) → Prop :=
  | sim_begin s : sim_step now Idle s (Handling (events_for_this_tick s)) s []
  | sim_event s d ev rest :
      d.(dr_now) = now →
      sim_step now (Handling (ev :: rest)) s (Handling rest) (tick_event d ev s).2 [(s.(tick_count), ev)]
  | sim_sleep s : sim_step now (Handling []) s Sleeping s []
  | sim_wake s : sim_step now Sleeping s Idle (end_tick s) []
  | sim_deliver s ph before m after nonce_of :
      (∀ rest, ph ≠ Handling rest) → s.(world).(in_flight) = before ++ m :: after →
      let w := mkWorld s.(world).(peers) s.(world).(token_caches) s.(world).(NetworkSim.audit_log)
                 s.(world).(notifications) (before ++ after) in
      sim_step now ph s ph
        (set_world (receive_message TOKEN_VALIDITY_SECONDS DEFAULT_TOMBSTONE_GRACE_SECONDS now nonce_of
           m.(msg_recipient_id) m w).2 s) []
  | sim_cleanup s ph e random :
      s.(timelock) = Some e →
      sim_step now ph s ph
        (set_timelock (TimeLock.with_keys e (TimeLock.cleanup_expired random now (TimeLock.key_store e))) s) [].

(** A run from [s0], with the events it handled so far. *)
Inductive sim_run (start : Z) (s0 : Sim) : Z → phase → Sim → list (Z * event) → Prop :=
  | run_start : sim_run start s0 start Idle s0 []
  | run_step now now' ph s ph' s' trace out :
      sim_run start s0 now ph s trace → now ≤ now' → sim_step now' ph s ph' s' out →
      sim_run start s0 now' ph' s' (trace ++ out).
End engine.

(** ** What the engine does is what the network allows *)

Section refinement.
Context {C : Crypto} {L : CryptoLaws C} {P : SharingPrims} {D : Digest}.
Implicit Types (s : Sim) (w : World InMemory.storage).

Abbreviation net_step := (step TOKEN_VALIDITY_SECONDS DEFAULT_TOMBSTONE_GRACE_SECONDS InMemory.init).

(** The network takes some steps; the schedule and the received shares stay. *)
Definition moves (now : Z) s s' : Prop :=
  rtc (net_step now) s.(world) s'.(world) ∧ s'.(received_shares) = s.(received_shares) ∧
  s'.(events) = s.(events) ∧ s'.(tick_count) = s.(tick_count).

#[local] Instance moves_preorder now : PreOrder (moves now).
Proof.
  split; [done|]. intros s1 s2 s3 (Ha & ? & ? & ?) (Hb & ? & ? & ?).
  split; [by etrans|]. repeat split; congruence.
Qed.

(** The peer whose method runs is registered and holds no share. *)
Definition running (self : string) s : Prop :=
  is_Some (s.(world).(peers) !! self) ∧ s.(received_shares) = ∅.

Definition continues (now : Z) (self : string) {A} (m : M Sim A) : Prop :=
  ∀ s, running self s → moves now s (m s).2 ∧ running self (m s).2.
Definition ends (now : Z) (self : string) {A} (m : M Sim A) : Prop :=
  ∀ s, running self s → moves now s (m s).2.

Lemma continues_ends now self {A} (m : M Sim A) : continues now self m → ends now self m.
Proof. intros Hm s Hs. by apply Hm. Qed.

Lemma continues_same now self {A} (m : M Sim A) :
  (∀ s, (m s).2.(world) = s.(world) ∧ (m s).2.(received_shares) = s.(received_shares) ∧
        (m s).2.(events) = s.(events) ∧ (m s).2.(tick_count) = s.(tick_count)) → continues now self m.
Proof.
  intros Hm s [Hp Hr]. destruct (Hm s) as (Hw & Hs & He & Ht). split.
  - unfold moves. by rewrite Hw, Hs, He, Ht.
  - unfold running. by rewrite Hw, Hs.
Qed.

(** What a call returns, in any state. *)
Definition returns {A} (m : M Sim A) (Φ : A → Prop) : Prop := ∀ s a s', m s = (Ok a, s') → Φ a.

Lemma ends_bind_val now self {A B} (m : M Sim A) (f : A → M Sim B) Φ :
  continues now self m → returns m Φ → (∀ a, Φ a → ends now self (f a)) → ends now self (m ≫= f).
Proof.
  intros Hm Hv Hf s Hs. unfold mbind, M_bind. destruct (Hm s Hs) as [Hmv Hrun].
  destruct (m s) as [[a|e] s1] eqn:E; [|done]. etrans; [exact Hmv|]. by eapply Hf; [eapply Hv|].
Qed.
Lemma ends_bind now self {A B} (m : M Sim A) (f : A → M Sim B) :
  continues now self m → (∀ a, ends now self (f a)) → ends now self (m ≫= f).
Proof. intros Hm Hf. by eapply (ends_bind_val _ _ _ _ (λ _, True)). Qed.
Lemma continues_bind now self {A B} (m : M Sim A) (f : A → M Sim B) :
  continues now self m → (∀ a, continues now self (f a)) → continues now self (m ≫= f).
Proof.
  intros Hm Hf s Hs. unfold mbind, M_bind. destruct (Hm s Hs) as [Hmv Hrun].
  destruct (m s) as [[a|e] s1]; [|done]. destruct (Hf a s1 Hrun). split; [by etrans|done].
Qed.
Lemma continues_ret now self {A} (a : A) : continues now self (mret a).
Proof. by apply continues_same. Qed.
Lemma continues_raise now self {A} e : continues now self (raise (A := A) e).
Proof. by apply continues_same. Qed.
Lemma continues_lift now self {A} (r : result A) : continues now self (lift r).
Proof. by apply continues_same. Qed.
Lemma continues_gets now self {A} (f : Sim → A) : continues now self (gets f).
Proof. by apply continues_same. Qed.
Lemma continues_for_each now self {A} (l : list A) body :
  (∀ x, continues now self (body x)) → continues now self (for_each l body).
Proof.
  intros Hb. induction l as [|x l IH]; simpl; [apply continues_ret|]. by apply continues_bind.
Qed.
Lemma ends_try now self (m : M Sim unit) : ends now self m → ends now self (try_ m).
Proof. intros Hm s Hs. specialize (Hm s Hs). unfold try_. by destruct (m s) as [[]]. Qed.

(** A call that is one step of the network. *)
Lemma net_moves now {A} (m : M (World InMemory.storage) A) s :
  rtc (net_step now) s.(world) (m s.(world)).2 → moves now s (net m s).2.
Proof. intros Hm. unfold net. destruct (m (world s)) as [r w]. done. Qed.

Lemma net_ends now self {A} (m : M (World InMemory.storage) A) :
  (∀ w, is_Some (w.(peers) !! self) → net_step now w (m w).2) → ends now self (net m).
Proof. intros Hm s [Hp _]. by apply net_moves, rtc_once, Hm. Qed.

Lemma net_continues now self {A} (m : M (World InMemory.storage) A) :
  (∀ w, is_Some (w.(peers) !! self) → net_step now w (m w).2 ∧ is_Some ((m w).2.(peers) !! self)) →
  continues now self (net m).
Proof.
  intros Hm s [Hp Hr]. destruct (Hm _ Hp) as [Hs Hp']. split; [by apply net_moves, rtc_once|].
  unfold net. by destruct (m (world s)).
Qed.

Lemma frame_registered w w' id : frame w w' → is_Some (w.(peers) !! id) → is_Some (w'.(peers) !! id).
Proof. intros Hf [p Hp]. destruct (frame_lookup _ _ _ _ Hf Hp) as (p' & -> & _). done. Qed.

Lemma update_storage_registered id self f w :
  is_Some (w.(peers) !! self) → is_Some ((update_storage id f w).2.(peers) !! self).
Proof. intros Hp. cbn. by rewrite lookup_alter_is_Some. Qed.

Lemma continues_send now self recipient b :
  (∀ nd c, b = CocData nd c → ∃ n, wf_node n ∧ nd = to_dict n) → (∀ t, b ≠ DeletionTokenMsg t) →
  continues now self (net (send_message now self recipient b)).
Proof.
  intros Hb Ht. apply net_continues. intros w Hp. split.
  - destruct b as [nd c|t|kind payload].
    + destruct (Hb nd c eq_refl) as (n & Hn & ->). by apply step_send_data.
    + by destruct (Ht t).
    + by apply step_send_other.
  - eapply frame_registered; [|exact Hp]. apply preserves_route_message.
Qed.
Lemma continues_send_other now self recipient kind payload :
  continues now self (net (send_message now self recipient (OtherMsg kind payload))).
Proof. by apply continues_send. Qed.
Lemma continues_send_node now self recipient n content :
  wf_node n → continues now self (net (send_message now self recipient (CocData (to_dict n) content))).
Proof. intros Hn. apply continues_send; [|done]. intros ? ? [= <- <-]. eauto. Qed.

(** Reading the event or the state moves nothing. *)
Lemma moves_read now {A B} (m : M Sim A) (f : A → M Sim B) s :
  (m s).2 = s → (∀ a, m s = (Ok a, s) → moves now s (f a s).2) → moves now s ((m ≫= f) s).2.
Proof.
  intros Hm Hf. unfold mbind, M_bind. destruct (m s) as [[a|e] s1]; cbn in Hm; subst s1; [|done]. by apply Hf.
Qed.

(** A call in one state, followed by something that goes on in any. *)
Definition continues_at (now : Z) (self : string) {A} (m : M Sim A) s : Prop :=
  moves now s (m s).2 ∧ running self (m s).2.

Lemma at_bind now self {A B} (m : M Sim A) (f : A → M Sim B) (Φ : A → Prop) s :
  continues_at now self m s → (∀ a s', m s = (Ok a, s') → Φ a) → (∀ a, Φ a → continues now self (f a)) →
  continues_at now self (m ≫= f) s.
Proof.
  intros [Hmv Hrun] Hv Hf. unfold continues_at, mbind, M_bind. destruct (m s) as [[a|e] s1]; [|done].
  destruct (Hf a (Hv _ _ eq_refl) s1 Hrun). split; [by etrans|done].
Qed.
Lemma at_bind_ends now self {A B} (m : M Sim A) (f : A → M Sim B) (Φ : A → Prop) s :
  continues_at now self m s → (∀ a s', m s = (Ok a, s') → Φ a) → (∀ a, Φ a → ends now self (f a)) →
  moves now s ((m ≫= f) s).2.
Proof.
  intros [Hmv Hrun] Hv Hf. unfold mbind, M_bind. destruct (m s) as [[a|e] s1]; [|done].
  etrans; [exact Hmv|]. apply Hf; [by eapply Hv|done].
Qed.
Lemma at_read now self {A B} (m : M Sim A) (f : A → M Sim B) s :
  running self s → (m s).2 = s → (∀ a, m s = (Ok a, s) → continues_at now self (f a) s) →
  continues_at now self (m ≫= f) s.
Proof.
  intros Hrun Hm Hf. unfold continues_at, mbind, M_bind.
  destruct (m s) as [[a|e] s1]; cbn in Hm; subst s1; [by apply Hf|done].
Qed.

(** A network call that is one step here. *)
Lemma at_net now self {A} (m : M (World InMemory.storage) A) s :
  running self s → net_step now s.(world) (m s.(world)).2 → is_Some ((m s.(world)).2.(peers) !! self) →
  continues_at now self (net m) s.
Proof.
  intros [Hp Hr] Hstep Hp'. split; [by apply net_moves, rtc_once|]. unfold net. by destruct (m (world s)).
Qed.
Lemma net_returns {A} (m : M (World InMemory.storage) A) (Φ : A → Prop) s :
  (∀ a w, m s.(world) = (Ok a, w) → Φ a) → ∀ a s', net m s = (Ok a, s') → Φ a.
Proof. intros Hm a s'. unfold net. destruct (m (world s)) as [r w]. intros [= -> <-]. eauto. Qed.

Definition holds (self : string) (n : CoCNode) s : Prop :=
  ∃ h p, s.(world).(peers) !! self = Some p ∧ InMemory.get_node h p.(storage) = Some n.

Lemma stored_node_holds self h n s : stored_node self h s = Some n → holds self n s.
Proof. unfold stored_node. intros (p & Hp & Hn)%bind_Some. by exists h, p. Qed.

Lemma create_step now self content recipients w :
  is_Some (w.(peers) !! self) →
  net_step now w (create_coc_root now self content recipients w).2 ∧
  is_Some ((create_coc_root now self content recipients w).2.(peers) !! self) ∧
  ∀ n w', create_coc_root now self content recipients w = (Ok n, w') → wf_node n.
Proof.
  intros Hp. split; [by apply step_create|]. unfold create_coc_root, get_peer, mbind, M_bind.
  destruct Hp as [p Hp]. rewrite Hp. cbn. rewrite !lookup_alter_is_Some. split; [done|].
  intros n w' [= <- <-]. apply new_node_wf.
Qed.

Lemma forward_step now self n recipients s :
  holds self n s →
  let r := forward_coc_message now self n recipients s.(world) in
  net_step now s.(world) r.2 ∧ is_Some (r.2.(peers) !! self) ∧
  ∀ cp w', r = (Ok cp, w') → wf_node cp.1.
Proof.
  intros (h & p & Hp & Hn). cbv zeta. split; [by eapply step_forward; [|cbn; by rewrite Hn]|].
  unfold forward_coc_message, get_peer, mbind, M_bind. rewrite Hp. cbn. rewrite !lookup_alter_is_Some, Hp.
  split; [done|]. intros cp w' [= <- <-].
  pose proof (new_node_wf now (CoCNode.content_hash n) (peer_id p) (signing_key p) recipients (Some (node_hash n)) 0)
    as [Hr Hs]. by split.
Qed.

Lemma continues_register_message now self id h : continues now self (register_message id h).
Proof. unfold register_message. destruct (nonempty id); by apply continues_same. Qed.

Lemma continues_embed now self d known content id : continues now self (embed d known content id).
Proof.
  unfold embed. apply continues_bind; [apply continues_lift|]. intros pid.
  destruct (embed_watermark _ _ _ _ _ _ _ _ _) as [marked known'].
  apply continues_bind; [by apply continues_same|]. intros _.
  apply continues_bind; intros; apply continues_lift.
Qed.

Lemma forward_with_watermark_at d self n recipients content s :
  running self s → holds self n s →
  continues_at d.(dr_now) self (forward_with_watermark d self n recipients content) s.
Proof.
  intros Hrun Hn. apply at_read; [done|done|]. intros [k|] _; [|by split].
  destruct (forward_step d.(dr_now) self n recipients s Hn) as (Hstep & Hp & Hv).
  eapply (at_bind _ _ _ _ (λ cp, wf_node cp.1)); [by apply at_net|by apply net_returns|]. intros [child parent] Hwf. cbn in Hwf.
  apply continues_bind; [apply continues_lift|]. intros text.
  apply continues_bind; [|intros; apply continues_ret]. apply continues_for_each. intros r.
  apply continues_bind; [apply continues_gets|]. intros known.
  apply continues_bind; [apply continues_embed|]. intros marked. by apply continues_send_node.
Qed.

Lemma forward_plain_at d self n ev s :
  running self s → holds self n s → continues_at d.(dr_now) self (forward_plain d self n ev) s.
Proof.
  intros Hrun Hn. apply at_read; [done|done|]. intros l _. apply at_read; [done|done|]. intros recipients _.
  destruct (forward_step d.(dr_now) self n recipients s Hn) as (Hstep & Hp & Hv).
  eapply (at_bind _ _ _ _ (λ cp, wf_node cp.1)); [by apply at_net|by apply net_returns|]. intros [child parent] Hwf. cbn in Hwf.
  apply continues_bind; [apply continues_lift|]. intros id.
  apply continues_bind; [apply continues_register_message|]. intros _.
  apply continues_for_each. intros r. by apply continues_send_node.
Qed.

(** ** Handlers *)

(** A handler moves the network from any state in which no peer holds shares. *)
Definition lawful (now : Z) {A} (m : M Sim A) : Prop :=
  ∀ s, s.(received_shares) = ∅ → moves now s (m s).2.

Lemma lawful_read now {A B} (m : M Sim A) (f : A → M Sim B) :
  (∀ s, (m s).2 = s) → (∀ a, lawful now (f a)) → lawful now (m ≫= f).
Proof. intros Hm Hf s Hs. apply moves_read; [done|]. intros a _. by apply Hf. Qed.
Lemma lawful_ret now {A} (a : A) : lawful now (mret a).
Proof. by intros s Hs. Qed.
Lemma lawful_when now {E} (engine : Sim → option E) m : lawful now m → lawful now (when_enabled engine m).
Proof. intros Hm. apply lawful_read; [done|]. intros [|]; [done|apply lawful_ret]. Qed.

(** Looking up the acting peer, and going on as it or returning. *)
Lemma lawful_peer now (id : pystr) (m : string → M Sim unit) :
  (∀ self, ends now self (m self)) →
  lawful now (peer ← gets (find id); match peer with None => mret () | Some self => m self end).
Proof.
  intros Hm s Hs. apply moves_read; [done|]. intros peer [= <-]. destruct (find id s) as [self|] eqn:E; [|reflexivity].
  apply Hm. split; [|done]. unfold find in E. destruct (text_of id) as [i|]; [|done].
  apply fmap_Some in E as (p & Hp & ->). eauto.
Qed.

Lemma resolve_same hash_key id_key ev s : (resolve hash_key id_key ev s).2 = s.
Proof.
  unfold resolve, mbind, M_bind, lift. destruct (opt_str hash_key ev) as [given|]; [|done].
  destruct (nonempty given) as [h|]; [done|]. destruct (opt_str id_key ev) as [id|]; [|done].
  by destruct (nonempty id).
Qed.

Lemma lawful_create d ev : lawful d.(dr_now) (handle_create_message d ev).
Proof.
  apply lawful_read; [done|]. intros id. apply lawful_peer. intros self s Hs.
  apply moves_read; [done|]. intros c _. apply moves_read; [done|]. intros l _.
  apply moves_read; [done|]. intros content _. apply moves_read; [done|]. intros recipients _.
  destruct (create_step d.(dr_now) self content recipients s.(world)) as (Hstep & Hp & Hv); [apply Hs|].
  eapply (at_bind_ends _ self _ _ wf_node); [by apply at_net|by apply net_returns|]. intros n Hn.
  apply ends_bind; [apply continues_lift|]. intros mid.
  apply ends_bind; [apply continues_register_message|]. intros _.
  apply continues_ends, continues_for_each. intros r. by apply continues_send_node.
Qed.

(** Forwarding, with or without a watermark, then the registration. *)
Lemma watermark_register_ends d self n ev content s :
  running self s → holds self n s →
  moves d.(dr_now) s ((recipients ← lift (req_list "recipient_ids" ev);
    recipient_ids ← lift (ids_of recipients);
    child_node ← forward_with_watermark d self n recipient_ids content;
    message_id ← lift (opt_str "message_id" ev);
    register_message message_id child_node.(node_hash)) s).2.
Proof.
  intros Hs Hn. apply moves_read; [done|]. intros l _. apply moves_read; [done|]. intros recipients _.
  eapply (at_bind_ends _ self _ _ (λ _, True)); [by apply forward_with_watermark_at|done|]. intros child _.
  apply ends_bind; [apply continues_lift|]. intros mid. apply continues_ends, continues_register_message.
Qed.

Lemma lawful_forward d ev : lawful d.(dr_now) (handle_forward_message d ev).
Proof.
  apply lawful_read; [done|]. intros id. apply lawful_peer. intros self s Hs.
  apply moves_read; [apply resolve_same|]. intros [h|] _; [|reflexivity].
  apply moves_read; [done|]. intros parent [= E]. destruct parent as [n|]; [|reflexivity].
  apply stored_node_holds in E. apply moves_read; [done|]. intros use _. apply moves_read; [done|]. intros content _.
  destruct use, content as [[|c content]|]; try apply (forward_plain_at d self n ev s Hs E).
  by apply watermark_register_ends.
Qed.

Lemma lawful_delete d ev : lawful d.(dr_now) (handle_delete_message d ev).
Proof.
  apply lawful_read; [done|]. intros id. apply lawful_peer. intros self s Hs.
  apply moves_read; [apply resolve_same|]. intros [h|] _; [|reflexivity].
  apply moves_read; [done|]. intros node [= E]. destruct node as [n|]; [|reflexivity].
  apply stored_node_holds in E as (h' & p & Hp & Hn).
  apply net_moves, rtc_once. eapply step_initiate; [exact Hp|]. cbn. by rewrite Hn.
Qed.

Lemma continues_distribute d self content recipients threshold :
  continues d.(dr_now) self (distribute_shares d self content recipients threshold).
Proof.
  apply continues_bind; [apply continues_gets|]. intros [e|]; [|apply continues_raise].
  apply continues_bind; [apply continues_lift|]. intros [share_map e'].
  apply continues_bind; [by apply continues_same|]. intros _.
  apply continues_bind; [|intros; apply continues_ret]. apply continues_for_each. intros [pid share].
  apply continues_send_other.
Qed.

Lemma lawful_distribute d ev : lawful d.(dr_now) (handle_distribute_shares d ev).
Proof.
  apply lawful_when, lawful_read; [done|]. intros id. apply lawful_peer. intros self. apply ends_try.
  do 4 (apply ends_bind; [apply continues_lift|]; intros ?).
  apply ends_bind; [apply continues_distribute|]. intros items.
  apply ends_bind; [apply continues_lift|]. intros share0. apply continues_ends. by apply continues_same.
Qed.

Lemma continues_timelocked d self content ttl recipients :
  continues d.(dr_now) self (create_timelocked_content d self content ttl recipients).
Proof.
  apply continues_bind; [apply continues_gets|]. intros [e|]; [|apply continues_raise].
  apply continues_bind; [apply continues_lift|]. intros [encrypted e'].
  apply continues_bind; [by apply continues_same|]. intros _.
  apply continues_bind; [|intros; apply continues_ret]. apply continues_for_each. intros pid.
  apply continues_send_other.
Qed.

Lemma lawful_timelock d ev : lawful d.(dr_now) (handle_timelock_content d ev).
Proof.
  apply lawful_when, lawful_read; [done|]. intros id. apply lawful_peer. intros self. apply ends_try.
  do 4 (apply ends_bind; [apply continues_lift|]; intros ?).
  apply ends_bind; [apply continues_timelocked|]. intros _. apply continues_ends, continues_ret.
Qed.

Lemma continues_destroy now self d lock_id : continues now self (destroy_timelock d lock_id).
Proof.
  apply continues_bind; [apply continues_gets|]. intros [e|]; [|apply continues_raise].
  destruct (text_of lock_id) as [i|]; [|apply continues_ret]. destruct (TimeLock.destroy _ _ _) as [ok e'].
  apply continues_bind; [by apply continues_same|intros; apply continues_ret].
Qed.

Lemma lawful_destroy d ev : lawful d.(dr_now) (handle_destroy_timelock d ev).
Proof.
  apply lawful_when, lawful_read; [done|]. intros id. apply lawful_peer. intros self.
  apply ends_bind; [apply continues_lift|]. intros lock_id.
  apply ends_bind; [apply continues_destroy|]. intros _. apply continues_ends, continues_ret.
Qed.

Lemma lawful_watermark d ev : lawful d.(dr_now) (handle_watermark_forward d ev).
Proof.
  apply lawful_when, lawful_read; [done|]. intros id. apply lawful_peer. intros self s Hs.
  apply moves_read; [done|]. intros h _. apply moves_read; [done|]. intros parent [= E].
  destruct parent as [n|]; [|reflexivity]. destruct (text_of h) as [h'|]; [|done]. apply stored_node_holds in E.
  apply moves_read; [done|]. intros [[|c content]|] _; try reflexivity.
  assert (∀ m : M Sim unit, moves d.(dr_now) s (m s).2 → moves d.(dr_now) s (try_ m s).2) as Htry.
  { intros m. unfold try_. by destruct (m s) as [[]]. }
  apply Htry, moves_read; [done|]. intros l _. apply moves_read; [done|]. intros recipients _.
  eapply (at_bind_ends _ self _ _ (λ _, True)); [by apply forward_with_watermark_at|done|]. intros child _.
  apply continues_ends, continues_ret.
Qed.

Lemma continues_find_leak now self ev suspects : continues now self (find_leak ev suspects).
Proof.
  apply continues_bind; [apply continues_for_each; intros x; by apply continues_same|]. intros _.
  apply continues_bind; [apply continues_lift|]. intros leaked.
  apply continues_bind; [apply continues_gets|]. intros known. apply continues_lift.
Qed.

Lemma lawful_detect now ev : lawful now (handle_detect_leak ev).
Proof.
  apply lawful_when, lawful_read; [done|]. intros id. apply lawful_peer. intros self.
  apply ends_bind; [apply continues_lift|]. intros named.
  apply ends_bind; [destruct named; [apply continues_lift|]; apply continues_bind; intros; by apply continues_same|].
  intros suspects. apply ends_bind; [apply continues_find_leak|].
  intros r. apply continues_ends. destruct (success r); by apply continues_same.
Qed.

(** Shares sent to a peer are not kept by [receive_message], so there is
    nothing to collect: [RECONSTRUCT_SECRET] never stores a secret. *)
Lemma collect_shares_none hash l s :
  s.(received_shares) = ∅ →
  (collect_shares hash l s).2 = s ∧ ∀ shares, (collect_shares hash l s).1 = Ok shares → shares = [].
Proof.
  intros Hs. induction l as [|c l IH]; cbn [collect_shares]; [split; [done|]; by intros ? [= <-]|].
  assert ((contribution hash c s).2 = s ∧ ∀ o, (contribution hash c s).1 = Ok o → o = None) as [Hc Hn].
  { destruct c; try (split; [done|]; by intros ? [= <-]). cbn. split; [done|]. intros o [= <-].
    destruct (find s0 s); cbn; [|done]. by rewrite Hs, lookup_empty. }
  unfold mbind, M_bind in IH |- *. destruct (contribution hash c s) as [[o|e] s1]; cbn in Hc; subst s1; [|done].
  rewrite (Hn o eq_refl). destruct (collect_shares hash l s) as [[shares|e] s2]; cbn in IH; destruct IH as [-> IH]; [|done].
  rewrite (IH shares eq_refl). split; [done|]. by intros ? [= <-].
Qed.

Lemma reconstruct_never d ev s : s.(received_shares) = ∅ → (handle_reconstruct_secret d ev s).2 = s.
Proof.
  intros Hs. unfold handle_reconstruct_secret, when_enabled, mbind, M_bind, gets, lift. cbv beta iota.
  destruct (bool_decide _); [|done]. destruct (req_str "requester_id" ev) as [id|]; [|done].
  destruct (find id s) as [self|]; [|done]. destruct (req_str "content_hash" ev) as [hash|]; [|done].
  destruct (opt_list _ ev) as [l|]; [|done].
  destruct (collect_shares_none hash (default [] l) s Hs) as [Hst Hn].
  destruct (collect_shares _ _ s) as [[shares|e] s1]; cbn in Hst; subst s1; [|done].
  rewrite (Hn shares eq_refl). unfold try_, collect_and_reconstruct, mbind, M_bind, gets. cbv beta iota.
  destruct (sharing s); [|done]. rewrite Hs, lookup_empty. done.
Qed.

Lemma lawful_reconstruct d ev : lawful d.(dr_now) (handle_reconstruct_secret d ev).
Proof. intros s Hs. by rewrite reconstruct_never. Qed.

Lemma lawful_handle_event d ev : lawful d.(dr_now) (handle_event d ev).
Proof.
  unfold handle_event. destruct (field "type" ev) as [v|]; [|apply lawful_ret].
  destruct v as [| | | |ty| |]; try apply lawful_ret. cbv zeta.
  repeat match goal with |- lawful _ (if ?b then _ else _) => destruct b end.
  - apply lawful_read; [done|]. intros id s Hs. apply moves_read; [done|]. intros [self|] _; [|reflexivity].
    apply net_moves, rtc_once. apply step_online.
  - apply lawful_read; [done|]. intros id s Hs. apply moves_read; [done|]. intros [self|] _; [|reflexivity].
    apply net_moves, rtc_once. apply step_offline.
  - apply lawful_create.
  - apply lawful_forward.
  - apply lawful_delete.
  - apply lawful_distribute.
  - apply lawful_reconstruct.
  - apply lawful_timelock.
  - apply lawful_destroy.
  - apply lawful_watermark.
  - apply lawful_detect.
  - apply lawful_ret.
Qed.

Lemma lawful_tick_event d ev : lawful d.(dr_now) (tick_event d ev).
Proof.
  intros s Hs. unfold tick_event, try_. pose proof (lawful_handle_event d ev s Hs) as H.
  by destruct (handle_event d ev s) as [[]].
Qed.

(** ** The constructor *)

Lemma add_peers_world now keys ids w :
  w.(token_caches) = ∅ → w.(NetworkSim.audit_log) = [] → w.(notifications) = [] → w.(in_flight) = [] →
  (∀ id p, w.(peers) !! id = Some p → ∃ key, p = new_peer now key id) →
  ∃ m, add_peers now keys ids w = mkWorld m ∅ [] [] [] ∧ ∀ id p, m !! id = Some p → ∃ key, p = new_peer now key id.
Proof.
  unfold add_peers. revert w. generalize (imap pair ids). intros l.
  induction l as [|[i id] l IH]; intros w Hc Ha Hn Hf Hp; cbn [foldl].
  { exists w.(peers). split; [|done]. by destruct w; cbn in *; subst. }
  apply IH; try done. intros id' p Hl. change (<[id := new_peer now (keys i) id]> w.(peers) !! id' = Some p) in Hl. apply lookup_insert_Some in Hl as [[<- <-]|[_ Hl]]; eauto.
Qed.

(** Peers that only joined make a reachable network. *)
Lemma joined_reachable now m :
  0 ≤ now → (∀ id p, m !! id = Some p → ∃ key, p = new_peer now key id) →
  reachable TOKEN_VALIDITY_SECONDS DEFAULT_TOMBSTONE_GRACE_SECONDS InMemory.init now
    (mkWorld m ∅ [] [] []).
Proof.
  intros Hnow. induction m as [|id p m Hid IH] using map_ind; intros Hp; [by apply reach_init|].
  destruct (Hp id p) as [key ->]; [by rewrite lookup_insert_eq|].
  eapply reach_step; [apply IH|reflexivity|apply (step_register _ _ _ _ (mkWorld m ∅ [] [] []) (new_peer now key id)); done].
  intros id' p' Hl. apply Hp. rewrite lookup_insert_ne; [done|]. intros <-. congruence.
Qed.

Lemma init_Ok now keys scenario s :
  init now keys scenario = Ok s →
  ∃ items evs l ids, scenario = JObj items ∧ opt_list "events" items = Ok evs ∧
    mapR timed (default [] evs) = Ok l ∧
    s.(world) = add_peers now keys ids (mkWorld ∅ ∅ [] [] []) ∧ s.(received_shares) = ∅ ∧ s.(tick_count) = 0 ∧
    s.(events) = (sorted_events l).*2.
Proof.
  unfold init. destruct (validate_scenario scenario) as [v|]; cbn; [|done]. destruct (negb _); [done|].
  destruct scenario as [| | | | | |items]; try done.
  destruct (match field "settings" items with None => _ | Some _ => _ end) as [settings|]; cbn; [|done].
  destruct (opt_int _ settings) as [th|]; cbn; [|done].
  destruct (opt_list "events" items) as [evs|] eqn:He; cbn; [|done].
  destruct (mapR timed _) as [l|] eqn:Hl; cbn; [|done].
  destruct (setup_ids items settings) as [ids|]; cbn; [|done]. intros [= <-].
  by exists items, evs, l, ids.
Qed.

Lemma reachable_rtc now w w' now' :
  reachable TOKEN_VALIDITY_SECONDS DEFAULT_TOMBSTONE_GRACE_SECONDS InMemory.init now w → now ≤ now' →
  rtc (net_step now') w w' →
  ∃ t, now ≤ t ≤ now' ∧ reachable TOKEN_VALIDITY_SECONDS DEFAULT_TOMBSTONE_GRACE_SECONDS InMemory.init t w'.
Proof.
  intros Hr Hle Hs. revert now Hr Hle. induction Hs as [w|w w1 w2 Hstep _ IH]; intros now Hr Hle; [exists now; by split|].
  destruct (IH now') as (t & Ht & Hw); [by eapply reach_step|done|]. exists t. split; [lia|done].
Qed.

(** C15: every run of a simulation is a run of the network: in each state that
    the engine of a scenario reaches, ticking while deliveries complete in any
    order and expired keys are cleared, the network is in a state of
    [NetworkSim.reachable], so what holds of those holds in every simulation;
    and no peer ever holds a secret share, so that [RECONSTRUCT_SECRET] changes
    nothing. *)
Theorem simulation_refines_network (start now : Z) (keys : nat → bytes) (scenario : json) (s0 s : Sim)
    (ph : phase) (trace : list (Z * event)) :
  0 ≤ start → init start keys scenario = Ok s0 → sim_run start s0 now ph s trace →
  (∃ t, start ≤ t ≤ now ∧
    reachable TOKEN_VALIDITY_SECONDS DEFAULT_TOMBSTONE_GRACE_SECONDS InMemory.init t s.(world)) ∧
  s.(received_shares) = ∅ ∧ ∀ d ev, (handle_reconstruct_secret d ev s).2 = s.
Proof.
  intros Hstart Hinit Hrun. apply init_Ok in Hinit as (items & evs & l & ids & _ & _ & _ & Hw & Hr & _).
  enough ((∃ t, start ≤ t ≤ now ∧
    reachable TOKEN_VALIDITY_SECONDS DEFAULT_TOMBSTONE_GRACE_SECONDS InMemory.init t s.(world)) ∧
    s.(received_shares) = ∅) as [Hreach Hs].
  { split; [done|]. split; [done|]. intros d ev. by apply reconstruct_never. }
  induction Hrun as [|now now' ph s ph' s' trace out Hrun [(t & Ht & Hreach) Hs] Hle Hstep].
  { split; [|done]. exists start. split; [lia|]. rewrite Hw.
    edestruct (add_peers_world start keys ids (mkWorld ∅ ∅ [] [] [])) as (m & -> & Hm); try done.
    by apply joined_reachable. }
  assert (moves now' s s' → (∃ t, start ≤ t ≤ now' ∧
    reachable TOKEN_VALIDITY_SECONDS DEFAULT_TOMBSTONE_GRACE_SECONDS InMemory.init t s'.(world)) ∧
    s'.(received_shares) = ∅) as Hmoves.
  { intros (Hsteps & Hrs & _). split; [|congruence].
    destruct (reachable_rtc _ _ _ now' Hreach ltac:(lia) Hsteps) as (t' & Ht' & ?). exists t'. split; [lia|done]. }
  destruct Hstep as [s|s d ev rest Hd|s|s|s ph before m after nonce_of _ Hf|s ph e random _]; try by apply Hmoves.
  - apply Hmoves. rewrite <- Hd. by apply lawful_tick_event.
  - split; [|done]. exists t. split; [lia|done].
  - apply Hmoves. split; [|done]. apply rtc_once. by apply step_deliver.
Qed.

(** ** The schedule *)

Definition at_time (t : Z) (l : list (Z * event)) : list (Z * event) := filter (λ te, te.1 = t) l.

Definition in_order (l : list (Z * event)) : Prop := StronglySorted (λ a b, a.1 ≤ b.1) l.

Lemma at_time_later t l : Forall (λ te : Z * event, t < te.1) l → at_time t l = [].
Proof. induction 1 as [|te l Hlt _ IH]; [done|]. unfold at_time. rewrite filter_cons_False; [done|lia]. Qed.

Lemma insert_event_in_order te l : in_order l →
  in_order (insert_event te l) ∧ ∀ x, x ∈ insert_event te l ↔ x = te ∨ x ∈ l.
Proof.
  intros Hl. induction Hl as [|te' l Hl IH Hf]; cbn [insert_event].
  { split; [repeat constructor|]. intros x. set_solver. }
  destruct (Z.ltb_spec te.1 te'.1) as [Hlt|Hge].
  - split; [|set_solver]. constructor; [by constructor|]. constructor; [lia|].
    eapply Forall_impl; [exact Hf|]. cbn. lia.
  - destruct IH as [Ho Hin]. split; [|intros x; rewrite !elem_of_cons, Hin; tauto].
    constructor; [done|]. apply Forall_forall. intros x [->|Hx]%Hin; [lia|]. rewrite Forall_forall in Hf. auto.
Qed.

(** Insertion is stable. *)
Lemma at_time_insert t te l : in_order l → at_time t (insert_event te l) = at_time t l ++ at_time t [te].
Proof.
  intros Hl. induction Hl as [|te' l Hl IH Hf]; [done|]. cbn [insert_event].
  destruct (Z.ltb_spec te.1 te'.1) as [Hlt|Hge].
  - destruct (decide (te.1 = t)) as [Ht|Ht].
    + rewrite (at_time_later t (te' :: l)).
      2: { constructor; [lia|]. eapply Forall_impl; [exact Hf|]. cbn. lia. }
      unfold at_time at 1. rewrite filter_cons_True by done. fold (at_time t (te' :: l)).
      rewrite (at_time_later t (te' :: l)).
      2: { constructor; [lia|]. eapply Forall_impl; [exact Hf|]. cbn. lia. }
      unfold at_time. by rewrite filter_cons_True.
    + unfold at_time. rewrite (filter_cons_False _ te) by done. by rewrite (filter_cons_False _ te []), app_nil_r.
  - unfold at_time in *. rewrite !(filter_cons _ te'), IH. by case_decide.
Qed.

Lemma at_time_sorted t l : at_time t (sorted_events l) = at_time t l ∧ in_order (sorted_events l).
Proof.
  induction l as [|te l [IH Ho]] using rev_ind; [split; [done|constructor]|].
  unfold sorted_events in *. rewrite foldl_app. cbn [foldl flip].
  split; [|by apply insert_event_in_order]. rewrite at_time_insert by done. rewrite IH.
  unfold at_time. by rewrite filter_app.
Qed.

(** The events of a scenario, as listed. *)
Definition listed_events (scenario : json) : list event :=
  match scenario with
  | JObj items =>
      match field "events" items with
      | Some (JArr l) => omap (λ v, match v with JObj ev => Some ev | _ => None end) l
      | _ => []
      end
  | _ => []
  end.

(** What tick [n] is to handle: the events listed for that time, in the order
    of the list. *)
Definition scheduled (scenario : json) (n : nat) : list (Z * event) :=
  pair (Z.of_nat n) <$> filter (λ ev, time_of ev = Some (Z.of_nat n)) (listed_events scenario).

Lemma timed_events l tl : mapR timed l = Ok tl →
  omap (λ v, match v with JObj ev => Some ev | _ => None end) l = tl.*2 ∧
  Forall (λ te, time_of te.2 = Some te.1) tl.
Proof.
  intros Hl%mapR_Ok_Forall2. induction Hl as [|v [t ev] l tl Hv _ [IH1 IH2]]; [done|].
  destruct v as [| | | | | |ev']; try done. cbn in Hv. unfold req_int in Hv.
  destruct (field "time" ev') as [tv|] eqn:Hf; [|done]. cbn in Hv.
  destruct (as_int tv) as [n|] eqn:Hn; [|done]. injection Hv as <- <-.
  split; [csimpl; by rewrite IH1|]. constructor; [|done]. unfold time_of. cbn [fst snd]. rewrite Hf. exact Hn.
Qed.

Lemma filter_timed t (l : list (Z * event)) : Forall (λ te, time_of te.2 = Some te.1) l →
  filter (λ ev, time_of ev = Some t) l.*2 = (at_time t l).*2.
Proof.
  induction 1 as [|te l Hte _ IH]; [done|]. unfold at_time in *. csimpl. rewrite !filter_cons, IH, Hte.
  repeat case_decide; naive_solver.
Qed.

Lemma sorted_timed l : Forall (λ te, time_of te.2 = Some te.1) l →
  Forall (λ te, time_of te.2 = Some te.1) (sorted_events l).
Proof.
  intros Hl. assert (∀ x, x ∈ sorted_events l → x ∈ l) as Hin.
  { clear Hl. induction l as [|te l IH] using rev_ind; [done|]. intros x. unfold sorted_events in *. rewrite foldl_app.
    cbn [foldl flip]. intros [->|Hx]%insert_event_in_order; [set_solver| |apply at_time_sorted; exact 0].
    apply elem_of_app. left. auto. }
  rewrite Forall_forall in *. auto.
Qed.

Lemma init_schedule now keys scenario s n :
  init now keys scenario = Ok s →
  pair (Z.of_nat n) <$> filter (λ ev, time_of ev = Some (Z.of_nat n)) s.(events) = scheduled scenario n.
Proof.
  intros (items & evs & l & ids & -> & Hevs & Hl & _ & _ & _ & ->)%init_Ok. unfold scheduled. f_equal.
  destruct (timed_events _ _ Hl) as [Hlisted Htimed].
  rewrite filter_timed by by apply sorted_timed. rewrite (proj1 (at_time_sorted _ l)).
  rewrite <- filter_timed, <- Hlisted by done. f_equal. unfold listed_events, opt_list in *.
  destruct (field "events" items) as [[]|]; try done; by injection Hevs as <-.
Qed.

Lemma sim_run_keeps start s0 now ph s trace :
  s0.(received_shares) = ∅ → sim_run start s0 now ph s trace → s.(events) = s0.(events) ∧ s.(received_shares) = ∅.
Proof.
  intros H0. induction 1 as [|now now' ph s ph' s' trace out _ [He Hr] _ Hstep]; [done|].
  destruct Hstep as [s|s d ev rest Hd|s|s|s ph before m after nonce_of _ Hf|s ph e random _]; try done.
  destruct (lawful_tick_event d ev s Hr) as (_ & Hr' & He' & _). split; congruence.
Qed.

Lemma concat_snoc_scheduled scenario n :
  concat (scheduled scenario <$> seq 0 (S n)) = concat (scheduled scenario <$> seq 0 n) ++ scheduled scenario n.
Proof. by rewrite seq_S, fmap_app, concat_app; cbn; rewrite app_nil_r. Qed.

(** C16: a simulation handles its scenario exactly.  However deliveries
    interleave and whatever exceptions handlers raise, after [n] complete
    ticks the events handled are those listed for the times below [n], each
    once, by increasing time and within a time in the order of the list; in
    the middle of a tick the events still to come complete its share. *)
Theorem simulation_schedule (start now : Z) (keys : nat → bytes) (scenario : json) (s0 s : Sim)
    (ph : phase) (trace : list (Z * event)) :
  init start keys scenario = Ok s0 → sim_run start s0 now ph s trace →
  ∃ n : nat, s.(tick_count) = Z.of_nat n ∧
    match ph with
    | Idle => trace = concat (scheduled scenario <$> seq 0 n)
    | Handling rest =>
        trace ++ (pair (Z.of_nat n) <$> rest) = concat (scheduled scenario <$> seq 0 (S n))
    | Sleeping => trace = concat (scheduled scenario <$> seq 0 (S n))
    end.
Proof.
  intros Hinit Hrun. pose proof (init_Ok _ _ _ _ Hinit) as (_ & _ & _ & _ & _ & _ & _ & _ & Hr0 & Ht0 & _).
  induction Hrun as [|now now' ph s ph' s' trace out Hrun (n & Ht & IH) Hle Hstep]; [by exists 0%nat|].
  destruct (sim_run_keeps _ _ _ _ _ _ Hr0 Hrun) as [He Hr].
  destruct Hstep as [s|s d ev rest Hd|s|s|s ph before m after nonce_of _ Hf|s ph e random _]; rewrite ?app_nil_r.
  - exists n. split; [done|]. rewrite concat_snoc_scheduled, IH. f_equal.
    unfold events_for_this_tick. rewrite He, Ht. by eapply init_schedule.
  - exists n. destruct (lawful_tick_event d ev s Hr) as (_ & _ & _ & Ht'). rewrite Ht', Ht. split; [done|].
    rewrite <- app_assoc. exact IH.
  - exists n. split; [done|]. cbn in IH. by rewrite app_nil_r in IH.
  - exists (S n). split; [cbn; lia|done].
  - by exists n.
  - by exists n.
Qed.

(** The validator lets a marked forward name its parent by message id; the
    handler reads [parent_node_hash] and raises. *)
Lemma watermark_needs_hash d ev s sender :
  field "type" ev = Some (JStr (str "WATERMARK_FORWARD")) → is_Some s.(stegano) →
  field "sender_id" ev = Some (JStr sender) → is_Some (find sender s) →
  field "parent_node_hash" ev = None → handle_event d ev s = (Raise KeyError, s).
Proof.
  intros Hty Hst Hs [self Hf] Hh. unfold handle_event. rewrite Hty. cbv zeta.
  rewrite !bool_decide_false by done. rewrite bool_decide_true by done.
  unfold handle_watermark_forward, when_enabled, mbind, M_bind, gets, lift.
  rewrite bool_decide_true by done. unfold req_str. by rewrite Hs, Hf, Hh.
Qed.
End refinement.

(** ** A small scenario *)

Definition toy_event (ty peer : string) (time : Z) : event :=
  [(str "type", JStr (str ty)); (str "time", JInt time); (str "peer_id", JStr (str peer))].

Definition toy_scenario : json :=
  JObj [(str "peers", JArr [JObj [(str "id", JStr (str "ann"))]; JObj [(str "id", JStr (str "bob"))]]);
        (str "events", JArr [JObj (toy_event "PEER_ONLINE" "bob" 1); JObj (toy_event "PEER_OFFLINE" "bob" 0)])].

Definition toy_sim : Sim :=
  mkSim (add_peers 5 (λ i, [Z.of_nat i]) ["ann"; "bob"]%string (mkWorld ∅ ∅ [] [] [])) ["ann"; "bob"]%string
    None None None ∅ ∅ ∅ 0 [toy_event "PEER_OFFLINE" "bob" 0; toy_event "PEER_ONLINE" "bob" 1].

Definition toy_sim_draw : Draw := mkDraw 6 (λ h, h) toy_entropy TimeLock.toy_lock [0].

Lemma toy_init : init 5 (λ i, [Z.of_nat i]) toy_scenario = Ok toy_sim.
Proof. reflexivity. Qed.

(** The first tick, up to its sleep. *)
Lemma toy_run :
  sim_run (C := toy_crypto) (P := toy_prims) (D := toy_digest) 5 toy_sim 6 Sleeping
    (tick_event (C := toy_crypto) (P := toy_prims) (D := toy_digest) toy_sim_draw
       (toy_event "PEER_OFFLINE" "bob" 0) toy_sim).2 [(0, toy_event "PEER_OFFLINE" "bob" 0)].
Proof.
  eapply (run_step _ _ 6 6 _ _ _ _ [(0, _)] []); [|lia|apply sim_sleep].
  eapply (run_step _ _ 5 6 _ toy_sim _ _ [] [(0, _)]); [|lia|by apply (sim_event _ toy_sim)].
  eapply (run_step _ _ 5 5 _ _ _ _ [] []); [apply run_start|lia|]. apply (sim_begin 5 toy_sim).
Qed.

Lemma simulation_refines_network_witness :
  ∃ s ph trace, sim_run (C := toy_crypto) (P := toy_prims) (D := toy_digest) 5 toy_sim 6 ph s trace ∧
  ∃ t, 5 ≤ t ≤ 6 ∧ reachable (C := toy_crypto) TOKEN_VALIDITY_SECONDS DEFAULT_TOMBSTONE_GRACE_SECONDS InMemory.init
    t s.(world).
Proof.
  do 3 eexists. split; [exact toy_run|].
  apply (simulation_refines_network (C := toy_crypto) (L := toy_crypto_laws) (P := toy_prims) (D := toy_digest)
    5 6 (λ i, [Z.of_nat i]) toy_scenario toy_sim _ Sleeping [(0, toy_event "PEER_OFFLINE" "bob" 0)]);
    [lia|exact toy_init|exact toy_run].
Defined.

Lemma simulation_schedule_witness :
  ∃ s trace, sim_run (C := toy_crypto) (P := toy_prims) (D := toy_digest) 5 toy_sim 6 Sleeping s trace ∧
  ∃ n : nat, s.(tick_count) = Z.of_nat n ∧ trace = concat (scheduled toy_scenario <$> seq 0 (S n)).
Proof.
  do 2 eexists. split; [exact toy_run|].
  apply (simulation_schedule (C := toy_crypto) (L := toy_crypto_laws) (P := toy_prims) (D := toy_digest)
    5 6 (λ i, [Z.of_nat i]) toy_scenario toy_sim _ Sleeping [(0, toy_event "PEER_OFFLINE" "bob" 0)]);
    [exact toy_init|exact toy_run].
Defined.

(** A scenario the validator accepts and the constructor does not: events need
    no [time] to be valid. *)
Lemma untimed_event_raises now keys (scenario := JObj [(str "events", JArr [JObj
    [(str "type", JStr (str "PEER_ONLINE")); (str "peer_id", JStr (str "bob"))]])]) :
  validate_scenario scenario = Ok valid_result ∧ init now keys scenario = Raise KeyError.
Proof. split; reflexivity. Qed.
