(* ===== verification/EventHandlers.v ===== *)
(** * The event handler registry ([coc_framework/event_handlers.py])

    A registry of handler objects meant to replace the chain of comparisons in
    [SimulationEngine._handle_event].  The handlers act on the engine of
    [Simulation] and write to its [audit_logger]; the engine class of this
    repository has no such attribute, so the attribute is modelled as missing,
    [None], or a logger of [AuditLog]. *)

From Stdlib Require Import ZArith Lia Ascii String.
From S2P Require Import Prelude PyData DateTime Json Crypto CoCNode Storage DeletionEngine NetworkSim AuditLog.
From S2P Require Import SecretSharing TimeLock Steganography Validation Simulation.

(** ** The engine the handlers are given *)

Inductive audit_attribute :=
  | NoAttribute
  | NoLogger
  | Logger (log : list (TamperEvident.LogEntry (EventDict json))).

Record Engine := mkEngine {
  sim : Sim;
  audit_logger : audit_attribute;
}.

(** A call on the engine or its peers. *)
Definition on {A} (m : M Sim A) : M Engine A := λ e,
  let '(r, s) := m e.(sim) in (r, mkEngine s e.(audit_logger)).

Definition try_log (m : M Engine unit) : M Engine unit := λ e,
  match m e with (Raise _, e') => (Ok (), e') | r => r end.

Section handlers.
Context {C : Crypto} {P : SharingPrims} {D : Digest}.
(** [json.dumps] and SHA-256 of the audit log. *)
Context (dumps : EventDict json → string → string → string) (sha256 : string → string).

(** ** [EventHandler]: the shared helpers *)

Definition find_peer (id : pystr) : M Engine (option string) := on (gets (find id)).

Definition log_audit (d : Draw) (ty : AuditEventType) (actor : string) (target : option string)
    (details : list (string * json)) : M Engine unit := λ e,
  match e.(audit_logger) with
  | NoAttribute => (Raise AttributeError, e)
  | NoLogger => (Ok (), e)
  | Logger log =>
      let details := dict_of (("tick"%string, JInt e.(sim).(tick_count)) :: details) in
      (Ok (), mkEngine e.(sim) (Logger (logger_log dumps sha256 d.(dr_now) ty actor target details log).2))
  end.

(** [resolve_parent_hash] and [resolve_node_hash]: a hash under [hash_key], or
    a registered message id under [id_key]. *)
Definition resolve_hash (hash_key id_key : string) (ev : event) : M Engine (option string) :=
  given ← lift (opt_str hash_key ev);
  match nonempty given with
  | Some h => mret (match text_of h with Ok h => Some h | Raise _ => None end)
  | None =>
      if has_field ev id_key then
        message_id ← lift (opt_str id_key ev);
        on (gets (λ s, message_id ← message_id; s.(message_registry) !! message_id))
      else mret None
  end.

Definition register_message (ev : event) (node_hash : string) : M Engine unit :=
  match field "message_id" ev with
  | Some (JStr message_id) => on (modify (set_registry message_id node_hash))
  | Some _ => raise TypeError
  | None => mret ()
  end.

(** [event.get("message_id")] as a detail of an audit event. *)
Definition message_id_detail (ev : event) : string * json :=
  ("message_id"%string, default JNull (field "message_id" ev)).
Definition recipients_detail (ev : event) : string * json :=
  ("recipients"%string, default JNull (field "recipient_ids" ev)).

(** ** Handlers *)

Definition PeerOnlineHandler (d : Draw) (ev : event) : M Engine unit :=
  peer_id ← lift (req_str "peer_id" ev);
  peer ← find_peer peer_id;
  match peer with
  | None => mret ()
  | Some peer =>
      on (net (go_online TOKEN_VALIDITY_SECONDS DEFAULT_TOMBSTONE_GRACE_SECONDS d.(dr_now) d.(dr_nonce_of) peer)) ;;
      log_audit d PEER_JOINED peer None []
  end.

Definition PeerOfflineHandler (d : Draw) (ev : event) : M Engine unit :=
  peer_id ← lift (req_str "peer_id" ev);
  peer ← find_peer peer_id;
  match peer with
  | None => mret ()
  | Some peer =>
      on (net (go_offline d.(dr_now) peer)) ;;
      log_audit d PEER_LEFT peer None []
  end.

Definition CreateMessageHandler (d : Draw) (ev : event) : M Engine unit :=
  originator_id ← lift (req_str "originator_id" ev);
  originator ← find_peer originator_id;
  match originator with
  | None => mret ()
  | Some originator =>
      recipients ← lift (req_list "recipient_ids" ev);
      content ← lift (req_str "content" ev);
      content ← lift (text_of content);
      recipient_ids ← lift (ids_of recipients);
      node ← on (net (create_coc_root d.(dr_now) originator content recipient_ids));
      register_message ev node.(node_hash) ;;
      log_audit d CONTENT_CREATED originator (Some node.(node_hash)) [recipients_detail ev; message_id_detail ev] ;;
      for_each recipient_ids (λ recipient_id,
        on (net (send_message d.(dr_now) originator recipient_id (CocData (to_dict node) content))) ;;
        log_audit d MESSAGE_SENT originator (Some recipient_id) [("node_hash"%string, JStr (str node.(node_hash)))])
  end.

(** The audit event of a forward. *)
Definition log_forwarded (d : Draw) (ty : AuditEventType) (sender parent_hash : string) (child_node : CoCNode)
    (ev : event) (more : list (string * json)) : M Engine unit :=
  log_audit d ty sender (Some child_node.(node_hash))
    ([("parent_hash"%string, JStr (str parent_hash)); recipients_detail ev] ++ more).

Definition forward_marked (d : Draw) (sender parent_hash : string) (parent_node : CoCNode)
    (recipients : list json) (content : string) (ev : event) : M Engine unit :=
  recipient_ids ← lift (ids_of recipients);
  child_node ← on (forward_with_watermark d sender parent_node recipient_ids content);
  register_message ev child_node.(node_hash) ;;
  log_forwarded d CONTENT_FORWARDED sender parent_hash child_node ev [("watermarked"%string, JBool true)].

Definition forward_standard (d : Draw) (sender parent_hash : string) (parent_node : CoCNode)
    (recipients : list json) (ev : event) : M Engine unit :=
  recipient_ids ← lift (ids_of recipients);
  '(child_node, _) ← on (net (forward_coc_message d.(dr_now) sender parent_node recipient_ids));
  register_message ev child_node.(node_hash) ;;
  log_forwarded d CONTENT_FORWARDED sender parent_hash child_node ev [("watermarked"%string, JBool false)] ;;
  for_each recipient_ids (λ recipient_id,
    on (net (send_message d.(dr_now) sender recipient_id
      (CocData (to_dict child_node) child_node.(CoCNode.content_hash))))).

Definition ForwardMessageHandler (d : Draw) (ev : event) : M Engine unit :=
  sender_id ← lift (req_str "sender_id" ev);
  sender ← find_peer sender_id;
  match sender with
  | None => mret ()
  | Some sender =>
      parent_hash ← resolve_hash "parent_node_hash" "parent_message_id" ev;
      match parent_hash with
      | None => mret ()
      | Some parent_hash =>
          parent_node ← on (gets (stored_node sender parent_hash));
          match parent_node with
          | None => mret ()
          | Some parent_node =>
              recipients ← lift (req_list "recipient_ids" ev);
              use_watermark ← on (gets (λ s,
                truthy (default (JBool false) (field "use_watermark" ev)) && bool_decide (is_Some s.(stegano))));
              content ← on (gets (stored_content sender parent_node.(CoCNode.content_hash)));
              match use_watermark : bool, content with
              | true, Some (String _ _ as content) =>
                  forward_marked d sender parent_hash parent_node recipients content ev
              | _, _ => forward_standard d sender parent_hash parent_node recipients ev
              end
          end
      end
  end.

Definition DeleteMessageHandler (d : Draw) (ev : event) : M Engine unit :=
  originator_id ← lift (req_str "originator_id" ev);
  originator ← find_peer originator_id;
  match originator with
  | None => mret ()
  | Some originator =>
      node_hash ← resolve_hash "node_hash" "message_id" ev;
      match node_hash with
      | None => mret ()
      | Some node_hash =>
          node_to_delete ← on (gets (stored_node originator node_hash));
          match node_to_delete with
          | None => mret ()
          | Some node =>
              on (net (initiate_deletion d.(dr_now) d.(dr_nonce_of) originator node)) ;;
              log_audit d DELETION_REQUESTED originator (Some node_hash) [message_id_detail ev]
          end
      end
  end.

Definition enabled {E} (engine : Sim → option E) (m : M Engine unit) : M Engine unit :=
  present ← on (gets (λ s, bool_decide (is_Some (engine s))));
  if present : bool then m else mret ().

Definition DistributeSharesHandler (d : Draw) (ev : event) : M Engine unit :=
  enabled sharing (
    originator_id ← lift (req_str "originator_id" ev);
    originator ← find_peer originator_id;
    match originator with
    | None => mret ()
    | Some originator => try_log (
        content ← lift (req_str "content" ev);
        recipients ← lift (req_list "recipient_ids" ev);
        threshold ← lift (opt_int "threshold" ev);
        recipient_ids ← lift (ids_of recipients);
        share_map ← on (distribute_shares d originator content recipient_ids threshold);
        first_share ← lift (from_option_exn RuntimeError (share_map !! 0%nat));
        on (modify (set_distribution first_share.2.(SecretSharing.content_hash)
          (mkDistribution originator_id recipient_ids share_map))))
    end).

Definition ReconstructSecretHandler (d : Draw) (ev : event) : M Engine unit :=
  enabled sharing (
    requester_id ← lift (req_str "requester_id" ev);
    requester ← find_peer requester_id;
    match requester with
    | None => mret ()
    | Some requester =>
        content_hash ← lift (req_str "content_hash" ev);
        contributor_ids ← lift (opt_list "contributor_ids" ev);
        collected_shares ← on (collect_shares content_hash (default [] contributor_ids));
        try_log (
          reconstructed ← on (collect_and_reconstruct requester content_hash collected_shares.*2);
          match nonempty reconstructed with
          | Some reconstructed =>
              hash ← lift (text_of content_hash);
              text ← lift (text_of reconstructed);
              on (net (update_storage requester (add_content d.(dr_now) hash text)))
          | None => mret ()
          end)
    end).

Definition TimelockContentHandler (d : Draw) (ev : event) : M Engine unit :=
  enabled timelock (
    originator_id ← lift (req_str "originator_id" ev);
    originator ← find_peer originator_id;
    match originator with
    | None => mret ()
    | Some originator => try_log (
        content ← lift (req_str "content" ev);
        ttl_seconds ← lift (req_int "ttl_seconds" ev);
        recipients ← lift (req_list "recipient_ids" ev);
        recipient_ids ← lift (ids_of recipients);
        on (create_timelocked_content d originator content ttl_seconds recipient_ids) ;;
        mret ())
    end).

Definition DestroyTimelockHandler (d : Draw) (ev : event) : M Engine unit :=
  enabled timelock (
    peer_id ← lift (req_str "peer_id" ev);
    peer ← find_peer peer_id;
    match peer with
    | None => mret ()
    | Some _ =>
        lock_id ← lift (req_str "lock_id" ev);
        on (destroy_timelock d lock_id) ;;
        mret ()
    end).

Definition WatermarkForwardHandler (d : Draw) (ev : event) : M Engine unit :=
  enabled stegano (
    sender_id ← lift (req_str "sender_id" ev);
    sender ← find_peer sender_id;
    match sender with
    | None => mret ()
    | Some sender =>
        parent_hash ← resolve_hash "parent_node_hash" "parent_message_id" ev;
        match parent_hash with
        | None => mret ()
        | Some parent_hash =>
            parent_node ← on (gets (stored_node sender parent_hash));
            match parent_node with
            | None => mret ()
            | Some parent_node =>
                content ← on (gets (stored_content sender parent_node.(CoCNode.content_hash)));
                match content with
                | Some (String _ _ as content) =>
                    recipients ← lift (req_list "recipient_ids" ev);
                    try_log (
                      recipient_ids ← lift (ids_of recipients);
                      child_node ← on (forward_with_watermark d sender parent_node recipient_ids content);
                      register_message ev child_node.(node_hash) ;;
                      log_forwarded d WATERMARK_EMBEDDED sender parent_hash child_node ev [])
                | _ => mret ()
                end
            end
        end
    end).

(** The fields of the result that the audit event carries; a confidence is a
    ratio. *)
Definition leak_details (r : ExtractionResult) : list (string * json) :=
  [("confidence"%string, JArr [JInt r.(confidence).1; JInt r.(confidence).2]);
   ("method"%string, JStr (str r.(method)))].

(** The peer the watermark names, when it is text. *)
Definition leak_target (r : ExtractionResult) : option string :=
  match r.(er_peer_id) with
  | Some (JStr p) => match text_of p with Ok id => Some id | Raise _ => None end
  | _ => None
  end.

Definition DetectLeakHandler (d : Draw) (ev : event) : M Engine unit :=
  enabled stegano (
    investigator_id ← lift (req_str "investigator_id" ev);
    investigator ← find_peer investigator_id;
    match investigator with
    | None => mret ()
    | Some investigator =>
        named ← lift (opt_list "suspect_ids" ev);
        suspect_ids ← on (suspects_of (match named with Some [] => None | _ => named end));
        result ← on (find_leak ev suspect_ids);
        if result.(success) then
          lift (sliceable result.(er_peer_id)) ;;
          log_audit d LEAK_DETECTED investigator (leak_target result) (leak_details result)
        else mret ()
    end).

(** ** [EventRegistry] *)

Abbreviation handler := (Draw → event → M Engine unit).

Record EventRegistry := mkRegistry {
  handlers : list (pystr * handler);
  validate_events : bool;
}.

Definition empty_registry (validate_events : bool) : EventRegistry := mkRegistry [] validate_events.

(** [register], the handler with its [event_type]. *)
Definition register (r : EventRegistry) (h : string * handler) : EventRegistry :=
  mkRegistry (set_item (str h.1) h.2 r.(handlers)) r.(validate_events).

Definition get_handler (r : EventRegistry) (event_type : pystr) : option handler :=
  get_item event_type r.(handlers).

Definition registry_handle_event (r : EventRegistry) (d : Draw) (ev : event) : M Engine unit :=
  if r.(validate_events) && negb (validate_event (JObj ev)).(is_valid) then raise ValidationError
  else
    match field "type" ev with
    | Some (JStr event_type) =>
        match get_handler r event_type with
        | Some h => h d ev
        | None => mret ()
        end
    | Some (JArr _) | Some (JObj _) => raise TypeError
    | _ => mret ()
    end.

Definition create_default_registry (validate_events : bool) : EventRegistry :=
  foldl register (empty_registry validate_events)
    [("PEER_ONLINE"%string, PeerOnlineHandler); ("PEER_OFFLINE"%string, PeerOfflineHandler);
     ("CREATE_MESSAGE"%string, CreateMessageHandler); ("FORWARD_MESSAGE"%string, ForwardMessageHandler);
     ("DELETE_MESSAGE"%string, DeleteMessageHandler); ("DISTRIBUTE_SHARES"%string, DistributeSharesHandler);
     ("RECONSTRUCT_SECRET"%string, ReconstructSecretHandler); ("TIMELOCK_CONTENT"%string, TimelockContentHandler);
     ("DESTROY_TIMELOCK"%string, DestroyTimelockHandler); ("WATERMARK_FORWARD"%string, WatermarkForwardHandler);
     ("DETECT_LEAK"%string, DetectLeakHandler)].
End handlers.

(** ** The registry agrees with the chain of comparisons *)

Section equivalence.
Context {C : Crypto} {P : SharingPrims} {D : Digest}.
Context (dumps : EventDict json → string → string → string) (sha256 : string → string).
Implicit Types (ev : event) (d : Draw).

(** Without a logger the handler does to the engine what [m'] does. *)
Definition agree {A} (m : M Engine A) (m' : M Sim A) : Prop :=
  ∀ s, m (mkEngine s NoLogger) = let '(r, s') := m' s in (r, mkEngine s' NoLogger).

Lemma agree_on {A} (m : M Sim A) : agree (on m) m.
Proof. by intros s. Qed.
Lemma agree_ret {A} (a : A) : agree (mret a) (mret a).
Proof. by intros s. Qed.
Lemma agree_lift {A} (r : result A) : agree (lift r) (lift r).
Proof. by intros s. Qed.
Lemma agree_bind {A B} (m : M Engine A) (m' : M Sim A) (f : A → M Engine B) (f' : A → M Sim B) :
  agree m m' → (∀ a, agree (f a) (f' a)) → agree (m ≫= f) (m' ≫= f').
Proof.
  intros Hm Hf s. unfold mbind, M_bind. rewrite (Hm s). destruct (m' s) as [[a|e] s']; [apply Hf|done].
Qed.
Lemma agree_read_l {A B} (a : A) (f : A → M Engine B) (m' : M Sim B) : agree (f a) m' → agree (lift (Ok a) ≫= f) m'.
Proof. intros Hf s. apply Hf. Qed.
Lemma agree_value_l {A B} (a : A) (m : M Engine A) (f : A → M Engine B) (m' : M Sim B) :
  (∀ s, m (mkEngine s NoLogger) = (Ok a, mkEngine s NoLogger)) → agree (f a) m' → agree (m ≫= f) m'.
Proof. intros Hm Hf s. unfold mbind, M_bind. rewrite Hm. apply Hf. Qed.
Lemma agree_read_r {A B} (a : A) (m : M Engine B) (f : A → M Sim B) : agree m (f a) → agree m (lift (Ok a) ≫= f).
Proof. intros Hf s. apply Hf. Qed.

(** An audit event before or after changes nothing. *)
Lemma agree_log_then d ty actor target details (m : M Engine unit) (m' : M Sim unit) :
  agree m m' → agree (log_audit dumps sha256 d ty actor target details ;; m) m'.
Proof. intros Hm s. apply Hm. Qed.
Lemma agree_log_after d ty actor target details (m : M Engine unit) (m' : M Sim unit) :
  agree m m' → agree (m ;; log_audit dumps sha256 d ty actor target details) m'.
Proof. intros Hm s. unfold mbind, M_bind. rewrite (Hm s). by destruct (m' s) as [[[]|e] s']. Qed.
Lemma agree_for_each {A} (l : list A) body body' :
  (∀ x, agree (body x) (body' x)) → agree (for_each l body) (for_each l body').
Proof.
  intros Hb. induction l as [|x l IH]; simpl; [apply agree_ret|]. apply agree_bind; [done|]. by intros _.
Qed.

(** Which exception it is does not matter where it is caught. *)
Definition agree_up (m : M Engine unit) (m' : M Sim unit) : Prop :=
  ∀ s, match m' s with
       | (Ok u, s') => m (mkEngine s NoLogger) = (Ok u, mkEngine s' NoLogger)
       | (Raise _, s') => ∃ e, m (mkEngine s NoLogger) = (Raise e, mkEngine s' NoLogger)
       end.
Lemma agree_agree_up m m' : agree m m' → agree_up m m'.
Proof. intros Hm s. rewrite (Hm s). destruct (m' s) as [[]]; eauto. Qed.
Lemma agree_up_bind {A} (m : M Engine A) (m' : M Sim A) f f' :
  agree m m' → (∀ a, agree_up (f a) (f' a)) → agree_up (m ≫= f) (m' ≫= f').
Proof.
  intros Hm Hf s. unfold mbind, M_bind. rewrite (Hm s). destruct (m' s) as [[a|e] s']; [apply Hf|eauto].
Qed.
Lemma agree_try_up m m' : agree_up m m' → agree (try_log m) (try_ m').
Proof.
  intros Hm s. specialize (Hm s). unfold try_log, try_.
  destruct (m' s) as [[u|e] s']; [by rewrite Hm|by destruct Hm as [e' ->]].
Qed.
Lemma agree_try m m' : agree m m' → agree (try_log m) (try_ m').
Proof. intros Hm. by apply agree_try_up, agree_agree_up. Qed.
Lemma agree_enabled {E} (engine : Sim → option E) m m' : agree m m' → agree (enabled engine m) (when_enabled engine m').
Proof. intros Hm. apply agree_bind; [apply agree_on|]. intros [|]; [done|apply agree_ret]. Qed.

(** ** What validation says of the fields *)

Section validated.
Context (ev : event) (Hev : event_ok ev).

Lemma string_field k : k ∈ STRING_FIELDS → field k ev = None ∨ ∃ c s, field k ev = Some (JStr (c :: s)).
Proof.
  intros Hk. destruct (field k ev) as [v|] eqn:Hf; [right|by left].
  assert (table_get (str k) FIELD_TYPES = Some Tstr) as Ht.
  { revert k Hk Hf. apply (Forall_forall (λ k, field k ev = Some v → table_get (str k) FIELD_TYPES = Some Tstr)).
    repeat constructor. }
  pose proof (eo_types ev Hev _ _ _ (get_item_Some_in _ _ _ Hf) Ht) as Hv.
  destruct v as [| | | |s| |]; try done. pose proof (eo_strings ev Hev _ _ Hk Hf) as Hs.
  destruct s as [|c s]; [done|]. by exists c, s.
Qed.

Lemma recipients_field : field "recipient_ids" ev = None ∨ ∃ l, field "recipient_ids" ev = Some (JArr l).
Proof.
  destruct (field "recipient_ids" ev) as [v|] eqn:Hf; [right|by left].
  pose proof (eo_types ev Hev _ _ Tlist (get_item_Some_in _ _ _ Hf) eq_refl) as Hv.
  destruct v; try done. eauto.
Qed.

Lemma agree_register h :
  agree (register_message ev h) (id ← lift (opt_str "message_id" ev); Simulation.register_message id h).
Proof.
  unfold register_message, opt_str. destruct (string_field "message_id") as [->|(c & s & ->)]; [set_solver|..]; by intros s'.
Qed.

Lemma agree_resolve hash_key id_key : hash_key ∈ STRING_FIELDS → id_key ∈ STRING_FIELDS →
  agree (resolve_hash hash_key id_key ev) (resolve hash_key id_key ev).
Proof.
  intros Hh Hi s. unfold resolve_hash, resolve, opt_str, has_field.
  destruct (string_field hash_key Hh) as [->|(c & h & ->)]; [|done].
  destruct (string_field id_key Hi) as [->|(c & i & ->)]; done.
Qed.
End validated.

(** Both sides make the same call. *)
Tactic Notation "agree_call" simple_intropattern(x) :=
  apply agree_bind; [first [apply agree_lift|apply agree_on]|]; intros x.

Lemma agree_online d ev :
  agree (PeerOnlineHandler dumps sha256 d ev)
    (peer_id ← lift (req_str "peer_id" ev); peer ← gets (find peer_id);
     match peer with
     | Some peer => net (go_online TOKEN_VALIDITY_SECONDS DEFAULT_TOMBSTONE_GRACE_SECONDS
                           d.(dr_now) d.(dr_nonce_of) peer)
     | None => mret ()
     end).
Proof.
  agree_call id. agree_call peer. destruct peer; [|apply agree_ret]. apply agree_log_after, agree_on.
Qed.

Lemma agree_offline d ev :
  agree (PeerOfflineHandler dumps sha256 d ev)
    (peer_id ← lift (req_str "peer_id" ev); peer ← gets (find peer_id);
     match peer with Some peer => net (go_offline d.(dr_now) peer) | None => mret () end).
Proof.
  agree_call id. agree_call peer. destruct peer; [|apply agree_ret]. apply agree_log_after, agree_on.
Qed.

(** Registering the new message, then the rest. *)
Lemma agree_registered {B} ev h (f : unit → M Engine B) (f' : unit → M Sim B) :
  event_ok ev → (∀ u, agree (f u) (f' u)) →
  agree (register_message ev h ≫= f) (id ← lift (opt_str "message_id" ev); Simulation.register_message id h ≫= f').
Proof.
  intros Hev Hf s. unfold mbind, M_bind. rewrite (agree_register ev Hev h s). unfold mbind, M_bind, lift.
  destruct (opt_str "message_id" ev) as [id|e]; [|done].
  destruct (Simulation.register_message id h s) as [[u|e] s']; [apply Hf|done].
Qed.

Lemma agree_create d ev :
  event_ok ev → is_Some (field "content" ev) → is_Some (field "recipient_ids" ev) →
  agree (CreateMessageHandler dumps sha256 d ev) (handle_create_message d ev).
Proof.
  intros Hev Hc Hr. agree_call id. agree_call peer. destruct peer as [self|]; [|apply agree_ret].
  destruct (recipients_field ev Hev) as [Hn|[l Hl]]; [rewrite Hn in Hr; by destruct Hr|].
  destruct (string_field ev Hev "content") as [Hn|(c & text & Ht)]; [set_solver|rewrite Hn in Hc; by destruct Hc|].
  unfold req_list, req_str. rewrite Hl, Ht. apply agree_read_l, agree_read_l, agree_read_r, agree_read_r.
  agree_call content. agree_call recipients. agree_call n. apply agree_registered; [done|]. intros _.
  apply agree_log_then, agree_for_each. intros r. apply agree_log_after, agree_on.
Qed.

Lemma agree_forward d ev :
  event_ok ev → is_Some (field "recipient_ids" ev) →
  agree (ForwardMessageHandler dumps sha256 d ev) (handle_forward_message d ev).
Proof.
  intros Hev Hr. agree_call id. agree_call peer. destruct peer as [self|]; [|apply agree_ret].
  apply agree_bind; [apply agree_resolve; [done|set_solver..]|]. intros [h|]; [|apply agree_ret].
  agree_call parent. destruct parent as [n|]; [|apply agree_ret].
  destruct (recipients_field ev Hev) as [Hn|[l Hl]]; [rewrite Hn in Hr; by destruct Hr|].
  assert (req_list "recipient_ids" ev = Ok l) as Hreq by (unfold req_list; by rewrite Hl).
  rewrite Hreq. apply agree_read_l. agree_call use. agree_call content.
  assert (agree (forward_standard dumps sha256 d self h n l ev) (forward_plain d self n ev)) as Hplain.
  { unfold forward_plain. rewrite Hreq. apply agree_read_r. agree_call recipients. agree_call cp.
    destruct cp as [child parent]. apply agree_registered; [done|]. intros _.
    apply agree_log_then, agree_for_each. intros r. apply agree_on. }
  destruct use, content as [[|c content]|]; try exact Hplain.
  apply agree_read_r. agree_call recipients. agree_call child.
  apply agree_log_after. by apply agree_register.
Qed.

Lemma agree_delete d ev : event_ok ev → agree (DeleteMessageHandler dumps sha256 d ev) (handle_delete_message d ev).
Proof.
  intros Hev. agree_call id. agree_call peer. destruct peer as [self|]; [|apply agree_ret].
  apply agree_bind; [apply agree_resolve; [done|set_solver..]|]. intros [h|]; [|apply agree_ret].
  agree_call node. destruct node as [n|]; [|apply agree_ret]. apply agree_log_after, agree_on.
Qed.

Lemma agree_distribute d ev : agree (DistributeSharesHandler d ev) (handle_distribute_shares d ev).
Proof.
  apply agree_enabled. agree_call ?. agree_call [self|]; [|apply agree_ret]. apply agree_try_up.
  do 4 (apply agree_up_bind; [apply agree_lift|]; intros ?).
  apply agree_up_bind; [apply agree_on|]. intros items. destruct (items !! 0%nat) as [share0|]; cbn.
  - apply agree_agree_up, agree_read_l, agree_read_r, agree_on.
  - intros s. by exists RuntimeError.
Qed.

Lemma agree_reconstruct d ev : agree (ReconstructSecretHandler d ev) (handle_reconstruct_secret d ev).
Proof.
  apply agree_enabled. agree_call ?. agree_call [self|]; [|apply agree_ret].
  agree_call hash. agree_call contributors. agree_call shares. apply agree_try.
  agree_call secret. destruct (nonempty secret); [|apply agree_ret]. agree_call ?. agree_call ?. apply agree_on.
Qed.

Lemma agree_timelock d ev :
  event_ok ev → is_Some (field "recipient_ids" ev) →
  agree (TimelockContentHandler d ev) (handle_timelock_content d ev).
Proof.
  intros Hev Hr. apply agree_enabled. agree_call ?. agree_call [self|]; [|apply agree_ret]. apply agree_try.
  agree_call content. agree_call ttl.
  destruct (recipients_field ev Hev) as [Hn|[l Hl]]; [rewrite Hn in Hr; by destruct Hr|].
  unfold req_list, opt_list. rewrite Hl. apply agree_read_l, agree_read_r. cbn [default from_option id].
  agree_call recipients. agree_call ?. apply agree_ret.
Qed.

Lemma agree_destroy d ev : agree (DestroyTimelockHandler d ev) (handle_destroy_timelock d ev).
Proof.
  apply agree_enabled. agree_call ?. agree_call [self|]; [|apply agree_ret].
  agree_call lock_id. agree_call ?. apply agree_ret.
Qed.

Lemma agree_watermark d ev :
  event_ok ev → is_Some (field "recipient_ids" ev) → is_Some (field "parent_node_hash" ev) →
  field "message_id" ev = None →
  agree (WatermarkForwardHandler dumps sha256 d ev) (handle_watermark_forward d ev).
Proof.
  intros Hev Hr Hh Hm. apply agree_enabled. agree_call ?. agree_call [self|]; [|apply agree_ret].
  destruct (string_field ev Hev "parent_node_hash") as [Hn|(c & h & Hp)]; [set_solver|rewrite Hn in Hh; by destruct Hh|].
  destruct (recipients_field ev Hev) as [Hn|[l Hl]]; [rewrite Hn in Hr; by destruct Hr|].
  apply (agree_value_l (match text_of (c :: h) with Ok i => Some i | Raise _ => None end)).
  { intros s. unfold resolve_hash, opt_str. by rewrite Hp. }
  unfold req_str, req_list. rewrite Hp, Hl. apply agree_read_r.
  destruct (text_of (c :: h)) as [hash|]; [|by intros s].
  agree_call [n|]; [|apply agree_ret]. agree_call [[|letter content]|]; try apply agree_ret.
  apply agree_read_l, agree_try, agree_read_r. agree_call recipients. agree_call child.
  apply agree_log_after. unfold register_message. rewrite Hm. apply agree_ret.
Qed.

Lemma agree_detect d ev :
  field "suspect_ids" ev ≠ Some (JArr []) →
  agree (DetectLeakHandler dumps sha256 d ev) (handle_detect_leak ev).
Proof.
  intros Hs. apply agree_enabled. agree_call ?. agree_call [self|]; [|apply agree_ret].
  assert (∀ named, opt_list "suspect_ids" ev = Ok named → match named with Some [] => None | _ => named end = named) as Hnamed.
  { intros [[|]|]; unfold opt_list; try done. destruct (field "suspect_ids" ev) as [[]|]; try done. by intros [= ->]. }
  destruct (opt_list "suspect_ids" ev) as [named|e]; [|by intros s].
  apply agree_read_l, agree_read_r. rewrite (Hnamed named eq_refl).
  agree_call suspects. agree_call r. destruct (success r); [|apply agree_ret].
  intros s. unfold mbind, M_bind, lift. by destruct (sliceable _) as [[]|e].
Qed.

(** ** The whole registry *)

(** The events on which the two differ although both accept them: a marked
    forward that names its parent by message id, or is given a message id
    itself; locked content without recipients; an empty list of suspects. *)
Record replaceable ev : Prop := {
  rp_watermark : field "type" ev = Some (JStr (str "WATERMARK_FORWARD")) →
    is_Some (field "parent_node_hash" ev) ∧ field "message_id" ev = None;
  rp_timelock : field "type" ev = Some (JStr (str "TIMELOCK_CONTENT")) → is_Some (field "recipient_ids" ev);
  rp_suspects : field "suspect_ids" ev ≠ Some (JArr []);
}.

Lemma required_fields ev (name : string) required : event_ok ev →
  field "type" ev = Some (JStr (str name)) → table_get (str name) REQUIRED_FIELDS = Some required →
  ∀ k, k ∈ required → is_Some (field k ev).
Proof.
  intros [(ty & req & Hty & Hreq & Hk & _) _ _ _ _ _ _ _] Hname Htab k Hin.
  rewrite Hname in Hty. injection Hty as <-. rewrite Htab in Hreq. injection Hreq as <-. auto.
Qed.

(** The handler a known event type has in the default registry does what the
    branch of that type does. *)
Lemma agree_default ev d ty h :
  event_ok ev → replaceable ev → field "type" ev = Some (JStr ty) →
  get_handler (create_default_registry dumps sha256 true) ty = Some h →
  agree (h d ev) (Simulation.handle_event d ev).
Proof.
  intros Hev [Hw Ht Hs] Hty Hh. unfold get_handler in Hh. apply get_item_Some_in in Hh.
  pose proof (required_fields ev) as Hreq. unfold Simulation.handle_event. rewrite Hty.
  repeat (apply elem_of_cons in Hh as [[= -> ->]|Hh]); [..|by apply elem_of_nil in Hh]; cbv zeta;
    rewrite ?bool_decide_false by done; rewrite bool_decide_true by done.
  - apply agree_online.
  - apply agree_offline.
  - apply agree_create; [done|eapply Hreq..]; try done; set_solver.
  - apply agree_forward; [done|eapply Hreq]; try done; set_solver.
  - by apply agree_delete.
  - apply agree_distribute.
  - apply agree_reconstruct.
  - apply agree_timelock; auto.
  - apply agree_destroy.
  - destruct (Hw Hty). apply agree_watermark; try done. eapply Hreq; [done..|set_solver].
  - by apply agree_detect.
Qed.

Lemma known_type_handler ty required : table_get ty REQUIRED_FIELDS = Some required →
  is_Some (get_handler (create_default_registry dumps sha256 true) ty).
Proof.
  unfold get_handler, REQUIRED_FIELDS. cbn [table_get].
  repeat match goal with
  | |- (if decide ?Q then _ else _) = _ → _ => destruct (decide Q) as [<-|]; [intros _; eexists; reflexivity|]
  end. done.
Qed.

(** C17: the registry is a replacement for the chain of comparisons, as its
    documentation says, on an engine whose [audit_logger] is [None] and for
    every valid event except those listed in [replaceable]: the same state,
    the same result, and the same exception where one escapes. *)
Theorem registry_equivalent d ev (e : Engine) :
  (validate_event (JObj ev)).(is_valid) = true → e.(audit_logger) = NoLogger → replaceable ev →
  registry_handle_event (create_default_registry dumps sha256 true) d ev e =
    let '(r, s) := Simulation.handle_event d ev e.(sim) in (r, mkEngine s NoLogger).
Proof.
  intros Hv Hlog Hrep. destruct e as [s logger]. cbn in Hlog. subst logger. cbn [sim].
  unfold registry_handle_event. change (validate_events _) with true. rewrite Hv. cbn [andb negb].
  apply validate_event_valid in Hv as Hev.
  pose proof Hev as [(ty & req & Hty & Hreq & _) _ _ _ _ _ _ _]. rewrite Hty.
  destruct (known_type_handler ty req Hreq) as [h Hh]. rewrite Hh.
  by apply (agree_default ev d ty h).
Qed.

(** On the engine as this repository builds it there is no [audit_logger]: a
    message is created and registered, and none is sent. *)
Lemma missing_logger_stops_create d ev e self content l recipients text :
  e.(audit_logger) = NoAttribute →
  field "originator_id" ev = Some (JStr self) → is_Some (find self e.(sim)) →
  field "content" ev = Some (JStr content) → text_of content = Ok text →
  field "recipient_ids" ev = Some (JArr l) → ids_of l = Ok recipients →
  (∀ m, field "message_id" ev = Some m → ∃ t, m = JStr t) →
  let '(r, e') := CreateMessageHandler dumps sha256 d ev e in
  r = Raise AttributeError ∧ e'.(sim).(world).(in_flight) = e.(sim).(world).(in_flight) ∧
  ∀ id, offline_queue <$> e'.(sim).(world).(peers) !! id = offline_queue <$> e.(sim).(world).(peers) !! id.
Proof.
  intros Hlog Ho [id Hid] Hc Ht Hl Hids Hm. destruct e as [s logger]. cbn in Hlog, Hid. subst logger.
  assert (∃ p, s.(world).(peers) !! id = Some p) as [p Hp].
  { unfold find in Hid. destruct (text_of self); [|done]. apply fmap_Some in Hid as (p & Hp & ->). eauto. }
  unfold CreateMessageHandler, find_peer, req_str, req_list. rewrite Ho, Hc, Hl.
  unfold mbind, M_bind, lift, on, gets. cbn [sim]. rewrite Hid, Ht, Hids.
  unfold net, create_coc_root, get_peer, mbind, M_bind, lift, from_option_exn. cbn [sim]. rewrite Hp. cbn -[peers].
  set (s1 := set_world _ s).
  assert (∀ i, offline_queue <$> s1.(world).(peers) !! i = offline_queue <$> s.(world).(peers) !! i) as Hq.
  { intros i. cbn. rewrite !lookup_alter. repeat case_decide; subst; try done; by destruct (peers (world s) !! _). }
  unfold register_message. destruct (field "message_id" ev) as [m|] eqn:Em; [|done].
  destruct (Hm m eq_refl) as [t ->]. done.
Qed.
End equivalence.

Lemma toy_event_valid : (validate_event (JObj (toy_event "PEER_OFFLINE" "bob" 0))).(is_valid) = true.
Proof. reflexivity. Qed.

Lemma toy_event_replaceable : replaceable (toy_event "PEER_OFFLINE" "bob" 0).
Proof. split; vm_compute; [intros [=]..|done]. Qed.

Lemma registry_equivalent_witness :
  registry_handle_event
    (create_default_registry (C := toy_crypto) (P := toy_prims) (D := toy_digest) (λ _ _ _, "") (λ s, s) true)
    toy_sim_draw (toy_event "PEER_OFFLINE" "bob" 0) (mkEngine toy_sim NoLogger) =
  let '(r, s) := Simulation.handle_event (C := toy_crypto) (P := toy_prims) (D := toy_digest) toy_sim_draw
    (toy_event "PEER_OFFLINE" "bob" 0) toy_sim in (r, mkEngine s NoLogger).
Proof.
  apply (registry_equivalent (C := toy_crypto) (P := toy_prims) (D := toy_digest) (λ _ _ _, "") (λ s, s)
    toy_sim_draw (toy_event "PEER_OFFLINE" "bob" 0) (mkEngine toy_sim NoLogger));
    [exact toy_event_valid|reflexivity|exact toy_event_replaceable].
Defined.
