(* ===== verification/PeerProcess.v ===== *)
(** * Networked peers ([coc_framework/network/peer_process.py])

    [NetworkPeer]: a peer behind a PUB socket for broadcasts, a REP socket for
    requests and one SUB socket per peer it follows.  The sockets are effects:
    what is handed to the PUB socket is appended to [published], what the REP
    socket answers is the result of [rep_iteration], and [send_direct] talks to
    the other end through a parameter.  One handler run happens at one instant;
    what it reads of the clock and draws is a [draw].

    Messages are those of [Protocol]: dataclasses check no types, so a handler
    is given any JSON value and raises where Python would.  Printing text needs
    its UTF-8 form.  Node data whose fields have other types than
    [CoCNode.to_dict] writes, or lone surrogates, is refused with an exception,
    where the code would store a node with such fields. *)

From Stdlib Require Import ZArith Lia Ascii String.
From S2P Require Import Prelude PyData DateTime Json Crypto CoCNode Storage Protocol.

(** ** [SocketConfig] *)

Definition PUB_PORT_START : Z := 5550.
Definition REP_PORT_START : Z := 5600.
Definition get_pub_address (peer_index : Z) (host : pystr) : pystr :=
  str "tcp://" ++ host ++ 58 :: repr_int (PUB_PORT_START + peer_index).
Definition get_rep_address (peer_index : Z) (host : pystr) : pystr :=
  str "tcp://" ++ host ++ 58 :: repr_int (REP_PORT_START + peer_index).

(** ** What is printed *)

(** [f"{v[:8]}"] printed. *)
Definition print_prefix (v : json) : result unit :=
  match v with
  | JStr s => _ ← utf8_encode (take 8 s); Ok ()
  | JArr _ => Ok ()
  | _ => Raise TypeError
  end.

(** [f"{v}"] printed; [repr] escapes what cannot be encoded inside a list or a
    dict. *)
Definition print_value (v : json) : result unit :=
  match v with
  | JStr s => _ ← utf8_encode s; Ok ()
  | _ => Ok ()
  end.

(** ** Nodes on the wire *)

Definition text_field (k : string) (items : list (pystr * json)) : result (option string) :=
  match kwarg k items with
  | None | Some JNull => Ok None
  | Some (JStr s) => Some <$> text_of s
  | Some _ => Raise TypeError
  end.
Definition int_field (k : string) (items : list (pystr * json)) : result (option Z) :=
  match kwarg k items with
  | None => Ok None
  | Some (JInt n) => Ok (Some n)
  | Some _ => Raise TypeError
  end.
Definition texts_field (k : string) (items : list (pystr * json)) : result (option (list string)) :=
  match kwarg k items with
  | None => Ok None
  | Some (JArr l) => Some <$> mapR (λ v, match v with JStr s => text_of s | _ => Raise TypeError end) l
  | Some _ => Raise TypeError
  end.

(** [CoCNode.from_dict] of a JSON value. *)
Definition node_from_json (v : json) : result CoCNode :=
  match v with
  | JObj items =>
      schema_version ← int_field "schema_version" items;
      node_hash ← text_field "node_hash" items;
      content_hash ← text_field "content_hash" items;
      parent_hash ← text_field "parent_hash" items;
      owner_id ← text_field "owner_id" items;
      recipient_ids ← texts_field "recipient_ids" items;
      timestamp ← text_field "timestamp" items;
      children_hashes ← texts_field "children_hashes" items;
      depth ← int_field "depth" items;
      signature ← text_field "signature" items;
      CoCNode.from_dict (mkNodeDict schema_version node_hash content_hash parent_hash owner_id recipient_ids
        timestamp children_hashes depth signature)
  | _ => Raise AttributeError
  end.

(** [node.to_dict()] as JSON. *)
Definition text_json (s : string) : result json := JStr <$> code_points s.
Definition opt_text_json (s : option string) : result json :=
  match s with Some s => text_json s | None => Ok JNull end.

Definition node_to_json (n : CoCNode) : result json :=
  let d := CoCNode.to_dict n in
  node_hash ← opt_text_json d.(d_node_hash);
  content_hash ← opt_text_json d.(d_content_hash);
  parent_hash ← opt_text_json d.(d_parent_hash);
  owner_id ← opt_text_json d.(d_owner_id);
  recipient_ids ← mapR text_json (default [] d.(d_recipient_ids));
  timestamp ← opt_text_json d.(d_timestamp);
  children_hashes ← mapR text_json (default [] d.(d_children_hashes));
  signature ← opt_text_json d.(d_signature);
  Ok (JObj [(str "schema_version", JInt (default 1 d.(d_schema_version))); (str "node_hash", node_hash);
            (str "content_hash", content_hash); (str "parent_hash", parent_hash); (str "owner_id", owner_id);
            (str "recipient_ids", JArr recipient_ids); (str "timestamp", timestamp);
            (str "children_hashes", JArr children_hashes); (str "depth", JInt (default 0 d.(d_depth)));
            (str "signature", signature)]).

(** ** State *)

Record PeerConfig := mkConfig {
  cfg_peer_id : pystr;
  cfg_peer_index : Z;
  cfg_host : pystr;
  cfg_signing_key : option bytes;
  enable_secret_sharing : bool;
  enable_timelock : bool;
  enable_steganography : bool;
}.

Record PeerState := mkState {
  is_online : bool;
  connected_peers : gset pykey;
  pending_messages : list Msg;
  last_heartbeat : gmap pykey pystr;
}.

(** An entry of [_shares]. *)
Record HeldShare := mkHeld {
  hs_index : json;
  hs_data : json;
  hs_threshold : json;
  hs_total : json;
  hs_from : json;
}.

Inductive socket := NotCreated | Open | Closed.

Record NetworkPeer := mkPeer {
  config : PeerConfig;
  signing_key : bytes;
  state : PeerState;
  storage : InMemory.storage;
  shares : gmap pystr HeldShare;
  content : gmap pystr bytes;
  peer_keys : gmap pystr bytes;
  pub_socket : socket;
  sub_sockets : list pystr;             (* the keys of [_sub_sockets], in order *)
  offline_queue : list Msg;
  running : bool;
  published : list bytes;
}.

Definition peer_id (p : NetworkPeer) : pystr := p.(config).(cfg_peer_id).

(** [NetworkPeer(config)]; [fresh] is [SigningKey.generate()]. *)
Definition init_peer (fresh : bytes) (c : PeerConfig) : NetworkPeer :=
  mkPeer c (default fresh c.(cfg_signing_key)) (mkState true ∅ [] ∅) InMemory.init ∅ ∅ ∅ NotCreated [] [] false [].

Definition set_state (st : PeerState) (p : NetworkPeer) : NetworkPeer :=
  mkPeer p.(config) p.(signing_key) st p.(storage) p.(shares) p.(content) p.(peer_keys) p.(pub_socket)
    p.(sub_sockets) p.(offline_queue) p.(running) p.(published).
Definition set_stores (st : InMemory.storage) (sh : gmap pystr HeldShare) (ct : gmap pystr bytes) (p : NetworkPeer)
    : NetworkPeer :=
  mkPeer p.(config) p.(signing_key) p.(state) st sh ct p.(peer_keys) p.(pub_socket) p.(sub_sockets)
    p.(offline_queue) p.(running) p.(published).
Definition set_sockets (pub : socket) (subs : list pystr) (run : bool) (p : NetworkPeer) : NetworkPeer :=
  mkPeer p.(config) p.(signing_key) p.(state) p.(storage) p.(shares) p.(content) p.(peer_keys) pub subs
    p.(offline_queue) run p.(published).
Definition set_queue (q : list Msg) (p : NetworkPeer) : NetworkPeer :=
  mkPeer p.(config) p.(signing_key) p.(state) p.(storage) p.(shares) p.(content) p.(peer_keys) p.(pub_socket)
    p.(sub_sockets) q p.(running) p.(published).
Definition publish (data : bytes) (p : NetworkPeer) : NetworkPeer :=
  mkPeer p.(config) p.(signing_key) p.(state) p.(storage) p.(shares) p.(content) p.(peer_keys) p.(pub_socket)
    p.(sub_sockets) p.(offline_queue) p.(running) (p.(published) ++ [data]).

Definition register_peer_key (id : pystr) (key : bytes) (p : NetworkPeer) : NetworkPeer :=
  mkPeer p.(config) p.(signing_key) p.(state) p.(storage) p.(shares) p.(content) (<[id := key]> p.(peer_keys))
    p.(pub_socket) p.(sub_sockets) p.(offline_queue) p.(running) p.(published).

Definition get_share (content_hash : pystr) (p : NetworkPeer) : option HeldShare := p.(shares) !! content_hash.
Definition get_content (content_hash : pystr) (p : NetworkPeer) : option bytes := p.(content) !! content_hash.

(** ** Handlers *)

Section peer.
Context {S : Signer}.
(** [str] of a list or dict inside an f-string, and [str(e)] of an exception. *)
Context (repr_container : json → pystr) (exn_text : pyexn → pystr).

(** A field of the message's own class. *)
Definition attr (k : string) (m : Msg) : result json :=
  from_option_exn AttributeError (kwarg k (zip (str <$> m.(m_class).(own_fields).*1) m.(m_own))).

(** A handler takes the message and returns what goes into the response. *)
Definition Handler := draw → Msg → M NetworkPeer json.

Definition obj (items : list (string * json)) : json := JObj ((λ kv, (str kv.1, kv.2)) <$> items).

Definition handle_share : Handler := λ _ message,
  content_hash ← lift (attr "content_hash" message);
  lift (print_prefix content_hash) ;;
  index ← lift (attr "share_index" message);
  lift (print_value index) ;;
  data ← lift (attr "share_data" message);
  threshold ← lift (attr "threshold" message);
  total ← lift (attr "total_shares" message);
  key ← lift (text_key content_hash);
  match key with
  | Some key =>
      modify (λ p, set_stores p.(storage)
        (<[key := mkHeld index data threshold total message.(m_sender_id)]> p.(shares)) p.(content) p) ;;
      mret (obj [("stored", JBool true); ("content_hash", content_hash)])
  | None => raise TypeError
  end.

(** The signature is checked only when the originator's key is registered. *)
Definition token_refused (message : Msg) (p : NetworkPeer) : result bool :=
  node_hash ← attr "node_hash" message;
  originator_id ← attr "originator_id" message;
  originator ← text_key originator_id;
  match originator ≫= λ o, p.(peer_keys) !! o with
  | None => Ok false
  | Some originator_key =>
      let token_data := format_value repr_container node_hash ++ format_value repr_container originator_id ++
                        format_value repr_container message.(m_timestamp) in
      token_signature ← attr "token_signature" message;
      sig ← match token_signature with JStr s => bytes_fromhex s | _ => Raise TypeError end;
      Ok (negb (verify_text originator_key token_data sig))
  end.

(** [self.storage.get_node(v)] for a JSON value. *)
Definition find_node (v : json) (p : NetworkPeer) : result (option (string * CoCNode)) :=
  key ← text_key v;
  Ok (key ≫= λ s, match text_of s with
                  | Ok h => node ← InMemory.get_node h p.(storage); Some (h, node)
                  | Raise _ => None
                  end).

(** Removes the node, and what is held for its content. *)
Definition delete_node (node_hash : string) (node : CoCNode) (p : NetworkPeer) : NetworkPeer :=
  let st := InMemory.remove_node node_hash p.(storage) in
  match code_points node.(content_hash) with
  | Ok c => set_stores st (delete c p.(shares)) (delete c p.(content)) p
  | Raise _ => set_stores st p.(shares) p.(content) p
  end.

Definition handle_deletion : Handler := λ _ message,
  node_hash ← lift (attr "node_hash" message);
  lift (print_prefix node_hash) ;;
  refused ← (λ p, (token_refused message p, p));
  if (refused : bool) then mret (obj [("deleted", JBool false); ("reason", JStr (str "invalid_signature"))])
  else
    node ← (λ p, (find_node node_hash p, p));
    match node with
    | Some (key, node) =>
        modify (delete_node key node) ;;
        mret (obj [("deleted", JBool true); ("node_hash", node_hash)])
    | None => mret (obj [("deleted", JBool false); ("reason", JStr (str "not_found"))])
    end.

Definition handle_coc_node : Handler := λ _ message,
  content_hash ← lift (attr "content_hash" message);
  lift (print_prefix content_hash) ;;
  node_data ← lift (attr "node_data" message);
  node ← lift (node_from_json node_data);
  modify (λ p, set_stores (InMemory.add_node node p.(storage)) p.(shares) p.(content) p) ;;
  node_hash ← lift (text_json node.(node_hash));
  mret (obj [("stored", JBool true); ("node_hash", node_hash)]).

(** The set is updated before the id is printed. *)
Definition handle_peer_status : Handler := λ _ message,
  status ← lift (attr "status" message);
  id ← lift (attr "peer_id" message);
  let update f := (key ← lift (hash_key id);
    modify (λ p, set_state (mkState p.(state).(is_online) (f key p.(state).(connected_peers))
      p.(state).(pending_messages) p.(state).(last_heartbeat)) p) ;;
    lift (print_prefix id)) in
  match status with
  | JStr s => if decide (s = str "online") then update (λ k ps, ps ∪ {[k]})
              else if decide (s = str "offline") then update (λ k ps, ps ∖ {[k]})
              else mret ()
  | _ => mret ()
  end ;;
  mret (obj [("acknowledged", JBool true)]).

Definition handle_content : Handler := λ _ message,
  content_hash ← lift (attr "content_hash" message);
  lift (print_prefix content_hash) ;;
  encrypted ← lift (attr "encrypted_content" message);
  data ← lift (match encrypted with JStr s => bytes_fromhex s | _ => Raise TypeError end);
  key ← lift (text_key content_hash);
  match key with
  | Some key =>
      modify (λ p, set_stores p.(storage) p.(shares) (<[key := data]> p.(content)) p) ;;
      mret (obj [("stored", JBool true); ("content_hash", content_hash)])
  | None => raise TypeError
  end.

Definition share_json (s : HeldShare) : json :=
  obj [("index", s.(hs_index)); ("data", s.(hs_data)); ("threshold", s.(hs_threshold)); ("total", s.(hs_total));
       ("from", s.(hs_from))].

Definition handle_request_share : Handler := λ _ message,
  content_hash ← lift (attr "content_hash" message);
  key ← lift (text_key content_hash);
  share ← gets (λ p, key ≫= λ k, p.(shares) !! k);
  match share with
  | Some share_data => mret (obj [("found", JBool true); ("share", share_json share_data)])
  | None => mret (obj [("found", JBool false)])
  end.

Definition handle_request_content : Handler := λ _ message,
  content_hash ← lift (attr "content_hash" message);
  key ← lift (text_key content_hash);
  data ← gets (λ p, key ≫= λ k, p.(content) !! k);
  match data with
  | Some data => mret (obj [("found", JBool true); ("content", JStr (bytes_hex data))])
  | None => mret (obj [("found", JBool false)])
  end.

Definition handle_heartbeat : Handler := λ d message,
  key ← lift (hash_key message.(m_sender_id));
  modify (λ p, set_state (mkState p.(state).(is_online) p.(state).(connected_peers) p.(state).(pending_messages)
    (<[key := d.(d_now)]> p.(state).(last_heartbeat))) p) ;;
  mret (obj [("acknowledged", JBool true)]).

(** [_message_handlers]. *)
Definition Handlers := MessageType → option Handler.

Definition default_handlers : Handlers := λ t,
  match t with
  | SHARE => Some handle_share
  | DELETION_TOKEN => Some handle_deletion
  | COC_NODE => Some handle_coc_node
  | PEER_STATUS => Some handle_peer_status
  | CONTENT => Some handle_content
  | REQUEST_SHARE => Some handle_request_share
  | REQUEST_CONTENT => Some handle_request_content
  | HEARTBEAT => Some handle_heartbeat
  | _ => None
  end.

Definition register_handler (t : MessageType) (h : Handler) (hs : Handlers) : Handlers :=
  λ t', if decide (t' = t) then Some h else hs t'.

(** ** Requests and broadcasts *)

Section dispatch.
Context (hs : Handlers).

Definition handler_of (message : Msg) : option Handler :=
  match message.(m_type) with inl t => hs t | inr _ => None end.

(** [f"{message.msg_type}"]. *)
Definition type_text (t : MessageType + json) : pystr :=
  match t with
  | inl t => str "MessageType." ++ str match t with
      | SHARE => "SHARE" | COC_NODE => "COC_NODE" | CONTENT => "CONTENT" | DELETION_TOKEN => "DELETION_TOKEN"
      | DELETION_ACK => "DELETION_ACK" | PEER_STATUS => "PEER_STATUS" | PEER_DISCOVERY => "PEER_DISCOVERY"
      | HEARTBEAT => "HEARTBEAT" | REQUEST_SHARE => "REQUEST_SHARE" | REQUEST_CONTENT => "REQUEST_CONTENT"
      | RECONSTRUCT_REQUEST => "RECONSTRUCT_REQUEST" | RESPONSE => "RESPONSE" | ERROR => "ERROR"
      | KEY_EXCHANGE => "KEY_EXCHANGE" | KEY_EXCHANGE_ACK => "KEY_EXCHANGE_ACK"
      end
  | inr v => format_value repr_container v
  end.

(** [ResponseMessage(sender_id=self.peer_id, ...)]. *)
Definition response (d : draw) (p : NetworkPeer) (fields : list (string * json)) : result Msg :=
  construct repr_container d ResponseMessage None
    ((str "sender_id", JStr (peer_id p)) :: ((λ kv, (str kv.1, kv.2)) <$> fields)).

Definition handle_request (d : draw) (message : Msg) : M NetworkPeer Msg := λ p,
  let failed text := response d p [("request_id", message.(m_msg_id)); ("success", JBool false);
                                   ("error_message", JStr text)] in
  match handler_of message with
  | Some handler =>
      let '(r, p') := handler d message p in
      (match (result ← r;
              response d p [("request_id", message.(m_msg_id)); ("success", JBool true);
                ("data", match result with JObj _ => result | _ => obj [("result", result)] end)]) with
       | Ok answer => Ok answer
       | Raise e => failed (exn_text e)
       end, p')
  | None => (failed (str "Unknown message type: " ++ type_text message.(m_type)), p)
  end.

Definition handle_broadcast (d : draw) (message : Msg) (p : NetworkPeer) : NetworkPeer :=
  match handler_of message with
  | Some handler => (handler d message p).2
  | None => p
  end.

(** ** The loops *)

(** What the loop does with a received message. *)
Definition rep_body (d : draw) (msg_bytes : bytes) : M NetworkPeer bytes :=
  message ← lift (deserialize_message repr_container d msg_bytes);
  answer ← handle_request d message;
  lift (Protocol.to_bytes answer).

(** One round of [_rep_loop] with a received message: what is sent back.  The
    text of an exception is printed, encoded in UTF-8, before the error response
    is made.  An exception of the result ends the loop. *)
Definition rep_iteration (d : draw) (msg_bytes : bytes) : M NetworkPeer (option bytes) := λ p,
  let '(r, p') := rep_body d msg_bytes p in
  (match r with
   | Ok data => Ok (Some data)
   | Raise e =>
       if p'.(running) then
         _ ← utf8_encode (take 8 (peer_id p') ++ exn_text e);
         error_resp ← response d p' [("success", JBool false); ("error_message", JStr (exn_text e))];
         Some <$> Protocol.to_bytes error_resp
       else Ok None
   end, p').

(** One message of [_sub_loop]: what the peer is afterwards.  Errors are printed;
    when the text of one cannot be, the loop ends there. *)
Definition sub_iteration (d : draw) (msg_bytes : bytes) (p : NetworkPeer) : NetworkPeer :=
  match deserialize_message repr_container d msg_bytes with
  | Ok message => handle_broadcast d message p
  | Raise _ => p
  end.

(** ** Offline handling *)

Definition go_offline (p : NetworkPeer) : NetworkPeer :=
  set_state (mkState false p.(state).(connected_peers) p.(state).(pending_messages) p.(state).(last_heartbeat)) p.

Definition go_online (p : NetworkPeer) : NetworkPeer :=
  set_queue [] (set_state (mkState true p.(state).(connected_peers)
    (p.(state).(pending_messages) ++ p.(offline_queue)) p.(state).(last_heartbeat)) p).

(** [self.state.pending_messages.pop(0)]. *)
Definition pop_pending (p : NetworkPeer) : NetworkPeer :=
  set_state (mkState p.(state).(is_online) p.(state).(connected_peers) (tail p.(state).(pending_messages))
    p.(state).(last_heartbeat)) p.

(** The handlers add no pending message, so the loop handles those that are there. *)
Definition process_pending_messages (d : draw) (p : NetworkPeer) : NetworkPeer :=
  foldl (λ p message, handle_broadcast d message (pop_pending p)) p p.(state).(pending_messages).
End dispatch.

(** ** Sending *)

(** A closed socket raises. *)
Definition broadcast (message : Msg) : M NetworkPeer unit := λ p,
  match p.(pub_socket) with
  | NotCreated => (Ok (), p)
  | Open => match Protocol.to_bytes message with Ok data => (Ok (), publish data p) | Raise e => (Raise e, p) end
  | Closed => (Raise RuntimeError, p)
  end.

Definition get_capabilities (p : NetworkPeer) : list string :=
  ["coc"; "deletion"] ++
  (if p.(config).(enable_secret_sharing) then ["secret_sharing"] else []) ++
  (if p.(config).(enable_timelock) then ["timelock"] else []) ++
  (if p.(config).(enable_steganography) then ["steganography"] else []).

Definition broadcast_status (d : draw) (status : string) : M NetworkPeer unit :=
  msg ← (λ p, (construct repr_container d PeerStatusMessage None
    [(str "sender_id", JStr (peer_id p)); (str "peer_id", JStr (peer_id p)); (str "status", JStr (str status));
     (str "address", JStr (get_pub_address p.(config).(cfg_peer_index) p.(config).(cfg_host)));
     (str "capabilities", JArr ((λ c, JStr (str c)) <$> get_capabilities p))], p));
  broadcast msg.

(** One round of [_heartbeat_loop]. *)
Definition heartbeat_iteration (d : draw) (sequence : Z) : M NetworkPeer unit :=
  heartbeat ← (λ p, (construct repr_container d HeartbeatMessage None
    [(str "sender_id", JStr (peer_id p)); (str "sequence", JInt sequence); (str "load", JInt 0)], p));
  broadcast heartbeat.

Definition start (d : draw) : M NetworkPeer unit :=
  modify (λ p, set_sockets Open p.(sub_sockets) true p) ;;
  broadcast_status d "online".

Definition stop (d : draw) : M NetworkPeer unit :=
  modify (λ p, set_sockets p.(pub_socket) p.(sub_sockets) false p) ;;
  broadcast_status d "offline" ;;
  modify (λ p, set_sockets (if p.(pub_socket) is NotCreated then NotCreated else Closed) p.(sub_sockets) false p).

Definition connect_to_peer (id : pystr) (p : NetworkPeer) : NetworkPeer :=
  if decide (id ∈ p.(sub_sockets)) then p
  else set_state (mkState p.(state).(is_online) (p.(state).(connected_peers) ∪ {[KStr id]})
         p.(state).(pending_messages) p.(state).(last_heartbeat))
         (set_sockets p.(pub_socket) (p.(sub_sockets) ++ [id]) p.(running) p).

Definition disconnect_from_peer (id : pystr) (p : NetworkPeer) : NetworkPeer :=
  if decide (id ∈ p.(sub_sockets)) then
    set_state (mkState p.(state).(is_online) (p.(state).(connected_peers) ∖ {[KStr id]})
      p.(state).(pending_messages) p.(state).(last_heartbeat))
      (set_sockets p.(pub_socket) (filter (λ i, i ≠ id) p.(sub_sockets)) p.(running) p)
  else p.

(** [broadcast_deletion]: the time stamp is the message's own. *)
Definition broadcast_deletion (d : draw) (node_hash originator_id signature : json) : M NetworkPeer unit :=
  msg ← (λ p, (construct repr_container d DeletionTokenMessage None
    [(str "sender_id", JStr (peer_id p)); (str "node_hash", node_hash); (str "originator_id", originator_id);
     (str "token_signature", signature); (str "cascade", JBool true)], p));
  broadcast msg ;;
  lift (print_prefix node_hash).

(** The other end of a REQ socket: [None] when no reply comes in time. *)
Section direct.
Context {R : Type} (exchange : bytes → M R (option bytes)).

(** [send_direct]: every exception gives [None]. *)
Definition send_direct (d : draw) (message : Msg) : M R (option Msg) := λ r,
  match Protocol.to_bytes message with
  | Raise _ => (Ok None, r)
  | Ok data =>
      let '(reply, r') := exchange data r in
      (Ok match (reply ← reply;
                 resp_bytes ← from_option_exn RuntimeError reply;
                 text ← utf8_decode resp_bytes;
                 v ← loads text;
                 match v with
                 | JObj items => Protocol.from_dict repr_container d ResponseMessage items
                 | _ => Raise AttributeError
                 end) with
          | Ok resp => Some resp
          | Raise _ => None
          end, r')
  end.

(** [response is not None and response.success]. *)
Definition succeeded (resp : option Msg) : bool :=
  match resp with
  | Some resp => match attr "success" resp with Ok v => truthy v | Raise _ => false end
  | None => false
  end.

Definition send_share (d : draw) (self : pystr) (index value content_hash threshold total_shares : json)
    : M R bool :=
  msg ← lift (construct repr_container d ShareMessage None
    [(str "sender_id", JStr self); (str "share_index", index); (str "share_data", value);
     (str "content_hash", content_hash); (str "threshold", threshold); (str "total_shares", total_shares)]);
  resp ← send_direct d msg;
  mret (succeeded resp).

Definition send_coc_node (d : draw) (self : pystr) (node : CoCNode) : M R bool :=
  node_data ← lift (node_to_json node);
  parent_hash ← lift (text_json (or_empty node.(parent_hash)));
  content_hash ← lift (text_json node.(content_hash));
  msg ← lift (construct repr_container d CoCNodeMessage None
    [(str "sender_id", JStr self); (str "node_data", node_data); (str "parent_hash", parent_hash);
     (str "content_hash", content_hash)]);
  resp ← send_direct d msg;
  mret (succeeded resp).

(** A request for what a peer holds: the [data] of the response. *)
Definition request (d : draw) (self : pystr) (t : MessageType) (content_hash : json) : M R (option json) :=
  msg ← lift (construct repr_container d RequestMessage (Some (inl t))
    [(str "sender_id", JStr self); (str "content_hash", content_hash)]);
  resp ← send_direct d msg;
  mret (resp ≫= λ resp, match attr "data" resp with Ok v => Some v | Raise _ => None end).
End direct.
End peer.

(** ** Messages a peer constructs *)

Section facts.
Context {S : Signer} {L : SignerLaws S} (repr_container : json → pystr) (exn_text : pyexn → pystr).

Abbreviation named fields := ((λ kv : string * json, (str kv.1, kv.2)) <$> fields).

(** A field of a constructed message is its argument, or its default. *)
Lemma attr_construct d c mt kwargs m k dflt :
  construct repr_container d c mt kwargs = Ok m → c ∈ typed_classes → c.(random_field) = None →
  (k, dflt) ∈ c.(own_fields) → attr k m = Ok (default dflt (kwarg k kwargs)).
Proof.
  intros Hm Hc Hr Hk. unfold construct in Hm. destruct (forallb _ _); [|done].
  destruct (kwarg "sender_id" kwargs) as [sender|]; [|done]. cbn [from_option_exn mbind result_bind] in Hm.
  destruct (if truthy _ then _ else _) as [mid|]; [|done]. injection Hm as <-. unfold attr. cbn [m_class m_own].
  match goal with |- context [zip _ ?o] => set (own := o) end.
  assert (kwarg k (zip (str <$> (own_fields c).*1) own)
    = Some (default dflt (kwarg k kwargs))) as ->; [|done].
  apply get_item_in.
  - rewrite fst_zip by (unfold own; by rewrite !length_fmap).
    pose proof (typed_class_names c Hc) as Hnd. rewrite fmap_app in Hnd. by apply NoDup_app in Hnd as (_ & _ & ?).
  - apply list_elem_of_lookup in Hk as [i Hi]. apply list_elem_of_lookup. exists i. apply lookup_zip_Some.
    unfold own. rewrite !list_lookup_fmap, Hi. cbn [fmap option_fmap option_map fst]. split; [done|].
    by rewrite Hr.
Qed.

(** The constructor calls of a peer: its own id and fields of the class. *)
Lemma construct_sent d c t mt self fields :
  c ∈ typed_classes → c.(forced_type) = Some t → draw_ok d → Forall is_scalar self →
  Forall (λ kv, kv.1 ∈ c.(own_fields).*1) fields →
  ∃ m, construct repr_container d c mt ((str "sender_id", JStr self) :: named fields) = Ok m ∧
    m.(m_class) = c ∧ m.(m_type) = inl t ∧ m.(m_sender_id) = JStr self ∧ m.(m_timestamp) = JFloat d.(d_now).
Proof.
  intros Hc Ht (Hnow & _ & _) Hself Hf. unfold construct.
  pose proof (typed_class_names c Hc) as Hnd. rewrite fmap_app in Hnd. apply NoDup_app in Hnd as (_ & Hdis & _).
  assert (∀ b, b ∈ base_fields → kwarg b (named fields) = None) as Hbase.
  { intros b Hb. destruct (kwarg b (named fields)) as [v|] eqn:Hv; [|done]. exfalso.
    apply get_item_Some_in, list_elem_of_fmap in Hv as ([k w] & [= Heq <-] & Hin). cbn in Heq.
    rewrite Forall_forall in Hf. specialize (Hf _ Hin). cbn in Hf.
    apply (Hdis (str b)); [by apply list_elem_of_fmap_2|]. rewrite Heq. by apply list_elem_of_fmap_2. }
  rewrite (proj2 (forallb_forall _ _)).
  2: { intros kv [->|Hkv]%list_elem_of_In%elem_of_cons; apply existsb_exists.
       - exists "sender_id"%string. split; [by left|done].
       - apply list_elem_of_fmap in Hkv as ([k v] & -> & Hin). rewrite Forall_forall in Hf.
         exists k. split; [|by apply bool_decide_eq_true]. apply list_elem_of_In, elem_of_app. right.
         apply (Hf _ Hin). }
  assert (∀ b, b ∈ base_fields → b ≠ "sender_id"%string →
    kwarg b ((str "sender_id", JStr self) :: named fields) = None) as Hmiss.
  { intros b Hb Hne. unfold kwarg. cbn [get_item]. rewrite decide_False by (intros Heq%str_inj; done). by apply Hbase. }
  assert (kwarg "sender_id" ((str "sender_id", JStr self) :: named fields) = Some (JStr self)) as ->
    by (unfold kwarg; cbn [get_item]; by rewrite decide_True).
  rewrite !Hmiss by (done || (apply list_elem_of_In; simpl; tauto)). cbn [from_option_exn mbind result_bind from_option]. rewrite Ht.
  cbn [truthy]. rewrite bool_decide_eq_false_2 by auto. unfold default_msg_id. cbn [format_value].
  destruct (utf8_encode_total (self ++ 58 :: d.(d_now) ++ 58 :: type_value t)) as [bs ->].
  { apply Forall_app. split; [done|]. constructor; [by apply ascii_is_scalar|]. apply Forall_app. split.
    - destruct Hnow as (n & ds & Hn & _ & Hds & ->). apply Forall_app.
      split; [|constructor; [by apply ascii_is_scalar|]].
      + eapply Forall_impl; [apply is_digit_printable, decdigits_digits|]. intros x Hx. apply ascii_is_scalar.
        unfold printable in Hx. lia.
      + eapply Forall_impl; [by apply is_digit_printable|]. intros x Hx. apply ascii_is_scalar.
        unfold printable in Hx. lia.
    - constructor; [by apply ascii_is_scalar|apply type_value_scalars]. }
  cbn. by eexists.
Qed.

Lemma construct_sent_wf d c t mt self fields :
  c ∈ typed_classes → c.(forced_type) = Some t → draw_ok d → Forall is_scalar self →
  Forall (λ kv, kv.1 ∈ c.(own_fields).*1 ∧ wf_json kv.2 ∧ kv.1 ≠ "status"%string) fields →
  ∃ m, construct repr_container d c mt ((str "sender_id", JStr self) :: named fields) = Ok m ∧ wf_msg c m ∧
    m.(m_type) = inl t ∧ m.(m_sender_id) = JStr self ∧ m.(m_timestamp) = JFloat d.(d_now).
Proof.
  intros Hc Ht Hd Hself Hf. destruct (construct_sent d c t mt self fields) as (m & Hm & _ & Hty & Hs & Hts); [done..| |].
  { eapply Forall_impl; [exact Hf|]. naive_solver. }
  exists m. split_and!; [done| |done..]. eapply construct_wf; [done..| | |exact Hm].
  - constructor; [by constructor|]. apply Forall_fmap. eapply Forall_impl; [exact Hf|]. naive_solver.
  - intros v Hv%get_item_Some_in. apply elem_of_cons in Hv as [[=]|(kv & [= Heq ->] & Hin)%list_elem_of_fmap].
    rewrite Forall_forall in Hf. apply str_inj in Heq. by apply Hf in Hin as (_ & _ & []).
Qed.
Lemma member_field k c dflt : In (k, dflt) c.(own_fields) → (k, dflt) ∈ c.(own_fields).
Proof. apply list_elem_of_In. Qed.

(** ** Request and response *)

(** The other end of [send_direct]: a peer's REP loop. *)
Abbreviation serve hs d := (rep_iteration repr_container exn_text hs d).

(** A response is read back as it was constructed. *)
Lemma response_read d d' p fields :
  draw_ok d → Forall is_scalar (peer_id p) →
  Forall (λ kv, kv.1 ∈ ResponseMessage.(own_fields).*1 ∧ wf_json kv.2 ∧ kv.1 ≠ "status"%string) fields →
  ∃ resp data, response repr_container d p fields = Ok resp ∧ Protocol.to_bytes resp = Ok data ∧
    m_class resp = ResponseMessage ∧ m_sender_id resp = JStr (peer_id p) ∧
    (∀ k dflt, (k, dflt) ∈ ResponseMessage.(own_fields) → attr k resp = Ok (default dflt (kwarg k (named fields)))) ∧
    (text ← utf8_decode data; v ← loads text;
     match v with
     | JObj items => Protocol.from_dict repr_container d' ResponseMessage items
     | _ => Raise AttributeError
     end) = Ok resp.
Proof.
  intros Hd Hp Hf. assert (ResponseMessage ∈ typed_classes) as Hc by (unfold typed_classes; do 6 right; left).
  destruct (construct_sent_wf d ResponseMessage RESPONSE None (peer_id p) fields)
    as (resp & Hr & Hwf & Hty & Hs & _); [done..|].
  destruct (wf_msg_bytes ResponseMessage RESPONSE resp Hwf eq_refl) as (data & Hdata & _ & Hl).
  exists resp, data. split_and!; [done|done|by apply (wm_class _ _ Hwf)|done| |].
  - intros k dflt Hk. rewrite (attr_construct d _ _ _ _ k dflt Hr Hc eq_refl Hk). do 2 f_equal.
    unfold kwarg. cbn [get_item]. rewrite decide_False; [done|]. intros Heq%str_inj. subst k.
    cbn in Hk. set_solver.
  - destruct (utf8_decode data) as [text|]; [|done]. cbn [mbind result_bind] in Hl |- *. rewrite Hl.
    cbn [mbind result_bind]. by apply from_dict_items.
Qed.

(** What [send_direct] reports of a handler that returned a dict or raised. *)
Definition answers (r : result json) (resp : Msg) : Prop :=
  match r with
  | Ok v => attr "success" resp = Ok (JBool true) ∧ attr "data" resp = Ok v
  | Raise e => attr "success" resp = Ok (JBool false) ∧ attr "error_message" resp = Ok (JStr (exn_text e))
  end.

Definition sendable (r : result json) : Prop :=
  match r with
  | Ok v => wf_json v ∧ ∃ items, v = JObj items
  | Raise e => Forall is_scalar (exn_text e)
  end.

Definition answer_fields (m : Msg) (r : result json) : list (string * json) :=
  ("request_id"%string, m.(m_msg_id)) ::
  match r with
  | Ok v => [("success", JBool true); ("data", v)]
  | Raise e => [("success", JBool false); ("error_message", JStr (exn_text e))]
  end%string.

Lemma answer_fields_ok c m r : wf_msg c m → sendable r →
  Forall (λ kv, kv.1 ∈ ResponseMessage.(own_fields).*1 ∧ wf_json kv.2 ∧ kv.1 ≠ "status"%string) (answer_fields m r).
Proof.
  intros Hm Hr. pose proof (wm_json _ _ Hm) as Hj. rewrite !Forall_cons in Hj.
  constructor; [split_and!; [set_solver|tauto|done]|].
  destruct r as [v|e]; cbn in Hr; repeat (constructor; [split_and!; [set_solver|by constructor || tauto|done]|]); constructor.
Qed.

Lemma handle_request_answers hs h c t d m p r p' :
  wf_msg c m → m.(m_type) = inl t → hs t = Some h → h d m p = (r, p') → sendable r →
  draw_ok d → Forall is_scalar (peer_id p) →
  handle_request repr_container exn_text hs d m p = (response repr_container d p (answer_fields m r), p').
Proof.
  intros Hm Ht Hh Hr Hs Hd Hp. pose proof (answer_fields_ok c m r Hm Hs) as Hf.
  destruct (response_read d d p _ Hd Hp Hf) as (resp & bytes & Hc & _).
  unfold handle_request, handler_of. rewrite Ht, Hh, Hr. destruct r as [v|e]; cbn [mbind result_bind]; [|done].
  destruct Hs as [_ [items ->]]. unfold answer_fields in Hc |- *. by rewrite Hc.
Qed.

Lemma send_direct_served hs h c t d d' m p r p' :
  wf_msg c m → m.(m_type) = inl t → hs t = Some h → h d m p = (r, p') → sendable r →
  draw_ok d → Forall is_scalar (peer_id p) →
  ∃ resp, send_direct repr_container (serve hs d) d' m p = (Ok (Some resp), p') ∧ answers r resp.
Proof.
  intros Hm Ht Hh Hr Hs Hd Hp. destruct (wf_msg_roundtrip repr_container c m Hm) as (data & Hdata & _ & Hdes).
  pose proof (handle_request_answers hs h c t d m p r p' Hm Ht Hh Hr Hs Hd Hp) as Hreq.
  destruct (response_read d d' p _ Hd Hp (answer_fields_ok c m r Hm Hs))
    as (resp & bytes & Hc & Hb & _ & _ & Hat & Hread).
  exists resp. split.
  - unfold send_direct. rewrite Hdata.
    assert (serve hs d data p = (Ok (Some bytes), p')) as ->.
    { unfold rep_iteration, rep_body, mbind, M_bind, lift. by rewrite Hdes, Hreq, Hc, Hb. }
    cbn [mbind result_bind from_option_exn]. cbn [mbind result_bind] in Hread. by rewrite Hread.
  - unfold answers. destruct r as [v|e]; split.
    + by rewrite (Hat _ _ (member_field "success" ResponseMessage (JBool true) ltac:(simpl; tauto))).
    + by rewrite (Hat _ _ (member_field "data" ResponseMessage (JObj []) ltac:(simpl; tauto))).
    + by rewrite (Hat _ _ (member_field "success" ResponseMessage (JBool true) ltac:(simpl; tauto))).
    + by rewrite (Hat _ _ (member_field "error_message" ResponseMessage (JStr []) ltac:(simpl; tauto))).
Qed.
End facts.

(** ** Nodes survive the wire *)

(** The UTF-8 form of encodable text. *)
Definition is_text (s : string) : Prop := ∃ c, Forall is_scalar c ∧ text_of c = Ok s.

Lemma text_json_ok s : is_text s → ∃ c, text_json s = Ok (JStr c) ∧ Forall is_scalar c ∧ text_of c = Ok s.
Proof. intros (c & Hc & Hs). exists c. unfold text_json. by rewrite (code_points_text_of c s Hc Hs). Qed.

Lemma texts_json_ok l : Forall is_text l → ∃ vs, mapR text_json l = Ok vs ∧ Forall wf_json vs ∧
  mapR (λ v, match v with JStr s => text_of s | _ => Raise TypeError end) vs = Ok l.
Proof.
  induction 1 as [|s l Hs _ (vs & Hvs & Hwf & Hback)]; [by exists []|].
  destruct (text_json_ok s Hs) as (c & Hc & Hsc & Ht). exists (JStr c :: vs). cbn [mapR].
  rewrite Hc, Hvs. cbn [mbind result_bind]. rewrite Ht, Hback. split_and!; [done| |done].
  constructor; [by constructor|done].
Qed.

Lemma bytes_hex_ascii data : Forall is_byte data → Forall (λ c, 0 ≤ c < 128) (bytes_hex data).
Proof.
  intros Hd. induction Hd as [|b data Hb _ IH]; [constructor|]. cbn. unfold is_byte in Hb.
  constructor; [|constructor; [|done]].
  - destruct (hexdigit_printable (b / 16)); dlia.
  - destruct (hexdigit_printable (b mod 16)); dlia.
Qed.

Lemma hex_is_text data : Forall is_byte data → is_text (hex_of data).
Proof.
  intros Hd. exists (bytes_hex data). pose proof (bytes_hex_ascii data Hd) as Ha.
  split; [eapply Forall_impl; [exact Ha|apply ascii_is_scalar]|].
  unfold text_of. by rewrite (utf8_encode_ascii _ Ha).
Qed.

(** Every text of the node can be encoded. *)
Record node_texts (n : CoCNode) : Prop := {
  nt_required : Forall is_text [n.(node_hash); n.(content_hash); n.(owner_id); n.(timestamp)];
  nt_parent h : n.(parent_hash) = Some h → is_text h;
  nt_recipients : Forall is_text n.(recipient_ids);
  nt_children h : h ∈ n.(children_hashes) → is_text h;
}.

Lemma opt_text_json_ok o : (∀ s, o = Some s → is_text s) →
  ∃ v, opt_text_json o = Ok v ∧ wf_json v ∧
    match v with JNull => Ok None | JStr s => Some <$> text_of s | _ => Raise TypeError end = Ok o.
Proof.
  destruct o as [s|]; intros Hs; [|exists JNull; split_and!; [done|constructor|done]].
  destruct (text_json_ok s (Hs s eq_refl)) as (c & Hc & Hsc & Ht). exists (JStr c). unfold opt_text_json.
  rewrite Hc, Ht. split_and!; [done|by constructor|done].
Qed.

Lemma text_field_read k items v o : kwarg k items = Some v →
  match v with JNull => Ok None | JStr s => Some <$> text_of s | _ => Raise TypeError end = Ok o →
  text_field k items = Ok o.
Proof. unfold text_field. by intros ->. Qed.

Lemma texts_field_read k items vs l : kwarg k items = Some (JArr vs) →
  mapR (λ v, match v with JStr s => text_of s | _ => Raise TypeError end) vs = Ok l →
  texts_field k items = Ok (Some l).
Proof. unfold texts_field. intros -> Hl. by rewrite Hl. Qed.

(** What [to_dict] writes, [from_dict] reads, through JSON. *)
Lemma node_json_roundtrip n : wf_node n → node_texts n →
  ∃ v, node_to_json n = Ok v ∧ wf_json v ∧ node_from_json v = Ok n.
Proof.
  intros Hn Ht. pose proof (nt_required n Ht) as Hreq. rewrite !Forall_cons in Hreq.
  destruct Hreq as (H1 & H2 & H3 & H4 & _).
  destruct (opt_text_json_ok (Some n.(node_hash))) as (v1 & E1 & W1 & R1); [naive_solver|].
  destruct (opt_text_json_ok (Some n.(content_hash))) as (v2 & E2 & W2 & R2); [naive_solver|].
  destruct (opt_text_json_ok n.(parent_hash)) as (v3 & E3 & W3 & R3); [apply (nt_parent n Ht)|].
  destruct (opt_text_json_ok (Some n.(owner_id))) as (v4 & E4 & W4 & R4); [naive_solver|].
  destruct (opt_text_json_ok (Some n.(timestamp))) as (v5 & E5 & W5 & R5); [naive_solver|].
  destruct (opt_text_json_ok (CoCNode.to_dict n).(d_signature)) as (v6 & E6 & W6 & R6).
  { cbn. intros s. destruct n.(signature) as [[|b sig]|] eqn:Hsig; [done| |done]. intros [= <-].
    by apply hex_is_text, (wf_signature n Hn). }
  destruct (texts_json_ok n.(recipient_ids) (nt_recipients n Ht)) as (v7 & E7 & W7 & R7).
  destruct (texts_json_ok (elements n.(children_hashes))) as (v8 & E8 & W8 & R8).
  { apply Forall_forall. intros h Hh%elem_of_elements. by apply (nt_children n Ht). }
  eexists. split; [|split].
  - unfold node_to_json. cbn [CoCNode.to_dict d_node_hash d_content_hash d_parent_hash d_owner_id d_recipient_ids
      d_timestamp d_children_hashes d_schema_version d_depth from_option id] in E6 |- *.
    rewrite E1, E2, E3, E4. cbn [mbind result_bind]. rewrite E7. cbn [mbind result_bind].
    rewrite E5. cbn [mbind result_bind]. rewrite E8. cbn [mbind result_bind]. rewrite E6. reflexivity.
  - constructor; [vm_compute; repeat (constructor; [set_solver|]); constructor|].
    repeat (apply Forall_cons; split; [split; [apply str_scalars|done || by constructor]|]). constructor.
  - rewrite <-(from_dict_to_dict n Hn). match goal with |- node_from_json (JObj ?l) = _ => set (items := l) end.
    unfold node_from_json.
    rewrite (text_field_read "node_hash" items v1 _ eq_refl R1), (text_field_read "content_hash" items v2 _ eq_refl R2),
      (text_field_read "parent_hash" items v3 _ eq_refl R3), (text_field_read "owner_id" items v4 _ eq_refl R4),
      (text_field_read "timestamp" items v5 _ eq_refl R5), (text_field_read "signature" items v6 _ eq_refl R6),
      (texts_field_read "recipient_ids" items v7 _ eq_refl R7), (texts_field_read "children_hashes" items v8 _ eq_refl R8).
    reflexivity.
Qed.

(** ** What the handlers do *)

Section handled.
Context {S : Signer} {L : SignerLaws S} (repr_container : json → pystr) (exn_text : pyexn → pystr).

Abbreviation handlers := (default_handlers repr_container).
Abbreviation serve d := (rep_iteration repr_container exn_text handlers d).

Ltac run := unfold mbind, M_bind, lift, gets, modify, mret, M_ret.

Lemma print_text s : Forall is_scalar s → print_prefix (JStr s) = Ok ().
Proof.
  intros Hs. cbn. destruct (utf8_encode_total (take 8 s)) as [bs ->]; [by apply Forall_take|done].
Qed.

Lemma print_json v : wf_json v → print_value v = Ok ().
Proof. intros [| | | |s Hs| |]; try done. cbn. by destruct (utf8_encode_total s Hs) as [bs ->]. Qed.

Definition hold (h : pystr) (s : HeldShare) (p : NetworkPeer) : NetworkPeer :=
  set_stores p.(storage) (<[h := s]> p.(shares)) p.(content) p.

Lemma handle_share_ok d m p self h index data threshold total :
  m.(m_sender_id) = JStr self → attr "content_hash" m = Ok (JStr h) → attr "share_index" m = Ok index →
  attr "share_data" m = Ok data → attr "threshold" m = Ok threshold → attr "total_shares" m = Ok total →
  Forall is_scalar h → wf_json index →
  handle_share d m p =
    (Ok (obj [("stored", JBool true); ("content_hash", JStr h)]), hold h (mkHeld index data threshold total (JStr self)) p).
Proof.
  intros Hs Hh Hi Hd Ht Hn Hsc Hw. unfold handle_share. run. rewrite Hh. rewrite (print_text h Hsc).
  rewrite Hi, (print_json index Hw). by rewrite Hd, Ht, Hn, Hs.
Qed.

Lemma handle_coc_node_ok d m p n v h :
  attr "content_hash" m = Ok (JStr h) → Forall is_scalar h → attr "node_data" m = Ok v →
  node_from_json v = Ok n → is_text n.(node_hash) →
  ∃ c, text_of c = Ok n.(node_hash) ∧ Forall is_scalar c ∧ handle_coc_node d m p =
    (Ok (obj [("stored", JBool true); ("node_hash", JStr c)]),
     set_stores (InMemory.add_node n p.(storage)) p.(shares) p.(content) p).
Proof.
  intros Hh Hsc Hv Hn (c & Hc & Ht)%text_json_ok. exists c. split_and!; [tauto..|].
  unfold handle_coc_node. run. rewrite Hh, (print_text h Hsc), Hv, Hn. by rewrite Hc.
Qed.

Lemma handle_request_share_ok d m p h :
  attr "content_hash" m = Ok (JStr h) →
  handle_request_share d m p =
    (Ok (match p.(shares) !! h with
         | Some s => obj [("found", JBool true); ("share", share_json s)]
         | None => obj [("found", JBool false)]
         end), p).
Proof. intros Hh. unfold handle_request_share. run. rewrite Hh. cbn. by destruct (shares p !! h). Qed.

(** The outcome of a deletion token whose fields are text. *)
Definition token_text (h o : pystr) (timestamp : json) : pystr := h ++ o ++ format_value repr_container timestamp.

Definition accepts (h o : pystr) (timestamp : json) (sig : bytes) (p : NetworkPeer) : bool :=
  match p.(peer_keys) !! o with
  | Some key => verify_text key (token_text h o timestamp) sig
  | None => true
  end.

Definition after_token (h o : pystr) (timestamp : json) (sig : bytes) (p : NetworkPeer) : NetworkPeer :=
  if accepts h o timestamp sig p then
    match text_of h with
    | Ok key => match InMemory.get_node key p.(storage) with Some n => delete_node key n p | None => p end
    | Raise _ => p
    end
  else p.

Lemma handle_deletion_ok d m p h o sig :
  attr "node_hash" m = Ok (JStr h) → attr "originator_id" m = Ok (JStr o) →
  attr "token_signature" m = Ok (JStr (bytes_hex sig)) → Forall is_byte sig → Forall is_scalar h →
  (handle_deletion repr_container d m p).2 = after_token h o m.(m_timestamp) sig p.
Proof.
  intros Hh Ho Hs Hb Hsc. unfold handle_deletion, after_token, accepts. run. rewrite Hh, (print_text h Hsc).
  unfold token_refused. rewrite Hh, Ho. cbn [mbind result_bind text_key hash_key option_bind].
  destruct (peer_keys p !! o) as [key|]; [rewrite Hs; cbn [mbind result_bind]; rewrite (bytes_fromhex_hex sig Hb)|];
    cbn [mbind result_bind]; fold (token_text h o m.(m_timestamp)).
  - unfold token_text. cbn [format_value]. destruct (verify_text key _ sig); cbn [negb]; [|done].
    unfold find_node. cbn [mbind result_bind text_key hash_key option_bind].
    destruct (text_of h) as [k|]; [|done]. by destruct (InMemory.get_node k (storage p)).
  - unfold find_node. cbn [mbind result_bind text_key hash_key option_bind].
    destruct (text_of h) as [k|]; [|done]. by destruct (InMemory.get_node k (storage p)).
Qed.
(** Every field a peer passes to a constructor belongs to the class. *)
Ltac own_fields := repeat (constructor; [split_and!; [apply list_elem_of_In; simpl; tauto|first [done|by constructor|by apply wf_str]|done]|]); constructor.

Ltac flat_object := constructor; [vm_compute; repeat (constructor; [set_solver|]); constructor|];
  repeat (constructor; [split; [apply str_scalars|first [done|by constructor]]|]); constructor.

(** A share sent to a peer is held there and the sender is told so. *)
Lemma send_share_ok d d' self h index data threshold total p :
  draw_ok d → draw_ok d' → Forall is_scalar self → Forall is_scalar (peer_id p) → Forall is_scalar h →
  wf_json index → wf_json data → wf_json threshold → wf_json total →
  send_share repr_container (serve d') d self index data (JStr h) threshold total p
  = (Ok true, hold h (mkHeld index data threshold total (JStr self)) p).
Proof.
  intros Hd Hd' Hself Hp Hh Hi Hv Ht Hn. assert (ShareMessage ∈ typed_classes) as Hc by by left.
  destruct (construct_sent_wf repr_container d ShareMessage SHARE None self
    [("share_index", index); ("share_data", data); ("content_hash", JStr h); ("threshold", threshold);
     ("total_shares", total)]%string) as (m & Hm & Hwf & Hty & Hs & _); [done..|own_fields|].
  pose proof (λ k dflt Hk, attr_construct repr_container d _ _ _ _ k dflt Hm Hc eq_refl (member_field k ShareMessage dflt Hk)) as Hat.
  destruct (send_direct_served repr_container exn_text handlers handle_share ShareMessage SHARE d' d m p
    (Ok (obj [("stored", JBool true); ("content_hash", JStr h)]%string))
    (hold h (mkHeld index data threshold total (JStr self)) p)) as (resp & Hresp & Hsucc & _); [done..| | |done|done|].
  - apply handle_share_ok; [done| | | | | |done|done].
    + by rewrite (Hat "content_hash"%string (JStr []) ltac:(simpl; tauto)).
    + by rewrite (Hat "share_index"%string (JInt 0) ltac:(simpl; tauto)).
    + by rewrite (Hat "share_data"%string (JStr []) ltac:(simpl; tauto)).
    + by rewrite (Hat "threshold"%string (JInt 0) ltac:(simpl; tauto)).
    + by rewrite (Hat "total_shares"%string (JInt 0) ltac:(simpl; tauto)).
  - split; [flat_object|by eexists].
  - unfold send_share. run. cbn [fmap list_fmap fst snd] in Hm. rewrite Hm, Hresp. unfold succeeded. by rewrite Hsucc.
Qed.
Definition wf_held (s : HeldShare) : Prop :=
  Forall wf_json [s.(hs_index); s.(hs_data); s.(hs_threshold); s.(hs_total); s.(hs_from)].

Lemma share_json_wf s : wf_held s → wf_json (share_json s).
Proof. unfold wf_held. rewrite !Forall_cons. intros (? & ? & ? & ? & ? & _). flat_object. Qed.

(** The answer to a request about the content [h]. *)
Definition share_answer (h : pystr) (p : NetworkPeer) : json :=
  match p.(shares) !! h with
  | Some s => obj [("found", JBool true); ("share", share_json s)]
  | None => obj [("found", JBool false)]
  end.

Lemma share_answer_wf h p : (∀ s, p.(shares) !! h = Some s → wf_held s) → sendable exn_text (Ok (share_answer h p)).
Proof.
  unfold share_answer. intros Hs. split.
  - destruct (shares p !! h) as [s|]; [|flat_object]. pose proof (share_json_wf s (Hs s eq_refl)). flat_object.
  - destruct (shares p !! h); by eexists.
Qed.

(** Whatever type a request names, [RequestMessage] makes it a request for a
    share. *)
Lemma request_ok d d' self t h p :
  draw_ok d → draw_ok d' → Forall is_scalar self → Forall is_scalar (peer_id p) → Forall is_scalar h →
  (∀ s, p.(shares) !! h = Some s → wf_held s) →
  request repr_container (serve d') d self t (JStr h) p = (Ok (Some (share_answer h p)), p).
Proof.
  intros Hd Hd' Hself Hp Hh Hs. assert (RequestMessage ∈ typed_classes) as Hc by (do 5 right; left).
  destruct (construct_sent_wf repr_container d RequestMessage REQUEST_SHARE (Some (inl t)) self
    [("content_hash", JStr h)]%string) as (m & Hm & Hwf & Hty & _); [done..|own_fields|].
  pose proof (attr_construct repr_container d _ _ _ _ "content_hash" (JStr []) Hm Hc eq_refl
    (member_field "content_hash" RequestMessage (JStr []) ltac:(simpl; tauto))) as Hat.
  destruct (send_direct_served repr_container exn_text handlers handle_request_share RequestMessage REQUEST_SHARE d' d m p
    (Ok (share_answer h p)) p) as (resp & Hresp & _ & Hdata);
    [done|done|done|by apply handle_request_share_ok|by apply share_answer_wf|done|done|].
  unfold request. run. cbn [fmap list_fmap fst snd] in Hm. rewrite Hm, Hresp. cbn. by rewrite Hdata.
Qed.

Lemma send_coc_node_ok d d' self n p :
  draw_ok d → draw_ok d' → Forall is_scalar self → Forall is_scalar (peer_id p) → wf_node n → node_texts n →
  send_coc_node repr_container (serve d') d self n p
  = (Ok true, set_stores (InMemory.add_node n p.(storage)) p.(shares) p.(content) p).
Proof.
  intros Hd Hd' Hself Hp Hn Ht. assert (CoCNodeMessage ∈ typed_classes) as Hc by (do 2 right; left).
  destruct (node_json_roundtrip n Hn Ht) as (v & Hv & Hwv & Hback).
  pose proof (nt_required n Ht) as Hreq. rewrite !Forall_cons in Hreq. destruct Hreq as (Htn & Htc & _).
  destruct (text_json_ok _ Htc) as (h & Hh & Hsc & _).
  assert (is_text (or_empty n.(parent_hash))) as (ph & Hph & Hpsc & _)%text_json_ok.
  { destruct n.(parent_hash) eqn:E; [by apply (nt_parent n Ht)|]. by exists []. }
  destruct (construct_sent_wf repr_container d CoCNodeMessage COC_NODE None self
    [("node_data", v); ("parent_hash", JStr ph); ("content_hash", JStr h)]%string)
    as (m & Hm & Hwf & Hty & _); [done..|own_fields|].
  pose proof (λ k dflt Hk, attr_construct repr_container d _ _ _ _ k dflt Hm Hc eq_refl (member_field k CoCNodeMessage dflt Hk)) as Hat.
  destruct (handle_coc_node_ok d' m p n v h) as (c & Hct & Hcs & Hrun); [| done| |done|done|].
  { by rewrite (Hat "content_hash"%string (JStr []) ltac:(simpl; tauto)). }
  { by rewrite (Hat "node_data"%string (JObj []) ltac:(simpl; tauto)). }
  destruct (send_direct_served repr_container exn_text handlers handle_coc_node CoCNodeMessage COC_NODE d' d m p _ _
    Hwf Hty eq_refl Hrun) as (resp & Hresp & Hsucc & _); [split; [flat_object|by eexists]|done..|].
  unfold send_coc_node. run. rewrite Hv, Hph, Hh. cbn [fmap list_fmap fst snd] in Hm. rewrite Hm, Hresp.
  unfold succeeded. by rewrite Hsucc.
Qed.

(** A deletion token on its way from one PUB socket to a subscriber. *)
Lemma deletion_received d d' h o sig p q :
  draw_ok d → Forall is_scalar (peer_id p) → Forall is_scalar h → Forall is_scalar o → Forall is_byte sig →
  p.(pub_socket) = Open →
  ∃ data, broadcast_deletion repr_container d (JStr h) (JStr o) (JStr (bytes_hex sig)) p = (Ok (), publish data p) ∧
    sub_iteration repr_container handlers d' data q = after_token h o (JFloat d.(d_now)) sig q.
Proof.
  intros Hd Hp Hh Ho Hs Hopen. assert (DeletionTokenMessage ∈ typed_classes) as Hc by (do 1 right; left).
  assert (Forall is_scalar (bytes_hex sig)) as Hhex.
  { eapply Forall_impl; [by apply bytes_hex_ascii|apply ascii_is_scalar]. }
  destruct (construct_sent_wf repr_container d DeletionTokenMessage DELETION_TOKEN None (peer_id p)
    [("node_hash", JStr h); ("originator_id", JStr o); ("token_signature", JStr (bytes_hex sig)); ("cascade", JBool true)]%string)
    as (m & Hm & Hwf & Hty & _ & Hts); [done..|own_fields|].
  pose proof (λ k dflt Hk, attr_construct repr_container d _ _ _ _ k dflt Hm Hc eq_refl
    (member_field k DeletionTokenMessage dflt Hk)) as Hat.
  destruct (wf_msg_roundtrip repr_container _ m Hwf) as (data & Hdata & _ & Hdes). exists data. split.
  - unfold broadcast_deletion, broadcast. run. cbn [fmap list_fmap fst snd] in Hm. rewrite Hm, Hopen, Hdata.
    by rewrite (print_text h Hh).
  - unfold sub_iteration. rewrite Hdes. unfold handle_broadcast, handler_of. rewrite Hty. cbn [default_handlers].
    rewrite (handle_deletion_ok d' m q h o sig); [by rewrite Hts| | | |done..].
    + by rewrite (Hat "node_hash"%string (JStr []) ltac:(simpl; tauto)).
    + by rewrite (Hat "originator_id"%string (JStr []) ltac:(simpl; tauto)).
    + by rewrite (Hat "token_signature"%string (JStr []) ltac:(simpl; tauto)).
Qed.
(** What no handler touches. *)
Record same_frame (p p' : NetworkPeer) : Prop := {
  sf_config : p'.(config) = p.(config);
  sf_key : p'.(signing_key) = p.(signing_key);
  sf_keys : p'.(peer_keys) = p.(peer_keys);
  sf_pub : p'.(pub_socket) = p.(pub_socket);
  sf_subs : p'.(sub_sockets) = p.(sub_sockets);
  sf_queue : p'.(offline_queue) = p.(offline_queue);
  sf_running : p'.(running) = p.(running);
  sf_published : p'.(published) = p.(published);
  sf_online : p'.(state).(is_online) = p.(state).(is_online);
  sf_pending : p'.(state).(pending_messages) = p.(state).(pending_messages);
}.

#[local] Instance same_frame_refl : Reflexive same_frame.
Proof. by split. Qed.
#[local] Instance same_frame_trans : Transitive same_frame.
Proof. intros p q r [] []. split; congruence. Qed.

Definition keeps {A} (m : M NetworkPeer A) : Prop := ∀ p, same_frame p (m p).2.

Lemma handler_keeps_read {A} (f : NetworkPeer → result A) : keeps (λ p, (f p, p)).
Proof. intros p. reflexivity. Qed.
Lemma handler_keeps_lift {A} (r : result A) : keeps (lift r).
Proof. intros p. reflexivity. Qed.
Lemma handler_keeps_ret {A} (a : A) : keeps (mret a).
Proof. intros p. reflexivity. Qed.
Lemma handler_keeps_raise {A} e : keeps (raise (A := A) e).
Proof. intros p. reflexivity. Qed.
Lemma handler_keeps_gets {A} (f : NetworkPeer → A) : keeps (gets f).
Proof. intros p. reflexivity. Qed.
Lemma handler_keeps_modify f : (∀ p, same_frame p (f p)) → keeps (modify f).
Proof. intros Hf p. apply Hf. Qed.
Lemma handler_keeps_bind {A B} (m : M NetworkPeer A) (f : A → M NetworkPeer B) :
  keeps m → (∀ a, keeps (f a)) → keeps (m ≫= f).
Proof.
  intros Hm Hf p. unfold mbind, M_bind. specialize (Hm p). destruct (m p) as [[a|e] p']; [|done].
  etrans; [exact Hm|apply Hf].
Qed.

Lemma delete_node_frame h n p : same_frame p (delete_node h n p).
Proof. unfold delete_node. by destruct (code_points _). Qed.

Ltac keep := repeat first
  [ apply handler_keeps_bind; [|intros ?] | apply handler_keeps_lift | apply handler_keeps_ret | apply handler_keeps_raise | apply handler_keeps_gets
  | apply handler_keeps_read | apply handler_keeps_modify; intros ?; first [apply delete_node_frame|by split]
  | progress case_match ].

Lemma handlers_keep t h d m : handlers t = Some h → keeps (h d m).
Proof. destruct t; intros [= <-]; unfold handle_share, handle_deletion, handle_coc_node, handle_peer_status,
  handle_content, handle_request_share, handle_request_content, handle_heartbeat; keep. Qed.

Lemma handle_request_keep d m : keeps (handle_request repr_container exn_text handlers d m).
Proof.
  intros p. unfold handle_request, handler_of. destruct (m_type m) as [t|]; [|reflexivity].
  destruct (handlers t) as [h|] eqn:Hh; [|reflexivity]. pose proof (handlers_keep t h d m Hh p) as Hk.
  by destruct (h d m p).
Qed.
(** Only tokens and nodes touch the storage. *)
Definition keeps_storage {A} (m : M NetworkPeer A) : Prop := ∀ p, (m p).2.(storage) = p.(storage).

Lemma keeps_storage_bind {A B} (m : M NetworkPeer A) (f : A → M NetworkPeer B) :
  keeps_storage m → (∀ a, keeps_storage (f a)) → keeps_storage (m ≫= f).
Proof.
  intros Hm Hf p. unfold mbind, M_bind. specialize (Hm p). destruct (m p) as [[a|e] p']; [|done].
  by rewrite (Hf a p').
Qed.

Lemma handlers_keep_storage t h d m :
  handlers t = Some h → t ≠ DELETION_TOKEN → t ≠ COC_NODE → keeps_storage (h d m).
Proof.
  destruct t; intros [= <-] Ht Hc; try done; unfold handle_share, handle_peer_status, handle_content,
    handle_request_share, handle_request_content, handle_heartbeat;
    repeat first [ apply keeps_storage_bind; [|intros ?] | by intros p | progress case_match ].
Qed.

Lemma rep_iteration_keep d data : keeps (rep_iteration repr_container exn_text handlers d data).
Proof.
  intros p. unfold rep_iteration, rep_body, mbind, M_bind, lift. destruct (deserialize_message _ _ _) as [m|]; [|reflexivity].
  pose proof (handle_request_keep d m p) as Hk. by destruct (handle_request _ _ _ _ _ _) as [[resp|] p'].
Qed.

Lemma sub_iteration_keep d data p : same_frame p (sub_iteration repr_container handlers d data p).
Proof.
  unfold sub_iteration. destruct (deserialize_message _ _ _) as [m|]; [|reflexivity].
  unfold handle_broadcast, handler_of. destruct (m_type m) as [t|]; [|reflexivity].
  destruct (handlers t) as [h|] eqn:Hh; [|reflexivity]. by apply (handlers_keep t h d m Hh p).
Qed.

(** A request has the effect of the same message broadcast. *)
Lemma rep_iteration_effect d data m p :
  deserialize_message repr_container d data = Ok m →
  (rep_iteration repr_container exn_text handlers d data p).2 = handle_broadcast handlers d m p.
Proof.
  intros Hm. assert ((handle_request repr_container exn_text handlers d m p).2 = handle_broadcast handlers d m p) as <-.
  { unfold handle_request, handle_broadcast. destruct (handler_of handlers m) as [h|]; [|done]. by destruct (h d m p). }
  unfold rep_iteration, rep_body, mbind, M_bind, lift. rewrite Hm. by destruct (handle_request _ _ _ _ _ _) as [[resp|] p'].
Qed.

(** A message of another type leaves the storage alone, as a request and as a
    broadcast. *)
Lemma quiet_message c t m data : wf_msg c m → c.(forced_type) = Some t → t ≠ DELETION_TOKEN → t ≠ COC_NODE →
  Protocol.to_bytes m = Ok data → ∀ d p,
    (rep_iteration repr_container exn_text handlers d data p).2.(storage) = p.(storage) ∧
    (sub_iteration repr_container handlers d data p).(storage) = p.(storage).
Proof.
  intros Hm Ht Hn1 Hn2 Hb d p. destruct (wf_msg_roundtrip repr_container c m Hm) as (data' & Hb' & _ & Hdes).
  rewrite Hb in Hb'. injection Hb' as <-. destruct (wm_type _ _ Hm) as (t' & Hmt & Ht'). rewrite Ht in Ht'. injection Ht' as <-.
  rewrite (rep_iteration_effect d data m p (Hdes d)). unfold sub_iteration. rewrite Hdes.
  unfold handle_broadcast, handler_of. rewrite Hmt. destruct (handlers t) as [h|] eqn:Hh; [|done].
  by split; apply (handlers_keep_storage t h d m Hh).
Qed.

(** A response names its sender and carries the verdict it was given. *)
Lemma response_shape d p fields verdict resp :
  response repr_container d p (("request_id"%string, fields.1) :: ("success"%string, JBool verdict) :: fields.2) = Ok resp ∨
  response repr_container d p (("success"%string, JBool verdict) :: fields.2) = Ok resp →
  m_class resp = ResponseMessage ∧ m_sender_id resp = JStr (peer_id p) ∧ attr "success" resp = Ok (JBool verdict).
Proof.
  assert (ResponseMessage ∈ typed_classes) as Hc by (do 6 right; left). unfold response. intros Hr.
  assert (∃ kwargs, construct repr_container d ResponseMessage None kwargs = Ok resp ∧
    kwarg "sender_id" kwargs = Some (JStr (peer_id p)) ∧ kwarg "success" kwargs = Some (JBool verdict))
    as (kwargs & Hcon & Hs & Hv) by (destruct Hr as [Hr|Hr]; by eexists).
  pose proof (attr_construct repr_container d _ _ _ _ "success" (JBool true) Hcon Hc eq_refl
    (member_field "success" ResponseMessage (JBool true) ltac:(simpl; tauto))) as Hat.
  unfold construct in Hcon. destruct (forallb _ _); [|done]. rewrite Hs in Hcon. cbn [from_option_exn mbind result_bind] in Hcon.
  destruct (if truthy _ then _ else _) as [mid|]; [|done]. injection Hcon as <-. by rewrite Hat, Hv.
Qed.

(** The response of the loop's own [except] branch can always be sent. *)
Lemma error_response d p e :
  draw_ok d → Forall is_scalar (peer_id p) → Forall is_scalar (exn_text e) → ∃ resp reply,
    response repr_container d p [("success", JBool false); ("error_message", JStr (exn_text e))]%string = Ok resp ∧
    Protocol.to_bytes resp = Ok reply ∧ m_class resp = ResponseMessage ∧ m_sender_id resp = JStr (peer_id p) ∧
    attr "success" resp = Ok (JBool false).
Proof.
  intros Hd Hp He.
  destruct (response_read repr_container d d p [("success", JBool false); ("error_message", JStr (exn_text e))]%string)
    as (resp & data & Hr & Hb & _); [done..|own_fields|].
  exists resp, data. split; [done|]. split; [done|].
  exact (response_shape d p (JNull, [("error_message", JStr (exn_text e))]%string) false resp (or_intror Hr)).
Qed.

(** The verdict of [handle_request]. *)
Lemma handle_request_verdict d m p resp p' :
  handle_request repr_container exn_text handlers d m p = (Ok resp, p') →
  m_class resp = ResponseMessage ∧ m_sender_id resp = JStr (peer_id p) ∧
  (attr "success" resp = Ok (JBool false) ∨
   attr "success" resp = Ok (JBool true) ∧
   ∃ t h v, m.(m_type) = inl t ∧ handlers t = Some h ∧ h d m p = (Ok v, p')).
Proof.
  pose proof (λ x v r Hr, response_shape d p (m_msg_id m, [x]) v r (or_introl Hr)) as Hshape. cbn [fst snd] in Hshape.
  unfold handle_request, handler_of. destruct (m_type m) as [t|] eqn:Ht; [|intros [= (? & ? & ?)%Hshape <-]; auto].
  destruct (handlers t) as [h|] eqn:Hh; [|intros [= (? & ? & ?)%Hshape <-]; auto].
  destruct (h d m p) as [[v|e] q] eqn:Hr; cbn [mbind result_bind]; [|intros [= (? & ? & ?)%Hshape <-]; auto].
  destruct (response _ _ _ _) as [resp'|e] eqn:Hr1; intros [= Hresp <-]; [subst resp'|apply Hshape in Hresp as (? & ? & ?); auto].
  apply Hshape in Hr1 as (? & ? & ?). split_and!; [done..|]. right. split; [done|]. exists t, h, v. done.
Qed.

(** Code points that can be encoded, or the encoder raises. *)
Lemma utf8_encode_cases s : Forall (λ c, 0 ≤ c < 1114112) s →
  Forall is_scalar s ∨ utf8_encode s = Raise UnicodeError ∧ ¬ Forall is_scalar s.
Proof.
  intros Hs. induction Hs as [|c s Hc Hs IH]; [by left|]. unfold utf8_encode in *. cbn [mapR].
  destruct (is_surrogate c) eqn:Hsur.
  - right. split; [|by intros [[_ Hn] _]%Forall_cons; rewrite Hsur in Hn]. unfold utf8_char. rewrite Hsur.
    unfold is_surrogate in Hsur. apply andb_true_iff in Hsur as [?%Z.leb_le ?%Z.leb_le].
    rewrite !(proj2 (Z.ltb_ge _ _)) by lia. by rewrite (proj2 (Z.ltb_lt _ _)) by lia.
  - destruct IH as [IH|[IH Hn]]; [left; by constructor|]. right. split; [|by intros [_ ?]%Forall_cons].
    destruct (utf8_encode_total [c]) as [bs Hbs]; [by apply Forall_singleton|]. unfold utf8_encode in Hbs. cbn in Hbs.
    destruct (utf8_char c); [|done]. cbn in *. by destruct (mapR utf8_char s).
Qed.

(** The loop's [except] branch: an error response, or the print raises. *)
Lemma except_branch d p e :
  draw_ok d → p.(running) = true → Forall is_scalar (peer_id p) → Forall (λ c, 0 ≤ c < 1114112) (exn_text e) →
  let sent := if p.(running) then
      _ ← utf8_encode (take 8 (peer_id p) ++ exn_text e);
      error_resp ← response repr_container d p [("success", JBool false); ("error_message", JStr (exn_text e))]%string;
      Some <$> Protocol.to_bytes error_resp
    else Ok None in
  (∃ reply resp, sent = Ok (Some reply) ∧ Protocol.to_bytes resp = Ok reply ∧ m_class resp = ResponseMessage ∧
     m_sender_id resp = JStr (peer_id p) ∧ attr "success" resp = Ok (JBool false)) ∨
  sent = Raise UnicodeError ∧ ¬ Forall is_scalar (exn_text e).
Proof.
  intros Hd Hrun Hp He. rewrite Hrun. cbn zeta. assert (Forall is_scalar (take 8 (peer_id p))) as Hp8 by by apply Forall_take.
  destruct (utf8_encode_cases (take 8 (peer_id p) ++ exn_text e)) as [Hsc|[-> Hn]].
  - apply Forall_app. split; [|done]. eapply Forall_impl; [exact Hp8|]. by intros c [? _].
  - left. destruct (utf8_encode_total _ Hsc) as [bs ->]. apply Forall_app in Hsc as [_ Hsc].
    destruct (error_response d p e Hd Hp Hsc) as (resp & reply & -> & Hb & ?). exists reply, resp. cbn. by rewrite Hb.
  - right. split; [done|]. intros He'. apply Hn, Forall_app. done.
Qed.

(** C26: the REP loop answers every request whose failure it can print.
    Whatever bytes arrive, malformed ones included, a running peer sends back
    exactly one [ResponseMessage] of its own, so the alternation of receive and
    send that a REP socket demands is kept; the response reports success only if
    the bytes are a message whose handler returned, and a handler changes nothing
    but what a peer stores.  The one exception: when handling the bytes raised
    an exception whose text has a lone surrogate, printing it raises
    [UnicodeEncodeError], nothing is sent and the loop ends. *)
Theorem rep_loop_answers (d : draw) (msg_bytes : bytes) (p : NetworkPeer) :
  draw_ok d → p.(running) = true → Forall is_scalar (peer_id p) →
  (∀ e, Forall (λ c, 0 ≤ c < 1114112) (exn_text e)) →
  let '(r, p') := rep_iteration repr_container exn_text handlers d msg_bytes p in
  same_frame p p' ∧
  ((∃ reply resp, r = Ok (Some reply) ∧ Protocol.to_bytes resp = Ok reply ∧
      m_class resp = ResponseMessage ∧ m_sender_id resp = JStr (peer_id p) ∧
      (attr "success" resp = Ok (JBool false) ∨
       attr "success" resp = Ok (JBool true) ∧
       ∃ m t h v, deserialize_message repr_container d msg_bytes = Ok m ∧ m.(m_type) = inl t ∧ handlers t = Some h ∧
         h d m p = (Ok v, p'))) ∨
   (∃ e, rep_body repr_container exn_text handlers d msg_bytes p = (Raise e, p') ∧
      ¬ Forall is_scalar (exn_text e) ∧ r = Raise UnicodeError)).
Proof.
  intros Hd Hrun Hp He. pose proof (rep_iteration_keep d msg_bytes p) as Hk. unfold rep_iteration in *.
  destruct (rep_body repr_container exn_text handlers d msg_bytes p) as [[reply|e] p'] eqn:Hbody; cbn [snd] in Hk;
    (split; [done|]).
  - left. unfold rep_body, mbind, M_bind, lift in Hbody.
    destruct (deserialize_message repr_container d msg_bytes) as [m|] eqn:Hm; [|done].
    destruct (handle_request repr_container exn_text handlers d m p) as [[resp|] p1] eqn:Hreq; [|done].
    injection Hbody as Hb <-. exists reply, resp. split; [done|]. split; [done|].
    apply handle_request_verdict in Hreq as (? & ? & [?|(? & t & h & v & ?)]); eauto 12.
  - assert (peer_id p' = peer_id p) as Hid by (unfold peer_id; by rewrite (sf_config _ _ Hk)).
    destruct (except_branch d p' e Hd) as [(reply & resp & -> & ? & ? & ? & ?)|[-> Hn]].
    + by rewrite (sf_running _ _ Hk).
    + by rewrite Hid.
    + done.
    + left. exists reply, resp. rewrite <-Hid. split_and!; auto.
    + right. by exists e.
Qed.

(** A request for content is answered from the shares: the content a peer was
    sent and stored is never handed out. *)
Lemma content_request_unserved d d' self h p :
  draw_ok d → draw_ok d' → Forall is_scalar self → Forall is_scalar (peer_id p) → Forall is_scalar h →
  p.(shares) !! h = None →
  request repr_container (serve d') d self REQUEST_CONTENT (JStr h) p = (Ok (Some (obj [("found", JBool false)])), p).
Proof.
  intros Hd Hd' Hself Hp Hh Hs. rewrite (request_ok d d' self REQUEST_CONTENT h p); [by unfold share_answer; rewrite Hs|done..|].
  by rewrite Hs.
Qed.

(** A token whose originator is unknown is obeyed, whatever its signature. *)
Lemma unknown_originator_obeyed h o timestamp sig p key n :
  p.(peer_keys) !! o = None → text_of h = Ok key → InMemory.get_node key p.(storage) = Some n →
  after_token h o timestamp sig p = delete_node key n p.
Proof. intros Ho Hh Hn. unfold after_token, accepts. by rewrite Ho, Hh, Hn. Qed.

(** C27: what one peer sends, the other stores, through the sockets: a share
    sent with [send_share] is held under its content hash with the index, value,
    threshold and total that were sent, and a request for it returns exactly
    them; a chain-of-custody node sent with [send_coc_node] is stored as the
    very same node, signature and children included.  Both calls report
    success, and nothing else of the receiver changes. *)
Theorem peer_delivery (d d' : draw) (self h : pystr) (index data threshold total : json) (t : MessageType)
    (n : CoCNode) (p : NetworkPeer) :
  draw_ok d → draw_ok d' → Forall is_scalar self → Forall is_scalar (peer_id p) → Forall is_scalar h →
  Forall wf_json [index; data; threshold; total] → wf_node n → node_texts n →
  let held := mkHeld index data threshold total (JStr self) in
  let p' := hold h held p in
  send_share repr_container (serve d') d self index data (JStr h) threshold total p = (Ok true, p') ∧
  request repr_container (serve d') d self t (JStr h) p'
    = (Ok (Some (obj [("found", JBool true); ("share", share_json held)])), p') ∧
  send_coc_node repr_container (serve d') d self n p
    = (Ok true, set_stores (InMemory.add_node n p.(storage)) p.(shares) p.(content) p).
Proof.
  intros Hd Hd' Hself Hp Hh Hj Hn Ht held p'. rewrite !Forall_cons in Hj. destruct Hj as (? & ? & ? & ? & _).
  split; [by apply send_share_ok|]. split; [|by apply send_coc_node_ok].
  assert (shares p' !! h = Some held) as Hs by apply lookup_insert_eq.
  rewrite (request_ok d d' self t h p'); [by unfold share_answer; rewrite Hs|done..|].
  intros s. rewrite Hs. intros [= <-]. repeat (constructor; [done || by constructor|]). constructor.
Qed.
End handled.

(** ** Witnesses *)

Definition toy_text (e : pyexn) : pystr := str "error".
Definition toy_config (id : string) (index : Z) : PeerConfig :=
  mkConfig (str id) index (str "127.0.0.1") (Some [index]) true true true.
Definition toy_peer (id : string) (index : Z) : NetworkPeer :=
  set_sockets Open [] true (init_peer [] (toy_config id index)).
Definition toy_node : CoCNode :=
  mkNode 2 "c1" None "ann" ["bob"]%string "2024" {[ "n2" ]} 0 (Some [7; 200]) "n1".

Lemma ascii_text s : Forall (λ c, 0 ≤ c < 128) (str s) → is_text s.
Proof.
  intros Hs. exists (str s). split; [apply str_scalars|]. unfold text_of. rewrite (utf8_encode_ascii _ Hs).
  cbn. f_equal. apply str_inj, str_pystring. eapply Forall_impl; [exact Hs|]. cbn. lia.
Qed.

Ltac ascii := apply ascii_text; cbn; repeat (constructor; [lia|]); constructor.

Lemma toy_node_ok : wf_node toy_node ∧ node_texts toy_node.
Proof.
  split; split.
  - reflexivity.
  - intros sig [= <-]. split; [|done]. by repeat constructor.
  - repeat (constructor; [ascii|]). constructor.
  - done.
  - repeat (constructor; [ascii|]). constructor.
  - intros h Hh. cbn in Hh. assert (h = "n2"%string) as -> by set_solver. ascii.
Qed.

(** Bytes that are no message; then a JSON object with a lone surrogate as its
    key, and an exception text that repeats it. *)
Definition surrogate_text (e : pyexn) : pystr := match e with ValueError => str "error" | _ => [55296] end.

Lemma rep_loop_answers_witness :
  (let '(r, p') := rep_iteration (S := toy_signer) toy_repr toy_text (default_handlers (S := toy_signer) toy_repr)
      toy_draw [123] (toy_peer "bob" 1) in
   same_frame (toy_peer "bob" 1) p' ∧ ∃ reply resp, r = Ok (Some reply) ∧ Protocol.to_bytes resp = Ok reply ∧
     m_class resp = ResponseMessage ∧ m_sender_id resp = JStr (str "bob")) ∧
  (rep_iteration (S := toy_signer) toy_repr surrogate_text (default_handlers (S := toy_signer) toy_repr)
    toy_draw [123; 34; 92; 117; 100; 56; 48; 48; 34; 58; 49; 125] (toy_peer "bob" 1)).1 = Raise UnicodeError.
Proof.
  split; [|vm_compute; reflexivity].
  pose proof (rep_loop_answers (S := toy_signer) (L := toy_signer_laws) toy_repr toy_text toy_draw [123] (toy_peer "bob" 1)
    toy_draw_ok eq_refl (str_scalars _)) as H.
  destruct (rep_iteration _ _ _ _ _ _) as [r p']. destruct H as [Hf [(reply & resp & ? & ? & ? & ? & _)|(e & _ & Hn & _)]].
  - intros e. repeat (constructor; [cbn; lia|]). constructor.
  - split; [done|]. exists reply, resp. split_and!; auto.
  - destruct Hn. apply str_scalars.
Defined.

Lemma peer_delivery_witness :
  let bob := toy_peer "bob" 1 in
  let serve := rep_iteration (S := toy_signer) toy_repr toy_text (default_handlers (S := toy_signer) toy_repr) toy_draw in
  let held := mkHeld (JInt 1) (JStr (str "0x2a")) (JInt 2) (JInt 3) (JStr (str "ann")) in
  let p' := hold (str "c1") held bob in
  send_share (S := toy_signer) toy_repr serve toy_draw (str "ann") (JInt 1) (JStr (str "0x2a")) (JStr (str "c1"))
    (JInt 2) (JInt 3) bob = (Ok true, p') ∧
  request (S := toy_signer) toy_repr serve toy_draw (str "ann") REQUEST_CONTENT (JStr (str "c1")) p'
    = (Ok (Some (obj [("found", JBool true); ("share", share_json held)])), p') ∧
  send_coc_node (S := toy_signer) toy_repr serve toy_draw (str "ann") toy_node bob
    = (Ok true, set_stores (InMemory.add_node toy_node bob.(storage)) bob.(shares) bob.(content) bob).
Proof.
  apply (peer_delivery (S := toy_signer) (L := toy_signer_laws) toy_repr toy_text toy_draw toy_draw).
  - apply toy_draw_ok.
  - apply toy_draw_ok.
  - apply str_scalars.
  - apply str_scalars.
  - apply str_scalars.
  - repeat (constructor; [constructor; try apply str_scalars|]). constructor.
  - apply toy_node_ok.
  - apply toy_node_ok.
Defined.
