(* ===== verification/Coordinator.v ===== *)
(** * The network coordinator ([coc_framework/network/coordinator.py])

    [NetworkCoordinator] starts peers, connects them and drives them through a
    scenario.  A [World] is the coordinator with the peers of [peer_map] in its
    order.  A request reaches the peer bound to the address it is sent to;
    [deliver] decides for each request whether it and its reply get through (to a
    peer whose REP loop has ended it loses them all).
    Waiting for the time of an event is not modelled: events run in order.

    [CoCNode] has no [create_root] and no [create_child], so the two calls raise
    [AttributeError].  Time stamps of events are finite numbers; another type is
    refused when the event is added. *)

From Stdlib Require Import ZArith Lia Ascii String.
From S2P Require Import Prelude PyData DateTime Json Primality Shamir SecretSharing Crypto CoCNode Storage Protocol PeerProcess.

(** ** Data *)

Record PeerInfo := mkInfo {
  pi_peer_id : pystr;
  pi_peer_index : Z;
  pi_process : option bool;              (* a process, and whether it is alive *)
  pi_host : pystr;
  pi_signing_key : option bytes;
  pi_is_online : bool;
}.

Record ScenarioEvent := mkEvent {
  ev_type : json;
  ev_timestamp : Z * Z;                  (* a fraction, the denominator positive *)
  ev_params : json;
  ev_executed : bool;
}.

Record Coordinator := mkCoord {
  host : pystr;
  infos : list (pystr * PeerInfo);       (* [self.peers] *)
  peer_index_counter : Z;
  scenario : list ScenarioEvent;
  coord_running : bool;
  results : list json;
}.

Definition init_coordinator (host : pystr) : Coordinator := mkCoord host [] 0 [] false [].

Definition set_infos (l : list (pystr * PeerInfo)) (c : Coordinator) : Coordinator :=
  mkCoord c.(host) l c.(peer_index_counter) c.(scenario) c.(coord_running) c.(results).
Definition set_scenario (l : list ScenarioEvent) (c : Coordinator) : Coordinator :=
  mkCoord c.(host) c.(infos) c.(peer_index_counter) l c.(coord_running) c.(results).
Definition add_result (v : json) (c : Coordinator) : Coordinator :=
  mkCoord c.(host) c.(infos) c.(peer_index_counter) c.(scenario) c.(coord_running) (c.(results) ++ [v]).

(** ** Peers as processes *)

(** [id] is the given one or [secrets.token_hex(8)]. *)
Definition create_peer (id : pystr) (key : bytes) (c : Coordinator) : PeerInfo * Coordinator :=
  let info := mkInfo id c.(peer_index_counter) None c.(host) (Some key) false in
  (info, mkCoord c.(host) (set_item id info c.(infos)) (c.(peer_index_counter) + 1) c.(scenario)
           c.(coord_running) c.(results)).

(** The configuration handed to the new process: no signing key. *)
Definition process_config (info : PeerInfo) : PeerConfig :=
  mkConfig info.(pi_peer_id) info.(pi_peer_index) info.(pi_host) None true true true.

Definition start_peer (id : pystr) (c : Coordinator) : bool * option PeerConfig * Coordinator :=
  match get_item id c.(infos) with
  | None => (false, None, c)
  | Some info =>
      if decide (info.(pi_process) = Some true) then (true, None, c)
      else (true, Some (process_config info),
            set_infos (set_item id (mkInfo info.(pi_peer_id) info.(pi_peer_index) (Some true) info.(pi_host)
              info.(pi_signing_key) true) c.(infos)) c)
  end.

Definition stop_peer (id : pystr) (c : Coordinator) : bool * Coordinator :=
  match get_item id c.(infos) with
  | None => (false, c)
  | Some info =>
      match info.(pi_process) with
      | None => (false, c)
      | Some _ =>
          (true, set_infos (set_item id (mkInfo info.(pi_peer_id) info.(pi_peer_index) (Some false) info.(pi_host)
             info.(pi_signing_key) false) c.(infos)) c)
      end
  end.

Definition start_all_peers (c : Coordinator) : Coordinator :=
  foldl (λ c id, (start_peer id c).2) c c.(infos).*1.
Definition stop_all_peers (c : Coordinator) : Coordinator :=
  foldl (λ c id, (stop_peer id c).2) c c.(infos).*1.

(** ** Scenarios *)

Definition earlier (a b : ScenarioEvent) : bool :=
  a.(ev_timestamp).1 * b.(ev_timestamp).2 <? b.(ev_timestamp).1 * a.(ev_timestamp).2.

(** [sort(key=...)] is stable. *)
Fixpoint insert_event (e : ScenarioEvent) (l : list ScenarioEvent) : list ScenarioEvent :=
  match l with
  | [] => [e]
  | x :: l => if earlier e x then e :: x :: l else x :: insert_event e l
  end.
Definition sort_events (l : list ScenarioEvent) : list ScenarioEvent :=
  foldl (λ acc e, insert_event e acc) [] l.

Definition finite (v : json) : result (Z * Z) :=
  match number_value v with Some (FNum n d) => Ok (n, d) | _ => Raise TypeError end.

Definition read_event (v : json) : result ScenarioEvent :=
  match v with
  | JObj items =>
      t ← from_option_exn KeyError (kwarg "type" items);
      ts ← finite (default (JInt 0) (kwarg "timestamp" items));
      Ok (mkEvent t ts (default (JObj []) (kwarg "params" items)) false)
  | _ => Raise TypeError
  end.

(** [load_scenario] of the decoded file. *)
Definition load_scenario (data : json) (c : Coordinator) : result Coordinator :=
  match data with
  | JObj items =>
      match default (JArr []) (kwarg "events" items) with
      | JArr l => events ← mapR read_event l; Ok (set_scenario (sort_events events) c)
      | _ => Raise TypeError
      end
  | _ => Raise AttributeError
  end.

Definition add_event (t params timestamp : json) (c : Coordinator) : result Coordinator :=
  ts ← finite timestamp; Ok (set_scenario (sort_events (c.(scenario) ++ [mkEvent t ts params false])) c).

(** ** The world of a scenario *)

Record World := mkWorld {
  coord : Coordinator;
  peers : list (pystr * NetworkPeer);    (* [peer_map] *)
  sends : nat;                           (* requests sent so far *)
}.

Definition set_coord (c : Coordinator) (w : World) : World := mkWorld c w.(peers) w.(sends).
Definition update_peer (id : pystr) (f : NetworkPeer → NetworkPeer) (w : World) : World :=
  mkWorld w.(coord)
    ((λ kp, (kp.1, if decide (kp.1 = id) then f kp.2 else kp.2)) <$> w.(peers)) w.(sends).

(** What happens to a request: it is lost, its reply is, or neither. *)
Inductive delivery := Lost | NoReply | Answered.

(** What the execution of an event draws and reads. *)
Record Draw := mkDrawing {
  dr_now : Z;                            (* [datetime.now(timezone.utc)] *)
  dr_draw : draw;
  dr_entropy : entropy;
}.

Definition LOCALHOST : pystr := str "127.0.0.1".

Section world.
Context {S : Signer} {P : SharingPrims} (repr_container : json → pystr) (exn_text : pyexn → pystr).
Context (deliver : nat → delivery).

Abbreviation handlers := (default_handlers repr_container).

(** The peer whose REP socket is bound to the address. *)
Definition bound_to (addr : pystr) (kp : pystr * NetworkPeer) : bool :=
  bool_decide (get_rep_address kp.2.(config).(cfg_peer_index) kp.2.(config).(cfg_host) = addr) && kp.2.(running).

(** A request to [rep_address] of [peer_index]; [send_direct] is called without
    a host. *)
Definition exchange (d : draw) (peer_index : Z) (data : bytes) : M World (option bytes) := λ w,
  let w' := mkWorld w.(coord) w.(peers) (1 + w.(sends))%nat in
  match deliver w.(sends), list_find (λ kp, bound_to (get_rep_address peer_index LOCALHOST) kp = true) w.(peers) with
  | Lost, _ | _, None => (Ok None, w')
  | how, Some (_, (id, p)) =>
      let '(r, p') := rep_iteration repr_container exn_text handlers d data p in
      (Ok (match how, r with Answered, Ok reply => reply | _, _ => None end), update_peer id (λ _, p') w')
  end.

(** A method of one peer. *)
Definition on_peer {A} (id : pystr) (m : M NetworkPeer A) : M World A := λ w,
  match get_item id w.(peers) with
  | Some p => let '(r, p') := m p in (r, update_peer id (λ _, p') w)
  | None => (Raise KeyError, w)
  end.

(** ** [_find_peer] *)

Fixpoint starts_with (p s : pystr) : bool :=
  match p, s with
  | [], _ => true
  | a :: p, b :: s => (a =? b) && starts_with p s
  | _ :: _, [] => false
  end.
Fixpoint contains (p s : pystr) : bool :=
  starts_with p s || match s with [] => false | _ :: s => contains p s end.

Definition find_peer (identifier : json) : M World (option pystr) := λ w,
  (match identifier with
   | JArr _ | JObj _ => Raise TypeError
   | JStr s =>
       Ok match get_item s w.(peers) with
          | Some _ => Some s
          | None => (λ ikp, ikp.2.1) <$> list_find (λ kp, starts_with s kp.1 || contains s kp.1 = true) w.(peers)
          end
   | _ => match w.(peers) with [] => Ok None | _ => Raise TypeError end
   end, w).

(** ** Events *)

(** [params.get(k)], [None] for a missing key. *)
Definition param (k : string) (params : json) : result (option json) :=
  match params with JObj items => Ok (kwarg k items) | _ => Raise AttributeError end.

(** [for x in v]. *)
Definition iterate (v : json) : result (list json) :=
  match v with
  | JArr l => Ok l
  | JStr s => Ok ((λ c, JStr [c]) <$> s)
  | JObj items => Ok ((λ kv, JStr kv.1) <$> items)
  | _ => Raise TypeError
  end.

(** The hash of the content is computed before the missing method is called. *)
Definition event_create_message (params : json) : M World unit :=
  sender_id ← lift (param "sender" params);
  content ← lift (param "content" params);
  sender ← find_peer (default JNull sender_id);
  match sender with
  | None => mret ()
  | Some _ =>
      lift (match default (JStr []) content with
            | JStr s => _ ← utf8_encode s; Ok ()
            | _ => Raise AttributeError
            end) ;;
      raise AttributeError
  end.

Definition stored_node (id : pystr) (node_hash : json) : M World (option (string * CoCNode)) :=
  on_peer id (λ p, (find_node node_hash p, p)).

Definition event_forward_message (params : json) : M World unit :=
  sender_id ← lift (param "sender" params);
  node_hash ← lift (param "node_hash" params);
  recipients ← lift (param "recipients" params);
  sender ← find_peer (default JNull sender_id);
  match sender with
  | None => mret ()
  | Some sender =>
      node ← stored_node sender (default JNull node_hash);
      match node with
      | None => mret ()
      | Some _ =>
          l ← lift (iterate (default (JArr []) recipients));
          for_each l (λ recipient_id,
            recipient ← find_peer recipient_id;
            match recipient with Some _ => raise AttributeError | None => mret () end)
      end
  end.

(** The text a token of the coordinator signs. *)
Definition signed_text (node_hash : pystr) (peer : pystr) (now : Z) : pystr := node_hash ++ peer ++ iso_codes now.

Definition event_delete_message (d : Draw) (params : json) : M World unit :=
  originator_id ← lift (param "originator" params);
  node_hash ← lift (param "node_hash" params);
  originator ← find_peer (default JNull originator_id);
  match originator with
  | None => mret ()
  | Some originator =>
      node ← stored_node originator (default JNull node_hash);
      match node, node_hash with
      | Some (key, node), Some (JStr h) =>
          if decide (text_of originator = Ok node.(owner_id)) then
            on_peer originator
              (signature ← gets (λ p, bytes_hex (sign_text p.(signing_key) (signed_text h originator d.(dr_now))));
               broadcast_deletion repr_container d.(dr_draw) (JStr h) (JStr originator) (JStr signature) ;;
               modify (λ p, set_stores (InMemory.remove_node key p.(storage)) p.(shares) p.(content) p))
          else mret ()
      | _, _ => mret ()
      end
  end.

Definition event_peer_online (d : Draw) (params : json) : M World unit :=
  id ← lift (param "peer" params);
  peer ← find_peer (default JNull id);
  match peer with
  | Some peer => on_peer peer (modify (λ p, process_pending_messages handlers d.(dr_draw) (go_online p)))
  | None => mret ()
  end.

Definition event_peer_offline (params : json) : M World unit :=
  id ← lift (param "peer" params);
  peer ← find_peer (default JNull id);
  match peer with
  | Some peer => on_peer peer (modify go_offline)
  | None => mret ()
  end.

(** The ids of the peers the names resolve to. *)
Fixpoint find_peers (l : list json) : M World (list pystr) :=
  match l with
  | [] => mret []
  | v :: l => peer ← find_peer v; rest ← find_peers l; mret (match peer with Some p => p :: rest | None => rest end)
  end.

(** [Optional[int]] as [split_content] uses it. *)
Definition threshold_of (v : json) : result (option Z) :=
  match v with
  | JNull => Ok None
  | JInt n => Ok (Some n)
  | JBool b => Ok (Some (if b then 1 else 0))
  | _ => Raise TypeError
  end.

(** One round of the loop over [share_map.items()]. *)
Definition send_to (d : Draw) (sender : pystr) (share_map : gmap string Share) (id : pystr) : M World unit :=
  share ← lift (key ← text_of id; from_option_exn KeyError (share_map !! key));
  recipient ← gets (λ w, get_item id w.(peers));
  info ← gets (λ w, get_item id w.(coord).(infos));
  match recipient, info with
  | Some _, Some info =>
      _ ← send_share repr_container (exchange d.(dr_draw) info.(pi_peer_index)) d.(dr_draw) sender
        (JInt share.(index)) (JStr share.(value)) (JStr share.(SecretSharing.content_hash))
        (JInt share.(SecretSharing.threshold)) (JInt share.(total_shares));
      mret ()
  | _, _ => mret ()
  end.

Definition event_distribute_shares (d : Draw) (params : json) : M World unit :=
  sender_id ← lift (param "sender" params);
  content ← lift (param "content" params);
  recipients ← lift (param "recipients" params);
  recipients ← lift (iterate (default (JArr []) recipients));
  threshold ← lift (param "threshold" params);
  let threshold := default (JInt (Z.of_nat (length recipients) / 2 + 1)) threshold in
  sender ← find_peer (default JNull sender_id);
  match sender with
  | None => mret ()
  | Some sender =>
      recipient_ids ← find_peers recipients;
      content ← lift (match default (JStr []) content with JStr s => Ok s | _ => Raise TypeError end);
      thr ← lift (threshold_of threshold);
      ids ← lift (mapR text_of recipient_ids);
      '(share_map, _) ← lift (split_content d.(dr_entropy) (init_engine 3 5) content ids thr);
      for_each (first_keys recipient_ids) (send_to d sender share_map) ;;
      content_hash ← lift (match ids with
        | [] => Ok []
        | id :: _ => share ← from_option_exn KeyError (share_map !! id); Ok share.(SecretSharing.content_hash)
        end);
      modify (λ w, set_coord (add_result (obj [("event", JStr (str "DISTRIBUTE_SHARES"));
        ("content_hash", JStr content_hash); ("threshold", threshold);
        ("total_shares", JInt (Z.of_nat (length recipients)))]) w.(coord)) w)
  end.

Definition execute_event (d : Draw) (ev : ScenarioEvent) : M World unit :=
  match ev.(ev_type) with
  | JStr t =>
      if decide (t = str "CREATE_MESSAGE") then event_create_message ev.(ev_params)
      else if decide (t = str "FORWARD_MESSAGE") then event_forward_message ev.(ev_params)
      else if decide (t = str "DELETE_MESSAGE") then event_delete_message d ev.(ev_params)
      else if decide (t = str "PEER_ONLINE") then event_peer_online d ev.(ev_params)
      else if decide (t = str "PEER_OFFLINE") then event_peer_offline ev.(ev_params)
      else if decide (t = str "DISTRIBUTE_SHARES") then event_distribute_shares d ev.(ev_params)
      else mret ()
  | _ => mret ()
  end.

(** ** Running a scenario *)

(** [set_event_callback]. *)
Context (on_event_complete : option (json → json → result unit)).

Definition mark_executed (i : nat) (c : Coordinator) : Coordinator :=
  set_scenario (alter (λ e, mkEvent e.(ev_type) e.(ev_timestamp) e.(ev_params) true) i c.(scenario)) c.

Definition error_result (d : Draw) (ev : ScenarioEvent) (e : pyexn) : json :=
  obj [("event", ev.(ev_type)); ("error", JStr (exn_text e)); ("timestamp", JFloat d.(dr_draw).(d_now))].

Definition run_event (d : Draw) (i : nat) (w : World) : World :=
  match w.(coord).(scenario) !! i with
  | None => w
  | Some ev =>
      let '(r, w) := (execute_event d ev ;;
        modify (λ w, set_coord (mark_executed i w.(coord)) w) ;;
        match on_event_complete with
        | Some callback => lift (callback ev.(ev_type) ev.(ev_params))
        | None => mret ()
        end) w in
      match r with
      | Ok _ => w
      | Raise e => set_coord (add_result (error_result d ev e) w.(coord)) w
      end
  end.

Definition execute_scenario (draws : nat → Draw) (w : World) : World :=
  foldl (λ w i, run_event (draws i) i w) w (seq 0 (length w.(coord).(scenario))).

(** ** Peers in one process *)

Definition fresh_peer (host : pystr) (d : draw) (i : nat) (id : pystr) (key : bytes) : result NetworkPeer :=
  let '(r, p) := start repr_container d (init_peer key (mkConfig id (Z.of_nat i) host None true true true)) in
  _ ← r; Ok p.

Definition link (peer other : NetworkPeer) : NetworkPeer :=
  if decide (peer_id peer = peer_id other) then peer
  else register_peer_key (peer_id other) (public_key other.(signing_key)) (connect_to_peer (peer_id other) peer).

(** [run_in_process]: for each peer an id and a key are drawn; what a peer is
    told about the others does not change while they are linked. *)
Definition run_in_process (d : draw) (drawn : list (pystr * bytes)) (c : Coordinator) : result World :=
  started ← mapR (λ iik, fresh_peer c.(host) d iik.1 iik.2.1 iik.2.2) (imap pair drawn);
  let linked := (λ p, foldl link p started) <$> started in
  let new := (λ p, (peer_id p, mkInfo (peer_id p) p.(config).(cfg_peer_index) None c.(host) (Some p.(signing_key)) true))
    <$> started in
  Ok (mkWorld (mkCoord c.(host) (foldl (λ l ki, set_item ki.1 ki.2 l) c.(infos) new) c.(peer_index_counter)
        c.(scenario) true c.(results))
      (dict_items ((λ p, (peer_id p, p)) <$> linked)) 0).

Definition stop_in_process_peers (d : draw) (w : World) : result World :=
  stopped ← mapR (λ kp, let '(r, p) := stop repr_container d kp.2 in _ ← r; Ok (kp.1, p)) w.(peers);
  let c := w.(coord) in
  Ok (mkWorld (mkCoord c.(host) c.(infos) c.(peer_index_counter) c.(scenario) false c.(results)) stopped w.(sends)).
End world.

(** ** What a scenario can do to stored nodes *)

(** Every peer listens on the address that its index gives, which is its own. *)
Record wired (w : World) : Prop := {
  wired_keys : NoDup w.(peers).*1;
  wired_id k p : (k, p) ∈ w.(peers) → peer_id p = k ∧ Forall is_scalar k ∧ p.(running) = true ∧
    p.(config).(cfg_host) = LOCALHOST;
  wired_index k p k' p' : (k, p) ∈ w.(peers) → (k', p') ∈ w.(peers) →
    get_rep_address p.(config).(cfg_peer_index) LOCALHOST = get_rep_address p'.(config).(cfg_peer_index) LOCALHOST → k = k';
  wired_info k p : (k, p) ∈ w.(peers) → ∃ info, get_item k w.(coord).(infos) = Some info ∧
    info.(pi_peer_index) = p.(config).(cfg_peer_index);
}.

Abbreviation stored p := (InMemory.nodes p.(storage)).

Section safety.
Context {S : Signer} {L : SignerLaws S} {P : SharingPrims} {PL : SharingLaws P}.
Context (repr_container : json → pystr) (exn_text : pyexn → pystr) (deliver : nat → delivery).

Abbreviation handlers := (default_handlers repr_container).

(** No subscriber that knows the key of [o] loses a node to the message. *)
Definition benign (o : pystr) (key data : bytes) : Prop :=
  ∀ d q, q.(peer_keys) !! o = Some key → stored (sub_iteration repr_container handlers d data q) = stored q.

(** The message is a deletion token of [k] for [h] that carries the time [t]
    and a signature made over the text with the time [now]. *)
Definition carries_token (k h t : pystr) (now : Z) (sk data : bytes) : Prop :=
  Forall is_scalar (signed_text h k now) ∧ Forall is_scalar (token_text repr_container h k (JFloat t)) ∧
  token_text repr_container h k (JFloat t) ≠ signed_text h k now ∧
  ∀ d q, sub_iteration repr_container handlers d data q
    = after_token repr_container h k (JFloat t) (sign_text sk (signed_text h k now)) q.

(** What the peer [k] publishes: messages that touch no subscriber's nodes, and
    tokens whose signature covers another text than the one they carry. *)
Definition sound (k : pystr) (sk data : bytes) : Prop :=
  (∀ d q, stored (sub_iteration repr_container handlers d data q) = stored q) ∨
  ∃ h t now, carries_token k h t now sk data.

(** What the run is assumed to keep nodes under. *)
Context (U : Prop).

(** How the peer [k] may change. *)
Record evolves (k : pystr) (p p' : NetworkPeer) : Prop := {
  evo_config : p'.(config) = p.(config);
  evo_key : p'.(signing_key) = p.(signing_key);
  evo_keys : p'.(peer_keys) = p.(peer_keys);
  evo_subs : p'.(sub_sockets) = p.(sub_sockets);
  evo_queue : p'.(offline_queue) = p.(offline_queue);
  evo_pending : p'.(state).(pending_messages) = p.(state).(pending_messages);
  evo_published : ∃ new, p'.(published) = p.(published) ++ new ∧
    Forall (sound k p.(signing_key)) new;
  evo_nodes h n : U → stored p !! h = Some n → text_of k ≠ Ok n.(owner_id) → stored p' !! h = Some n;
}.

#[local] Instance evolves_refl k : Reflexive (evolves k).
Proof. intros p. split; try done. exists []. by rewrite app_nil_r. Qed.
#[local] Instance evolves_trans k : Transitive (evolves k).
Proof.
  intros p q r [] []. split; try congruence; [|by eauto].
  destruct evo_published0 as (n1 & H1 & B1), evo_published1 as (n2 & H2 & B2). exists (n1 ++ n2).
  split; [by rewrite H2, H1, app_assoc|]. apply Forall_app. split; [done|]. by rewrite <- evo_key0.
Qed.

Lemma evolves_frame k p p' : same_frame p p' → stored p' = stored p → evolves k p p'.
Proof.
  intros [] Hs. split; try done; [|by rewrite Hs]. exists []. by rewrite app_nil_r.
Qed.

Definition world_evolves (w w' : World) : Prop :=
  Forall2 (λ kp kp', kp'.1 = kp.1 ∧ evolves kp.1 kp.2 kp'.2) w.(peers) w'.(peers).

#[local] Instance world_evolves_refl : Reflexive world_evolves.
Proof. intros w. unfold world_evolves. induction (peers w); constructor; [split; reflexivity|done]. Qed.
#[local] Instance world_evolves_trans : Transitive world_evolves.
Proof.
  intros w1 w2 w3 H12 H23. unfold world_evolves in *. revert H23. generalize (peers w3).
  induction H12 as [|x y l k [Hk He] _ IH]; intros l3 H23.
  - apply Forall2_nil_inv_l in H23 as ->. constructor.
  - apply Forall2_cons_inv_l in H23 as (z & l' & [Hk' He'] & H' & ->). constructor; [|by apply IH].
    split; [congruence|]. rewrite Hk in He'. by etrans.
Qed.

(** The state [run_in_process] establishes and scenarios keep: a peer knows the
    key of every peer it follows, nothing is queued, and what was published is
    sound. *)
Record mesh (w : World) : Prop := {
  mesh_keys : NoDup w.(peers).*1;
  mesh_ids k p : (k, p) ∈ w.(peers) → peer_id p = k ∧ Forall is_scalar k;
  mesh_idle k p : (k, p) ∈ w.(peers) → p.(offline_queue) = [] ∧ p.(state).(pending_messages) = [];
  mesh_trust s ps k p : (s, ps) ∈ w.(peers) → k ∈ ps.(sub_sockets) → (k, p) ∈ w.(peers) →
    ps.(peer_keys) !! k = Some (public_key p.(signing_key));
  mesh_sound k p : (k, p) ∈ w.(peers) → Forall (sound k p.(signing_key)) p.(published);
}.

Lemma evolves_keys w w' : world_evolves w w' → w'.(peers).*1 = w.(peers).*1.
Proof. intros H. unfold world_evolves in H. induction H as [|x y l l' [Hk _] _ IH]; csimpl; congruence. Qed.

Lemma evolves_back w w' k p' : world_evolves w w' → (k, p') ∈ w'.(peers) →
  ∃ p, (k, p) ∈ w.(peers) ∧ evolves k p p'.
Proof.
  intros H (i & Hi)%list_elem_of_lookup. destruct (Forall2_lookup_r _ _ _ _ _ H Hi) as ([k0 p] & Hp & Hk & He).
  cbn in *. subst k0. exists p. split; [by eapply list_elem_of_lookup_2|done].
Qed.

Lemma mesh_evolves w w' : mesh w → world_evolves w w' → mesh w'.
Proof.
  intros Hm He. split.
  - rewrite (evolves_keys _ _ He). apply Hm.
  - intros k p' (p & Hp & Hev)%(evolves_back w w' k p' He). unfold peer_id. rewrite (evo_config _ _ _ Hev).
    by apply (mesh_ids w Hm).
  - intros k p' (p & Hp & Hev)%(evolves_back w w' k p' He). rewrite (evo_queue _ _ _ Hev), (evo_pending _ _ _ Hev).
    by apply (mesh_idle w Hm k).
  - intros s ps' k p' (ps & Hps & Hes)%(evolves_back w w' s ps' He) Hk (p & Hp & Hev)%(evolves_back w w' k p' He).
    rewrite (evo_keys _ _ _ Hes), (evo_key _ _ _ Hev). rewrite (evo_subs _ _ _ Hes) in Hk. by eapply (mesh_trust w Hm).
  - intros k p' (p & Hp & Hev)%(evolves_back w w' k p' He). destruct (evo_published _ _ _ Hev) as (new & -> & Hnew).
    rewrite (evo_key _ _ _ Hev). apply Forall_app. split; [by apply (mesh_sound w Hm)|done].
Qed.

Lemma update_peer_evolves id p f w : mesh w → get_item id w.(peers) = Some p → evolves id p (f p) →
  world_evolves w (update_peer id f w).
Proof.
  intros Hm Hp He. apply get_item_Some_in in Hp. unfold world_evolves, update_peer. cbn [peers].
  apply Forall2_fmap_r, Forall2_same_length_lookup_2; [done|]. intros i [k q] [k' q'] Hi Hi'. simplify_eq. cbn.
  case_decide as Hk; [subst k|by split].
  assert (q = p) as ->; [|done]. apply list_elem_of_lookup in Hp as [j Hj].
  assert (i = j) as ->; [|congruence]. apply (NoDup_lookup _ i j id (mesh_keys w Hm)); by rewrite list_lookup_fmap, ?Hi, ?Hj.
Qed.

(** ** Runs that keep the mesh *)

Definition safe {A} (m : M World A) : Prop := ∀ w, mesh w → world_evolves w (m w).2.

Lemma mesh_safe_lift {A} (r : result A) : safe (lift r).
Proof. intros w _. reflexivity. Qed.
Lemma mesh_safe_ret {A} (a : A) : safe (mret a).
Proof. intros w _. reflexivity. Qed.
Lemma mesh_safe_raise {A} e : safe (raise (A := A) e).
Proof. intros w _. reflexivity. Qed.
Lemma mesh_safe_gets {A} (f : World → A) : safe (gets f).
Proof. intros w _. reflexivity. Qed.
Lemma safe_find_peer v : safe (find_peer v).
Proof. intros w _. reflexivity. Qed.
Lemma mesh_safe_bind {A C} (m : M World A) (f : A → M World C) : safe m → (∀ a, safe (f a)) → safe (m ≫= f).
Proof.
  intros Hm Hf w Hw. unfold mbind, M_bind. specialize (Hm w Hw). destruct (m w) as [[a|e] w']; [|done].
  etrans; [exact Hm|]. apply Hf. by eapply mesh_evolves.
Qed.
Lemma mesh_safe_for_each {A} (l : list A) body : (∀ x, safe (body x)) → safe (for_each l body).
Proof. intros Hb. induction l as [|x l IH]; cbn [for_each]; [apply mesh_safe_ret|]. apply mesh_safe_bind; auto. Qed.
Lemma safe_results f : safe (modify (λ w, set_coord (f w.(coord)) w)).
Proof. intros w _. apply (world_evolves_refl w). Qed.
Lemma safe_find_peers l : safe (find_peers l).
Proof.
  induction l as [|v l IH]; cbn [find_peers]; [apply mesh_safe_ret|].
  apply mesh_safe_bind; [apply safe_find_peer|intros ?]. apply mesh_safe_bind; [done|intros ?]. apply mesh_safe_ret.
Qed.
Lemma safe_on_peer {A} id (m : M NetworkPeer A) :
  (∀ p, peer_id p = id → Forall is_scalar id → p.(offline_queue) = [] → p.(state).(pending_messages) = [] →
     evolves id p (m p).2) → safe (on_peer id m).
Proof.
  intros Hm w Hw. unfold on_peer. destruct (get_item id (peers w)) as [p|] eqn:Hp; [|reflexivity].
  pose proof (get_item_Some_in _ _ _ Hp) as Hin. destruct (mesh_ids w Hw _ _ Hin), (mesh_idle w Hw _ _ Hin).
  pose proof (Hm p) as He. destruct (m p) as [r p']. eapply (update_peer_evolves id p (λ _, p')); [done..|]. by apply He.
Qed.
Lemma safe_stored_node id v : safe (stored_node id v).
Proof. apply safe_on_peer. intros. reflexivity. Qed.

(** ** The token of a scenario *)

Lemma iso_has_T t : 84 ∈ iso_codes t.
Proof.
  unfold iso_codes. destruct (ord2ymd _) as [[y m] d]. rewrite !elem_of_app. do 5 right. left. by left.
Qed.

Lemma float_no_T l : float_literal l → 84 ∉ l.
Proof.
  intros (n & ds & Hn & _ & Hds & ->) Hin. apply elem_of_app in Hin as [Hin|[Hin|Hin]%elem_of_cons]; [| done|].
  - pose proof (decdigits_digits (Datatypes.S (Z.to_nat (Z.log2 n))) n) as Hd. rewrite Forall_forall in Hd. by apply Hd in Hin.
  - rewrite Forall_forall in Hds. by apply Hds in Hin.
Qed.

(** The message carries the time of its construction, the signature covers
    another text. *)
Lemma token_sound d now h o sk data :
  draw_ok d.(dr_draw) → 0 ≤ now < max_datetime → Forall is_scalar h → Forall is_scalar o →
  (∀ d' q, sub_iteration repr_container handlers d' data q
     = after_token repr_container h o (JFloat d.(dr_draw).(d_now)) (sign_text sk (signed_text h o now)) q) →
  sound o sk data.
Proof.
  intros (Hnow & _ & _) Ht Hh Ho Hsub. right. exists h, d.(dr_draw).(d_now), now.
  assert (Forall is_scalar d.(dr_draw).(d_now)) as Hs.
  { destruct Hnow as (n & ds & _ & _ & Hds & ->). apply Forall_app. split; [|constructor; [by apply ascii_is_scalar|]];
      (eapply Forall_impl; [apply is_digit_printable; done || apply decdigits_digits|]);
      intros x Hx; apply ascii_is_scalar; unfold printable in Hx; lia. }
  assert (Forall is_scalar (iso_codes now)) as Hi.
  { eapply Forall_impl; [by apply iso_codes_range|]. intros x Hx. apply ascii_is_scalar. cbn in Hx. lia. }
  split_and!; [unfold signed_text; by rewrite !Forall_app|unfold token_text; by rewrite !Forall_app| |done].
  intros Hv%app_inv_head%app_inv_head. cbn in Hv.
  apply (float_no_T _ Hnow). rewrite Hv. apply iso_has_T.
Qed.

Lemma deletion_published d h o sig p :
  draw_ok d → Forall is_scalar (peer_id p) → Forall is_scalar h → Forall is_scalar o → Forall is_byte sig →
  (broadcast_deletion repr_container d (JStr h) (JStr o) (JStr (bytes_hex sig)) p).2 = p ∨
  ∃ data, (broadcast_deletion repr_container d (JStr h) (JStr o) (JStr (bytes_hex sig)) p).2 = publish data p ∧
    ∀ d' q, sub_iteration repr_container handlers d' data q
      = after_token repr_container h o (JFloat d.(d_now)) sig q.
Proof.
  intros Hd Hp Hh Ho Hs. destruct (pub_socket p) eqn:Hsock.
  - left. unfold broadcast_deletion, mbind, M_bind, broadcast. destruct (construct _ _ _ _ _); [|done]. by rewrite Hsock.
  - right. destruct (deletion_received repr_container d d h o sig p p) as (data & Heq & _); [done..|].
    exists data. rewrite Heq. split; [done|]. intros d' q.
    destruct (deletion_received repr_container d d' h o sig p q) as (data' & Heq' & Hsub); [done..|].
    rewrite Heq in Heq'. injection Heq' as Hpub. by apply app_inj_tail in Hpub as [_ <-].
  - left. unfold broadcast_deletion, mbind, M_bind, broadcast. destruct (construct _ _ _ _ _); [|done]. by rewrite Hsock.
Qed.

Lemma remove_node_nodes key s : InMemory.nodes (InMemory.remove_node key s) = delete key (InMemory.nodes s).
Proof.
  unfold InMemory.remove_node. destruct (InMemory.nodes s !! key) eqn:Hk; [done|]. by rewrite delete_id.
Qed.

(** What [DELETE_MESSAGE] does to the originator. *)
Lemma delete_evolves (d : Draw) h o key n p :
  draw_ok d.(dr_draw) → 0 ≤ d.(dr_now) < max_datetime → Forall is_scalar h → Forall is_scalar o → peer_id p = o →
  stored p !! key = Some n → text_of o = Ok n.(owner_id) →
  evolves o p ((signature ← gets (λ p, bytes_hex (sign_text p.(signing_key) (signed_text h o d.(dr_now))));
    broadcast_deletion repr_container d.(dr_draw) (JStr h) (JStr o) (JStr signature) ;;
    modify (λ p, set_stores (InMemory.remove_node key p.(storage)) p.(shares) p.(content) p)) p).2.
Proof.
  intros Hd Hn Hh Ho Hp Hkey Hown. set (sig := sign_text p.(signing_key) (signed_text h o d.(dr_now))).
  unfold mbind at 1, M_bind at 1, gets at 1. cbn beta iota.
  assert (∃ p1, evolves o p p1 ∧ stored p1 = stored p ∧ (broadcast_deletion repr_container d.(dr_draw) (JStr h) (JStr o)
    (JStr (bytes_hex sig)) p).2 = p1) as (p1 & He & Hst & Hrun).
  { eexists. split; [|split; [|done]].
    - destruct (deletion_published d.(dr_draw) h o sig p) as [->|(data & -> & Hsub)];
        [done|by rewrite Hp|done|done|apply sign_text_bytes|reflexivity|].
      split; try done. exists [data]. split; [done|]. constructor; [|done].
      by eapply (token_sound d (dr_now d) h o p.(signing_key)).
    - destruct (deletion_published d.(dr_draw) h o sig p) as [->|(data & -> & Hsub)];
        [done|by rewrite Hp|done|done|apply sign_text_bytes|done|done]. }
  fold sig. unfold mbind, M_bind. destruct (broadcast_deletion _ _ _ _ _ _) as [[u|e] q]; cbn [snd] in Hrun; subst q; [|done].
  etrans; [exact He|]. split; try done.
  - exists []. by rewrite app_nil_r.
  - intros h' n' _ Hn' Hne. cbn. rewrite remove_node_nodes, lookup_delete_ne; [done|]. intros ->. rewrite Hst in Hn'. congruence.
Qed.

(** ** Events *)

Lemma safe_bind_lift {A C} (r : result A) (f : A → M World C) : (∀ a, r = Ok a → safe (f a)) → safe (lift r ≫= f).
Proof. intros Hf w Hw. unfold mbind, M_bind, lift. destruct r as [a|e]; [by apply Hf|reflexivity]. Qed.

Lemma found_peer v w o : find_peer v w = (Ok (Some o), w) → o ∈ w.(peers).*1.
Proof.
  unfold find_peer. destruct v as [| | | |s| |]; try done; try by destruct (peers w).
  destruct (get_item s (peers w)) eqn:Hs; intros [= Heq].
  - subst o. apply get_item_Some_in in Hs. by apply (list_elem_of_fmap_2 fst) in Hs.
  - apply fmap_Some in Heq as ([i kp] & (Hi & _)%list_find_Some & ->). apply list_elem_of_fmap_2.
    by eapply list_elem_of_lookup_2.
Qed.

Lemma mesh_scalar w k : mesh w → k ∈ w.(peers).*1 → Forall is_scalar k.
Proof. intros Hw ([k' p] & -> & Hin)%list_elem_of_fmap. by apply (mesh_ids w Hw k' p). Qed.

Lemma safe_bind_find {C} v (f : option pystr → M World C) :
  (∀ o, (∀ id, o = Some id → Forall is_scalar id) → safe (f o)) → safe (find_peer v ≫= f).
Proof.
  intros Hf w Hw. unfold mbind, M_bind. assert ((find_peer v w).2 = w) as Hst by done.
  destruct (find_peer v w) as [[o|e] w'] eqn:Hr; cbn [snd] in Hst; subst w'; [|reflexivity].
  apply Hf; [|done]. intros id ->. eapply mesh_scalar; [done|by eapply found_peer].
Qed.

Lemma safe_exchange d i data :
  (∀ d p, (rep_iteration repr_container exn_text handlers d data p).2.(storage) = p.(storage)) →
  safe (exchange repr_container exn_text deliver d i data).
Proof.
  intros Hq w Hw. unfold exchange. set (w' := mkWorld _ _ _).
  assert (world_evolves w w') as He by apply (world_evolves_refl w).
  destruct (list_find _ _) as [[j [id p]]|] eqn:Hfind; [|by destruct (deliver _)].
  apply list_find_Some in Hfind as (Hj & _ & _).
  assert (get_item id (peers w) = Some p) as Hp.
  { apply get_item_in; [apply Hw|by eapply list_elem_of_lookup_2]. }
  assert (evolves id p (rep_iteration repr_container exn_text handlers d data p).2) as Hev.
  { apply evolves_frame; [apply rep_iteration_keep|by rewrite Hq]. }
  destruct (deliver _); [done|..]; destruct (rep_iteration _ _ _ _ _ _) as [r p'];
    exact (update_peer_evolves id p (λ _, p') w' (mesh_evolves w w' Hw He) Hp Hev).
Qed.

Lemma safe_send_share d i self idx v h thr tot :
  draw_ok d → Forall is_scalar self → wf_json idx → wf_json v → wf_json h → wf_json thr → wf_json tot →
  safe (send_share repr_container (exchange repr_container exn_text deliver d i) d self idx v h thr tot).
Proof.
  intros Hd Hs H1 H2 H3 H4 H5. unfold send_share. apply safe_bind_lift. intros m Hm.
  apply mesh_safe_bind; [|intros ?; apply mesh_safe_ret]. intros w Hw. unfold send_direct.
  assert (wf_msg ShareMessage m) as Hwf.
  { eapply (construct_wf repr_container d ShareMessage None); [by left|done| | |exact Hm].
    - repeat (constructor; [cbn; by constructor || done|]). constructor.
    - intros x Hx. vm_compute in Hx. done. }
  destruct (Protocol.to_bytes m) as [data|] eqn:Hdata; [|reflexivity].
  assert (safe (exchange repr_container exn_text deliver d i data)) as Hx.
  { apply safe_exchange. intros d' p.
    by apply (quiet_message repr_container exn_text ShareMessage SHARE m data Hwf eq_refl). }
  specialize (Hx w Hw). by destruct (exchange _ _ _ _ _ _ _).
Qed.

(** Shares are made of hexadecimal digits. *)
Lemma split_content_texts e self content ids thr m self' id s :
  split_content e self content ids thr = Ok (m, self') → m !! id = Some s →
  Forall is_scalar s.(value) ∧ Forall is_scalar s.(SecretSharing.content_hash).
Proof.
  unfold split_content. destruct (_ <? 2); [done|].
  destruct (split_secret _ _ _ _) as [[shares key]|] eqn:Hs; [|done]. cbn [mbind result_bind].
  destruct (shares !! 0%nat); [|done]. intros [= <- _] Hm.
  assert (s ∈ shares) as Hin.
  { clear Hs. unfold dict_of in Hm. assert ((∅ : gmap string Share) !! id = Some s ∨ s ∈ (zip ids shares).*2) as [?|Hin]; [| done|].
    - revert Hm. generalize (∅ : gmap string Share). induction (zip ids shares) as [|[k x] l IH]; intros m Hm; [by left|].
      csimpl in *. destruct (IH _ Hm) as [Hl|Hl]; [|right; by right].
      destruct (decide (k = id)) as [->|Hne]; [rewrite lookup_insert_eq in Hl|rewrite lookup_insert_ne in Hl by done; by left].
      injection Hl as ->. right. by left.
    - apply list_elem_of_fmap in Hin as ([k x] & -> & Hin). by apply elem_of_zip_r in Hin. }
  unfold split_secret in Hs. repeat (destruct (_ <? _); [done|]).
  destruct (utf8_encode content) as [bs|]; [|done]. cbn [mbind result_bind] in Hs.
  destruct (if _ <? _ then _ else _) as [secret ct]. destruct (split_into_chunks secret) as [chunks|]; [|done].
  cbn [mbind result_bind] in Hs. destruct (mapR _ _) as [l|] eqn:Hl; [|done]. injection Hs as <- _.
  apply mapR_Ok_Forall2 in Hl. apply list_elem_of_lookup in Hin as [j Hj].
  destruct (Forall2_lookup_r _ _ _ _ _ Hl Hj) as (i & _ & Hmake). unfold make_share in Hmake.
  destruct (compute_share_mac _ _ _ _); [|done]. injection Hmake as <-. cbn. split.
  - apply join_scalar, Forall_fmap, Forall_forall. intros x _. apply hex_scalar.
  - eapply Forall_impl; [apply sha256_ascii|]. intros c Hc. apply ascii_is_scalar. cbn in Hc. lia.
Qed.

Ltac go := repeat first
  [ eapply safe_send_share | apply safe_bind_find; intros ? ? | apply safe_bind_lift; intros ? ? | apply mesh_safe_bind; [|intros ?]
  | apply mesh_safe_lift | apply mesh_safe_ret | apply mesh_safe_raise | apply mesh_safe_gets | apply safe_find_peer | apply safe_find_peers
  | apply safe_stored_node | apply mesh_safe_for_each; intros ? | apply safe_results
  | match goal with |- safe (match ?x with _ => _ end) => destruct x eqn:? end ].

Lemma safe_create params : safe (event_create_message params).
Proof. unfold event_create_message. go. Qed.

Lemma safe_forward params : safe (event_forward_message params).
Proof. unfold event_forward_message. go. Qed.

Lemma safe_online d params : safe (event_peer_online repr_container d params).
Proof.
  unfold event_peer_online. go. apply safe_on_peer. intros p' _ _ Hq Hpend. cbn.
  unfold process_pending_messages, go_online. cbn. rewrite Hq, Hpend. cbn.
  split; try done; cbn. exists []. by rewrite app_nil_r.
Qed.

Lemma safe_offline params : safe (event_peer_offline params).
Proof.
  unfold event_peer_offline. go. apply safe_on_peer. intros p' _ _ Hq Hpend. cbn.
  split; try done; cbn; exists []; by rewrite app_nil_r.
Qed.

Lemma safe_distribute d params : draw_ok d.(dr_draw) →
  safe (event_distribute_shares repr_container exn_text deliver d params).
Proof.
  intros Hd. unfold event_distribute_shares, send_to. go; auto using wf_int; constructor.
  all: match goal with H : (text_of ?x ≫= _) = Ok ?s |- _ =>
    destruct (text_of x) as [key|]; [|done]; cbn [mbind result_bind] in H;
    destruct (_ !! key) eqn:Hs; [|done]; injection H as <-; by eapply split_content_texts end.
Qed.

Lemma get_item_update id p f w : get_item id w.(peers) = Some p → get_item id (update_peer id f w).(peers) = Some (f p).
Proof.
  unfold update_peer. cbn [peers]. induction (peers w) as [|[k q] l IH]; [done|]. csimpl.
  destruct (decide (id = k)) as [->|Hne]; [intros [= ->]; by rewrite decide_True|].
  done.
Qed.

Lemma stored_node_found id v w w' key n : stored_node id v w = (Ok (Some (key, n)), w') →
  ∃ p, get_item id w'.(peers) = Some p ∧ stored p !! key = Some n.
Proof.
  unfold stored_node, on_peer. destruct (get_item id (peers w)) as [p|] eqn:Hp; [|done]. intros [= Hf <-].
  exists p. split; [by rewrite (get_item_update id p)|]. unfold find_node in Hf.
  destruct (text_key v) as [[s|]|]; [|done..]. cbn [mbind result_bind option_bind] in Hf.
  destruct (text_of s) as [h|]; [|done]. unfold InMemory.get_node in Hf.
  destruct (stored p !! h) as [n'|] eqn:Hn; [|done]. cbn in Hf. by simplify_eq.
Qed.

Lemma safe_delete (d : Draw) params : draw_ok d.(dr_draw) → 0 ≤ d.(dr_now) < max_datetime → wf_json params →
  safe (event_delete_message repr_container d params).
Proof.
  intros Hd Hn Hp. unfold event_delete_message. apply safe_bind_lift. intros v _. apply safe_bind_lift. intros nh Hnh.
  apply safe_bind_find. intros [o|] Ho; [|apply mesh_safe_ret]. specialize (Ho o eq_refl).
  intros w Hw. pose proof (safe_stored_node o (default JNull nh) w Hw) as He.
  unfold mbind at 1, M_bind at 1. destruct (stored_node o (default JNull nh) w) as [[r|e] w'] eqn:Hr; cbn [snd] in He; [|done].
  destruct r as [[key n]|]; [|done]. destruct nh as [[| | | |h| |]|]; try done.
  case_decide as Hown; [|done]. etrans; [exact He|].
  assert (Forall is_scalar h) as Hh.
  { destruct Hp as [| | | | | |items _ Hf]; try done. injection Hnh as Hk. apply get_item_Some_in in Hk.
    rewrite Forall_forall in Hf. destruct (Hf _ Hk) as [_ Hj]. cbn in Hj. by inversion Hj. }
  destruct (stored_node_found _ _ _ _ _ _ Hr) as (p & Hget & Hkey).
  pose proof (mesh_evolves _ _ Hw He) as Hw'. destruct (mesh_ids _ Hw' _ _ (get_item_Some_in _ _ _ Hget)) as [Hid _].
  pose proof (delete_evolves d h o key n p Hd Hn Hh Ho Hid Hkey Hown) as Hev.
  unfold on_peer. rewrite Hget. destruct ((gets _ ≫= _) p) as [r p'].
  exact (update_peer_evolves o p (λ _, p') w' Hw' Hget Hev).
Qed.

Lemma safe_event d ev : draw_ok d.(dr_draw) → 0 ≤ d.(dr_now) < max_datetime → wf_json ev.(ev_params) →
  safe (execute_event repr_container exn_text deliver d ev).
Proof.
  intros Hd Hn Hp. unfold execute_event. destruct (ev_type ev); try apply mesh_safe_ret.
  repeat case_decide; auto using safe_create, safe_forward, safe_delete, safe_online, safe_offline, safe_distribute, mesh_safe_ret.
Qed.

(** ** Interleavings *)

(** The coordinator runs an event; a peer's SUB loop takes a message of a peer
    it follows (PUB sockets may drop messages, so any of them, at any time); a
    peer's heartbeat loop makes a round. *)
Inductive step (w : World) : World → Prop :=
  | step_event d ev :
      draw_ok d.(dr_draw) → 0 ≤ d.(dr_now) < max_datetime → wf_json ev.(ev_params) →
      step w (execute_event repr_container exn_text deliver d ev w).2
  | step_receive d s ps k p data :
      (s, ps) ∈ w.(peers) → k ∈ ps.(sub_sockets) → (k, p) ∈ w.(peers) → data ∈ p.(published) →
      step w (update_peer s (sub_iteration repr_container handlers d data) w)
  | step_heartbeat d k sequence :
      draw_ok d → step w (on_peer k (heartbeat_iteration repr_container d sequence) w).2.

Lemma safe_heartbeat d k sequence : draw_ok d → safe (on_peer k (heartbeat_iteration repr_container d sequence)).
Proof.
  intros Hd. apply safe_on_peer. intros p Hp Hk _ _. unfold heartbeat_iteration, mbind, M_bind.
  destruct (construct _ _ _ _ _) as [m|] eqn:Hm; [|reflexivity].
  assert (wf_msg HeartbeatMessage m) as Hwf.
  { eapply (construct_wf repr_container d HeartbeatMessage None); [by do 7 right; left|done| | |exact Hm].
    - rewrite Hp. repeat (constructor; [cbn; by constructor|]). constructor.
    - intros x Hx. vm_compute in Hx. done. }
  unfold broadcast. destruct (pub_socket p); [reflexivity| |reflexivity].
  destruct (Protocol.to_bytes m) as [data|] eqn:Hdata; [|reflexivity]. split; try done. cbn. exists [data].
  split; [done|]. constructor; [|done]. left. intros d' q.
  destruct (quiet_message repr_container exn_text HeartbeatMessage HEARTBEAT m data Hwf eq_refl ltac:(done) ltac:(done) Hdata d' q)
    as [_ Hs]. by rewrite Hs.
Qed.

(** No published message costs a follower a node. *)
Definition harmless (w : World) : Prop :=
  ∀ k p data, (k, p) ∈ w.(peers) → data ∈ p.(published) → benign k (public_key p.(signing_key)) data.

Lemma step_evolves w w' : mesh w → (U → harmless w) → step w w' → world_evolves w w'.
Proof.
  intros Hw Hu [d ev Hd Hn Hp|d s ps k p data Hs Hk Hp Hdata|d k sequence Hd].
  - by apply safe_event.
  - apply (update_peer_evolves s ps); [done|apply get_item_in; [apply Hw|done]|].
    destruct (sub_iteration_keep repr_container d data ps). split; try done.
    { exists []. by rewrite app_nil_r. }
    intros h n HU Hn _. rewrite (Hu HU k p data Hp Hdata); [done|]. by apply (mesh_trust w Hw s ps).
  - by apply safe_heartbeat.
Qed.

Lemma steps_evolve w w' : (U → ∀ w1, mesh w1 → rtc step w1 w' → harmless w1) →
  mesh w → rtc step w w' → world_evolves w w'.
Proof.
  intros Hu Hw Hs. induction Hs as [w|w w1 w2 Hst Hs IH]; [reflexivity|].
  assert (world_evolves w w1) as He.
  { apply step_evolves; [done| |done]. intros HU. apply (Hu HU); [done|]. by eapply rtc_l. }
  etrans; [exact He|]. apply IH; [done|]. by eapply mesh_evolves.
Qed.
End safety.

Section local.
Context {S : Signer} {L : SignerLaws S} {P : SharingPrims} {PL : SharingLaws P}.
Context (repr_container : json → pystr) (exn_text : pyexn → pystr) (deliver : nat → delivery).

Abbreviation handlers := (default_handlers repr_container).
Abbreviation mesh := (mesh repr_container).
Abbreviation step := (step repr_container exn_text deliver).

(** A signature that a peer published verifies for a text it was not made over. *)
Definition forged (w : World) : Prop :=
  ∃ k p data h t now, (k, p) ∈ w.(peers) ∧ data ∈ p.(published) ∧
    carries_token repr_container k h t now p.(signing_key) data ∧
    verify_text (public_key p.(signing_key)) (token_text repr_container h k (JFloat t))
      (sign_text p.(signing_key) (signed_text h k now)) = true.

Lemma all_or {A} (Q : A → Prop) (R : Prop) (l : list A) :
  (∀ x, x ∈ l → Q x ∨ R) → (∀ x, x ∈ l → Q x) ∨ R.
Proof.
  induction l as [|x l IH]; intros H; [left; by intros x ?%elem_of_nil|].
  destruct (H x) as [Hx|]; [by left| |by right]. destruct IH as [Hl|]; [|left|by right].
  - intros y Hy. apply H. by right.
  - intros y [->|Hy]%elem_of_cons; auto.
Qed.

Lemma harmless_or_forged w : mesh w → harmless repr_container w ∨ forged w.
Proof.
  intros Hw. destruct (all_or (λ kp, ∀ data, data ∈ kp.2.(published) →
    benign repr_container kp.1 (public_key kp.2.(signing_key)) data) (forged w) w.(peers)) as [Hall|]; [|left|by right].
  - intros [k p] Hp. apply all_or. intros data Hdata. cbn [fst snd] in *.
    pose proof (mesh_sound _ w Hw k p Hp) as Hs. rewrite Forall_forall in Hs. destruct (Hs data Hdata) as [Hq|(h & t & now & Hc)].
    + left. intros d q _. apply Hq.
    + destruct (verify_text (public_key p.(signing_key)) (token_text repr_container h k (JFloat t))
        (sign_text p.(signing_key) (signed_text h k now))) eqn:Hv; [right; by exists k, p, data, h, t, now|].
      left. intros d q Hq. destruct Hc as (_ & _ & _ & ->). unfold after_token, accepts. by rewrite Hq, Hv.
  - intros k p data Hp. apply (Hall (k, p) Hp).
Qed.

Lemma harmless_back w w' : world_evolves repr_container False w w' → harmless repr_container w' → harmless repr_container w.
Proof.
  intros He Hh k p data (i & Hi)%list_elem_of_lookup Hdata.
  destruct (Forall2_lookup_l _ _ _ _ _ He Hi) as ([k' p'] & Hp' & Hk & Hev). cbn in Hk, Hev. subst k'.
  rewrite <-(evo_key _ _ _ _ _ Hev). apply Hh; [by eapply list_elem_of_lookup_2|].
  destruct (evo_published _ _ _ _ _ Hev) as (new & -> & _). apply elem_of_app. by left.
Qed.

(** C28: in a network the coordinator runs in one process, a deletion never
    leaves its originator.  From any mesh (peers know the keys of those they
    follow, nothing is queued, what was published is sound: what
    [run_in_process] establishes), however events of any scenario, message
    receptions and heartbeats interleave, and whatever requests are lost, a peer
    keeps every stored node it does not own itself, and no message published so
    far would cost a follower a node: the token [DELETE_MESSAGE] signs covers a
    time stamp that the broadcast message does not carry, so every follower
    refuses it.  The one alternative is that a signature published in the run
    verifies for a text other than the one it was made over.  (A peer may remove
    a node of its own.) *)
Theorem deletion_stays_local (w w' : World) (k : pystr) (p : NetworkPeer) (key : string) (n : CoCNode) :
  mesh w → rtc step w w' → (k, p) ∈ w.(peers) → stored p !! key = Some n → text_of k ≠ Ok n.(owner_id) →
  forged w' ∨
  (∃ p', (k, p') ∈ w'.(peers) ∧ stored p' !! key = Some n) ∧
  ∀ s ps o po data d, (s, ps) ∈ w'.(peers) → o ∈ ps.(sub_sockets) → (o, po) ∈ w'.(peers) → data ∈ po.(published) →
    stored (sub_iteration repr_container handlers d data ps) = stored ps.
Proof.
  intros Hw Hs (i & Hi)%list_elem_of_lookup Hn Hown.
  assert (∀ w1, mesh w1 → rtc step w1 w' → world_evolves repr_container False w1 w') as Hgrow.
  { intros w1 Hw1 Hs1. by eapply steps_evolve. }
  pose proof (mesh_evolves _ _ _ _ Hw (Hgrow w Hw Hs)) as Hw'.
  destruct (harmless_or_forged w' Hw') as [Hh|]; [right|by left]. split.
  - assert (world_evolves repr_container True w w') as He.
    { eapply steps_evolve; [|done..]. intros _ w1 Hw1 Hs1. by apply (harmless_back w1 w'); [apply Hgrow|]. }
    destruct (Forall2_lookup_l _ _ _ _ _ He Hi) as ([k' p'] & Hp' & Hk & Hev). cbn in Hk, Hev. subst k'.
    exists p'. split; [by eapply list_elem_of_lookup_2|]. by apply (evo_nodes _ _ _ _ _ Hev).
  - intros s ps o po data d Hps Ho Hpo Hdata. apply (Hh o po data Hpo Hdata). by apply (mesh_trust _ w' Hw' s ps).
Qed.

(** ** [run_in_process] builds a mesh *)

(** A peer right after [start]. *)
Record started_as (host : pystr) (i : nat) (id : pystr) (key : bytes) (p : NetworkPeer) : Prop := {
  st_config : p.(config) = mkConfig id (Z.of_nat i) host None true true true;
  st_key : p.(signing_key) = key;
  st_keys : p.(peer_keys) = ∅;
  st_subs : p.(sub_sockets) = [];
  st_idle : p.(offline_queue) = [] ∧ p.(state).(pending_messages) = [];
  st_open : p.(pub_socket) = Open ∧ p.(running) = true;
  st_stores : p.(storage) = InMemory.init ∧ p.(shares) = ∅ ∧ p.(content) = ∅;
  st_published : Forall (sound repr_container id key) p.(published);
}.

Lemma fresh_peer_ok host d i id key : draw_ok d → Forall is_scalar host → Forall is_scalar id →
  ∃ p, fresh_peer repr_container host d i id key = Ok p ∧ started_as host i id key p.
Proof.
  intros Hd Hh Hid. unfold fresh_peer, start, broadcast_status, mbind, M_bind, modify.
  set (p := set_sockets Open [] true (init_peer key (mkConfig id (Z.of_nat i) host None true true true))).
  change (set_sockets Open _ true _) with p.
  set (fields := [("peer_id", JStr id); ("status", JStr (str "online"));
    ("address", JStr (get_pub_address (Z.of_nat i) host)); ("capabilities", JArr ((λ c, JStr (str c)) <$> get_capabilities p))]%string).
  assert (PeerStatusMessage ∈ typed_classes) as Hc by (do 3 right; left).
  destruct (construct_sent repr_container d PeerStatusMessage PEER_STATUS None id fields)
    as (m & Hm & _); [done..|repeat (constructor; [apply list_elem_of_In; simpl; tauto|]); constructor|].
  assert (wf_msg PeerStatusMessage m) as Hwf.
  { eapply (construct_wf repr_container d PeerStatusMessage None); [done..| | |exact Hm].
    - do 2 (apply Forall_cons; split; [by apply wf_str|]). apply Forall_cons; split; [apply wf_str, str_scalars|].
      apply Forall_cons; split; [apply wf_str|apply Forall_cons; split; [apply wf_arr|constructor]].
      + unfold get_pub_address. repeat apply Forall_app_2; [apply str_scalars|done|].
        constructor; [by apply ascii_is_scalar|]. unfold repr_int. rewrite (proj2 (Z.ltb_ge _ _)) by (unfold PUB_PORT_START; lia).
        eapply Forall_impl; [apply is_digit_printable, decdigits_digits|]. intros x Hx. apply ascii_is_scalar.
        unfold printable in Hx. lia.
      + apply Forall_fmap, Forall_forall. intros c _. constructor. apply str_scalars.
    - intros v Hv. change (Some (JStr (str "online")) = Some v) in Hv. injection Hv as <-.
      exists (str "online"). split; [done|]. by left. }
  destruct (wf_msg_roundtrip repr_container _ m Hwf) as (data & Hdata & _).
  cbn [fmap list_fmap fst snd fields] in Hm. change (peer_id p) with id.
  change (get_pub_address (cfg_peer_index (config p)) (cfg_host (config p))) with (get_pub_address (Z.of_nat i) host).
  rewrite Hm. unfold broadcast. change (pub_socket p) with Open. rewrite Hdata. cbn.
  eexists. split; [done|]. split; try done. cbn. constructor; [|done]. left. intros d' q.
  destruct (quiet_message repr_container exn_text PeerStatusMessage PEER_STATUS m data Hwf eq_refl ltac:(done) ltac:(done) Hdata d' q)
    as [_ Hs]. by rewrite Hs.
Qed.

(** What [link] leaves alone, whom it follows and whose keys it learns. *)
Lemma link_all p others :
  let p' := foldl link p others in
  p'.(config) = p.(config) ∧ p'.(signing_key) = p.(signing_key) ∧ p'.(published) = p.(published) ∧
  p'.(offline_queue) = p.(offline_queue) ∧ p'.(state).(pending_messages) = p.(state).(pending_messages) ∧
  (∀ k, k ∈ p'.(sub_sockets) → k ∈ p.(sub_sockets) ∨ ∃ o, o ∈ others ∧ peer_id o = k ∧ k ≠ peer_id p) ∧
  (∀ k, (∀ o, o ∈ others → peer_id o ≠ k) → p'.(peer_keys) !! k = p.(peer_keys) !! k) ∧
  (NoDup (peer_id <$> others) → ∀ o, o ∈ others → peer_id o ≠ peer_id p →
     p'.(peer_keys) !! peer_id o = Some (public_key o.(signing_key))).
Proof.
  revert p. induction others as [|o others IH]; intros p; cbn [foldl].
  { split_and!; try done; [by left|]. intros _ o Ho. by apply elem_of_nil in Ho. }
  destruct (IH (link p o)) as (H1 & H2 & H3 & H4 & H5 & H6 & H7 & H8). clear IH.
  assert (config (link p o) = config p ∧ signing_key (link p o) = signing_key p ∧ published (link p o) = published p ∧
    offline_queue (link p o) = offline_queue p ∧ pending_messages (state (link p o)) = pending_messages (state p))
    as (E1 & E2 & E3 & E4 & E5).
  { unfold link, connect_to_peer. by repeat case_decide. }
  assert (peer_id (link p o) = peer_id p) as Eid by (unfold peer_id; by rewrite E1).
  split_and!; [congruence..| | |].
  - intros k Hk. destruct (H6 k Hk) as [Hk'|(o' & Ho' & Hid & Hne)]; [|right; exists o'; split_and!; [by right|done|congruence]].
    unfold link, connect_to_peer in Hk'. repeat case_decide; cbn in Hk'; try by left.
    apply elem_of_app in Hk' as [?| ->%list_elem_of_singleton]; [by left|]. right. exists o. split_and!; [by left|done|congruence].
  - intros k Hk. rewrite H7 by (intros o' Ho'; apply Hk; by right). unfold link. case_decide; [done|]. cbn.
    rewrite lookup_insert_ne by (apply Hk; by left). unfold connect_to_peer. by case_decide.
  - intros Hnd o' Ho' Hne. cbn in Hnd. apply NoDup_cons in Hnd as [Hnin Hnd]. apply elem_of_cons in Ho' as [->|Ho'].
    + rewrite H7 by (intros o' Ho' Heq; apply Hnin; rewrite <- Heq; by apply list_elem_of_fmap_2).
      unfold link. rewrite decide_False by done. cbn. by rewrite lookup_insert_eq.
    + apply H8; [done..|congruence].
Qed.

Lemma run_in_process_ok d drawn c :
  draw_ok d → Forall is_scalar c.(host) → NoDup drawn.*1 → Forall (Forall is_scalar) drawn.*1 →
  ∃ w started, run_in_process repr_container d drawn c = Ok w ∧
    Forall2 (λ iik p, started_as c.(host) iik.1 iik.2.1 iik.2.2 p) (imap pair drawn) started ∧
    w.(peers) = (λ p, (peer_id p, foldl link p started)) <$> started ∧ peer_id <$> started = drawn.*1 ∧
    w.(coord).(infos) = foldl (λ l ki, set_item ki.1 ki.2 l) c.(infos) ((λ p,
      (peer_id p, mkInfo (peer_id p) p.(config).(cfg_peer_index) None c.(host) (Some p.(signing_key)) true)) <$> started).
Proof.
  intros Hd Hh Hnd Hsc.
  destruct (mapR_total (λ iik, fresh_peer repr_container c.(host) d iik.1 iik.2.1 iik.2.2)
    (λ iik p, started_as c.(host) iik.1 iik.2.1 iik.2.2 p) (imap pair drawn)) as (started & Hrun & Hst).
  { intros [i [id key]] Hin. apply fresh_peer_ok; [done..|]. rewrite Forall_forall in Hsc. apply Hsc.
    apply elem_of_lookup_imap in Hin as (j & x & [= -> <-] & Hx). apply (list_elem_of_fmap_2 fst _ (id, key)).
    by eapply list_elem_of_lookup_2. }
  assert (peer_id <$> started = drawn.*1) as Hids.
  { apply list_eq_same_length with (length started); rewrite ?length_fmap; [|done|].
    - by rewrite <-(Forall2_length _ _ _ Hst), length_imap.
    - intros k x y _. rewrite !list_lookup_fmap. intros (p & Hp & ->)%fmap_Some ([id key] & Hk & ->)%fmap_Some.
      destruct (Forall2_lookup_r _ _ _ _ _ Hst Hp) as ([i ik] & Hi & Hs).
      rewrite list_lookup_imap, Hk in Hi. injection Hi as <- <-. unfold peer_id. by rewrite (st_config _ _ _ _ _ Hs). }
  unfold run_in_process. rewrite Hrun. cbn [mbind result_bind]. eexists _, started. split; [done|]. split; [done|].
  split; [|by split]. cbn [peers]. rewrite dict_items_id.
  - rewrite <- list_fmap_compose. apply list_fmap_ext. intros _ p _. cbn. f_equal.
    unfold peer_id. by destruct (link_all p started) as (-> & _).
  - rewrite <- !list_fmap_compose. rewrite <- Hids in Hnd. erewrite list_fmap_ext; [exact Hnd|]. intros _ p _. cbn.
    unfold peer_id. by destruct (link_all p started) as (-> & _).
Qed.

(** The network [run_in_process] leaves: every peer follows others only, knows
    their keys and has nothing queued. *)
Lemma run_in_process_mesh d drawn c w :
  draw_ok d → Forall is_scalar c.(host) → NoDup drawn.*1 → Forall (Forall is_scalar) drawn.*1 →
  run_in_process repr_container d drawn c = Ok w → mesh w.
Proof.
  intros Hd Hh Hnd Hsc Hrun. destruct (run_in_process_ok d drawn c Hd Hh Hnd Hsc) as (w' & started & Hrun' & Hst & Hp & Hids & _).
  rewrite Hrun in Hrun'. injection Hrun' as <-. rewrite <- Hids in Hnd, Hsc.
  assert (∀ k q, (k, q) ∈ w.(peers) → ∃ p, p ∈ started ∧ k = peer_id p ∧ q = foldl link p started) as Hin.
  { intros k q. rewrite Hp. intros (p & [= -> ->] & Hps)%list_elem_of_fmap. eauto. }
  assert (∀ p, p ∈ started → ∃ i key, started_as c.(host) i (peer_id p) key p) as Hstart.
  { intros p (j & Hj)%list_elem_of_lookup. destruct (Forall2_lookup_r _ _ _ _ _ Hst Hj) as ([i [id key]] & _ & Hs).
    exists i, key. cbn in Hs. assert (peer_id p = id) as -> by (unfold peer_id; by rewrite (st_config _ _ _ _ _ Hs)). done. }
  split.
  - rewrite Hp, <- list_fmap_compose. exact Hnd.
  - intros k q (p & Hps & -> & ->)%Hin. unfold peer_id at 1. destruct (link_all p started) as (-> & _). split; [done|].
    rewrite Forall_forall in Hsc. apply Hsc. by apply list_elem_of_fmap_2.
  - intros k q (p & Hps & -> & ->)%Hin. destruct (link_all p started) as (_ & _ & _ & -> & -> & _).
    destruct (Hstart p Hps) as (i & key & Hs). apply (st_idle _ _ _ _ _ Hs).
  - intros s qs k q (p & Hps & -> & ->)%Hin Hk (p' & Hps' & -> & ->)%Hin.
    destruct (link_all p started) as (_ & _ & _ & _ & _ & Hsub & _ & Hkeys).
    destruct (link_all p' started) as (_ & -> & _).
    destruct (Hstart p Hps) as (i & key & Hs). destruct (Hsub _ Hk) as [Hbad|(o & Ho & Hid & Hne)].
    { rewrite (st_subs _ _ _ _ _ Hs) in Hbad. by apply elem_of_nil in Hbad. }
    by apply Hkeys.
  - intros k q (p & Hps & -> & ->)%Hin. destruct (link_all p started) as (_ & -> & -> & _).
    destruct (Hstart p Hps) as (i & key & Hs). rewrite (st_key _ _ _ _ _ Hs). apply (st_published _ _ _ _ _ Hs).
Qed.

(** What [link] does not touch either. *)
Lemma link_running p others : (foldl link p others).(running) = p.(running) ∧ (foldl link p others).(shares) = p.(shares).
Proof.
  revert p. induction others as [|o others IH]; intros p; cbn [foldl]; [done|]. destruct (IH (link p o)) as [-> ->].
  unfold link, connect_to_peer. by repeat case_decide.
Qed.

Lemma started_in c drawn started p :
  Forall2 (λ iik p, started_as c iik.1 iik.2.1 iik.2.2 p) (imap pair drawn) started → p ∈ started →
  ∃ i key, started !! i = Some p ∧ started_as c i (peer_id p) key p.
Proof.
  intros Hst (j & Hj)%list_elem_of_lookup. destruct (Forall2_lookup_r _ _ _ _ _ Hst Hj) as ([i [id key]] & Hi & Hs).
  exists j, key. split; [done|]. rewrite list_lookup_imap in Hi. apply fmap_Some in Hi as (x & _ & [= -> <-]). cbn in Hs.
  assert (peer_id p = id) as -> by (unfold peer_id; by rewrite (st_config _ _ _ _ _ Hs)). done.
Qed.

Lemma get_item_fold {A} k (v : A) l d : NoDup l.*1 → (k, v) ∈ l →
  get_item k (foldl (λ d kv, set_item kv.1 kv.2 d) d l) = Some v.
Proof.
  revert d. induction l as [|[k' v'] l IH]; intros d Hnd Hin; [by apply elem_of_nil in Hin|]. csimpl in *.
  apply NoDup_cons in Hnd as [Hnin Hnd]. apply elem_of_cons in Hin as [[= -> ->]|Hin]; [|by apply IH].
  clear IH Hnd. assert (get_item k' (set_item k' v' d) = Some v') as Hd by (rewrite get_item_set_item; by rewrite decide_True).
  revert Hd. generalize (set_item k' v' d). induction l as [|[k1 v1] l IH]; intros d' Hd; [done|]. csimpl in *.
  apply not_elem_of_cons in Hnin as [Hne Hnin]. apply IH; [done|]. by rewrite get_item_set_item, decide_False.
Qed.

Lemma rep_address_inj i j host : get_rep_address (Z.of_nat i) host = get_rep_address (Z.of_nat j) host → i = j.
Proof.
  unfold get_rep_address. intros [= Heq%(f_equal digits_value)]%app_inv_head%app_inv_head. unfold repr_int in Heq.
  unfold REP_PORT_START in Heq. rewrite !(proj2 (Z.ltb_ge _ _)) in Heq by lia. rewrite !dec_value in Heq by lia. lia.
Qed.

(** With the default host, requests reach the peers they are meant for. *)
Lemma run_in_process_wired d drawn c w :
  draw_ok d → c.(host) = LOCALHOST → NoDup drawn.*1 → Forall (Forall is_scalar) drawn.*1 →
  run_in_process repr_container d drawn c = Ok w → wired w.
Proof.
  intros Hd Hh Hnd Hsc Hrun.
  destruct (run_in_process_ok d drawn c Hd ltac:(rewrite Hh; apply str_scalars) Hnd Hsc)
    as (w' & started & Hrun' & Hst & Hp & Hids & Hinfos).
  rewrite Hrun in Hrun'. injection Hrun' as <-. rewrite <- Hids in Hnd, Hsc.
  assert (∀ k q, (k, q) ∈ w.(peers) → ∃ i p key, started !! i = Some p ∧ k = peer_id p ∧ q.(config) = p.(config) ∧
    q.(running) = p.(running) ∧ started_as c.(host) i (peer_id p) key p) as Hin.
  { intros k q. rewrite Hp. intros (p & [= -> ->] & Hps)%list_elem_of_fmap.
    destruct (started_in _ _ _ _ Hst Hps) as (i & key & Hi & Hs). exists i, p, key.
    destruct (link_all p started) as (-> & _), (link_running p started) as (-> & _). done. }
  split.
  - rewrite Hp, <- list_fmap_compose. exact Hnd.
  - intros k q (i & p & key & Hi & -> & Hc & Hr & Hs)%Hin. unfold peer_id at 1. rewrite Hc, Hr, (st_config _ _ _ _ _ Hs).
    destruct (st_open _ _ _ _ _ Hs) as [_ ->]. split_and!; [done| |done|done]. rewrite Forall_forall in Hsc. apply Hsc.
    apply list_elem_of_fmap_2. by eapply list_elem_of_lookup_2.
  - intros k q k' q' (i & p & key & Hi & -> & -> & _ & Hs)%Hin (j & p' & key' & Hj & -> & -> & _ & Hs')%Hin.
    rewrite (st_config _ _ _ _ _ Hs), (st_config _ _ _ _ _ Hs'). cbn [cfg_peer_index]. intros ->%rep_address_inj. congruence.
  - intros k q (i & p & key & Hi & -> & -> & _)%Hin. eexists. rewrite Hinfos. split.
    + apply get_item_fold; [|apply list_elem_of_fmap; exists p; split; [done|by eapply list_elem_of_lookup_2]].
      rewrite <- list_fmap_compose. exact Hnd.
    + done.
Qed.

(** The same, while peers are given nodes. *)
Lemma mesh_store w k f : mesh w → (∀ p, ∃ st, f p = set_stores st p.(shares) p.(content) p) → mesh (update_peer k f w).
Proof.
  intros Hw Hf. assert (∀ i q, (i, q) ∈ (update_peer k f w).(peers) → ∃ p, (i, p) ∈ w.(peers) ∧
    ∃ st, q = set_stores st p.(shares) p.(content) p) as Hin.
  { intros i q ([i' p] & Heq & Hp)%list_elem_of_fmap. cbn in Heq. injection Heq as -> ->. exists p. split; [done|]. case_decide; [apply Hf|].
    exists p.(storage). by destruct p. }
  split.
  - unfold update_peer. cbn [peers]. rewrite <- list_fmap_compose. apply Hw.
  - intros i q (p & Hp & st & ->)%Hin. exact (mesh_ids _ w Hw i p Hp).
  - intros i q (p & Hp & st & ->)%Hin. exact (mesh_idle _ w Hw i p Hp).
  - intros s qs i q (ps & Hps & st & ->)%Hin Hk (p & Hp & st' & ->)%Hin. exact (mesh_trust _ w Hw s ps i p Hps Hk Hp).
  - intros i q (p & Hp & st & ->)%Hin. exact (mesh_sound _ w Hw i p Hp).
Qed.
End local.

(** ** Distributing shares *)

(** What [send_share] keeps of a share. *)
Definition bare (s : Share) : Share :=
  mkShare s.(index) s.(value) [] s.(SecretSharing.content_hash) s.(SecretSharing.threshold) s.(total_shares) [] false [] [].

Definition held_of (sender : pystr) (s : Share) : HeldShare :=
  mkHeld (JInt s.(index)) (JStr s.(value)) (JInt s.(SecretSharing.threshold)) (JInt s.(total_shares)) (JStr sender).

(** The share a holder can hand in again. *)
Definition as_share (hash : pystr) (s : HeldShare) : option Share :=
  match s.(hs_index), s.(hs_data), s.(hs_threshold), s.(hs_total) with
  | JInt i, JStr v, JInt t, JInt n => Some (mkShare i v [] hash t n [] false [] [])
  | _, _, _, _ => None
  end.

Lemma as_share_held sender s : as_share s.(SecretSharing.content_hash) (held_of sender s) = Some (bare s).
Proof. done. Qed.

(** Without hybrid encryption the fields that are dropped are not missed. *)
Lemma reconstruct_bare {P : SharingPrims} sel :
  Forall (λ s, s.(is_hybrid) = false) sel → reconstruct_secret (bare <$> sel) None = reconstruct_secret sel None.
Proof.
  intros Hh. destruct sel as [|s sel]; [done|].
  assert (∀ thr hash l, Forall (λ s, s.(is_hybrid) = false) l →
    check_shares thr hash false None (bare <$> l) = check_shares thr hash false None l) as Hcheck.
  { intros thr hash l. induction 1 as [|x l Hx _ IH]; [done|]. csimpl. rewrite IH, Hx. by repeat case_decide. }
  assert (∀ l k, reconstruct_chunk (bare <$> l) k = reconstruct_chunk l k) as Hchunk.
  { intros l k. unfold reconstruct_chunk. f_equal. induction l as [|x l IH]; [done|]. csimpl. by rewrite IH. }
  pose proof Hh as Hh'. apply Forall_cons in Hh' as [Hs _].
  change (bare <$> s :: sel) with (bare s :: (bare <$> sel)) at 1. unfold reconstruct_secret. rewrite Hs.
  change (bare s :: (bare <$> sel)) with (bare <$> (s :: sel)). rewrite length_fmap.
  cbn [bare SecretSharing.threshold SecretSharing.content_hash is_hybrid value]. rewrite (Hcheck _ _ _ Hh).
  assert (∀ t, slice_to t (bare <$> (s :: sel)) = bare <$> slice_to t (s :: sel)) as Hslice.
  { intros n. unfold slice_to. case_match; rewrite ?length_fmap; by rewrite fmap_take. }
  destruct (_ <? _); [done|]. destruct (check_shares _ _ _ _ _); [|done]. cbn [mbind result_bind].
  f_equal. rewrite Hslice. induction (seq 0 _) as [|k l IH]; [done|]. cbn [mapR]. by rewrite Hchunk, IH.
Qed.

Section distribution.
Context {S : Signer} {L : SignerLaws S} {P : SharingPrims} {PL : SharingLaws P}.
Context (repr_container : json → pystr) (exn_text : pyexn → pystr) (deliver : nat → delivery).
Context (Hdeliver : ∀ n, deliver n = Answered).

Abbreviation handlers := (default_handlers repr_container).
Abbreviation serve d := (rep_iteration repr_container exn_text handlers d).

Lemma wired_get w k p : wired w → (k, p) ∈ w.(peers) → get_item k w.(peers) = Some p.
Proof. intros Hw Hp. apply get_item_in; [apply Hw|done]. Qed.

(** A request to the index of a peer is handled by that peer. *)
Lemma exchange_reaches w k p d data : wired w → (k, p) ∈ w.(peers) →
  exchange repr_container exn_text deliver d p.(config).(cfg_peer_index) data w =
    let '(r, p') := serve d data p in
    (Ok (match r with Ok reply => reply | Raise _ => None end),
     update_peer k (λ _, p') (mkWorld w.(coord) w.(peers) (1 + w.(sends))%nat)).
Proof.
  intros Hw Hp. unfold exchange. rewrite Hdeliver. destruct (list_find _ _) as [[j [k' q]]|] eqn:Hfind.
  - apply list_find_Some in Hfind as (Hj & Hb & _). apply list_elem_of_lookup_2 in Hj.
    unfold bound_to in Hb. apply andb_prop in Hb as [Hb _]. apply bool_decide_eq_true in Hb. cbn in Hb.
    destruct (wired_id w Hw _ _ Hj) as (_ & _ & _ & Hhost). rewrite Hhost in Hb.
    pose proof (wired_index w Hw _ _ _ _ Hj Hp Hb) as ->.
    pose proof (wired_get w k q Hw Hj) as H1. rewrite (wired_get w k p Hw Hp) in H1. by injection H1 as <-.
  - apply list_find_None in Hfind. rewrite Forall_forall in Hfind. exfalso. apply (Hfind _ Hp). unfold bound_to.
    destruct (wired_id w Hw _ _ Hp) as (_ & _ & Hrun & Hhost). cbn. rewrite Hhost, Hrun, bool_decide_eq_true_2; done.
Qed.

(** A call that succeeds against the peer succeeds through any channel to it. *)
Lemma send_share_through {R} (ex : bytes → M R (option bytes)) (r0 : R) (f : NetworkPeer → R) d d' self i v h t n p p' :
  (∀ data, ex data r0 = let '(r, q) := serve d' data p in (Ok (match r with Ok x => x | Raise _ => None end), f q)) →
  send_share repr_container (serve d') d self i v h t n p = (Ok true, p') →
  send_share repr_container ex d self i v h t n r0 = (Ok true, f p').
Proof.
  intros Hex. unfold send_share, mbind, M_bind, lift. destruct (construct _ _ _ _ _) as [m|]; [|done].
  unfold send_direct. destruct (Protocol.to_bytes m) as [data|]; [|done]. rewrite Hex.
  destruct (serve d' data p) as [[x|e] q]; [|done]. intros [= Ht ->]. unfold mret, M_ret. do 2 f_equal. exact Ht.
Qed.

Lemma update_peer_in k f w k' p' : (k', p') ∈ (update_peer k f w).(peers) →
  ∃ p, (k', p) ∈ w.(peers) ∧ p' = if decide (k' = k) then f p else p.
Proof. intros ([i q] & Heq & Hq)%list_elem_of_fmap. cbn in Heq. injection Heq as -> ->. eauto. Qed.

Lemma in_update_peer k f w k' p : (k', p) ∈ w.(peers) →
  (k', if decide (k' = k) then f p else p) ∈ (update_peer k f w).(peers).
Proof. intros Hp. apply list_elem_of_fmap. by exists (k', p). Qed.

Lemma wired_hold w k h s n : wired w → wired (update_peer k (hold h s) (mkWorld w.(coord) w.(peers) n)).
Proof.
  intros Hw. assert (∀ i q, (i, q) ∈ (update_peer k (hold h s) (mkWorld w.(coord) w.(peers) n)).(peers) →
    ∃ p, (i, p) ∈ w.(peers) ∧ q.(config) = p.(config) ∧ q.(running) = p.(running)) as Hin.
  { intros i q (p & Hp & ->)%update_peer_in. exists p. split; [done|]. by case_decide. }
  split.
  - unfold update_peer. cbn [peers]. rewrite <- list_fmap_compose. apply Hw.
  - intros i q (p & Hp & Hc & Hr)%Hin. unfold peer_id. rewrite Hc, Hr. exact (wired_id w Hw i p Hp).
  - intros i q i' q' (p & Hp & Hc & _)%Hin (p' & Hp' & Hc' & _)%Hin. rewrite Hc, Hc'. by apply (wired_index w Hw i p i' p').
  - intros i q (p & Hp & Hc & _)%Hin. rewrite Hc. exact (wired_info w Hw i p Hp).
Qed.

Lemma send_to_ok d sender share_map id key s p w :
  draw_ok d.(dr_draw) → Forall is_scalar sender → wired w → (id, p) ∈ w.(peers) →
  text_of id = Ok key → share_map !! key = Some s → Forall is_scalar s.(value) →
  Forall is_scalar s.(SecretSharing.content_hash) →
  send_to repr_container exn_text deliver d sender share_map id w =
    (Ok (), update_peer id (λ _, hold s.(SecretSharing.content_hash) (held_of sender s) p)
              (mkWorld w.(coord) w.(peers) (1 + w.(sends))%nat)).
Proof.
  intros Hd Hs Hw Hp Hk Hm Hv Hh. destruct (wired_info w Hw id p Hp) as (info & Hinfo & Hidx).
  destruct (wired_id w Hw id p Hp) as (Hid & Hsc & _).
  unfold send_to. unfold mbind, M_bind, lift, gets. rewrite Hk. cbn. rewrite Hm. cbn.
  rewrite (wired_get w id p Hw Hp), Hinfo, Hidx.
  rewrite (send_share_through _ w
    (λ q, update_peer id (λ _, q) (mkWorld w.(coord) w.(peers) (1 + w.(sends))%nat)) d.(dr_draw) d.(dr_draw) sender
    _ _ _ _ _ p (hold s.(SecretSharing.content_hash) (held_of sender s) p)); [done| |].
  - intros data. by apply exchange_reaches.
  - apply send_share_ok; try done; [by rewrite Hid|by constructor..].
Qed.

(** The loop: each recipient holds its share afterwards. *)
Lemma distribute_loop d sender share_map l : draw_ok d.(dr_draw) → Forall is_scalar sender → NoDup l → ∀ w, wired w →
  (∀ id, id ∈ l → ∃ p key s, (id, p) ∈ w.(peers) ∧ text_of id = Ok key ∧ share_map !! key = Some s ∧
     Forall is_scalar s.(value) ∧ Forall is_scalar s.(SecretSharing.content_hash)) →
  ∃ w', for_each l (send_to repr_container exn_text deliver d sender share_map) w = (Ok (), w') ∧ wired w' ∧
    ∀ id p, (id, p) ∈ w.(peers) → ∃ p', (id, p') ∈ w'.(peers) ∧ (id ∉ l → p' = p) ∧
      ∀ key s, id ∈ l → text_of id = Ok key → share_map !! key = Some s →
        p'.(shares) !! s.(SecretSharing.content_hash) = Some (held_of sender s).
Proof.
  intros Hd Hs Hnd. induction Hnd as [|id l Hnin _ IH]; intros w Hw Hl.
  { exists w. split_and!; [done..|]. intros id p Hp. exists p. split_and!; [done..|]. intros key s Hin.
    by apply elem_of_nil in Hin. }
  destruct (Hl id) as (p & key & s & Hp & Hk & Hm & Hv & Hh); [by left|].
  set (w1 := update_peer id (hold s.(SecretSharing.content_hash) (held_of sender s)) (mkWorld w.(coord) w.(peers) (1 + w.(sends))%nat)).
  assert (send_to repr_container exn_text deliver d sender share_map id w = (Ok (), w1)) as Hone.
  { rewrite (send_to_ok d sender share_map id key s p w) by done. f_equal. unfold w1, update_peer. cbn [peers coord sends]. f_equal.
    apply list_fmap_ext. intros _ [k q] Hq%list_elem_of_lookup_2. cbn. f_equal. case_decide as Hki; [subst k|done].
    assert (q = p) as ->; [|done]. pose proof (wired_get w id q Hw Hq) as H1.
    rewrite (wired_get w id p Hw Hp) in H1. by injection H1. }
  destruct (IH w1) as (w' & Hrun & Hw' & Hall); [by apply wired_hold| |].
  { intros id' Hin. destruct (Hl id') as (p' & key' & s' & Hp' & ?); [by right|]. eexists _, key', s'. split; [|done].
    by apply (in_update_peer id _ (mkWorld w.(coord) w.(peers) (1 + w.(sends))%nat)). }
  exists w'. split_and!; [|done|].
  { cbn [for_each]. unfold mbind, M_bind. by rewrite Hone. }
  intros k q Hq. destruct (Hall k _ (in_update_peer id _ (mkWorld w.(coord) w.(peers) (1 + w.(sends))%nat) k q Hq))
    as (p' & Hp' & Hout & Hheld). exists p'. split; [done|]. split.
  - intros Hk'. rewrite Hout by set_solver. rewrite decide_False by set_solver. done.
  - intros key' s' Hin Hk' Hs'. destruct (decide (k ∈ l)) as [Hkl|Hkl]; [by eapply Hheld|].
    assert (k = id) as -> by set_solver. rewrite Hk in Hk'. injection Hk' as <-.
    rewrite Hm in Hs'. injection Hs' as <-. rewrite Hout by done. rewrite decide_True by done. apply lookup_insert_eq.
Qed.

Lemma find_peer_key w k : k ∈ w.(peers).*1 → find_peer (JStr k) w = (Ok (Some k), w).
Proof.
  intros ([k' p] & -> & Hp)%list_elem_of_fmap. unfold find_peer. cbn.
  assert (is_Some (get_item k' (peers w))) as [q ->]; [|done].
  induction (peers w) as [|[i q] l IH]; [by apply elem_of_nil in Hp|]. cbn. case_decide as Hi; [by eexists|].
  apply IH. apply elem_of_cons in Hp as [[= -> _]|Hp]; done.
Qed.

Lemma find_peers_keys w rs : rs ⊆ w.(peers).*1 → find_peers (JStr <$> rs) w = (Ok rs, w).
Proof.
  induction rs as [|r rs IH]; intros Hr; [done|]. cbn [fmap list_fmap find_peers]. unfold mbind, M_bind.
  rewrite find_peer_key by set_solver. rewrite IH by set_solver. done.
Qed.

Lemma text_of_ok s : Forall is_scalar s → ∃ t, text_of s = Ok t.
Proof. intros Hs. unfold text_of. destruct (utf8_encode_total s Hs) as [bs ->]. by eexists. Qed.

Lemma texts_of_ok l : Forall (Forall is_scalar) l → NoDup l →
  ∃ ts, mapR text_of l = Ok ts ∧ NoDup ts ∧ Forall2 (λ s t, text_of s = Ok t) l ts.
Proof.
  intros Hs Hnd. destruct (mapR_total text_of (λ s t, text_of s = Ok t) l) as (ts & Hts & H2).
  { intros s Hin. rewrite Forall_forall in Hs. destruct (text_of_ok s (Hs s Hin)) as [x Hx]. eauto. }
  exists ts. split_and!; [done| |done]. apply NoDup_alt. intros i j x Hi Hj.
  destruct (Forall2_lookup_r _ _ _ _ _ H2 Hi) as (a & Ha & Hta), (Forall2_lookup_r _ _ _ _ _ H2 Hj) as (b & Hb & Htb).
  rewrite Forall_forall in Hs. apply (code_points_text_of a) in Hta; [|apply Hs; by eapply list_elem_of_lookup_2].
  apply (code_points_text_of b) in Htb; [|apply Hs; by eapply list_elem_of_lookup_2].
  rewrite Hta in Htb. injection Htb as ->. by eapply NoDup_lookup.
Qed.

(** The shares a network holds for a content. *)
Definition holding (w : World) (hash r : pystr) : option Share :=
  p ← get_item r w.(peers); s ← get_share hash p; as_share hash s.

(** [split_content] with distinct recipients: one share each. *)
Lemma split_content_assigns e self content bs ids thr :
  entropy_ok e → Forall is_scalar content → utf8_encode content = Ok bs → NoDup ids →
  2 ≤ thr ≤ Z.of_nat (length ids) → Z.of_nat (length ids) < PRIME →
  ∃ shares self', split_content e self content ids (Some thr) = Ok (dict_of (zip ids shares), self') ∧
    length shares = length ids ∧
    Forall (λ s, s.(SecretSharing.content_hash) = sha256_hexdigest bs ∧
                 s.(is_hybrid) = (HYBRID_THRESHOLD_BYTES <? Z.of_nat (length bs))) shares ∧
    ∀ sel, sel ⊆+ shares → thr ≤ Z.of_nat (length sel) → reconstruct_secret sel None = Ok (Some content).
Proof.
  intros He Hsc Henc Hnd Hthr Hmax. pose proof (utf8_encode_bytes _ _ Hsc Henc) as Hb.
  destruct (split_secret_shape e He _ _ _ _ Henc Hb Hthr) as (h & c & shares & Hsplit & Hc & Hmade).
  assert (length shares = length ids) as Hlen.
  { rewrite <-(Forall2_length _ _ _ Hmade), length_seq. lia. }
  assert (Forall (λ s, s.(SecretSharing.content_hash) = sha256_hexdigest bs ∧
                 s.(is_hybrid) = (HYBRID_THRESHOLD_BYTES <? Z.of_nat (length bs))) shares) as Hall.
  { apply Forall_lookup. intros j s Hj. destruct (Forall2_lookup_r _ _ _ _ _ Hmade Hj) as (i & _ & Hok).
    apply made_fields in Hok. tauto. }
  unfold split_content. rewrite (proj2 (Z.ltb_ge _ _)) by lia. cbn [default from_option id]. rewrite Hsplit. cbn [mbind result_bind].
  destruct (shares !! 0%nat) as [s0|] eqn:H0; [|apply lookup_ge_None in H0; lia]. cbn.
  eexists shares, _. split; [done|]. split_and!; [done..|]. intros sel Hsel Hl. eapply reconstruct_made; eauto.
Qed.

(** Any selection of the recipients, when each holds its share. *)
Lemma reconstruct_held (F : pystr → option Share) (G : pystr → Share) rs shs avail thr content :
  length rs = length shs → (∀ i r s, rs !! i = Some r → shs !! i = Some s → F r = Some (bare s) ∧ G r = s) →
  Forall (λ s, s.(is_hybrid) = false) shs →
  (∀ sel, sel ⊆+ shs → thr ≤ Z.of_nat (length sel) → reconstruct_secret sel None = Ok (Some content)) →
  avail ⊆+ rs → thr ≤ Z.of_nat (length avail) → reconstruct_secret (omap F avail) None = Ok (Some content).
Proof.
  intros Hlen HFG Hhyb Hrec Havail Hal.
  assert (G <$> rs = shs) as HG.
  { apply list_eq_same_length with (length shs); rewrite ?length_fmap; [done..|]. intros i x y _.
    rewrite list_lookup_fmap. intros (r & Hi & ->)%fmap_Some Hy. by apply (HFG i). }
  assert (omap F avail = bare <$> (G <$> avail)) as ->.
  { assert (avail ⊆ rs) as Hsub by (intros r Hr; by eapply elem_of_submseteq). clear Havail Hal.
    induction avail as [|r l IH]; [done|]. csimpl. destruct (proj1 (list_elem_of_lookup rs r)) as [i Hi]; [apply Hsub; by left|].
    destruct (lookup_lt_is_Some_2 shs i) as [s Hs]; [apply lookup_lt_Some in Hi; lia|].
    destruct (HFG i r s Hi Hs) as [-> ->]. by rewrite IH by set_solver. }
  assert (G <$> avail ⊆+ shs) as Hsel by (rewrite <- HG; by apply fmap_submseteq).
  rewrite reconstruct_bare; [apply Hrec; [done|by rewrite length_fmap]|].
  apply Forall_forall. intros s Hs. rewrite Forall_forall in Hhyb. apply Hhyb. by eapply elem_of_submseteq.
Qed.

Abbreviation distribution sender content rs thr := (obj [("sender", JStr sender); ("content", JStr content);
  ("recipients", JArr (JStr <$> rs)); ("threshold", JInt thr)]%string).

(** The event, given what its calls return. *)
Lemma distribute_runs d w w1 sender content rs ids thr m self' :
  sender ∈ w.(peers).*1 → rs ⊆ w.(peers).*1 → NoDup rs → mapR text_of rs = Ok ids →
  split_content d.(dr_entropy) (init_engine 3 5) content ids (Some thr) = Ok (m, self') →
  (∀ id ids', ids = id :: ids' → is_Some (m !! id)) →
  for_each rs (send_to repr_container exn_text deliver d sender m) w = (Ok (), w1) →
  ∃ w', event_distribute_shares repr_container exn_text deliver d (distribution sender content rs thr) w = (Ok (), w') ∧
    w'.(peers) = w1.(peers).
Proof.
  intros Hs Hrs Hnd Hids Hsplit Hfirst Hloop. unfold event_distribute_shares.
  set (params := distribution sender content rs thr).
  change (param "sender" params) with (Ok (Some (JStr sender))).
  change (param "content" params) with (Ok (Some (JStr content))).
  change (param "recipients" params) with (Ok (Some (JArr (JStr <$> rs)))).
  change (param "threshold" params) with (Ok (Some (JInt thr))). clear params.
  unfold mbind, M_bind, lift. cbn beta iota. cbn [default from_option id iterate].
  rewrite (find_peer_key w sender Hs), (find_peers_keys w rs Hrs). cbn [threshold_of]. rewrite Hids, Hsplit.
  rewrite (first_keys_id rs Hnd), Hloop. destruct ids as [|id ids]; [done|].
  destruct (Hfirst id ids eq_refl) as [s ->]. cbn. by eexists.
Qed.

(** C29: secret sharing through the network.  When requests get through, the
    event [DISTRIBUTE_SHARES] leaves one share with every recipient, and the
    index, value, threshold and total that arrive there are enough: any
    [threshold] of the recipients hold shares that reconstruct the content.
    (For content that is split directly, up to 256 bytes; the message has no
    place for the ciphertext of larger content.) *)
Theorem distributed_shares_reconstruct (d : Draw) (w : World) (sender content : pystr) (bs : bytes)
    (rs avail : list pystr) (thr : Z) :
  draw_ok d.(dr_draw) → entropy_ok d.(dr_entropy) → wired w → Forall is_scalar content → utf8_encode content = Ok bs →
  Z.of_nat (length bs) ≤ HYBRID_THRESHOLD_BYTES → sender ∈ w.(peers).*1 → rs ⊆ w.(peers).*1 → NoDup rs →
  2 ≤ thr ≤ Z.of_nat (length rs) → Z.of_nat (length rs) < PRIME → avail ⊆+ rs → thr ≤ Z.of_nat (length avail) →
  ∃ w', event_distribute_shares repr_container exn_text deliver d
      (distribution sender content rs thr) w = (Ok (), w') ∧
    reconstruct_secret (omap (holding w' (sha256_hexdigest bs)) avail) None = Ok (Some content).
Proof.
  intros Hd He Hw Hsc Henc Hsmall Hsender Hrs Hnd Hthr Hmax Havail Hal.
  assert (∀ k, k ∈ (peers w).*1 → Forall is_scalar k) as Hscal.
  { intros k ([k' p] & -> & Hp)%list_elem_of_fmap. apply (wired_id w Hw _ _ Hp). }
  destruct (texts_of_ok rs) as (ids & Hids & Hndi & H2); [apply Forall_forall; auto|done|].
  pose proof (Forall2_length _ _ _ H2) as Hlen.
  destruct (split_content_assigns d.(dr_entropy) (init_engine 3 5) content bs ids thr)
    as (shs & self' & Hsplit & Hls & Hshs & Hrec); [done..|lia|lia|].
  set (m := dict_of (zip ids shs)) in *.
  assert (∀ i r, rs !! i = Some r → ∃ key s, text_of r = Ok key ∧ shs !! i = Some s ∧ m !! key = Some s) as Hassign.
  { intros i r Hi. destruct (Forall2_lookup_l _ _ _ _ _ H2 Hi) as (key & Hk & Ht).
    destruct (lookup_lt_is_Some_2 shs i) as [s Hs]; [apply lookup_lt_Some in Hk; lia|]. exists key, s. split_and!; [done..|].
    apply dict_of_in; [by rewrite fst_zip by lia|]. apply list_elem_of_lookup. exists i. by apply lookup_zip_Some. }
  destruct (distribute_loop d sender m rs Hd (Hscal _ Hsender) Hnd w Hw) as (w1 & Hloop & Hw1 & Hheld).
  { intros r Hr. destruct (proj1 (list_elem_of_lookup _ _) Hr) as [i Hi]. destruct (Hassign i r Hi) as (key & s & Hk & _ & Hs).
    apply Hrs, list_elem_of_fmap in Hr as ([r' p] & -> & Hp). exists p, key, s. split_and!; [done..| |];
      by eapply split_content_texts. }
  assert (∀ w', w'.(peers) = w1.(peers) → ∀ i r s, rs !! i = Some r → shs !! i = Some s →
    holding w' (sha256_hexdigest bs) r = Some (bare s)) as Hhold.
  { intros w' Hpeers i r s Hi Hs. destruct (Hassign i r Hi) as (key & s' & Hk & Hs' & Hm). rewrite Hs in Hs'. injection Hs' as <-.
    pose proof (list_elem_of_lookup_2 _ _ _ Hi) as Hr. pose proof Hr as Hin. apply Hrs, list_elem_of_fmap in Hin as ([r' p] & -> & Hp).
    cbn [fst] in *. destruct (Hheld r' p Hp) as (p' & Hp' & _ & Hsh). specialize (Hsh key s Hr Hk Hm).
    rewrite Forall_lookup in Hshs. destruct (Hshs i s Hs) as [Hh _]. unfold holding, get_share.
    rewrite Hpeers, (wired_get w1 r' p' Hw1 Hp'). cbn. rewrite <- Hh, Hsh. exact (as_share_held sender s). }
  destruct (distribute_runs d w w1 sender content rs ids thr m self') as (w' & Hrun & Hpeers); try done.
  { intros id ids' ->. destruct (lookup_lt_is_Some_2 rs 0) as [r Hr]; [cbn in Hlen; lia|].
    destruct (Hassign 0%nat r Hr) as (key & s & Hk & _ & Hm). destruct (Forall2_lookup_l _ _ _ _ _ H2 Hr) as (key' & Hk' & Ht).
    cbn in Hk'. exists s. congruence. }
  exists w'. split; [done|].
  apply (reconstruct_held _ (λ r, default (mkShare 0 [] [] [] 0 0 [] false [] [])
    (key ← match text_of r with Ok k => Some k | Raise _ => None end; m !! key)) rs shs avail thr); try done; [lia| |].
  - intros i r s Hi Hs. split; [by apply (Hhold w' Hpeers i)|]. destruct (Hassign i r Hi) as (key & s' & Hk & Hs' & Hm).
    rewrite Hk. cbn. rewrite Hm. cbn. congruence.
  - eapply Forall_impl; [exact Hshs|]. intros s [_ Hs]. cbn. rewrite Hs. by apply Z.ltb_ge.
Qed.
End distribution.

(** ** Scenario events that cannot succeed *)

Section failures.
Context {S : Signer} {P : SharingPrims} (repr_container : json → pystr) (exn_text : pyexn → pystr).
Context (deliver : nat → delivery) (callback : option (json → json → result unit)).

(** A [CREATE_MESSAGE] whose sender exists ends as an error result: no peer
    changes, no node is created, the event is not marked as executed. *)
Lemma create_message_fails d i w ev s sender c :
  w.(coord).(scenario) !! i = Some ev → ev.(ev_type) = JStr (str "CREATE_MESSAGE") →
  param "sender" ev.(ev_params) = Ok (Some s) → param "content" ev.(ev_params) = Ok (Some (JStr c)) →
  Forall is_scalar c → find_peer s w = (Ok (Some sender), w) →
  run_event repr_container exn_text deliver callback d i w
  = set_coord (add_result (error_result exn_text d ev AttributeError) w.(coord)) w.
Proof.
  intros Hi Ht Hs Hc Hsc Hf. unfold run_event. rewrite Hi. unfold execute_event. rewrite Ht. rewrite decide_True by done.
  unfold event_create_message, mbind, M_bind, lift. rewrite Hs, Hc. cbn [default from_option id]. rewrite Hf.
  destruct (utf8_encode_total c Hsc) as [bs Hbs]. unfold mbind, result_bind. by rewrite Hbs.
Qed.
End failures.

(** ** Witnesses *)

(** A toy signature spells out its text, three bytes for a character. *)
Definition spell (m : pystr) : bytes := concat ((λ c, [c / 65536 mod 256; c / 256 mod 256; c mod 256]) <$> m).
Definition toy_binder : Signer := {|
  sha256_hex data := [48 + from_bytes data mod 10];
  sign_text sk m := 1 :: spell m;
  public_key sk := sk;
  verify_text vk m sig := bool_decide (sig = 1 :: spell m);
|}.

Lemma toy_binder_laws : SignerLaws toy_binder.
Proof.
  split; cbn [toy_binder sha256_hex sign_text public_key verify_text]; try done.
  - intros sk m. by apply bool_decide_eq_true.
  - intros sk m. constructor; [done|]. unfold spell. induction m as [|c m IH]; csimpl; [constructor|].
    repeat (constructor; [apply Z.mod_pos_bound; lia|]). done.
  - intros data. constructor; [|done]. unfold printable. pose proof (Z.mod_pos_bound (from_bytes data) 10). lia.
Qed.

(** Such a signature verifies for no other text. *)
Lemma toy_binder_binds sk m m' : Forall is_scalar m → Forall is_scalar m' →
  verify_text (Signer := toy_binder) (public_key (Signer := toy_binder) sk) m (sign_text (Signer := toy_binder) sk m') = true →
  m = m'.
Proof.
  intros Hm Hm' [= Hs]%bool_decide_eq_true_1. revert m' Hm' Hs.
  induction Hm as [|c m [Hc _] _ IH]; intros m' Hm' Hs; destruct Hm' as [|c' m' [Hc' _] Hm']; try done; cbn in Hs.
  injection Hs as H1 H2 H3 Hs. f_equal; [dlia|]. by apply IH.
Qed.

Definition toy_run : result World :=
  run_in_process (S := toy_binder) toy_repr toy_draw [(str "ann", [1]); (str "bob", [2])] (init_coordinator LOCALHOST).
Definition toy_meshed : World := match toy_run with Ok w => w | Raise _ => mkWorld (init_coordinator []) [] 0 end.
Definition give (k : string) : World → World :=
  update_peer (str k) (λ p, set_stores (InMemory.add_node toy_node p.(storage)) p.(shares) p.(content) p).

(** Ann's node is stored at both peers. *)
Definition toy_world : World := give "ann" (give "bob" toy_meshed).

Lemma toy_world_mesh : mesh (S := toy_binder) toy_repr toy_world.
Proof.
  unfold toy_world, give. apply mesh_store; [apply mesh_store|]; [|by eauto..].
  apply (run_in_process_mesh (L := toy_binder_laws) toy_repr toy_text (λ _, Answered) toy_draw
    [(str "ann", [1]); (str "bob", [2])] (init_coordinator LOCALHOST)).
  - apply toy_draw_ok.
  - apply str_scalars.
  - vm_compute. repeat (constructor; [set_solver|]). constructor.
  - repeat (constructor; [apply str_scalars|]). constructor.
  - vm_compute. reflexivity.
Qed.

Definition toy_drawing : Draw := mkDrawing 63750000000000000 toy_draw toy_entropy.
Definition toy_delete : ScenarioEvent :=
  mkEvent (JStr (str "DELETE_MESSAGE")) (0, 1) (obj [("originator", JStr (str "ann")); ("node_hash", JStr (str "n1"))]) false.

(** Ann deletes her node and broadcasts the token. *)
Definition toy_deleted : World :=
  (execute_event (S := toy_binder) (P := toy_prims) toy_repr toy_text (λ _, Answered) toy_drawing toy_delete toy_world).2.
Definition peer_of (k : string) (w : World) : NetworkPeer := default (toy_peer "" 0) (get_item (str k) w.(peers)).
Definition toy_token : bytes := List.last (peer_of "ann" toy_deleted).(published) [].

(** Bob receives it. *)
Definition toy_received : World :=
  update_peer (str "bob") (sub_iteration (S := toy_binder) toy_repr (default_handlers (S := toy_binder) toy_repr)
    toy_draw toy_token) toy_deleted.

Lemma toy_steps :
  rtc (step (S := toy_binder) (P := toy_prims) toy_repr toy_text (λ _, Answered)) toy_world toy_received.
Proof.
  apply rtc_l with toy_deleted; [|apply rtc_once].
  - apply step_event; [apply toy_draw_ok|vm_compute; done|].
    constructor; [vm_compute; repeat (constructor; [set_solver|]); constructor|].
    repeat (constructor; [split; [apply str_scalars|apply wf_str, str_scalars]|]). constructor.
  - apply (step_receive _ _ _ _ toy_draw (str "bob") (peer_of "bob" toy_deleted) (str "ann") (peer_of "ann" toy_deleted)).
    + apply get_item_Some_in. vm_compute. reflexivity.
    + vm_compute. by left.
    + apply get_item_Some_in. vm_compute. reflexivity.
    + apply list_elem_of_In, (nth_In (peer_of "ann" toy_deleted).(published) [] (n := 1%nat)). vm_compute. lia.
Qed.

Lemma deletion_stays_local_witness :
  stored (peer_of "ann" toy_received) !! "n1"%string = None ∧
  ∃ p', (str "bob", p') ∈ toy_received.(peers) ∧ stored p' !! "n1"%string = Some toy_node.
Proof.
  split; [vm_compute; reflexivity|].
  destruct (deletion_stays_local (L := toy_binder_laws) (PL := toy_laws) toy_repr toy_text
    (λ _, Answered) toy_world toy_received (str "bob") (peer_of "bob" toy_world) "n1" toy_node) as [Hf|[Hkept _]].
  - exact toy_world_mesh.
  - exact toy_steps.
  - apply get_item_Some_in. vm_compute. reflexivity.
  - vm_compute. reflexivity.
  - vm_compute. done.
  - destruct Hf as (k & p & data & h & t & now & _ & _ & (Hs & Ht & Hne & _) & Hv). destruct Hne. by eapply toy_binder_binds.
  - exact Hkept.
Defined.

Definition toy_network : World :=
  match run_in_process (S := toy_binder) toy_repr toy_draw [(str "ann", [1]); (str "bob", [2]); (str "eve", [3])]
    (init_coordinator LOCALHOST) with
  | Ok w => w
  | Raise _ => toy_world
  end.

Lemma toy_network_wired : wired toy_network.
Proof.
  apply (run_in_process_wired (L := toy_binder_laws) toy_repr toy_text (λ _, Answered) toy_draw
    [(str "ann", [1]); (str "bob", [2]); (str "eve", [3])] (init_coordinator LOCALHOST)).
  - apply toy_draw_ok.
  - reflexivity.
  - vm_compute. repeat (constructor; [set_solver|]). constructor.
  - repeat (constructor; [apply str_scalars|]). constructor.
  - vm_compute. reflexivity.
Qed.

Lemma distributed_shares_reconstruct_witness :
  ∃ w', event_distribute_shares (S := toy_binder) (P := toy_prims) toy_repr toy_text (λ _, Answered) toy_drawing
      (obj [("sender", JStr (str "ann")); ("content", JStr (str "hi"));
            ("recipients", JArr (JStr <$> [str "bob"; str "eve"; str "ann"])); ("threshold", JInt 2)]) toy_network = (Ok (), w') ∧
    reconstruct_secret (P := toy_prims) (omap (holding w' (sha256_hexdigest (SharingPrims := toy_prims) (str "hi")))
      [str "eve"; str "bob"]) None = Ok (Some (str "hi")).
Proof.
  apply (distributed_shares_reconstruct (L := toy_binder_laws) (PL := toy_laws) toy_repr toy_text (λ _, Answered)
    (λ _, eq_refl) toy_drawing toy_network (str "ann") (str "hi") (str "hi") [str "bob"; str "eve"; str "ann"]
    [str "eve"; str "bob"] 2).
  - apply toy_draw_ok.
  - apply toy_entropy_ok.
  - exact toy_network_wired.
  - apply str_scalars.
  - vm_compute. reflexivity.
  - vm_compute. done.
  - vm_compute. by left.
  - vm_compute. set_solver.
  - vm_compute. repeat (constructor; [set_solver|]). constructor.
  - vm_compute. done.
  - reflexivity.
  - etrans; [apply submseteq_swap|]. apply submseteq_skip, submseteq_skip, submseteq_nil_l.
  - vm_compute. done.
Defined.
