(* ===== verification/ApiServer.v ===== *)
(** * The REST and WebSocket API
      ([coc_framework/api/server.py], [coc_framework/api/schemas.py])

    [Api] is the module's global state around the simulation engine: the names
    of peers, the log of API events, the connected sockets, and which node
    object each store slot holds.  The routes put one [CoCNode] object into the
    stores of several peers and [add_child] changes it in place, so a change
    made through one store shows in the others: [objects] records the identity
    of the object under each (peer, node hash), and [mutate] applies a change to
    every slot that holds it.

    A route is a state-and-exception computation; [HTTPException] carries the
    status it answers with, any other exception becomes a 500.  Before its
    [_broadcast_event] a route has no suspension point, so a history interleaves
    whole routes with deliveries ([Custody]).  Request texts are valid UTF-8 (the
    JSON body is decoded before the route runs). *)

From Stdlib Require Import ZArith Lia String.
From stdpp Require Import pretty.
From S2P Require Import Prelude PyData DateTime Json Crypto SecretSharing TimeLock Steganography AuditLog.
From S2P Require Import CoCNode Storage DeletionEngine NetworkSim Simulation.

(** ** Requests and responses ([api/schemas.py])

    Fields with the same value in every answer a route gives ([success] of the
    answers that have no other value, [shares_used], and all of [HealthResponse]
    but the features) are left out, and the body of a deletion is its one
    field. *)

Record CreatePeerRequest := mkCreatePeer { cp_peer_id : option string; cp_name : option string }.

Record CreateMessageRequest := mkCreateMessage {
  cm_originator_id : string;
  cm_content : string;
  cm_recipient_ids : list string;
  cm_message_id : option pystr;
}.

Record ForwardMessageRequest := mkForward {
  fm_sender_id : string;
  fm_recipient_ids : list string;
  fm_use_watermark : bool;
  fm_message_id : option pystr;
}.

Record DetectLeakRequest := mkDetect {
  dl_leaked_content : string;
  dl_candidate_peer_ids : option (list string);
}.

(** [ttl_seconds] in whole seconds. *)
Record TimelockRequest := mkTimelock {
  tl_originator_id : string;
  tl_content : string;
  tl_ttl_seconds : Z;
}.

Record DistributeSharesRequest := mkDistribute {
  dsr_originator_id : string;
  dsr_content : string;
  dsr_holder_ids : list string;
  dsr_threshold : option Z;
}.

Record ReconstructSecretRequest := mkReconstruct { rs_requester_id : string; rs_content_hash : string }.

Record PeerResponse := mkPeerResponse {
  pr_peer_id : string;
  pr_name : string;
  pr_is_online : bool;
  pr_node_count : nat;
}.

Record CoCNodeResponse := mkNodeResponse {
  nr_schema_version : Z;
  nr_node_hash : string;
  nr_content_hash : string;
  nr_parent_hash : option string;
  nr_owner_id : string;
  nr_recipient_ids : list string;
  nr_timestamp : string;
  nr_children_hashes : list string;
  nr_depth : Z;
  nr_signature : option string;
}.

Record MessageCreatedResponse := mkCreated { mc_node : CoCNodeResponse; mc_message_id : pystr }.

Record ProvenanceChainResponse := mkChain {
  ch_root : CoCNodeResponse;
  ch_nodes : list CoCNodeResponse;
  ch_edges : list (string * string);           (* from, to *)
}.

Record DeletionResponse := mkDeletion { dr_deleted_node_hash : string; dr_cascade_count : nat }.

Record AuditEntry := mkEntry {
  ae_event_type : pystr;
  ae_actor : pystr;
  ae_target : pystr;
  ae_timestamp : pystr;
  ae_details : pystr;
  ae_prev_hash : pystr;
  ae_entry_hash : pystr;
}.

Record AuditLogResponse := mkAuditResponse {
  al_entries : list AuditEntry;
  al_integrity_valid : bool;
  al_total_entries : nat;
}.

Record LeakDetectionResponse := mkLeak {
  lk_leak_detected : bool;
  lk_suspected_peer_id : option pystr;
  lk_confidence : Z * Z;
  lk_method : string;
  lk_original_content : pystr;
}.

Record ReconstructResponse := mkReconstructed {
  rc_success : bool;
  rc_content : option string;
  rc_content_hash : string;
}.

Record SimulationStateResponse := mkState {
  ss_tick : Z;
  ss_peer_count : nat;
  ss_features : bool * bool * bool;            (* secret_sharing, timelock, steganography *)
  ss_message_count : nat;
  ss_distributed_shares : list pystr;
}.

(** ** Global state *)

(** The events of the feed; the last field of each is the time stamp. *)
Inductive api_event :=
  | PEER_CREATED (peer_id name timestamp : string)
  | MESSAGE_CREATED (node : NodeDict) (message_id : pystr) (originator_name : string) (recipient_names : list string)
      (timestamp : string)
  | MESSAGE_FORWARDED (node : NodeDict) (parent_hash : string) (message_id : pystr) (watermarked : bool)
      (sender_name : string) (recipient_names : list string) (timestamp : string)
  | MESSAGE_DELETED (node_hash originator_name : string) (cascade_count : nat) (timestamp : string)
  | LEAK_SCAN (detected : bool) (suspected_peer_id : option json) (suspected_peer_name : option pystr)
      (confidence : Z * Z) (method : string) (timestamp : string).

(** A connected socket: what it was sent, and how far the replay of the
    history has come ([None]: it is over). *)
Record Client := mkClient { received : list api_event; replay : option nat }.

Record Api := mkApi {
  engine : option Sim;
  peer_names : gmap string string;
  event_log : list api_event;
  ws_clients : gmap nat Client;
  objects : gmap (string * string) nat;       (* the object under (peer, node hash) *)
  next_object : nat;
}.

(** The module as it is imported. *)
Definition api_start : Api := mkApi None ∅ [] ∅ ∅ 0.

Definition set_engine (e : Sim) (s : Api) : Api :=
  mkApi (Some e) s.(peer_names) s.(event_log) s.(ws_clients) s.(objects) s.(next_object).
Definition set_name (id name : string) (s : Api) : Api :=
  mkApi s.(engine) (<[id := name]> s.(peer_names)) s.(event_log) s.(ws_clients) s.(objects) s.(next_object).
Definition set_clients (log : list api_event) (c : gmap nat Client) (s : Api) : Api :=
  mkApi s.(engine) s.(peer_names) log c s.(objects) s.(next_object).
Definition set_objects (o : gmap (string * string) nat) (next : nat) (s : Api) : Api :=
  mkApi s.(engine) s.(peer_names) s.(event_log) s.(ws_clients) o next.

(** The engine of the default scenario: every feature, no peers. *)
Definition init_default_engine : Sim :=
  mkSim (mkWorld ∅ ∅ [] [] []) [] (Some (SecretSharing.init_engine 2 5)) (Some TimeLock.init_engine) (Some [])
    ∅ ∅ ∅ 0 [].

Definition get_engine (s : Api) : Sim := default init_default_engine s.(engine).

(** A computation on the engine, which is created when there is none. *)
Definition on {A} (m : M Sim A) : M Api A := λ s,
  let '(r, e) := m (get_engine s) in (r, set_engine e s).

(** [x[:8]]. *)
Definition short (s : string) : string :=
  match (l ← code_points s; text_of (take 8 l)) with Ok t => t | Raise _ => s end.

(** [_peer_names.get(id, id[:8])]. *)
Definition name_of (id : string) (s : Api) : string := default (short id) (s.(peer_names) !! id).

(** [x or default] for an optional text. *)
Definition or_default (o : option string) (d : string) : string :=
  match o with None | Some ""%string => d | Some x => x end.

(** ** The event feed *)

Section feed.
(** Sending to a socket fails when it is gone. *)
Context (gone : nat → bool).

Definition broadcast_event (event : api_event) : M Api unit :=
  modify (λ s, set_clients (s.(event_log) ++ [event])
    ((λ c, mkClient (c.(received) ++ [event]) c.(replay)) <$> filter (λ ic, gone ic.1 = false) s.(ws_clients)) s).

(** [websocket_events]: the socket is added before the history is sent; the
    loop over the log sees events appended meanwhile. *)
Definition ws_connect (ws : nat) (s : Api) : Api :=
  set_clients s.(event_log) (<[ws := mkClient [] (Some 0%nat)]> s.(ws_clients)) s.

Definition ws_replay (ws : nat) (s : Api) : Api :=
  match s.(ws_clients) !! ws with
  | Some (mkClient received (Some i)) =>
      set_clients s.(event_log)
        match s.(event_log) !! i with
        | Some event => if gone ws then delete ws s.(ws_clients)
                        else <[ws := mkClient (received ++ [event]) (Some (S i))]> s.(ws_clients)
        | None => <[ws := mkClient received None]> s.(ws_clients)
        end s
  | _ => s
  end.

Definition ws_disconnect (ws : nat) (s : Api) : Api :=
  set_clients s.(event_log) (delete ws s.(ws_clients)) s.
End feed.

(** ** Node objects in several stores *)

(** The node objects of a store, changed in place. *)
Definition alias_nodes (f : string → CoCNode → CoCNode) (st : InMemory.storage) : InMemory.storage :=
  InMemory.mk (map_imap (λ h n, Some (f h n)) st.(InMemory.nodes)) st.(InMemory.content)
    st.(InMemory.content_refs) st.(InMemory.tombstones).

(** The object [o] changes: every slot that holds it does. *)
Definition mutate (o : option nat) (f : CoCNode → CoCNode) (s : Api) : Api :=
  let slot id h n := if decide (is_Some o ∧ s.(objects) !! (id, h) = o) then f n else n in
  let e := get_engine s in
  set_engine (set_world (set_peers
    (map_imap (λ id p, Some (set_storage (alias_nodes (slot id) p.(storage)) p))) e.(world)) e) s.

(** The slot (peer, hash) now holds the newest object. *)
Definition hold_newest (id h : string) (s : Api) : Api :=
  set_objects (<[(id, h) := s.(next_object)]> s.(objects)) s.(next_object) s.
Definition object_made (s : Api) : Api := set_objects s.(objects) (S s.(next_object)) s.

Section routes.
Context {C : Crypto} {P : SharingPrims} {D : Digest}.
Context (gone : nat → bool).

Definition node_to_response (node : CoCNode) : CoCNodeResponse :=
  let d := to_dict node in
  mkNodeResponse node.(schema_version) node.(node_hash) node.(content_hash) d.(d_parent_hash) node.(owner_id)
    (default [] d.(d_recipient_ids)) node.(timestamp) (default [] d.(d_children_hashes)) (default 0 d.(d_depth))
    d.(d_signature).

(** ** System and peers *)

Definition features (e : Sim) : bool * bool * bool :=
  (bool_decide (is_Some e.(sharing)), bool_decide (is_Some e.(timelock)), bool_decide (is_Some e.(stegano))).

Definition health : M Api (bool * bool * bool) := on (gets features).

Definition get_state : M Api SimulationStateResponse := on (gets (λ e,
  mkState e.(tick_count) (length e.(peer_ids)) (features e) (size e.(message_registry))
    (map_to_list e.(distributed_shares)).*1)).

Definition get_events : M Api (list api_event) := gets event_log.

(** [engine.peers[peer_id] = peer; engine.network.add_peer(peer)]. *)
Definition add_peer (p : Peer InMemory.storage) (e : Sim) : Sim :=
  mkSim (NetworkSim.register_peer p e.(world)).2 (e.(peer_ids) ++ [p.(peer_id)]) e.(sharing) e.(timelock)
    e.(stegano) e.(received_shares) e.(distributed_shares) e.(message_registry) e.(tick_count) e.(events).

Definition peer_response (id name : string) (p : Peer InMemory.storage) : PeerResponse :=
  mkPeerResponse id name p.(online) (length (InMemory.get_all_nodes p.(storage))).

Definition create_peer (d : Draw) (uuid : string) (key : bytes) (req : CreatePeerRequest) : M Api PeerResponse :=
  let peer_id := or_default req.(cp_peer_id) uuid in
  let name := or_default req.(cp_name) (short peer_id) in
  known ← on (gets (λ e, e.(world).(peers) !! peer_id));
  match known with
  | Some _ => raise (HTTPException 400)
  | None =>
      let peer := new_peer d.(dr_now) key peer_id in
      on (modify (add_peer peer)) ;;
      modify (set_name peer_id name) ;;
      broadcast_event gone (PEER_CREATED peer_id name (isoformat d.(dr_now))) ;;
      mret (peer_response peer_id name peer)
  end.

Definition list_peers : M Api (list PeerResponse) := λ s,
  let e := get_engine s in
  (Ok (omap (λ id, (λ p, peer_response id (name_of id s) p) <$> e.(world).(peers) !! id) e.(peer_ids)),
   set_engine e s).

Definition get_peer (id : string) : M Api PeerResponse :=
  peer ← on (gets (λ e, e.(world).(peers) !! id));
  match peer with
  | None => raise (HTTPException 404)
  | Some peer => name ← gets (name_of id); mret (peer_response id name peer)
  end.

(** [engine.peers.get(id)], or the answer 404. *)
Definition known_peer (id : string) : M Api (Peer InMemory.storage) :=
  peer ← on (gets (λ e, e.(world).(peers) !! id));
  match peer with Some p => mret p | None => raise (HTTPException 404) end.

(** [for rid in ids: if rid not in engine.peers: raise HTTPException(404)]. *)
Definition check_peers (ids : list string) : M Api unit :=
  for_each ids (λ id, known_peer id ;; mret ()).

Definition register (message_id : pystr) (node_hash : string) : M Api unit :=
  on (modify (set_registry message_id node_hash)).

(** [recipient.storage.add_node(node)] with the newest object. *)
Definition share_node (now : Z) (node : CoCNode) (id : string) : M Api unit :=
  on (net (update_storage id (add_node now node))) ;; modify (hold_newest id node.(node_hash)).

(** ** Messages *)

Definition create_message (d : Draw) (uuid : string) (req : CreateMessageRequest) : M Api MessageCreatedResponse :=
  let '(mkCreateMessage originator_id content recipient_ids message_id) := req in
  known_peer originator_id ;;
  check_peers recipient_ids ;;
  let message_id := default (str uuid) (nonempty message_id) in
  node ← on (net (create_coc_root d.(dr_now) originator_id content recipient_ids));
  modify (hold_newest originator_id node.(node_hash)) ;;
  register message_id node.(node_hash) ;;
  for_each recipient_ids (λ id,
    share_node d.(dr_now) node id ;;
    on (net (update_storage id (add_content d.(dr_now) node.(content_hash) content)))) ;;
  modify object_made ;;
  on (net (NetworkSim.log_event "CREATE_MESSAGE" originator_id node.(node_hash)
    ("Content delivered to " +:+ pretty (length recipient_ids) +:+ " recipients"))) ;;
  originator_name ← gets (name_of originator_id);
  recipient_names ← gets (λ s, (λ r, name_of r s) <$> recipient_ids);
  broadcast_event gone
    (MESSAGE_CREATED (to_dict node) message_id originator_name recipient_names (isoformat d.(dr_now))) ;;
  mret (mkCreated (node_to_response node) message_id).

(** What both branches of [forward_message] do once the child is stored. *)
Definition announce_forward (d : Draw) (kind details : string) (watermarked : bool) (sender_id node_hash : string)
    (message_id : pystr) (recipient_ids : list string) (child_node : CoCNode) : M Api MessageCreatedResponse :=
  on (net (NetworkSim.log_event kind sender_id child_node.(CoCNode.node_hash)
    (details +:+ pretty (length recipient_ids) +:+ " recipients"))) ;;
  sender_name ← gets (name_of sender_id);
  recipient_names ← gets (λ s, (λ r, name_of r s) <$> recipient_ids);
  broadcast_event gone (MESSAGE_FORWARDED (to_dict child_node) node_hash message_id watermarked sender_name
    recipient_names (isoformat d.(dr_now))) ;;
  mret (mkCreated (node_to_response child_node) message_id).

(** [engine.stegano_engine.embed_watermark(content, peer_id, depth)]. *)
Definition embed_mark (d : Draw) (content : string) (peer_id : string) (depth : Z) : M Api string :=
  on (known ← gets (λ e, default [] e.(stegano));
      content ← lift (code_points content);
      peer_id ← lift (code_points peer_id);
      let '(marked, known) :=
        embed_watermark (str (isoformat d.(dr_now))) content peer_id depth None true true true known in
      modify (set_stegano known) ;;
      marked ← lift marked; lift (text_of marked)).

Definition forward_watermarked (d : Draw) (sender : Peer InMemory.storage) (node_hash : string) (message_id : pystr)
    (req : ForwardMessageRequest) (parent_node : CoCNode) (content : string) : M Api MessageCreatedResponse :=
  let '(mkForward sender_id recipient_ids _ _) := req in
  watermarked ← embed_mark d content sender_id (parent_node.(depth) + 1);
  let wm_hash := hash_content watermarked in
  let child_node := new_node d.(dr_now) wm_hash sender_id sender.(signing_key) recipient_ids
                      (Some parent_node.(CoCNode.node_hash)) (parent_node.(depth) + 1) in
  let '(parent_node, child_node) := add_child parent_node child_node in
  o ← gets (λ s, s.(objects) !! (sender_id, parent_node.(CoCNode.node_hash)));
  modify (mutate o (λ n, (add_child n child_node).1)) ;;
  share_node d.(dr_now) child_node sender_id ;;
  on (net (update_storage sender_id (add_node d.(dr_now) parent_node))) ;;
  on (net (update_storage sender_id (add_content d.(dr_now) wm_hash watermarked))) ;;
  register message_id child_node.(CoCNode.node_hash) ;;
  for_each recipient_ids (λ id,
    share_node d.(dr_now) child_node id ;;
    on (net (update_storage id (add_content d.(dr_now) wm_hash watermarked)))) ;;
  modify object_made ;;
  announce_forward d "FORWARD_WATERMARKED" "Watermarked forward to " true sender_id node_hash message_id
    recipient_ids child_node.

(** One turn of the loop of the regular branch. *)
Definition share_forward (now : Z) (sender_id : string) (child_node : CoCNode) (id : string) : M Api unit :=
  share_node now child_node id ;;
  content ← on (gets (stored_content sender_id child_node.(content_hash)));
  match content with
  | None | Some ""%string => mret ()
  | Some content => on (net (update_storage id (add_content now child_node.(content_hash) content)))
  end.

Definition forward_regular (d : Draw) (node_hash : string) (message_id : pystr) (req : ForwardMessageRequest)
    (parent_node : CoCNode) : M Api MessageCreatedResponse :=
  let '(mkForward sender_id recipient_ids _ _) := req in
  o ← gets (λ s, s.(objects) !! (sender_id, parent_node.(CoCNode.node_hash)));
  '(child_node, _) ← on (net (forward_coc_message d.(dr_now) sender_id parent_node recipient_ids));
  modify (hold_newest sender_id child_node.(CoCNode.node_hash)) ;;
  modify (mutate o (λ n, (add_child n child_node).1)) ;;
  register message_id child_node.(CoCNode.node_hash) ;;
  for_each recipient_ids (share_forward d.(dr_now) sender_id child_node) ;;
  modify object_made ;;
  announce_forward d "FORWARD_MESSAGE" "Forwarded to " false sender_id node_hash message_id recipient_ids child_node.

Definition forward_message (d : Draw) (uuid : string) (node_hash : string) (req : ForwardMessageRequest)
    : M Api MessageCreatedResponse :=
  sender ← known_peer req.(fm_sender_id);
  match InMemory.get_node node_hash sender.(storage) with
  | None => raise (HTTPException 404)
  | Some parent_node =>
      check_peers req.(fm_recipient_ids) ;;
      let message_id := default (str uuid) (nonempty req.(fm_message_id)) in
      known ← on (gets stegano);
      match req.(fm_use_watermark), known, InMemory.get_content parent_node.(content_hash) sender.(storage) with
      | true, Some _, Some (String _ _ as content) =>
          forward_watermarked d sender node_hash message_id req parent_node content
      | _, _, _ => forward_regular d node_hash message_id req parent_node
      end
  end.

Definition delete_message (d : Draw) (node_hash originator_id : string) : M Api DeletionResponse :=
  originator ← known_peer originator_id;
  match InMemory.get_node node_hash originator.(storage) with
  | None => raise (HTTPException 404)
  | Some node =>
      if decide (node.(owner_id) ≠ originator_id) then raise (HTTPException 403)
      else
        let children_count := size node.(children_hashes) in
        on (net (initiate_deletion d.(dr_now) d.(dr_nonce_of) originator_id node)) ;;
        on (net (NetworkSim.log_event "DELETE_MESSAGE" originator_id node_hash
          ("Cascade: " +:+ pretty children_count +:+ " children"))) ;;
        originator_name ← gets (name_of originator_id);
        broadcast_event gone (MESSAGE_DELETED node_hash originator_name children_count (isoformat d.(dr_now))) ;;
        mret (mkDeletion node_hash children_count)
  end.

(** ** Provenance *)

(** [p.storage.get_node(h)] in the first peer that has it. *)
Definition lookup_node (e : Sim) (h : string) : option CoCNode :=
  head (omap (λ id, stored_node id h e) e.(peer_ids)).

(** [if node.parent_hash]. *)
Definition parent_of (n : CoCNode) : option string :=
  match n.(parent_hash) with None | Some ""%string => None | Some h => Some h end.

(** The order in which Python iterates over a set of hashes. *)
Context (set_order : gset string → list string).

(** [nodes_map], in order of insertion, and [edges]. *)
Definition collected : Type := list (string * CoCNode) * list (string * string).

(** [_collect]; [frames] is the number of stack frames available. *)
Fixpoint collect (lookup : string → option CoCNode) (frames : nat) (nh : string) (acc : collected)
    : result collected :=
  match frames with
  | O => Raise RecursionError
  | S frames =>
      if decide (nh ∈ acc.1.*1) then Ok acc
      else match lookup nh with
      | None => Ok acc
      | Some n =>
          let acc := (acc.1 ++ [(nh, n)], acc.2) in
          acc ← match parent_of n with
                | Some parent => collect lookup frames parent (acc.1, acc.2 ++ [(parent, nh)])
                | None => Ok acc
                end;
          foldl (λ acc ch, acc ← acc; collect lookup frames ch (acc.1, acc.2 ++ [(nh, ch)])) (Ok acc)
            (set_order n.(children_hashes))
      end
  end.

(** The first collected node without a parent; the requested one otherwise. *)
Definition find_root (nodes_map : list (string * CoCNode)) : option CoCNode :=
  snd <$> head (filter (λ hn, parent_of hn.2 = None) nodes_map).

Definition get_provenance_chain (frames : nat) (node_hash : string) : M Api ProvenanceChainResponse :=
  e ← on (gets id);
  match lookup_node e node_hash with
  | None => raise (HTTPException 404)
  | Some target_node =>
      '(nodes_map, edges) ← lift (collect (lookup_node e) frames node_hash ([], []));
      mret (mkChain (node_to_response (default target_node (find_root nodes_map)))
              (node_to_response <$> nodes_map.*2) edges)
  end.

(** [get_all_nodes]: each node as the first peer that has it stores it, with
    the name of its owner; the order within one peer is left open. *)
Definition get_all_nodes : M Api (list (NodeDict * string) * list (string * string)) :=
  e ← on (gets id);
  let all := concat ((λ id,
    match e.(world).(peers) !! id with Some p => InMemory.get_all_nodes p.(storage) | None => [] end) <$> e.(peer_ids)) in
  let nodes_map := foldl (λ m n, if decide (n.(node_hash) ∈ m.*1) then m else m ++ [(n.(node_hash), n)])
    ([] : list (string * CoCNode)) all in
  names ← gets (λ s, (λ n, name_of n.(owner_id) s) <$> nodes_map.*2);
  mret (zip (to_dict <$> nodes_map.*2) names,
        omap (λ hn, (λ parent, (parent, hn.1)) <$> parent_of hn.2) nodes_map).

(** ** Leak detection, shares, time locks *)

(** [if result.success and result.peer_id: _peer_names.get(result.peer_id, result.peer_id[:8])];
    what a watermark names need not be text. *)
Definition detected_name (r : ExtractionResult) (s : Api) : result (option pystr) :=
  match r.(er_peer_id) with
  | Some (JStr (_ :: _ as id)) =>
      if r.(success) then
        Ok (Some match text_of id with
                 | Ok i => match s.(peer_names) !! i with Some name => str name | None => take 8 id end
                 | Raise _ => take 8 id
                 end)
      else Ok None
  | Some v => if r.(success) && truthy v then Raise TypeError else Ok None
  | None => Ok None
  end.

(** The response has text or nothing as the suspect. *)
Definition suspect_text (v : option json) : result (option pystr) :=
  match v with
  | None | Some JNull => Ok None
  | Some (JStr id) => Ok (Some id)
  | Some _ => Raise ValidationError
  end.

Definition detect_leak (d : Draw) (req : DetectLeakRequest) : M Api LeakDetectionResponse :=
  known ← on (gets stegano);
  match known with
  | None => raise (HTTPException 400)
  | Some _ =>
      all ← on (gets peer_ids);
      let candidates := match req.(dl_candidate_peer_ids) with Some (c :: cs) => c :: cs | _ => all end in
      candidate_peers ← lift (mapR code_points candidates);
      on (for_each candidate_peers (λ pid,
        modify (λ e, set_stegano (Steganography.register_peer pid (default [] e.(stegano))) e))) ;;
      content ← lift (code_points req.(dl_leaked_content));
      known ← on (gets (λ e, default [] e.(stegano)));
      result ← lift (extract_watermark content (Some candidate_peers) known);
      name ← (λ s, (detected_name result s, s));
      broadcast_event gone (LEAK_SCAN result.(success) result.(er_peer_id) name result.(confidence)
        result.(method) (isoformat d.(dr_now))) ;;
      suspect ← lift (suspect_text result.(er_peer_id));
      mret (mkLeak result.(success) suspect result.(confidence) result.(method) result.(original_content))
  end.

(** [SecretSharingEngine] has no attribute [split_secret], so nothing after
    its use runs. *)
Definition distribute_shares (req : DistributeSharesRequest) : M Api unit :=
  sharing ← on (gets sharing);
  match sharing with
  | None => raise (HTTPException 400)
  | Some _ =>
      known_peer req.(dsr_originator_id) ;;
      check_peers req.(dsr_holder_ids) ;;
      raise AttributeError
  end.

(** [engine.secret_sharing_engine.reconstruct_secret] does not exist either;
    here the exception is caught. *)
Definition reconstruct_secret (req : ReconstructSecretRequest) : M Api ReconstructResponse :=
  sharing ← on (gets sharing);
  match sharing with
  | None => raise (HTTPException 400)
  | Some engine =>
      known_peer req.(rs_requester_id) ;;
      hash ← lift (code_points req.(rs_content_hash));
      if negb (can_reconstruct engine hash None)
      then mret (mkReconstructed false None req.(rs_content_hash))
      else match (Raise AttributeError : result string) with
           | Ok content => mret (mkReconstructed true (Some content) req.(rs_content_hash))
           | Raise _ => mret (mkReconstructed false None req.(rs_content_hash))
           end
  end.

(** [encrypt] returns one object, which does not unpack into two. *)
Definition create_timelock (d : Draw) (req : TimelockRequest) : M Api unit :=
  timelock ← on (gets timelock);
  match timelock with
  | None => raise (HTTPException 400)
  | Some engine =>
      known_peer req.(tl_originator_id) ;;
      content ← lift (code_points req.(tl_content));
      '(_, engine) ← lift (TimeLock.encrypt d.(dr_lock) d.(dr_now) content req.(tl_ttl_seconds) engine);
      on (modify (set_timelock engine)) ;;
      raise TypeError
  end.

(** ** The audit log *)

(** One line of the file: comments, blank lines and short lines are left out. *)
Definition read_entry (line : pystr) : option AuditEntry :=
  let line := strip line in
  if FileLog.starts_with_hash line || bool_decide (line = []) then None
  else match FileLog.fields line with
  | t :: a :: g :: ts :: details :: prev :: h :: _ => Some (mkEntry t a g ts details prev h)
  | _ => None
  end.

(** [log_file] is what the engine's log file holds, [None] when there is none. *)
Definition get_audit_log (sha256 : pystr → pystr) (log_file : option pystr) : AuditLogResponse :=
  let entries := match log_file with Some f => omap read_entry (FileLog.readlines f) | None => [] end in
  mkAuditResponse entries (FileLog.verify_log_integrity sha256 log_file) (length entries).

(** ** The server in motion *)

(** The calls of the REST interface; ids and keys are those drawn if the call
    makes a peer or a message. *)
Inductive request :=
  | CreatePeer (uuid : string) (key : bytes) (req : CreatePeerRequest)
  | CreateMessage (uuid : string) (req : CreateMessageRequest)
  | ForwardMessage (uuid node_hash : string) (req : ForwardMessageRequest)
  | DeleteMessage (node_hash originator_id : string)
  | DetectLeak (req : DetectLeakRequest)
  | DistributeShares (req : DistributeSharesRequest)
  | ReconstructSecret (req : ReconstructSecretRequest)
  | CreateTimelock (req : TimelockRequest)
  | Health | GetState | GetEvents | ListPeers | GetPeer (id : string)
  | GetProvenanceChain (frames : nat) (node_hash : string) | GetAllNodes.

(** The state after a call, whatever it answers. *)
Definition serve (d : Draw) (r : request) (s : Api) : Api :=
  match r with
  | CreatePeer uuid key req => (create_peer d uuid key req s).2
  | CreateMessage uuid req => (create_message d uuid req s).2
  | ForwardMessage uuid node_hash req => (forward_message d uuid node_hash req s).2
  | DeleteMessage node_hash originator_id => (delete_message d node_hash originator_id s).2
  | DetectLeak req => (detect_leak d req s).2
  | DistributeShares req => (distribute_shares req s).2
  | ReconstructSecret req => (reconstruct_secret req s).2
  | CreateTimelock req => (create_timelock d req s).2
  | Health => (health s).2
  | GetState => (get_state s).2
  | GetEvents => (get_events s).2
  | ListPeers => (list_peers s).2
  | GetPeer id => (get_peer id s).2
  | GetProvenanceChain frames node_hash => (get_provenance_chain frames node_hash s).2
  | GetAllNodes => (get_all_nodes s).2
  end.

End routes.

(** ** The audit route lists what was logged *)

Section audit_route.
Context (sha256 : pystr → pystr).
Context (sha256_hex : ∀ x, sha256 x ≠ [] ∧ Forall (λ c, 48 ≤ c ≤ 57 ∨ 97 ≤ c ≤ 102) (sha256 x)).

(** What was logged in one call, without the hashes. *)
Definition logged (c : FileLog.log_call) : list pystr :=
  let '(now, (t, a, g, d)) := c in [t; a; g; iso_codes now; d].
Definition shown (e : AuditEntry) : list pystr :=
  [e.(ae_event_type); e.(ae_actor); e.(ae_target); e.(ae_timestamp); e.(ae_details)].

(** The log holds the header and a chain of entries for these calls. *)
Definition holds_calls (calls : list FileLog.log_call) (l : FileLog.AuditLog) : Prop :=
  ∃ es, l.(FileLog.file) = FileLog.file_of (FileLog.header_lines ++ (FileLog.join_fields <$> es)) ∧
    FileLog.chained sha256 [] es l.(FileLog.last_hash) ∧ take 5 <$> es = logged <$> calls.

Lemma holds_calls_log_event calls l c :
  FileLog.call_ok c → holds_calls calls l → holds_calls (calls ++ [c]) (FileLog.run_calls sha256 [c] l).
Proof.
  destruct c as [now [[[t a] g] d]]. intros (Hnow & Ht & Ha & Hg & Hd) (es & Hf & Hc & Hcalls).
  destruct (FileLog.log_event_entry sha256 now t a g d l) as (parts & Hok & Hfile); try done.
  { eapply FileLog.chained_clean; [exact sha256_hex| |exact Hc]. constructor. }
  simpl. set (x := FileLog.entry_content t a g (iso_codes now) d l.(FileLog.last_hash)).
  exists (es ++ [[t; a; g; iso_codes now; d; l.(FileLog.last_hash); sha256 x]]).
  rewrite !fmap_app, Hcalls, app_assoc, FileLog.file_of_app, <-Hf. split; [|split; [|done]].
  - unfold FileLog.log_event, FileLog.file_of. cbn [FileLog.file concat fmap list_fmap]. rewrite app_nil_r. f_equal.
    fold x. unfold x, FileLog.entry_content. cbn [FileLog.join_fields]. by rewrite <-!app_assoc.
  - eapply FileLog.chained_snoc; [exact Hc|]. exists t, a, g, (iso_codes now), d.
    repeat (split; [done||by apply FileLog.iso_codes_clean|]). split; [|done].
    eapply FileLog.chained_clean; [exact sha256_hex| |exact Hc]. constructor.
Qed.

Lemma holds_run_calls calls0 calls l :
  Forall FileLog.call_ok calls → holds_calls calls0 l →
  holds_calls (calls0 ++ calls) (FileLog.run_calls sha256 calls l).
Proof.
  intros Hc. revert calls0 l. induction Hc as [|c calls Hc _ IH]; intros calls0 l Hl; [by rewrite app_nil_r|].
  apply (holds_calls_log_event _ _ _ Hc), IH in Hl. rewrite <-app_assoc in Hl.
  by destruct c as [now [[[t a] g] d]].
Qed.

Definition genesis (now : Z) : FileLog.log_call :=
  (now, (str "GENESIS", str "SYSTEM", str "Log Initialized", str "Initial state.")).

Lemma genesis_ok now : 0 ≤ now < max_datetime → FileLog.call_ok (genesis now).
Proof.
  intros Hnow. assert (∀ s, bool_decide (FileLog.clean s) = true → FileLog.clean s) as Hcl
    by (intros s; apply bool_decide_eq_true).
  repeat split; try (by apply Hcl); try apply Hnow. do 2 eexists. split; [reflexivity|done].
Qed.

Lemma read_chained prev es final :
  FileLog.chained sha256 prev es final →
  ∃ entries, omap read_entry (FileLog.join_fields <$> es) = entries ∧ shown <$> entries = take 5 <$> es.
Proof.
  revert prev; induction es as [|parts es IH]; intros prev; [by exists []|]. intros (h & Hok & Hc).
  destruct (IH _ Hc) as (entries & He & Hs).
  destruct (FileLog.entry_ok_line sha256 sha256_hex _ _ _ Hok) as [Hstrip Hhash].
  pose proof (FileLog.entry_ok_fields sha256 sha256_hex _ _ _ Hok) as Hfields.
  destruct Hok as (t & a & g & ts & d & -> & [_ (c & r & -> & _)] & _).
  set (parts := [_; a; g; ts; d; prev; h]) in *.
  assert (read_entry (FileLog.join_fields parts) = Some (mkEntry (c :: r) a g ts d prev h)) as Hre.
  { unfold read_entry. rewrite Hstrip, Hhash, Hfields. by rewrite bool_decide_eq_false_2. }
  exists (mkEntry (c :: r) a g ts d prev h :: entries). rewrite !fmap_cons, Hs. split; [|done].
  change (match read_entry (FileLog.join_fields parts) with
          | Some e => e :: omap read_entry (FileLog.join_fields <$> es)
          | None => omap read_entry (FileLog.join_fields <$> es)
          end = mkEntry (c :: r) a g ts d prev h :: entries). by rewrite Hre, He.
Qed.

(** C20: after any calls of [log_event] whose fields hold no "|" and no line
    break, the audit route answers with one entry per call, in order and after
    the genesis entry, each with the fields that were logged, and reports the
    log as intact. *)
Theorem audit_route_roundtrip (now : Z) (calls : list FileLog.log_call) :
  0 ≤ now < max_datetime → Forall FileLog.call_ok calls →
  let r := get_audit_log sha256
    (Some (FileLog.run_calls sha256 calls (FileLog.open_log sha256 now None)).(FileLog.file)) in
  shown <$> r.(al_entries) = logged <$> genesis now :: calls ∧
  r.(al_total_entries) = S (length calls) ∧ r.(al_integrity_valid) = true.
Proof.
  intros Hnow Hcalls r.
  assert (r.(al_integrity_valid) = true) as Hv.
  { apply (FileLog.verify_log_ok sha256 sha256_hex), FileLog.run_calls_ok, FileLog.initialize_log_ok; done. }
  destruct (holds_run_calls [genesis now] calls (FileLog.open_log sha256 now None) Hcalls) as (es & Hf & Hc & Hes).
  { apply (holds_calls_log_event [] (FileLog.mkLog FileLog.header [])); [by apply genesis_ok|]. by exists []. }
  destruct (FileLog.chained_lines sha256 sha256_hex _ _ _ Hc) as (Hlines & _).
  destruct (read_chained _ _ _ Hc) as (entries & Hentries & Hshown).
  assert (r.(al_entries) = entries) as Hr.
  { unfold r, get_audit_log. cbn [al_entries]. rewrite Hf, FileLog.readlines_file; [|apply Forall_app; split; [apply FileLog.header_lines_ok|done]].
    rewrite omap_app, Hentries. done. }
  rewrite Hr, Hshown, Hes. split; [done|]. split; [|done]. unfold r, get_audit_log in *. cbn [al_entries al_total_entries] in *.
  rewrite Hr, <-(length_fmap shown), Hshown, Hes, length_fmap. done.
Qed.
End audit_route.

(** ** The provenance route *)

Section provenance.
Context (set_order : gset string → list string) (set_order_elements : ∀ X, set_order X ≡ₚ elements X).
Context (lookup : string → option CoCNode).

(** A stored node names its parent and its children. *)
Definition linked (k h : string) : Prop :=
  ∃ n, lookup k = Some n ∧ (parent_of n = Some h ∨ h ∈ n.(children_hashes)).

(** The edges one node contributes. *)
Definition edge_of (hn : string * CoCNode) (e : string * string) : Prop :=
  (parent_of hn.2 = Some e.1 ∧ e.2 = hn.1) ∨ (e.1 = hn.1 ∧ e.2 ∈ children_hashes hn.2).

(** [acc'] adds to [acc] new nodes reachable from the hashes in [from], and all
    their stored neighbours; its edges are those of the new nodes and [extra]. *)
Record grown (from : string → Prop) (extra : string * string → Prop) (acc acc' : collected)
    (new : list (string * CoCNode)) : Prop := {
  g_nodes : acc'.1 = acc.1 ++ new;
  g_new h n : (h, n) ∈ new → lookup h = Some n ∧ (h ∉ acc.1.*1) ∧ ∃ r, from r ∧ rtc linked r h;
  g_nodup : NoDup new.*1;
  g_from r : from r → is_Some (lookup r) → r ∈ acc'.1.*1;
  g_closed k h : k ∈ new.*1 → linked k h → is_Some (lookup h) → h ∈ acc'.1.*1;
  g_edges e : e ∈ acc'.2 ↔ e ∈ acc.2 ∨ extra e ∨ ∃ hn, hn ∈ new ∧ edge_of hn e;
}.

Lemma grown_trans F F' X X' a b c new new' :
  grown F X a b new → grown F' X' b c new' →
  grown (λ r, F r ∨ F' r) (λ e, X e ∨ X' e) a c (new ++ new').
Proof.
  intros [N1 W1 D1 F1 C1 E1] [N2 W2 D2 F2 C2 E2].
  assert (∀ k, k ∈ b.1.*1 → k ∈ c.1.*1) as Hsub by (intros k; rewrite N2, fmap_app; set_solver).
  split.
  - by rewrite N2, N1, app_assoc.
  - intros h n [Hn|Hn]%elem_of_app; [naive_solver|]. destruct (W2 _ _ Hn) as (? & Hb & r & ? & ?).
    rewrite N1, fmap_app in Hb. split; [done|]. split; [set_solver|]. exists r. tauto.
  - rewrite fmap_app. apply NoDup_app. split; [done|]. split; [|done]. intros k Hk ((k', n) & -> & Hn)%list_elem_of_fmap.
    destruct (W2 _ _ Hn) as (_ & Hb & _). apply Hb. rewrite N1, fmap_app. set_solver.
  - intros r [?|?]; [|by apply F2]. intros ?. by apply Hsub, F1.
  - intros k h. rewrite fmap_app, elem_of_app. intros [?|?]; [|by apply C2]. intros ? ?. by eapply Hsub, C1.
  - intros e. rewrite E2, E1. setoid_rewrite elem_of_app. naive_solver.
Qed.

Lemma grown_weaken F F' X X' a b new :
  (∀ r, F r ↔ F' r) → (∀ e, X e ↔ X' e) → grown F X a b new → grown F' X' a b new.
Proof.
  intros HF HX [N W D Fr Cl E]. split; [done| |done| |done|].
  - intros h n Hn. destruct (W _ _ Hn) as (? & ? & r & ? & ?). split; [done|]. split; [done|].
    exists r. by rewrite <-HF.
  - intros r. rewrite <-HF. apply Fr.
  - intros e. by rewrite E, HX.
Qed.

Lemma grown_nil F X a :
  (∀ r, F r → is_Some (lookup r) → r ∈ a.1.*1) → (∀ e, ¬ X e) → grown F X a a [].
Proof.
  intros HF HX. split; try (by intros ? ? ?%elem_of_nil); [by rewrite app_nil_r|constructor|done|].
  intros e. split; [by left|]. intros [?|[?%HX|(hn & []%elem_of_nil & _)]]; done.
Qed.

(** A node, then everything from its neighbours. *)
Lemma grown_cons X nh n acc acc' new :
  lookup nh = Some n → nh ∉ acc.1.*1 → (∀ e, X e ↔ edge_of (nh, n) e) →
  grown (linked nh) X (acc.1 ++ [(nh, n)], acc.2) acc' new →
  grown (eq nh) (λ _, False) acc acc' ((nh, n) :: new).
Proof.
  intros Hn Hin HX [N W Du Fr Cl E]. cbn [fst snd] in N, W, E. split.
  - by rewrite N, <-app_assoc.
  - intros h m [[= -> ->]|Hm]%elem_of_cons; [eauto using rtc_refl|]. destruct (W _ _ Hm) as (Hl & Hno & r & Hr & Hp).
    rewrite fmap_app in Hno. split; [done|]. split; [set_solver|]. exists nh. split; [done|]. by eapply rtc_l.
  - csimpl. constructor; [|done]. intros ((h, m) & Hh & Hm)%list_elem_of_fmap. destruct (W _ _ Hm) as (_ & Hno & _).
    cbn in Hh. subst h. apply Hno. rewrite fmap_app. set_solver.
  - intros r <- _. rewrite N, !fmap_app. set_solver.
  - intros k h. csimpl. intros [->|Hk]%elem_of_cons; [by apply Fr|by apply Cl].
  - intros e. rewrite E, HX. setoid_rewrite elem_of_cons. naive_solver.
Qed.

Lemma grown_edge a e : grown (λ _, False) (λ e', e' = e) a (a.1, a.2 ++ [e]) [].
Proof.
  split; cbn; [by rewrite app_nil_r|by intros h n ?%elem_of_nil|constructor|done|by intros k h ?%elem_of_nil|].
  intros e'. rewrite elem_of_app, list_elem_of_singleton. setoid_rewrite elem_of_nil. naive_solver.
Qed.

(** Every hash that is found. *)
Context (found : gset string) (lookup_found : ∀ h, is_Some (lookup h) → h ∈ found).
Definition left_over (acc : collected) : nat := size (found ∖ list_to_set acc.1.*1).

Lemma left_over_grown F X a b new : grown F X a b new → (left_over b ≤ left_over a)%nat.
Proof. intros [N _ _ _ _ _]. unfold left_over. apply (subseteq_size (C := gset string)). rewrite N, fmap_app. set_solver. Qed.

(** What [_collect] does from [acc]. *)
Definition collects (frames : nat) (nh : string) (acc : collected) : Prop :=
  ∃ acc' new, collect set_order lookup frames nh acc = Ok acc' ∧ grown (eq nh) (λ _, False) acc acc' new.

Lemma collect_step frames nh from acc :
  (∀ h acc, (left_over acc < frames)%nat → collects frames h acc) → (left_over acc < frames)%nat →
  ∃ acc' new, collect set_order lookup frames nh (acc.1, acc.2 ++ [from]) = Ok acc' ∧
    grown (eq nh) (λ e, e = from) acc acc' new.
Proof.
  intros IH Hsize. destruct (IH nh (acc.1, acc.2 ++ [from])) as (acc' & new & Hc & Hg); [done|].
  exists acc', new. split; [done|]. pose proof (grown_trans _ _ _ _ _ _ _ _ _ (grown_edge acc from) Hg) as G.
  eapply grown_weaken; [..|exact G]; naive_solver.
Qed.

Lemma collect_children frames nh l acc :
  (∀ h acc, (left_over acc < frames)%nat → collects frames h acc) → (left_over acc < frames)%nat →
  ∃ acc' new,
    foldl (λ acc ch, acc ← acc; collect set_order lookup frames ch (acc.1, acc.2 ++ [(nh, ch)])) (Ok acc) l = Ok acc' ∧
    grown (λ r, r ∈ l) (λ e, e.1 = nh ∧ e.2 ∈ l) acc acc' new.
Proof.
  intros IH. revert acc. induction l as [|ch l IHl]; intros acc Hsize.
  - exists acc, []. split; [done|]. apply grown_nil; [by intros r ?%elem_of_nil|]. by intros e [_ ?%elem_of_nil].
  - destruct (collect_step frames ch (nh, ch) acc IH Hsize) as (acc1 & new1 & Hc1 & Hg1).
    destruct (IHl acc1) as (acc2 & new2 & Hc2 & Hg2). { apply left_over_grown in Hg1. lia. }
    exists acc2, (new1 ++ new2). cbn [foldl mbind result_bind]. rewrite Hc1. split; [done|].
    eapply grown_weaken; [..|exact (grown_trans _ _ _ _ _ _ _ _ _ Hg1 Hg2)].
    + intros r. rewrite elem_of_cons. naive_solver.
    + intros [a b]. cbn. rewrite elem_of_cons. naive_solver.
Qed.

Lemma collect_parent frames nh n acc :
  (∀ h acc, (left_over acc < frames)%nat → collects frames h acc) → (left_over acc < frames)%nat →
  ∃ acc' new,
    match parent_of n with
    | Some parent => collect set_order lookup frames parent (acc.1, acc.2 ++ [(parent, nh)])
    | None => Ok acc
    end = Ok acc' ∧
    grown (λ r, parent_of n = Some r) (λ e, parent_of n = Some e.1 ∧ e.2 = nh) acc acc' new.
Proof.
  intros IH Hsize. destruct (parent_of n) as [parent|].
  - destruct (collect_step frames parent (parent, nh) acc IH Hsize) as (acc1 & new1 & Hc1 & Hg1).
    exists acc1, new1. split; [done|]. eapply grown_weaken; [..|exact Hg1]; [naive_solver|].
    intros [a b]. cbn. naive_solver.
  - exists acc, []. split; [done|]. apply grown_nil; [done|]. by intros e [? _].
Qed.

Lemma left_over_visit acc nh n :
  lookup nh = Some n → nh ∉ acc.1.*1 → (left_over (acc.1 ++ [(nh, n)], acc.2) < left_over acc)%nat.
Proof.
  intros Hn Hin. unfold left_over. cbn [fst]. rewrite fmap_app. apply (subset_size (C := gset string)).
  assert (nh ∈ found) by (apply lookup_found; by rewrite Hn).
  split; [set_solver|]. intros Hs. specialize (Hs nh). csimpl in Hs. set_solver.
Qed.

Lemma collect_grows frames nh acc : (left_over acc < frames)%nat → collects frames nh acc.
Proof.
  revert nh acc. induction frames as [|frames IH]; intros nh acc Hsize; [lia|]. unfold collects. cbn [collect].
  case_decide as Hin; [exists acc, []; split; [done|apply grown_nil; [by intros r <-|tauto]]|].
  destruct (lookup nh) as [n|] eqn:Hn; cycle 1.
  { exists acc, []. split; [done|]. apply grown_nil; [|tauto]. intros r <-. rewrite Hn. by intros []. }
  set (acc0 := (acc.1 ++ [(nh, n)], acc.2)). pose proof (left_over_visit acc nh n Hn Hin) as Hless. fold acc0 in Hless.
  destruct (collect_parent frames nh n acc0 IH) as (acc1 & new1 & Hc1 & Hg1); [lia|].
  destruct (collect_children frames nh (set_order n.(children_hashes)) acc1 IH) as (acc2 & new2 & Hc2 & Hg2).
  { apply left_over_grown in Hg1. lia. }
  exists acc2, ((nh, n) :: new1 ++ new2). split.
  { assert (∀ (m : result collected) (f : collected → result collected) a r, m = Ok a → f a = r → (m ≫= f) = r)
      as Hbind by (by intros m f a r -> <-). eapply Hbind; [exact Hc1|exact Hc2]. }
  assert (∀ h, h ∈ set_order n.(children_hashes) ↔ h ∈ n.(children_hashes)) as Hord.
  { intros h. by rewrite set_order_elements, elem_of_elements. }
  eapply grown_cons; [done|done| |]; cycle 1.
  - eapply grown_weaken; [|intros e; reflexivity|exact (grown_trans _ _ _ _ _ _ _ _ _ Hg1 Hg2)].
    intros r. cbn. rewrite Hord. unfold linked. rewrite Hn. naive_solver.
  - intros [a b]. cbn. rewrite Hord. done.
Qed.
End provenance.

Section provenance_route.
Context (set_order : gset string → list string) (set_order_elements : ∀ X, set_order X ≡ₚ elements X).

(** The hashes of all nodes that some peer stores. *)
Definition stored_hashes (e : Sim) : gset string :=
  let hashes : list (list string) := (λ id,
    match e.(world).(peers) !! id with Some p => (map_to_list p.(storage).(InMemory.nodes)).*1 | None => [] end)
    <$> e.(peer_ids) in
  list_to_set (concat hashes).

Lemma lookup_node_stored e h : is_Some (lookup_node e h) → h ∈ stored_hashes e.
Proof.
  unfold lookup_node, stored_hashes. rewrite elem_of_list_to_set. intros [n Hn]. apply list_elem_of_In, List.in_concat.
  destruct (omap _ _) as [|m l] eqn:Hl; [done|]. injection Hn as ->.
  assert (n ∈ omap (λ id, stored_node id h e) e.(peer_ids)) as (id & Hid & Hs)%list_elem_of_omap by (rewrite Hl; by left).
  eexists. rewrite <-!list_elem_of_In. split; [apply list_elem_of_fmap; by exists id|]. unfold stored_node in Hs. destruct (peers (world e) !! id) as [p|]; [|done].
  cbn in Hs. apply list_elem_of_fmap. exists (h, n). split; [done|]. by apply elem_of_map_to_list.
Qed.

(** C18: asked for a node that some peer stores, the provenance route answers,
    given a stack of one frame more than there are stored nodes: with every
    stored node that parent and child links lead to from the requested one,
    each once and no other, and with exactly the links of these nodes as edges.
    The root it names is one of them that has no parent, if there is one. *)
Theorem provenance_chain_exact (frames : nat) (h : string) (s : Api) :
  let e := get_engine s in
  is_Some (lookup_node e h) → (size (stored_hashes e) < frames)%nat →
  ∃ (nodes_map : list (string * CoCNode)) (edges : list (string * string)) (root : CoCNode),
    get_provenance_chain set_order frames h s =
      (Ok (mkChain (node_to_response root) (node_to_response <$> nodes_map.*2) edges), set_engine e s) ∧
    NoDup nodes_map.*1 ∧
    (∀ k n, (k, n) ∈ nodes_map ↔ lookup_node e k = Some n ∧ rtc (linked (lookup_node e)) h k) ∧
    (∀ a b, (a, b) ∈ edges ↔ ∃ kn, kn ∈ nodes_map ∧ edge_of kn (a, b)) ∧
    root ∈ nodes_map.*2 ∧ (parent_of root = None ∨ ∀ n, n ∈ nodes_map.*2 → parent_of n ≠ None).
Proof.
  intros e Hsome Hframes.
  destruct (collect_grows set_order set_order_elements (lookup_node e) (stored_hashes e) (lookup_node_stored e)
    frames h ([], [])) as ([nodes_map edges] & new & Hc & [N W Du Fr Cl E]).
  { unfold left_over. cbn. by rewrite difference_empty_L. }
  cbn [fst snd app] in N, W, Fr, Cl, E. subst new.
  assert (∀ k n, (k, n) ∈ nodes_map ↔ lookup_node e k = Some n ∧ rtc (linked (lookup_node e)) h k) as Hexact.
  { intros k n. split; [intros Hk; destruct (W _ _ Hk) as (? & _ & r & <- & ?); done|]. intros [Hk Hr].
    enough (k ∈ nodes_map.*1) as ([k' m] & -> & Hm)%list_elem_of_fmap.
    { destruct (W _ _ Hm) as [Hm' _]. cbn in *. congruence. }
    apply (Fr h eq_refl) in Hsome. revert Hsome. clear -Hr Hk Cl.
    induction Hr as [|x y z Hxy Hr IH]; intros Hx; [done|]. apply IH; [done|].
    eapply Cl; [exact Hx|exact Hxy|]. destruct Hr as [|y z' z (m & Hm & _)]; by eexists. }
  destruct Hsome as [target Ht].
  exists nodes_map, edges, (default target (find_root nodes_map)). split.
  { unfold get_provenance_chain, on, gets, mbind, M_bind, lift. cbn [id]. fold e. rewrite Ht, Hc. done. }
  split; [done|]. split; [done|]. split; [intros a b; rewrite E, elem_of_nil; naive_solver|].
  unfold find_root. destruct (filter _ nodes_map) as [|[k n] l] eqn:Hf; cbn.
  - split.
    + apply list_elem_of_fmap. exists (h, target). split; [done|]. apply Hexact. split; [done|reflexivity].
    + right. intros n ([k m] & -> & Hm)%list_elem_of_fmap Hp.
      eapply filter_nil_not_elem_of; [exact Hf|exact Hp|exact Hm].
  - assert ((k, n) ∈ filter (λ hn, parent_of hn.2 = None) nodes_map) as [Hp Hin]%list_elem_of_filter
      by (rewrite Hf; by left).
    split; [|by left]. apply list_elem_of_fmap. by exists (k, n).
Qed.
End provenance_route.

(** ** Witnesses *)

Lemma audit_route_roundtrip_witness :
  let calls : list FileLog.log_call := [(7, (str "DELETE", str "ann", str "doc", []))] in
  let r := get_audit_log AuditLog.toy_digest (Some
    (FileLog.run_calls AuditLog.toy_digest calls (FileLog.open_log AuditLog.toy_digest 5 None)).(FileLog.file)) in
  shown <$> r.(al_entries) = logged <$> genesis 5 :: calls ∧
  r.(al_total_entries) = 2%nat ∧ r.(al_integrity_valid) = true.
Proof.
  apply (audit_route_roundtrip AuditLog.toy_digest AuditLog.toy_digest_hex 5 [(7, (str "DELETE", str "ann", str "doc", []))]).
  - split; [lia|reflexivity].
  - constructor; [|constructor]. split; [split; [lia|reflexivity]|].
    split; [exact delete_word|]. repeat split; try (by apply ascii_clean). constructor.
Defined.

(** bob forwards to ann what ann sent him. *)
Definition chain_api : Api :=
  let d now := mkDraw now (λ h, h) toy_entropy TimeLock.toy_lock [0] in
  let call now r s := serve (C := toy_crypto) (P := toy_prims) (D := Steganography.toy_digest) (λ _, false) elements
    (d now) r s in
  let s := call 3 (CreateMessage "u" (mkCreateMessage "ann" "hi" ["bob"] None))
    (call 2 (CreatePeer "u" [2] (mkCreatePeer (Some "bob") None))
      (call 1 (CreatePeer "u" [1] (mkCreatePeer (Some "ann") (Some "Ann"))) api_start)) in
  match get_engine s with
  | e => match elements (stored_hashes e) with
         | h :: _ => call 4 (ForwardMessage "u" h (mkForward "bob" ["ann"] false None)) s
         | [] => s
         end
  end.

Definition chain_end : string := Eval vm_compute in
  match elements (stored_hashes (get_engine chain_api)) with h :: _ => h | [] => "" end.

Lemma provenance_chain_exact_witness :
  size (stored_hashes (get_engine chain_api)) = 2%nat ∧
  ∃ (nodes_map : list (string * CoCNode)) edges root,
    (get_provenance_chain elements 3 chain_end chain_api).1 =
      Ok (mkChain (node_to_response root) (node_to_response <$> nodes_map.*2) edges) ∧ NoDup nodes_map.*1.
Proof.
  split; [vm_compute; reflexivity|].
  destruct (provenance_chain_exact elements (λ X, Permutation_refl (elements X)) 3 chain_end chain_api)
    as (nodes_map & edges & root & Hr & Hnd & _).
  - apply (bool_decide_unpack (is_Some _)). vm_compute. exact I.
  - vm_compute. lia.
  - exists nodes_map, edges, root. split; [|exact Hnd]. rewrite Hr. reflexivity.
Defined.
