(* ===== verification/Custody.v ===== *)
(** * What the API keeps true of custody
      ([coc_framework/api/server.py] over [core/network_sim.py])

    Histories of API calls, deliveries and socket events ([api_run]), and what
    holds in all of them: the nodes peers store are the announced ones, signed
    by their owners, and all copies of a node agree; a deletion that was
    requested reaches, once no message is under way, every recipient of the
    node and of every node that recipients made from it. *)

From Stdlib Require Import ZArith Lia Ascii String.
From S2P Require Import Prelude PyData DateTime Json Crypto SecretSharing TimeLock Steganography AuditLog.
From S2P Require Import CoCNode Storage DeletionEngine NetworkSim Simulation ApiServer.

(** ** The record of what was made *)

(** What never changes about a node. *)
Record Made := mkMade {
  m_hash : string;
  m_owner : string;
  m_recipients : list string;
  m_parent : option string;
}.

#[global] Instance Made_eq_dec : EqDecision Made.
Proof. solve_decision. Defined.

Definition made_of (n : CoCNode) : Made := mkMade n.(node_hash) n.(owner_id) n.(recipient_ids) (parent_of n).

Definition made_of_dict (d : NodeDict) : Made :=
  mkMade (default "" d.(d_node_hash)) (default "" d.(d_owner_id)) (default [] d.(d_recipient_ids))
    match d.(d_parent_hash) with None | Some ""%string => None | Some h => Some h end.

Definition event_made (ev : api_event) : option Made :=
  match ev with
  | MESSAGE_CREATED d _ _ _ _ | MESSAGE_FORWARDED d _ _ _ _ _ _ => Some (made_of_dict d)
  | _ => None
  end.

(** The nodes the event log announces. *)
Definition made (s : Api) : list Made := omap event_made s.(event_log).

Lemma made_of_to_dict n : made_of_dict (to_dict n) = made_of n.
Proof. done. Qed.

(** [m]'s node is put into the stores of its owner and its recipients. *)
Definition holder (m : Made) (r : string) : Prop := r = m.(m_owner) ∨ r ∈ m.(m_recipients).

(** ** Worlds *)

Abbreviation world_t := (World InMemory.storage).
Implicit Types (w : world_t) (K : list Made).

Definition held w (r h : string) : option CoCNode :=
  p ← w.(peers) !! r; p.(storage).(InMemory.nodes) !! h.

(** The deletion of [m] was requested: its owner issued a token. *)
Definition requested w (m : Made) : Prop := issue_event m.(m_owner) m.(m_hash) ∈ w.(NetworkSim.audit_log).

(** A token for the node [h] is on its way to [r]. *)
Definition carries (msg : Message) (r h : string) : Prop :=
  msg.(msg_recipient_id) = r ∧ ∃ t, msg.(msg_body_of) = DeletionTokenMsg t ∧ t.(tok_node_hash) = h.

(** Identity, key and availability of a peer. *)
Definition ident (p : Peer InMemory.storage) : string * bytes * bool := (p.(peer_id), p.(signing_key), p.(online)).
Definition registered w (r : string) : Prop := is_Some (w.(peers) !! r).

Section server.
Context {C : Crypto}.

(** What is promised of deletions is promised under [U], and [T] are the tokens
    that are delivered. *)
Context (U : Prop) (T : DeletionToken → Prop).

Record custody K w : Prop := {
  c_peers id p : w.(peers) !! id = Some p → p.(peer_id) = id ∧ p.(online) = true ∧ InMemory.inv p.(storage);
  c_held r h n : held w r h = Some n → made_of n ∈ K ∧ holder (made_of n) r;
  c_known m r : m ∈ K → holder m r → registered w r;
  c_unique m m' : m ∈ K → m' ∈ K → m.(m_hash) = m'.(m_hash) → m = m';
  c_parent m h : m ∈ K → m.(m_parent) = Some h → ∃ m', m' ∈ K ∧ m'.(m_hash) = h;
  c_child r h n m : held w r h = Some n → m ∈ K → m.(m_parent) = Some h → m.(m_owner) = r →
    m.(m_hash) ∈ n.(children_hashes);
  c_gone m r : m ∈ K → holder m r → held w r m.(m_hash) = None →
    requested w m ∧ ∀ m', m' ∈ K → m'.(m_parent) = Some m.(m_hash) → m'.(m_owner) = r → requested w m';
  c_requests a h : issue_event a h ∈ w.(NetworkSim.audit_log) → ∃ m, m ∈ K ∧ m.(m_hash) = h ∧ m.(m_owner) = a;
  c_pending m r : U → m ∈ K → requested w m → r ∈ m.(m_recipients) → is_Some (held w r m.(m_hash)) →
    ∃ msg, msg ∈ w.(in_flight) ∧ carries msg r m.(m_hash);
  c_flight msg : msg ∈ w.(in_flight) → ∃ t m, msg.(msg_body_of) = DeletionTokenMsg t ∧ authentic w t ∧
    m ∈ K ∧ m.(m_hash) = t.(tok_node_hash) ∧ requested w m ∧ msg.(msg_recipient_id) ∈ m.(m_recipients);
  c_cache r c th t0 : w.(token_caches) !! r = Some c → c.(processed) !! th = Some t0 →
    ∃ t m, T t ∧ th = token_get_hash t ∧ m ∈ K ∧ m.(m_hash) = t.(tok_node_hash) ∧ held w r m.(m_hash) = None;
}.

Lemma held_hash K w r h n : custody K w → held w r h = Some n → n.(node_hash) = h ∧ wf_node n.
Proof.
  intros Hc. unfold held. destruct (peers w !! r) as [p|] eqn:Hp; [|done]. cbn. intros Hn.
  destruct (c_peers _ _ Hc _ _ Hp) as (_ & _ & Hinv). destruct (InMemory.inv_nodes _ Hinv _ _ Hn). done.
Qed.

Lemma custody_init : custody [] (mkWorld ∅ ∅ [] [] []).
Proof.
  split; try (by intros ? ?%elem_of_nil); try (by intros ? ? ?%elem_of_nil); try (by intros ? ? _ ?%elem_of_nil);
    unfold held; cbn;
    try (by intros *; rewrite lookup_empty).
Qed.

(** [w'] has the peers of [w], with other stores. *)
Definition same_peers w w' : Prop :=
  (∀ id, ident <$> w'.(peers) !! id = ident <$> w.(peers) !! id) ∧
  (∀ id p, w'.(peers) !! id = Some p → InMemory.inv p.(storage)).

Lemma same_peers_lookup w w' id p :
  same_peers w w' → w'.(peers) !! id = Some p → ∃ q, w.(peers) !! id = Some q ∧ ident q = ident p.
Proof.
  intros [Hs _] Hp. specialize (Hs id). rewrite Hp in Hs. symmetry in Hs.
  apply fmap_Some in Hs as (q & Hq & E). eauto.
Qed.

Lemma same_peers_registered w w' r : same_peers w w' → registered w' r ↔ registered w r.
Proof.
  intros [Hs _]. unfold registered. specialize (Hs r).
  by rewrite <-(fmap_is_Some ident), Hs, fmap_is_Some.
Qed.

Lemma same_peers_authentic w w' t : same_peers w w' → authentic w t → authentic w' t.
Proof.
  intros [Hs _] (o & sg & Ho & Hx & Hv). specialize (Hs (tok_originator_id t)). rewrite Ho in Hs.
  apply fmap_Some in Hs as (o' & Ho' & E). injection E as _ Hk _. exists o', sg. by rewrite <-Hk.
Qed.

Lemma same_peers_insert w w' r p p' :
  (∀ id q, w.(peers) !! id = Some q → InMemory.inv q.(storage)) →
  w'.(peers) = <[r := p']> w.(peers) → w.(peers) !! r = Some p → ident p' = ident p → InMemory.inv p'.(storage) →
  same_peers w w'.
Proof.
  intros Hall Hw' Hp Hid Hinv. split; intros id; rewrite Hw'; (destruct (decide (id = r)) as [->|];
    [rewrite lookup_insert_eq|rewrite lookup_insert_ne by done]); [rewrite Hp; cbn; by rewrite Hid|done|by intros q [= <-]|apply Hall].
Qed.

Lemma same_peers_ok K w w' id p :
  custody K w → same_peers w w' → w'.(peers) !! id = Some p →
  p.(peer_id) = id ∧ p.(online) = true ∧ InMemory.inv p.(storage).
Proof.
  intros Hc Hs Hp. destruct (same_peers_lookup _ _ _ _ Hs Hp) as (q & Hq & [= Hid _ Hon]).
  destruct (c_peers _ _ Hc _ _ Hq) as (? & ? & _). split; [congruence|]. split; [congruence|].
  by eapply (proj2 Hs).
Qed.

(** ** A new node enters the stores of its holders

    [g] is what the call does to the nodes already stored. *)
Record adds K w w' (c : CoCNode) (g : string → CoCNode → CoCNode) : Prop := {
  ad_peers : same_peers w w';
  ad_flight : w'.(in_flight) = w.(in_flight);
  ad_caches : w'.(token_caches) = w.(token_caches);
  ad_audit a h : issue_event a h ∈ w'.(NetworkSim.audit_log) ↔ issue_event a h ∈ w.(NetworkSim.audit_log);
  ad_held r h : held w' r h =
    if decide (h = c.(node_hash) ∧ holder (made_of c) r) then Some c else g h <$> held w r h;
  ad_keeps h n : made_of (g h n) = made_of n ∧ n.(children_hashes) ⊆ (g h n).(children_hashes);
  ad_known r : holder (made_of c) r → registered w r;
  ad_fresh m : m ∈ K → m.(m_hash) ≠ c.(node_hash);
  ad_parent h : parent_of c = Some h →
    ∃ n, held w c.(owner_id) h = Some n ∧ c.(node_hash) ∈ (g h n).(children_hashes);
}.

Lemma adds_held_old K w w' c g r m : adds K w w' c g → m ∈ K →
  held w' r m.(m_hash) = g m.(m_hash) <$> held w r m.(m_hash).
Proof.
  intros Ha Hm. rewrite (ad_held _ _ _ _ _ Ha), decide_False; [done|]. intros [Heq _].
  by apply (ad_fresh _ _ _ _ _ Ha m).
Qed.

Lemma adds_held_inv K w w' c g r h n : custody K w → adds K w w' c g → held w' r h = Some n →
  (h = c.(node_hash) ∧ n = c ∧ holder (made_of c) r) ∨ ∃ n0, held w r h = Some n0 ∧ n = g h n0.
Proof.
  intros Hc Ha. rewrite (ad_held _ _ _ _ _ Ha). case_decide as Hd; [|by intros (n0 & ? & ->)%fmap_Some; eauto].
  intros [= <-]. left. tauto.
Qed.

(** The new node was not deleted before, and no node names it as its parent. *)
Lemma adds_new K w w' c g : custody K w → adds K w w' c g →
  ¬ requested w (made_of c) ∧ (∀ m, m ∈ K → m.(m_parent) ≠ Some c.(node_hash)) ∧
  ∀ h, parent_of c = Some h → h ≠ c.(node_hash).
Proof.
  intros Hc Ha. pose proof (ad_fresh _ _ _ _ _ Ha) as Hfr. split; [|split].
  - intros (m & Hm & Hh & _)%(c_requests _ _ Hc). by apply (Hfr m).
  - intros m Hm Hp. destruct (c_parent _ _ Hc m _ Hm Hp) as (m' & Hm' & Hh). by apply (Hfr m').
  - intros h Hp ->. destruct (ad_parent _ _ _ _ _ Ha _ Hp) as (n & Hn & _).
    destruct (held_hash _ _ _ _ _ Hc Hn) as [Hh _]. apply (c_held _ _ Hc) in Hn as [Hn _]. by apply (Hfr _ Hn).
Qed.

Lemma custody_add K w w' c g : custody K w → adds K w w' c g → custody (K ++ [made_of c]) w'.
Proof.
  intros Hc Ha. destruct (adds_new _ _ _ _ _ Hc Ha) as (Hnew & Hnp & Hcp).
  assert (∀ m, m ∈ K ++ [made_of c] ↔ m ∈ K ∨ m = made_of c) as HK.
  { intros m. by rewrite elem_of_app, list_elem_of_singleton. }
  assert (∀ m, requested w' m ↔ requested w m) as Hreq by (intros m; apply (ad_audit _ _ _ _ _ Ha)).
  assert (∀ m, m ∈ K → m.(m_hash) ≠ c.(node_hash)) as Hfr by apply (ad_fresh _ _ _ _ _ Ha).
  split.
  - intros id p. by apply (same_peers_ok K w), (ad_peers _ _ _ _ _ Ha).
  - intros r h n Hn. destruct (adds_held_inv _ _ _ _ _ _ _ _ Hc Ha Hn) as [(-> & -> & ?)|(n0 & Hn0 & ->)].
    + rewrite HK. auto.
    + rewrite (proj1 (ad_keeps _ _ _ _ _ Ha h n0)), HK. apply (c_held _ _ Hc) in Hn0. tauto.
  - intros m r Hm Hr. rewrite (same_peers_registered w w') by apply (ad_peers _ _ _ _ _ Ha).
    rewrite HK in Hm. destruct Hm as [Hm| ->]; [by apply (c_known _ _ Hc m)|by apply (ad_known _ _ _ _ _ Ha)].
  - intros m m'. rewrite !HK. intros [Hm| ->] [Hm'| ->] Heq; [by apply (c_unique _ _ Hc)| | |done].
    + by destruct (Hfr m Hm).
    + by destruct (Hfr m' Hm').
  - intros m h. setoid_rewrite HK. intros [Hm| ->] Hp.
    + destruct (c_parent _ _ Hc _ _ Hm Hp) as (m' & ? & ?). eauto.
    + destruct (ad_parent _ _ _ _ _ Ha _ Hp) as (n & Hn & _). destruct (held_hash _ _ _ _ _ Hc Hn) as [Hh _].
      apply (c_held _ _ Hc) in Hn as [Hn _]. eauto.
  - intros r h n m Hn. rewrite HK. intros Hm Hp Ho.
    destruct (adds_held_inv _ _ _ _ _ _ _ _ Hc Ha Hn) as [(-> & -> & ?)|(n0 & Hn0 & ->)].
    + destruct Hm as [Hm| ->]; [by destruct (Hnp m Hm)|by destruct (Hcp _ Hp)].
    + destruct Hm as [Hm| ->]; [by apply (ad_keeps _ _ _ _ _ Ha), (c_child _ _ Hc r h n0 m)|].
      destruct (ad_parent _ _ _ _ _ Ha _ Hp) as (n1 & Hn1 & Hin). cbn in Ho. rewrite Ho in Hn1. cbn. congruence.
  - intros m r. setoid_rewrite HK. setoid_rewrite Hreq. intros [Hm| ->] Hr.
    + rewrite (adds_held_old _ _ _ _ _ _ _ Ha Hm), fmap_None. intros Hnone.
      destruct (c_gone _ _ Hc m r Hm Hr Hnone) as [H1 H2]. split; [done|]. intros m' [Hm'| ->] Hp Ho; [by apply H2|].
      destruct (ad_parent _ _ _ _ _ Ha _ Hp) as (n1 & Hn1 & _). cbn in Ho. congruence.
    + cbn. rewrite (ad_held _ _ _ _ _ Ha), decide_True by done. done.
  - intros a h. rewrite (ad_audit _ _ _ _ _ Ha). intros (m & ? & ?)%(c_requests _ _ Hc). exists m. by rewrite HK; auto.
  - intros m r HU. rewrite HK, Hreq, (ad_flight _ _ _ _ _ Ha). intros [Hm| ->] Hrq Hr; [|done].
    rewrite (adds_held_old _ _ _ _ _ _ _ Ha Hm), fmap_is_Some. by apply (c_pending _ _ Hc).
  - intros msg. rewrite (ad_flight _ _ _ _ _ Ha). intros (t & m & ? & Hau & ? & ? & ? & ?)%(c_flight _ _ Hc).
    exists t, m. rewrite HK, Hreq. split; [done|]. split; [|by auto].
    by eapply same_peers_authentic; [apply (ad_peers _ _ _ _ _ Ha)|].
  - intros r cc th t0. rewrite (ad_caches _ _ _ _ _ Ha). intros Hl Hth.
    destruct (c_cache _ _ Hc _ _ _ _ Hl Hth) as (t & m & ? & ? & Hm & ? & Hnone). exists t, m.
    rewrite HK, (adds_held_old _ _ _ _ _ _ _ Ha Hm), Hnone. auto.
Qed.

(** ** Tokens are issued and delivered

    At most one node disappears, from the store of [slot.1] under [slot.2];
    tokens are issued for the nodes [cs] and sent to their recipients; under [U]
    what was in flight stays, unless its node is gone. *)
Record advances K w w' (slot : option (string * string)) (cs : list CoCNode) : Prop := {
  av_peers : same_peers w w';
  av_held r h : held w' r h = if decide (slot = Some (r, h)) then None else held w r h;
  av_audit a h : issue_event a h ∈ w'.(NetworkSim.audit_log) ↔
    issue_event a h ∈ w.(NetworkSim.audit_log) ∨ ∃ c, c ∈ cs ∧ c.(owner_id) = a ∧ c.(node_hash) = h;
  av_issued c : c ∈ cs → made_of c ∈ K;
  av_flight msg : msg ∈ w'.(in_flight) → msg ∈ w.(in_flight) ∨
    ∃ t c, msg.(msg_body_of) = DeletionTokenMsg t ∧ authentic w' t ∧ c ∈ cs ∧
      t.(tok_node_hash) = c.(node_hash) ∧ msg.(msg_recipient_id) ∈ c.(recipient_ids);
  av_kept msg r h : U → msg ∈ w.(in_flight) → carries msg r h → is_Some (held w' r h) →
    ∃ msg', msg' ∈ w'.(in_flight) ∧ carries msg' r h;
  av_sent c r : c ∈ cs → r ∈ c.(recipient_ids) → ∃ msg, msg ∈ w'.(in_flight) ∧ carries msg r c.(node_hash);
  av_caches r c th t0 : w'.(token_caches) !! r = Some c → c.(processed) !! th = Some t0 →
    (∃ c0 t1, w.(token_caches) !! r = Some c0 ∧ c0.(processed) !! th = Some t1) ∨
    ∃ t m, T t ∧ th = token_get_hash t ∧ m ∈ K ∧ m.(m_hash) = t.(tok_node_hash) ∧ held w' r m.(m_hash) = None;
  av_slot r h : slot = Some (r, h) →
    (∀ m, m ∈ K → m.(m_hash) = h → requested w' m) ∧
    ∀ m, m ∈ K → m.(m_parent) = Some h → m.(m_owner) = r → requested w' m;
}.

Lemma advances_held K w w' slot cs r h n : advances K w w' slot cs → held w' r h = Some n → held w r h = Some n.
Proof. intros Ha. rewrite (av_held _ _ _ _ _ Ha). by case_decide. Qed.

Lemma custody_advance K w w' slot cs : custody K w → advances K w w' slot cs → custody K w'.
Proof.
  intros Hc Ha.
  assert (∀ m, requested w m → requested w' m) as Hreq by (intros m; unfold requested; rewrite (av_audit _ _ _ _ _ Ha); auto).
  split; try apply Hc.
  - intros id p. by apply (same_peers_ok K w), (av_peers _ _ _ _ _ Ha).
  - intros r h n Hn%(advances_held _ _ _ _ _ _ _ _ Ha). by apply (c_held _ _ Hc r h).
  - intros m r. rewrite (same_peers_registered w w') by apply (av_peers _ _ _ _ _ Ha). apply (c_known _ _ Hc).
  - intros r h n m Hn%(advances_held _ _ _ _ _ _ _ _ Ha). by apply (c_child _ _ Hc).
  - intros m r Hm Hr. rewrite (av_held _ _ _ _ _ Ha). case_decide as Hslot.
    + intros _. destruct (av_slot _ _ _ _ _ Ha _ _ Hslot) as [H1 H2]. auto.
    + intros Hn. destruct (c_gone _ _ Hc m r Hm Hr Hn) as [H1 H2]. auto.
  - intros a h. rewrite (av_audit _ _ _ _ _ Ha). intros [?|(c & Hcs & <- & <-)]; [by apply (c_requests _ _ Hc)|].
    exists (made_of c). split; [by apply (av_issued _ _ _ _ _ Ha)|done].
  - intros m r HU Hm. unfold requested at 1. rewrite (av_audit _ _ _ _ _ Ha). intros [Hrq|(c & Hcs & _ & Hh)] Hr [n Hn].
    + destruct (c_pending _ _ Hc m r HU Hm Hrq Hr) as (msg & Hmsg & Hcar).
      { exists n. by eapply advances_held. }
      eapply (av_kept _ _ _ _ _ Ha); [done..|by exists n].
    + assert (m = made_of c) as -> by (apply (c_unique _ _ Hc); [done|by apply (av_issued _ _ _ _ _ Ha)|done]).
      by apply (av_sent _ _ _ _ _ Ha c r).
  - intros msg Hmsg. destruct (av_flight _ _ _ _ _ Ha _ Hmsg) as [Hold|(t & c & Hb & Hau & Hcs & Ht & Hr)].
    + destruct (c_flight _ _ Hc _ Hold) as (t & m & ? & Hau & ? & ? & ? & ?). exists t, m.
      split; [done|]. split; [|by auto]. by eapply same_peers_authentic; [apply (av_peers _ _ _ _ _ Ha)|].
    + exists t, (made_of c). split; [done|]. split; [done|]. split; [by apply (av_issued _ _ _ _ _ Ha)|].
      split; [done|]. split; [|done]. unfold requested. rewrite (av_audit _ _ _ _ _ Ha). right. eauto.
  - intros r c th t0 Hl Hth. destruct (av_caches _ _ _ _ _ Ha _ _ _ _ Hl Hth) as [(c0 & t1 & Hl0 & Hth0)|?]; [|done].
    destruct (c_cache _ _ Hc _ _ _ _ Hl0 Hth0) as (t & m & ? & ? & ? & ? & Hn). exists t, m.
    rewrite (av_held _ _ _ _ _ Ha), Hn. by case_decide.
Qed.

(** ** What the calls of the network do *)

(** Nothing changes but caches, notifications and other audit events. *)
Record quiet w w' : Prop := {
  q_peers : w'.(peers) = w.(peers);
  q_flight : w'.(in_flight) = w.(in_flight);
  q_audit a h : issue_event a h ∈ w'.(NetworkSim.audit_log) ↔ issue_event a h ∈ w.(NetworkSim.audit_log);
}.

#[global] Instance quiet_preorder : PreOrder quiet.
Proof.
  split; [done|]. intros w1 w2 w3 [P1 F1 A1] [P2 F2 A2]. split; [congruence|congruence|].
  intros a h. by rewrite A2, A1.
Qed.

Lemma quiet_log_event ty actor target details w :
  ty ≠ "DELETE_ISSUE" → quiet w (NetworkSim.log_event (St := InMemory.storage) ty actor target details w).2.
Proof.
  intros Hty. split; [done|done|]. intros a h. cbn. rewrite elem_of_app, list_elem_of_singleton. split; [|by left].
  intros [?|E]; [done|]. injection E as <- _ _ _. done.
Qed.

Lemma quiet_set_cache r c w : quiet w (set_cache r c w).
Proof. done. Qed.

Lemma quiet_notify n w : quiet w (notify (St := InMemory.storage) n w).2.
Proof. done. Qed.

Lemma quiet_held w w' r h : quiet w w' → held w' r h = held w r h.
Proof. intros [Hp _ _]. unfold held. by rewrite Hp. Qed.

(** The processed tokens after a guard: the earlier ones and this one. *)
Definition cache_grows w w' (r th : string) : Prop :=
  ∀ r' c' th' t', w'.(token_caches) !! r' = Some c' → c'.(processed) !! th' = Some t' →
    (∃ c t, w.(token_caches) !! r' = Some c ∧ c.(processed) !! th' = Some t) ∨ (r' = r ∧ th' = th).

Lemma maybe_cleanup_processed now c th t :
  (maybe_cleanup now c).(processed) !! th = Some t → c.(processed) !! th = Some t.
Proof. unfold maybe_cleanup. case_cmp; [done|]. cbn. by rewrite map_lookup_filter_Some; intros [? _]. Qed.

Lemma get_token_cache_run (now validity : Z) (r : string) w :
  ∃ c w1, get_token_cache validity now r w = (Ok c, w1) ∧ quiet w w1 ∧
    (∀ r', r' ≠ r → w1.(token_caches) !! r' = w.(token_caches) !! r') ∧
    ∀ th t, c.(processed) !! th = Some t → ∃ c0, w.(token_caches) !! r = Some c0 ∧ c0.(processed) !! th = Some t.
Proof.
  unfold get_token_cache, mbind, M_bind, gets. destruct (token_caches w !! r) as [c|] eqn:Hl.
  - exists c, w. split; [done|]. split; [done|]. split; [done|]. eauto.
  - eexists _, _. split; [reflexivity|]. split; [done|]. split; [|done].
    intros r' Hr'. cbn. by rewrite lookup_insert_ne.
Qed.

(** No token becomes processed. *)
Definition cache_kept w w' : Prop :=
  ∀ r c' th t', w'.(token_caches) !! r = Some c' → c'.(processed) !! th = Some t' →
    ∃ c t, w.(token_caches) !! r = Some c ∧ c.(processed) !! th = Some t.

(** A token passes and is recorded, or it is refused: expired, or processed
    before. *)
Lemma guard_token_cases (now validity : Z) (t : DeletionToken) (r : string) w :
  ∃ w', quiet w w' ∧
    (guard_token validity now t r w = (Ok (), w') ∧ cache_grows w w' r (token_get_hash t) ∨
     (∃ e, guard_token validity now t r w = (Raise e, w')) ∧ cache_kept w w' ∧
       (token_is_expired now validity t = true ∨
        ∃ c t0, w.(token_caches) !! r = Some c ∧ c.(processed) !! token_get_hash t = Some t0)).
Proof.
  destruct (get_token_cache_run now validity r w) as (c & w1 & Hget & Hq1 & Hc1 & Hold).
  assert (∀ c' w2, (∀ th t', c'.(processed) !! th = Some t' → c.(processed) !! th = Some t') →
    w2.(token_caches) = <[r := c']> w1.(token_caches) → cache_kept w w2) as Hkept.
  { intros c' w2 Hc' Hw2 r' c2 th' t'. rewrite Hw2, lookup_insert_Some. intros [[<- <-]|[Hne Hl]] Hth.
    - apply Hc', Hold in Hth as (c0 & ? & ?). eauto.
    - rewrite Hc1 in Hl by done. eauto. }
  destruct (guard_token validity now t r w) as [res w'] eqn:E. exists w'. revert E.
  unfold guard_token, mbind, M_bind. rewrite Hget. unfold token_guard, is_processed.
  assert (∀ d, quiet w (NetworkSim.log_event "DELETE_FAIL" r ("Node: " +:+ tok_node_hash t) d
    (set_cache r (maybe_cleanup now c) w1)).2) as Hq2.
  { intros d. etrans; [exact Hq1|]. etrans; [apply (quiet_set_cache r (maybe_cleanup now c))|].
    by apply (quiet_log_event "DELETE_FAIL" r ("Node: " +:+ tok_node_hash t) d). }
  destruct (processed (maybe_cleanup now c) !! token_get_hash t) as [t0|] eqn:Hseen.
  - rewrite bool_decide_eq_true_2 by done. cbn. intros [= <- <-]. split; [apply (Hq2 "Replay attack detected")|right].
    split; [by eexists|]. split; [|right].
    + eapply Hkept; [|reflexivity]. intros th t' ?%maybe_cleanup_processed. done.
    + apply maybe_cleanup_processed, Hold in Hseen as (c0 & ? & ?). eauto.
  - rewrite bool_decide_eq_false_2 by (by intros []). destruct (token_is_expired now validity t).
    + cbn. intros [= <- <-]. split; [apply (Hq2 "Token expired")|right]. split; [by eexists|]. split; [|by left].
      eapply Hkept; [|reflexivity]. intros th t' ?%maybe_cleanup_processed. done.
    + cbn. intros [= <- <-]. split; [etrans; [exact Hq1|]; apply quiet_set_cache|left]. split; [done|].
      intros r' c2 th' t'. cbn. rewrite lookup_insert_Some. intros [[<- <-]|[Hne Hl]] Hth.
      * apply maybe_cleanup_processed in Hth. cbn in Hth. rewrite lookup_insert_Some in Hth. destruct Hth as [[<- _]|[_ (c0 & ? & ?)%maybe_cleanup_processed%Hold]]; [by right|left; eauto].
      * rewrite Hc1 in Hl by done. left. eauto.
Qed.

(** Tokens for [node] to all its recipients. *)
Definition token_for (now : Z) (nonce_of : string → string) (p : Peer InMemory.storage) (node : CoCNode)
    : DeletionToken :=
  token_sign p.(signing_key)
    (mkToken node.(node_hash) p.(peer_id) (nonce_of node.(node_hash)) (isoformat now) "").
Definition messages_for (now : Z) (nonce_of : string → string) (self : string) (p : Peer InMemory.storage)
    (node : CoCNode) : list Message :=
  (λ r, mkMessage self r (DeletionTokenMsg (token_for now nonce_of p node))) <$> node.(recipient_ids).

(** [w] with more issue events and more messages in flight. *)
Definition issued_more (events : list audit_event) (msgs : list Message) w : world_t :=
  mkWorld w.(peers) w.(token_caches) (w.(NetworkSim.audit_log) ++ events) w.(notifications) (w.(in_flight) ++ msgs).

Definition all_online w (rs : list string) : Prop :=
  Forall (λ r, ∃ p, w.(peers) !! r = Some p ∧ p.(online) = true) rs.

Lemma send_all now self b rs w :
  all_online w rs →
  for_each rs (λ r, send_message now self r b) w = (Ok (), issued_more [] ((λ r, mkMessage self r b) <$> rs) w).
Proof.
  intros Hon. revert w Hon. induction rs as [|r rs IH]; intros w Hon.
  - unfold issued_more. cbn. rewrite !app_nil_r. by destruct w.
  - apply Forall_cons in Hon as [(p & Hp & Hon) Hrs]. cbn [for_each]. unfold mbind, M_bind at 1.
    unfold send_message at 1, route_message, mbind, M_bind, gets, find_peer. cbn [msg_recipient_id]. rewrite Hp, Hon. cbn.
    rewrite IH by exact Hrs. unfold issued_more. cbn. by rewrite !app_nil_r, <-!app_assoc.
Qed.

Lemma initiate_run now nonce_of self p node w :
  w.(peers) !! self = Some p → p.(peer_id) = self → node.(owner_id) = self → all_online w node.(recipient_ids) →
  initiate_deletion now nonce_of self node w =
    (Ok (), issued_more [issue_event self node.(node_hash)] (messages_for now nonce_of self p node) w).
Proof.
  intros Hp Hid Ho Hon. unfold initiate_deletion, mbind, M_bind, NetworkSim.get_peer. rewrite Hp. cbn.
  unfold issue_token. rewrite decide_False by (rewrite Hid; tauto). unfold mbind, M_bind. cbn.
  rewrite send_all by exact Hon. unfold issued_more, messages_for, token_for. cbn. by rewrite Hid, app_nil_r.
Qed.

Lemma initiate_all now nonce_of self p nodes w :
  w.(peers) !! self = Some p → p.(peer_id) = self →
  (∀ n, n ∈ nodes → n.(owner_id) = self ∧ all_online w n.(recipient_ids)) →
  for_each nodes (initiate_deletion now nonce_of self) w =
    (Ok (), issued_more ((λ n, issue_event self n.(node_hash)) <$> nodes)
              (concat (messages_for now nonce_of self p <$> nodes)) w).
Proof.
  intros Hp Hid. revert w Hp. induction nodes as [|n nodes IH]; intros w Hp Hn.
  - unfold issued_more. cbn. rewrite !app_nil_r. by destruct w.
  - cbn [for_each]. unfold mbind, M_bind at 1. destruct (Hn n) as [Ho Hon]; [by left|].
    rewrite (initiate_run now nonce_of self p) by done. cbn.
    rewrite IH; [|done|intros m Hm; apply Hn; by right]. unfold issued_more. cbn. by rewrite <-!app_assoc.
Qed.

(** Everyone a node was made for can be reached. *)
Lemma made_online K w w' c : custody K w → same_peers w w' → made_of c ∈ K → all_online w' c.(recipient_ids).
Proof.
  intros Hc Hs Hk. apply Forall_forall. intros r Hr.
  assert (registered w' r) as [p Hp].
  { apply (same_peers_registered w w' r Hs), (c_known _ _ Hc _ _ Hk). by right. }
  exists p. split; [done|]. by eapply same_peers_ok.
Qed.

(** What holds when the tokens are about to be issued. *)
Record prepared K w w' (slot : option (string * string)) : Prop := {
  pp_peers : same_peers w w';
  pp_held r h : held w' r h = if decide (slot = Some (r, h)) then None else held w r h;
  pp_audit a h : issue_event a h ∈ w'.(NetworkSim.audit_log) ↔ issue_event a h ∈ w.(NetworkSim.audit_log);
  pp_flight msg : msg ∈ w'.(in_flight) → msg ∈ w.(in_flight);
  pp_kept msg r h : U → msg ∈ w.(in_flight) → carries msg r h → is_Some (held w' r h) → msg ∈ w'.(in_flight);
  pp_caches r c th t0 : w'.(token_caches) !! r = Some c → c.(processed) !! th = Some t0 →
    (∃ c0 t1, w.(token_caches) !! r = Some c0 ∧ c0.(processed) !! th = Some t1) ∨
    ∃ t m, T t ∧ th = token_get_hash t ∧ m ∈ K ∧ m.(m_hash) = t.(tok_node_hash) ∧ held w' r m.(m_hash) = None;
}.

Lemma elem_of_messages now nonce_of self p cs msg :
  msg ∈ concat (messages_for now nonce_of self p <$> cs) ↔
  ∃ c r, c ∈ cs ∧ r ∈ c.(recipient_ids) ∧ msg = mkMessage self r (DeletionTokenMsg (token_for now nonce_of p c)).
Proof.
  rewrite list_elem_of_In, List.in_concat. setoid_rewrite <-list_elem_of_In. setoid_rewrite list_elem_of_fmap.
  split.
  - intros (l & (c & -> & Hc) & Hm). apply list_elem_of_fmap in Hm as (r & -> & Hr). eauto.
  - intros (c & r & Hc & Hr & ->). eexists. split; [eauto|]. apply list_elem_of_fmap. eauto.
Qed.

Lemma issue_event_inj a h a' h' : issue_event a h = issue_event a' h' → a = a' ∧ h = h'.
Proof. unfold issue_event. intros E. injection E as -> H. split; [done|]. exact H. Qed.

Context {L : CryptoLaws C}.

Lemma token_for_authentic now nonce_of w self p c :
  w.(peers) !! self = Some p → p.(peer_id) = self → authentic w (token_for now nonce_of p c).
Proof.
  intros Hp Hid. exists p. eexists. cbn. rewrite Hid. split; [done|].
  split; [apply fromhex_hex_of, sign_bytes|]. rewrite <-Hid. apply verify_sign.
Qed.

Lemma advances_issue K w w' slot cs now nonce_of self p :
  prepared K w w' slot → w'.(peers) !! self = Some p → p.(peer_id) = self →
  (∀ c, c ∈ cs → made_of c ∈ K ∧ c.(owner_id) = self) →
  let w2 := issued_more ((λ n, issue_event self n.(node_hash)) <$> cs)
              (concat (messages_for now nonce_of self p <$> cs)) w' in
  (∀ r h, slot = Some (r, h) →
    (∀ m, m ∈ K → m.(m_hash) = h → requested w2 m) ∧
    ∀ m, m ∈ K → m.(m_parent) = Some h → m.(m_owner) = r → requested w2 m) →
  advances K w w2 slot cs.
Proof.
  intros Hpr Hp Hid Hcs w2 Hslot. split.
  - apply (pp_peers _ _ _ _ Hpr).
  - apply (pp_held _ _ _ _ Hpr).
  - intros a h. cbn. rewrite elem_of_app, (pp_audit _ _ _ _ Hpr), list_elem_of_fmap. f_equiv. split.
    + intros (c & [-> ->]%issue_event_inj & Hc). exists c. split; [done|]. split; [by apply Hcs|done].
    + intros (c & Hc & <- & <-). exists c. by rewrite (proj2 (Hcs c Hc)).
  - intros c Hc. by apply Hcs.
  - intros msg. cbn. rewrite elem_of_app, elem_of_messages. intros [?%(pp_flight _ _ _ _ Hpr)|(c & r & Hc & Hr & ->)]; [auto|].
    right. exists (token_for now nonce_of p c), c. split; [done|]. split; [by eapply token_for_authentic|done].
  - intros msg r h HU Hm Hcar Hs. exists msg. split; [|done]. cbn. rewrite elem_of_app. left.
    by eapply (pp_kept _ _ _ _ Hpr).
  - intros c r Hc Hr. exists (mkMessage self r (DeletionTokenMsg (token_for now nonce_of p c))). split.
    + cbn. rewrite elem_of_app, elem_of_messages. right. eauto.
    + split; [done|]. by eexists.
  - apply (pp_caches _ _ _ _ Hpr).
  - exact Hslot.
Qed.

Lemma advances_nil K w w' : prepared K w w' None → advances K w w' None [].
Proof.
  intros [Hs Hh Hau Hfl Hk Hca]. split; try done.
  - intros a h. rewrite Hau. split; [by left|]. intros [?|(c & []%elem_of_nil & _)]; done.
  - by intros c ?%elem_of_nil.
  - intros msg. left. auto.
  - intros msg r h HU Hm Hc Hsome. eauto.
  - by intros c r ?%elem_of_nil.
Qed.

Lemma own_children_spec r (st : InMemory.storage) n :
  ∃ cs, own_children r st n = Ok cs ∧
    ∀ c, c ∈ cs ↔ c.(owner_id) = r ∧ ∃ h, h ∈ n.(children_hashes) ∧ st.(InMemory.nodes) !! h = Some c.
Proof.
  unfold own_children. rewrite (mapR_Ok_fmap _ (λ h, st.(InMemory.nodes) !! h)) by done. cbn.
  eexists. split; [reflexivity|]. intros c. rewrite list_elem_of_filter, list_elem_of_omap. f_equiv.
  setoid_rewrite list_elem_of_fmap. split.
  - intros (o & (h & -> & Hh) & Ho). exists h. by rewrite <-elem_of_elements.
  - intros (h & Hh & Ho). exists (Some c). split; [|done]. exists h. by rewrite elem_of_elements.
Qed.

Lemma delete_node_rest grace now token r n w :
  let w' := (delete_node grace now token r n w).2 in
  w'.(in_flight) = w.(in_flight) ∧ w'.(token_caches) = w.(token_caches) ∧
  w'.(NetworkSim.audit_log) = w.(NetworkSim.audit_log).
Proof.
  unfold delete_node, update_storage, mbind, M_bind, NetworkSim.get_peer, modify, lift. cbn.
  destruct (from_option_exn _ _) as [p|]; [|done]. destruct (InMemory.is_content_referenced _ _); [done|]. cbn.
  by destruct (add_seconds now grace).
Qed.

(** The deletion of [n] from the store of [r]. *)
Lemma delete_node_held grace now token r n w p :
  0 ≤ now → 0 ≤ now + grace * 1000000 < max_datetime →
  w.(peers) !! r = Some p → InMemory.inv p.(storage) → p.(storage).(InMemory.nodes) !! n.(node_hash) = Some n →
  ∃ w' p', delete_node grace now token r n w = (Ok (), w') ∧
    w'.(peers) = <[r := p']> w.(peers) ∧ ident p' = ident p ∧ InMemory.inv p'.(storage) ∧
    p'.(storage).(InMemory.nodes) = delete n.(node_hash) p.(storage).(InMemory.nodes) ∧
    w'.(in_flight) = w.(in_flight) ∧ w'.(token_caches) = w.(token_caches) ∧
    w'.(NetworkSim.audit_log) = w.(NetworkSim.audit_log).
Proof.
  intros Hnow Hgrace Hp Hinv Hn.
  destruct (delete_node_spec (SS := InMemory.spec) grace now token r n w p Hnow Hgrace Hp Hinv) as (w' & st' & Hrun & Hpeers & Hinv' & [Hd _]).
  pose proof (delete_node_rest grace now token r n w) as Hf. rewrite Hrun in Hf.
  exists w', (set_storage st' p). split; [done|]. split; [done|]. split; [done|]. split; [done|]. split; [exact Hd|exact Hf].
Qed.

(** ** A delivery

    Under [U] no two delivered tokens for different nodes have the same hash. *)
Context (HU : U → ∀ t t', T t → T t' → token_get_hash t = token_get_hash t' → t.(tok_node_hash) = t'.(tok_node_hash)).

(** [w] without the message that is being delivered. *)
Definition without w (rest : list Message) : world_t :=
  mkWorld w.(peers) w.(token_caches) w.(NetworkSim.audit_log) w.(notifications) rest.

(** A message with a token of this time. *)
Definition fresh_token (now : Z) (msg : Message) : Prop :=
  ∃ t, msg.(msg_body_of) = DeletionTokenMsg t ∧ t.(tok_timestamp) = isoformat now.

(** A delivery that leaves [rest] under way: a stored node disappears, or
    nothing is sent. *)
Record spends (now : Z) w w' (rest : list Message) (slot : option (string * string)) : Prop := {
  sp_idle : slot = None → w'.(in_flight) = rest;
  sp_slot r h : slot = Some (r, h) → is_Some (held w r h);
  sp_sent msg : msg ∈ w'.(in_flight) → msg ∈ rest ∨ fresh_token now msg;
}.

Lemma spends_idle now w w' rest : w'.(in_flight) = rest → spends now w w' rest None.
Proof. intros <-. split; [done|done|by left]. Qed.

Section deliver.
Context K w (Hc : custody K w) (before after : list Message) (msg : Message) (t : DeletionToken) (m : Made).
Context (Hflight : w.(in_flight) = before ++ msg :: after) (Hbody : msg.(msg_body_of) = DeletionTokenMsg t).
Context (Hm : m ∈ K) (Hhash : m.(m_hash) = t.(tok_node_hash)) (Hreq : requested w m).
#[local] Abbreviation r := msg.(msg_recipient_id).
Context (Hr : r ∈ m.(m_recipients)) (HT : T t).

(** After the guard, when under [U] [m] is no longer stored at the recipient. *)
Lemma prepared_deliver w1 slot :
  same_peers w w1 → (∀ r' h, held w1 r' h = if decide (slot = Some (r', h)) then None else held w r' h) →
  (∀ a h, issue_event a h ∈ w1.(NetworkSim.audit_log) ↔ issue_event a h ∈ w.(NetworkSim.audit_log)) →
  w1.(in_flight) = before ++ after → (U → held w1 r m.(m_hash) = None) →
  (cache_kept w w1 ∨ cache_grows w w1 r (token_get_hash t) ∧ held w1 r m.(m_hash) = None) → prepared K w w1 slot.
Proof.
  intros Hs Hh Ha Hf Hnone Hca. split; [done|done|done|..].
  - intros msg'. rewrite Hf, Hflight. set_solver.
  - intros msg' r' h Hu. rewrite Hf, Hflight. rewrite !elem_of_app, elem_of_cons.
    intros [?|[->|?]] (Hr' & t' & Hb & Ht') Hsome; [by left| |by right]. exfalso.
    rewrite Hbody in Hb. injection Hb as <-. rewrite <-Ht', <-Hhash, <-Hr', (Hnone Hu) in Hsome. by destruct Hsome.
  - intros r' c th t0 Hl Hth. destruct Hca as [Hca|[Hca Hn]]; [left; by eapply Hca|].
    destruct (Hca _ _ _ _ Hl Hth) as [?|[-> ->]]; [by left|]. right. by exists t, m.
Qed.

(** The children to delete are stored, and were made by the recipient. *)
Lemma own_children_made p n cs :
  w.(peers) !! r = Some p → own_children r p.(storage) n = Ok cs →
  (∀ c, c ∈ cs → made_of c ∈ K ∧ c.(owner_id) = r) ∧
  ∀ m', m' ∈ K → m'.(m_owner) = r → m'.(m_hash) ∈ n.(children_hashes) → (∃ c, c ∈ cs ∧ made_of c = m') ∨ requested w m'.
Proof.
  intros Hp Hcs. destruct (own_children_spec r p.(storage) n) as (cs' & Hcs' & Hin).
  rewrite Hcs' in Hcs. injection Hcs as ->.
  assert (∀ h c, p.(storage).(InMemory.nodes) !! h = Some c → held w r h = Some c) as Hheld
    by (intros h c; unfold held; by rewrite Hp).
  split.
  - intros c (Ho & h & _ & Hh)%Hin. split; [|done]. by apply Hheld, (c_held _ _ Hc) in Hh as [? _].
  - intros m' Hm' Ho Hch. destruct (held w r (m_hash m')) as [c|] eqn:Hd.
    + destruct (held_hash _ _ _ _ _ Hc Hd) as [Hch' _]. destruct (c_held _ _ Hc _ _ _ Hd) as [Hk _].
      assert (made_of c = m') as <- by (by apply (c_unique _ _ Hc)). left. exists c. split; [|done].
      apply Hin. split; [done|]. eexists. split; [exact Hch|]. unfold held in Hd. by rewrite Hp in Hd.
    + right. destruct (c_gone _ _ Hc m' r) as [? _]; [done|by left|done|done].
Qed.

(** The guarded end of [process_token], at a recipient that stores the node. *)
Lemma commit_advances grace now nonce_of w1 p n cs :
  0 ≤ now → 0 ≤ now + grace * 1000000 < max_datetime →
  quiet (without w (before ++ after)) w1 → cache_grows w w1 r (token_get_hash t) →
  w1.(peers) !! r = Some p → p.(storage).(InMemory.nodes) !! m.(m_hash) = Some n →
  own_children r p.(storage) n = Ok cs →
  ∀ w', w' = (commit_deletion grace now nonce_of t r n cs w1).2 →
  advances K w w' (Some (r, m.(m_hash))) cs ∧ spends now w w' (before ++ after) (Some (r, m.(m_hash))).
Proof.
  intros Hnow Hgrace Hq Hca Hp Hn Hcs.
  assert (w.(peers) !! r = Some p) as Hp0 by (by rewrite (q_peers _ _ Hq) in Hp).
  destruct (c_peers _ _ Hc _ _ Hp0) as (Hid & Hon & Hinv).
  destruct (InMemory.inv_nodes _ Hinv _ _ Hn) as [_ Hnh].
  destruct (delete_node_held grace now t r n w1 p Hnow Hgrace Hp Hinv) as
    (w2 & p' & Hrun & Hpeers & Hident & Hinv' & Hnodes & Hfl & Hcaches & Haudit); [by rewrite Hnh|].
  rewrite (q_peers _ _ Hq) in Hpeers. cbn [without peers] in Hpeers. assert (p'.(peer_id) = p.(peer_id)) as Hid' by (unfold ident in Hident; congruence).
  rewrite (q_flight _ _ Hq) in Hfl. cbn [without in_flight] in Hfl.
  destruct (own_children_made p n cs Hp0 Hcs) as [Hcs1 Hcs2].
  intros w'. unfold commit_deletion. unfold mbind at 1, M_bind at 1. rewrite Hrun.
  unfold mbind at 1, M_bind at 1. cbn [NetworkSim.log_event modify].
  unfold mbind at 1, M_bind at 1. cbn [notify modify]. unfold mbind at 1, M_bind at 1.
  set (w3 := mkWorld _ _ _ _ _).
  assert (same_peers w w3) as Hsame.
  { apply (same_peers_insert w w3 r p p'); [|done|done|done|done]. intros id q Hq0. by apply (c_peers _ _ Hc id). }
  assert (∀ a h, issue_event a h ∈ w3.(NetworkSim.audit_log) ↔ issue_event a h ∈ w.(NetworkSim.audit_log)) as Haud.
  { intros a h. rewrite <-(q_audit _ _ Hq : ∀ a h, _ ↔ issue_event a h ∈ w.(NetworkSim.audit_log)), <-Haudit.
    apply (q_audit _ _ (quiet_log_event "DELETE_SUCCESS" r ("Node: " +:+ node_hash n) "" w2 ltac:(done))). }
  assert (∀ r' h, held w3 r' h = if decide (Some (r, m.(m_hash)) = Some (r', h)) then None else held w r' h) as Hheld.
  { intros r' h. unfold held, w3. cbn. rewrite Hpeers. destruct (decide (r' = r)) as [->|Hne].
    - rewrite lookup_insert_eq, Hp0. cbn. rewrite Hnodes, Hnh. case_decide as E; [injection E as <-; apply lookup_delete_eq|].
      apply lookup_delete_ne. congruence.
    - rewrite lookup_insert_ne by done. rewrite decide_False; [done|]. congruence. }
  rewrite (initiate_all now nonce_of r p'); [|unfold w3; cbn; by rewrite Hpeers, lookup_insert_eq|congruence|].
  2: { intros c Hcc. split; [by apply Hcs1|]. apply (made_online K w); [done|done|by apply Hcs1]. }
  intros ->. split; cycle 1.
  { split; [done| |].
    - intros r' h [= <- <-]. unfold held. rewrite Hp0. by exists n.
    - intros msg'. unfold w3. cbn. rewrite Hfl, elem_of_app, elem_of_messages. intros [?|(c & r' & _ & _ & ->)]; [by left|].
      right. by eexists. }
  apply advances_issue; [|unfold w3; cbn; by rewrite Hpeers, lookup_insert_eq|congruence|done|].
  - apply prepared_deliver; [done|done|done|done|by rewrite Hheld, decide_True|right].
    split; [|by rewrite Hheld, decide_True]. intros r' c' th t'. unfold w3. cbn. rewrite Hcaches. apply Hca.
  - intros r' h [= <- <-]. cbv zeta. split.
    + intros m' Hm' Heq. assert (m' = m) as -> by (by apply (c_unique _ _ Hc)).
      unfold requested, issued_more. cbn [NetworkSim.audit_log]. rewrite elem_of_app. left. by apply Haud.
    + intros m' Hm' Hpar Ho. unfold requested, issued_more. cbn [NetworkSim.audit_log].
      rewrite elem_of_app, Haud, list_elem_of_fmap.
      destruct (Hcs2 m' Hm' Ho) as [(c & Hcin & <-)|?]; [|right|by left].
      * eapply (c_child _ _ Hc); [|done|exact Hpar|done]. unfold held. by rewrite Hp0.
      * exists c. cbn in Ho |- *. by rewrite Ho.
Qed.

Lemma quiet_same_peers w0 w1 : w0.(peers) = w.(peers) → quiet w0 w1 → same_peers w w1.
Proof.
  intros Hw0 Hq. split; intros id; rewrite (q_peers _ _ Hq), Hw0; [done|]. intros p Hp. by apply (c_peers _ _ Hc id).
Qed.

Lemma token_delivery grace now nonce_of :
  0 ≤ now → 0 ≤ now + grace * 1000000 < max_datetime →
  (U → token_is_expired now TOKEN_VALIDITY_SECONDS t = false) → authentic w t →
  ∀ w', w' = (process_token TOKEN_VALIDITY_SECONDS grace now nonce_of t r (without w (before ++ after))).2 →
  ∃ slot cs, advances K w w' slot cs ∧ spends now w w' (before ++ after) slot.
Proof.
  intros Hnow Hgrace Hexp (o & sg & Ho & Hx & Hv). set (w0 := without w (before ++ after)).
  destruct (guard_token_cases now TOKEN_VALIDITY_SECONDS t r w0) as (w1 & Hq & Hguard).
  assert ((U → held w r m.(m_hash) = None) →
    (cache_kept w w1 ∨ cache_grows w w1 r (token_get_hash t) ∧ held w r m.(m_hash) = None) →
    ∃ slot cs, advances K w w1 slot cs ∧ spends now w w1 (before ++ after) slot) as Hdone.
  { intros Hnone Hca. exists None, []. split; [|apply spends_idle; by rewrite (q_flight _ _ Hq)].
    apply advances_nil, prepared_deliver; [by apply (quiet_same_peers w0 w1)| | |by rewrite (q_flight _ _ Hq)|..].
    - intros r' h. by rewrite (quiet_held _ _ _ _ Hq), decide_False.
    - intros a h. by rewrite (q_audit _ _ Hq).
    - by rewrite (quiet_held _ _ _ _ Hq).
    - by rewrite (quiet_held _ _ _ _ Hq). }
  destruct (c_known _ _ Hc m r Hm (or_intror Hr)) as [p Hp].
  intros w'. unfold process_token. unfold mbind at 1, M_bind at 1.
  destruct Hguard as [[Hguard Hca]|([e Hguard] & Hca & Hwhy)]; rewrite Hguard; cycle 1.
  { intros ->. apply Hdone; [|by left]. intros Hu. destruct Hwhy as [Hlate|(c & t0 & Hl & Hth)].
    - by rewrite (Hexp Hu) in Hlate.
    - destruct (c_cache _ _ Hc _ _ _ _ Hl Hth) as (t' & m' & HT' & Heq & Hm' & Ht' & Hnone).
      assert (m = m') as ->; [|done]. apply (c_unique _ _ Hc); [done..|]. rewrite Hhash, Ht'. by apply HU. }
  unfold mbind at 1, M_bind at 1, gets at 1, NetworkSim.find_peer. rewrite (q_peers _ _ Hq).
  cbn [w0 without peers]. rewrite Ho. unfold mbind at 1, M_bind at 1, lift at 1. rewrite Hx, Hv. cbn [negb].
  unfold mbind at 1, M_bind at 1, NetworkSim.get_peer. rewrite (q_peers _ _ Hq). cbn [w0 without peers].
  rewrite Hp. cbn [from_option_exn]. unfold mbind at 1, M_bind at 1, lift at 1. cbn [Storage.get_node InMemory.backend].
  unfold InMemory.get_node. rewrite <-Hhash.
  destruct (InMemory.nodes (storage p) !! m_hash m) as [n|] eqn:Hn; cycle 1.
  { assert (held w r m.(m_hash) = None) as Hnone by (unfold held; by rewrite Hp).
    intros ->. apply Hdone; [done|by right]. }
  unfold mbind at 1, M_bind at 1, lift at 1. destruct (own_children_spec r (storage p) n) as (cs & Hcs & _). rewrite Hcs.
  intros Hw'. exists (Some (r, m.(m_hash))), cs. apply (commit_advances grace now nonce_of w1 p n cs); try done.
  by rewrite (q_peers _ _ Hq).
Qed.
End deliver.

Lemma deliver_advances K w grace now nonce_of before msg after :
  custody K w → w.(in_flight) = before ++ msg :: after →
  0 ≤ now → 0 ≤ now + grace * 1000000 < max_datetime →
  (∀ t, msg.(msg_body_of) = DeletionTokenMsg t →
     T t ∧ (U → token_is_expired now TOKEN_VALIDITY_SECONDS t = false)) →
  let w' := (receive_message TOKEN_VALIDITY_SECONDS grace now nonce_of msg.(msg_recipient_id) msg
    (without w (before ++ after))).2 in
  ∃ slot cs, advances K w w' slot cs ∧ spends now w w' (before ++ after) slot.
Proof.
  intros Hc Hf Hnow Hgrace Hexp. destruct (c_flight _ _ Hc msg) as (t & m & Hb & Hau & Hm & Hh & Hreq & Hr).
  { rewrite Hf. set_solver. }
  destruct (Hexp t Hb) as [HT Ht].
  destruct (token_delivery K w Hc before after msg t m Hf Hb Hm Hh Hreq Hr HT grace now nonce_of Hnow Hgrace Ht Hau _ eq_refl)
    as (slot & cs & Ha).
  cbv zeta. exists slot, cs. unfold receive_message. rewrite Hb. unfold mbind, M_bind.
  by destruct (process_token _ _ _ _ _ _ _) as [[]].
Qed.

(** ** The state of the server *)

Implicit Types (s : Api).

Definition w_of s : world_t := (get_engine s).(world).

(** Every copy of a node is the same object, no object is a copy of two nodes,
    and every node carries a signature of its owner. *)
Record shared s : Prop := {
  sh_object r h n : held (w_of s) r h = Some n → ∃ o, s.(objects) !! (r, h) = Some o ∧ (o < s.(next_object))%nat;
  sh_same r r' h n n' : held (w_of s) r h = Some n → held (w_of s) r' h = Some n' →
    n = n' ∧ s.(objects) !! (r, h) = s.(objects) !! (r', h);
  sh_apart r r' h h' n n' o : held (w_of s) r h = Some n → held (w_of s) r' h' = Some n' →
    s.(objects) !! (r, h) = Some o → s.(objects) !! (r', h') = Some o → h = h';
  sh_signed r h n : held (w_of s) r h = Some n →
    ∃ p, (w_of s).(peers) !! n.(owner_id) = Some p ∧ verify_node n (verify_key p.(signing_key)) = true;
}.

Definition api_inv s : Prop := custody (made s) (w_of s) ∧ shared s.

Lemma signed_same_peers w w' n k :
  same_peers w w' → (∃ p, w.(peers) !! k = Some p ∧ verify_node n (verify_key p.(signing_key)) = true) →
  ∃ p, w'.(peers) !! k = Some p ∧ verify_node n (verify_key p.(signing_key)) = true.
Proof.
  intros [Hs _] (p & Hp & Hv). specialize (Hs k). rewrite Hp in Hs.
  apply fmap_Some in Hs as (p' & Hp' & E). injection E as _ Hk _. exists p'. by rewrite <-Hk.
Qed.

Lemma shared_advance s s' K slot cs :
  shared s → s'.(objects) = s.(objects) → s'.(next_object) = s.(next_object) →
  advances K (w_of s) (w_of s') slot cs → shared s'.
Proof.
  intros [Ho Hsa Hap Hsi] Eo En Ha. pose proof (λ r h n, advances_held _ _ _ _ _ r h n Ha) as Hh.
  split; rewrite ?Eo, ?En; [eauto..|]. intros r h n Hn%Hh%Hsi.
  by apply (signed_same_peers _ _ _ _ (av_peers _ _ _ _ _ Ha)).
Qed.

(** A new object in the slots of its holders. *)
Lemma shared_add s s' c g :
  custody (made s) (w_of s) → shared s → adds (made s) (w_of s) (w_of s') c g →
  (∀ r h, s'.(objects) !! (r, h) =
    if decide (h = c.(node_hash) ∧ holder (made_of c) r) then Some s.(next_object) else s.(objects) !! (r, h)) →
  s'.(next_object) = S s.(next_object) →
  (∀ h n k, verify_node (g h n) k = verify_node n k) →
  (∃ p, (w_of s).(peers) !! c.(owner_id) = Some p ∧ verify_node c (verify_key p.(signing_key)) = true) →
  shared s'.
Proof.
  intros Hc [Ho Hsa Hap Hsi] Ha Hobj Hnext Hver Hsig.
  assert (∀ r, held (w_of s) r c.(node_hash) = None) as Hnew.
  { intros r. destruct (held (w_of s) r (node_hash c)) as [n|] eqn:Hn; [|done]. exfalso.
    destruct (held_hash _ _ _ _ _ Hc Hn) as [Hh _]. apply (c_held _ _ Hc) in Hn as [Hn _].
    by apply (ad_fresh _ _ _ _ _ Ha _ Hn). }
  assert (∀ r h n, held (w_of s') r h = Some n →
    (h = c.(node_hash) ∧ n = c ∧ s'.(objects) !! (r, h) = Some s.(next_object)) ∨
    ∃ n0 o, held (w_of s) r h = Some n0 ∧ n = g h n0 ∧ h ≠ c.(node_hash) ∧
      s.(objects) !! (r, h) = Some o ∧ s'.(objects) !! (r, h) = Some o ∧ (o < s.(next_object))%nat) as Hinv.
  { intros r h n Hn. destruct (adds_held_inv _ _ _ _ _ _ _ _ Hc Ha Hn) as [(-> & -> & Hr)|(n0 & Hn0 & ->)].
    - left. split; [done|]. split; [done|]. by rewrite Hobj, decide_True.
    - right. destruct (Ho _ _ _ Hn0) as (o & Hoo & Hlt). assert (h ≠ node_hash c) as Hne by (intros ->; by rewrite Hnew in Hn0).
      exists n0, o. rewrite Hobj, decide_False; [done|tauto]. }
  split.
  - intros r h n [(_ & _ & ->)|(n0 & o & _ & _ & _ & _ & -> & ?)]%Hinv; rewrite Hnext; eexists; (split; [done|lia]).
  - intros r r' h n n' [(-> & -> & ->)|(n0 & o & Hn0 & -> & Hne & Ho0 & -> & _)]%Hinv
      [(? & -> & ->)|(n0' & o' & Hn0' & -> & Hne' & Ho0' & -> & _)]%Hinv; try done.
    destruct (Hsa _ _ _ _ _ Hn0 Hn0') as [-> Heq]. split; [done|]. congruence.
  - intros r r' h h' n n' o0 [(-> & -> & ->)|(n0 & o & Hn0 & -> & Hne & Ho0 & -> & Hlt)]%Hinv
      [(-> & -> & ->)|(n0' & o' & Hn0' & -> & Hne' & Ho0' & -> & Hlt')]%Hinv; try done.
    + intros [= <-] [= E]. lia.
    + intros [= <-] [= E]. lia.
    + intros [= <-] [= E]. subst o'. by apply (Hap r r' h h' n0 n0' o).
  - intros r h n [(-> & -> & _)|(n0 & o & Hn0 & -> & _)]%Hinv; apply (signed_same_peers _ _ _ _ (ad_peers _ _ _ _ _ Ha)).
    + done.
    + pose proof (proj1 (ad_keeps _ _ _ _ _ Ha h n0)) as Hk. injection Hk as _ -> _ _. setoid_rewrite Hver. by eapply Hsi.
Qed.

(** ** What the routes store *)

(** [n] is put into the stores [ids], as the newest object; registry, names and
    contents may change too. *)
Record puts (ids : list string) (n : CoCNode) s s' : Prop := {
  pu_peers : (∀ id p, (w_of s).(peers) !! id = Some p → InMemory.inv p.(storage)) → same_peers (w_of s) (w_of s');
  pu_held r h : held (w_of s') r h = if decide (h = n.(node_hash) ∧ r ∈ ids) then Some n else held (w_of s) r h;
  pu_objects r h : s'.(objects) !! (r, h) =
    if decide (h = n.(node_hash) ∧ r ∈ ids) then Some s.(next_object) else s.(objects) !! (r, h);
  pu_next : s'.(next_object) = s.(next_object);
  pu_flight : (w_of s').(in_flight) = (w_of s).(in_flight);
  pu_caches : (w_of s').(token_caches) = (w_of s).(token_caches);
  pu_audit a h : issue_event a h ∈ (w_of s').(NetworkSim.audit_log) ↔ issue_event a h ∈ (w_of s).(NetworkSim.audit_log);
  pu_made : made s' = made s;
}.

Lemma same_peers_refl w : (∀ id p, w.(peers) !! id = Some p → InMemory.inv p.(storage)) → same_peers w w.
Proof. by split. Qed.

Lemma same_peers_trans w1 w2 w3 : same_peers w1 w2 → same_peers w2 w3 → same_peers w1 w3.
Proof. intros [H1 _] [H2 H3]. split; [|done]. intros id. by rewrite H2, H1. Qed.

Lemma puts_trans ids ids' n s1 s2 s3 : puts ids n s1 s2 → puts ids' n s2 s3 → puts (ids ++ ids') n s1 s3.
Proof.
  intros [P1 H1 O1 N1 F1 C1 A1 M1] [P2 H2 O2 N2 F2 C2 A2 M2]. split; try congruence.
  - intros Hinv. pose proof (P1 Hinv) as Hs. eapply same_peers_trans; [exact Hs|]. apply P2, Hs.
  - intros r h. rewrite H2, H1. repeat case_decide; set_solver.
  - intros r h. rewrite O2, O1, N1. repeat case_decide; set_solver.
  - intros a h. by rewrite A2, A1.
Qed.

(** Nothing is put anywhere. *)
Lemma puts_nil n s s' :
  w_of s' = w_of s → s'.(objects) = s.(objects) → s'.(next_object) = s.(next_object) → made s' = made s → puts [] n s s'.
Proof.
  intros Hw Ho Hn Hm. split; rewrite ?Hw, ?Ho, ?Hn; try done.
  - intros r h. rewrite decide_False; [done|]. set_solver.
  - intros r h. rewrite decide_False; [done|]. set_solver.
Qed.

(** A storage operation of one peer. *)
Definition stored (id : string) (f : InMemory.storage → InMemory.storage) w : world_t :=
  set_peers (alter (λ p, set_storage (f p.(storage)) p) id) w.

Lemma net_update_run id f s :
  on (net (update_storage id f)) s = (Ok (), set_engine (set_world (stored id f (w_of s)) (get_engine s)) s).
Proof. done. Qed.

Lemma stored_same_peers id f w :
  (∀ st, InMemory.inv st → InMemory.inv (f st)) →
  (∀ id p, w.(peers) !! id = Some p → InMemory.inv p.(storage)) → same_peers w (stored id f w).
Proof.
  intros Hf Hinv. split; intros id'; cbn; destruct (decide (id' = id)) as [->|Hne];
    rewrite ?lookup_alter_eq, ?lookup_alter_ne by done; [by destruct (peers _ !! id)|done| |apply Hinv].
  destruct (peers w !! id) as [p|] eqn:Hp; [|done]. intros q [= <-]. by eapply Hf, Hinv.
Qed.

Lemma stored_held id f w r h :
  held (stored id f w) r h =
  if decide (r = id) then p ← w.(peers) !! r; (f p.(storage)).(InMemory.nodes) !! h else held w r h.
Proof.
  unfold held. cbn. case_decide as Hd; [subst r; rewrite lookup_alter_eq; by destruct (peers w !! id)|].
  by rewrite lookup_alter_ne.
Qed.

Lemma puts_content id now c txt n s :
  puts [] n s (on (net (update_storage id (add_content now c txt))) s).2.
Proof.
  rewrite net_update_run. split; cbn; try done.
  - apply stored_same_peers. intros st Hst. by apply (add_content_ok (StorageSpec := InMemory.spec) now c txt).
  - intros r h. rewrite decide_False by set_solver. rewrite stored_held. case_decide; [|done].
    unfold held. by destruct (peers _ !! r).
  - intros r h. rewrite decide_False by set_solver. done.
Qed.

Lemma stored_add_node_held id now n w r h :
  registered w id → held (stored id (add_node now n) w) r h =
  if decide (h = n.(node_hash) ∧ r ∈ [id]) then Some n else held w r h.
Proof.
  intros [p Hp]. rewrite stored_held. unfold held. destruct (decide (r = id)) as [->|Hne]; cycle 1.
  { rewrite decide_False; [done|]. set_solver. }
  rewrite Hp. cbn. destruct (decide (h = node_hash n)) as [->|Hh].
  - rewrite decide_True by set_solver. apply lookup_insert_eq.
  - rewrite decide_False by tauto. by apply lookup_insert_ne.
Qed.

Lemma stored_node_peers id now n w :
  wf_node n → (∀ id p, w.(peers) !! id = Some p → InMemory.inv p.(storage)) →
  same_peers w (stored id (add_node now n) w).
Proof.
  intros Hwf Hs. apply stored_same_peers; [|done]. intros st Hst.
  by apply (add_node_ok (StorageSpec := InMemory.spec) now n).
Qed.

Lemma puts_share_node id now n s :
  registered (w_of s) id → wf_node n → ∃ s', share_node now n id s = (Ok (), s') ∧ puts [id] n s s'.
Proof.
  intros Hr Hwf. unfold share_node, mbind, M_bind. rewrite net_update_run. cbn. eexists. split; [reflexivity|].
  split; cbn; try done.
  - by apply (stored_node_peers id now).
  - intros r h. by apply (stored_add_node_held id now).
  - intros r h. destruct (decide ((r, h) = (id, node_hash n))) as [[= -> ->]|Hne].
    + by rewrite lookup_insert_eq, decide_True by set_solver.
    + rewrite lookup_insert_ne by done. rewrite decide_False; [done|]. set_solver.
Qed.

Definition stores_ok s : Prop := ∀ id p, (w_of s).(peers) !! id = Some p → InMemory.inv p.(storage).

Lemma puts_stores_ok ids n s s' : puts ids n s s' → stores_ok s → stores_ok s'.
Proof. intros Hp Hs. exact (proj2 (pu_peers _ _ _ _ Hp Hs)). Qed.

Lemma puts_registered ids n s s' r : puts ids n s s' → stores_ok s → registered (w_of s') r ↔ registered (w_of s) r.
Proof. intros Hp Hs. by apply same_peers_registered, (pu_peers _ _ _ _ Hp). Qed.

(** A loop that puts the node into one store after the other. *)
Lemma puts_for_each n (body : string → M Api unit) ids s :
  (∀ id s, registered (w_of s) id → stores_ok s → ∃ s', body id s = (Ok (), s') ∧ puts [id] n s s') →
  Forall (registered (w_of s)) ids → stores_ok s →
  ∃ s', for_each ids body s = (Ok (), s') ∧ puts ids n s s'.
Proof.
  intros Hbody. revert s. induction ids as [|id ids IH]; intros s Hids Hs.
  - exists s. split; [done|by apply puts_nil].
  - apply Forall_cons in Hids as [Hid Hids]. destruct (Hbody id s Hid Hs) as (s1 & Hr1 & Hp1).
    destruct (IH s1) as (s2 & Hr2 & Hp2); [|by eapply puts_stores_ok|].
    { eapply Forall_impl; [exact Hids|]. intros r. by apply (puts_registered _ _ _ _ _ Hp1). }
    exists s2. split; [|by apply (puts_trans [id] ids n s s1 s2)].
    cbn [for_each]. unfold mbind, M_bind. by rewrite Hr1.
Qed.

(** Neither stores nor the record of nodes change. *)
Definition inert s s' : Prop :=
  w_of s' = w_of s ∧ s'.(objects) = s.(objects) ∧ s'.(next_object) = s.(next_object) ∧ made s' = made s.

#[local] Instance inert_preorder : PreOrder inert.
Proof. split; [done|]. intros s1 s2 s3 (?&?&?&?) (?&?&?&?). repeat split; congruence. Qed.

Lemma puts_inert n s s' : inert s s' → puts [] n s s'.
Proof. intros (? & ? & ? & ?). by apply puts_nil. Qed.

Lemma inert_puts ids n s s1 s2 : inert s s1 → puts ids n s1 s2 → puts ids n s s2.
Proof. intros Hi Hp. by apply (puts_trans [] ids n s s1 s2 (puts_inert n s s1 Hi)). Qed.

Lemma known_peer_run id s :
  known_peer id s = (match (w_of s).(peers) !! id with Some p => Ok p | None => Raise (HTTPException 404) end,
                     set_engine (get_engine s) s) ∧ inert s (set_engine (get_engine s) s).
Proof. split; [|done]. unfold known_peer, mbind, M_bind, w_of. cbn. by destruct (peers _ !! id). Qed.

Lemma check_peers_run ids s :
  ∃ s', inert s s' ∧
    ((check_peers ids s = (Ok (), s') ∧ Forall (registered (w_of s)) ids) ∨
     ∃ e, check_peers ids s = (Raise e, s')).
Proof.
  unfold check_peers. revert s. induction ids as [|id ids IH]; intros s; cbn [for_each].
  - exists s. split; [done|]. left. split; [done|constructor].
  - unfold mbind, M_bind. destruct (known_peer_run id s) as [-> Hi].
    destruct (peers (w_of s) !! id) as [p|] eqn:Hp; [|eexists; split; [exact Hi|]; right; by eexists].
    destruct (IH (set_engine (get_engine s) s)) as (s' & Hi' & [[Hr Hall]|[e He]]);
      (exists s'; split; [by etrans|]); [left|right; by exists e].
    split; [done|]. constructor; [by exists p|done].
Qed.

(** ** A message enters the system *)

Record enters (c : CoCNode) (g : string → CoCNode → CoCNode) s s' : Prop := {
  en_peers : same_peers (w_of s) (w_of s');
  en_held r h : held (w_of s') r h =
    if decide (h = c.(node_hash) ∧ holder (made_of c) r) then Some c else g h <$> held (w_of s) r h;
  en_objects r h : s'.(objects) !! (r, h) =
    if decide (h = c.(node_hash) ∧ holder (made_of c) r) then Some s.(next_object) else s.(objects) !! (r, h);
  en_next : s'.(next_object) = S s.(next_object);
  en_flight : (w_of s').(in_flight) = (w_of s).(in_flight);
  en_caches : (w_of s').(token_caches) = (w_of s).(token_caches);
  en_audit a h : issue_event a h ∈ (w_of s').(NetworkSim.audit_log) ↔ issue_event a h ∈ (w_of s).(NetworkSim.audit_log);
  en_made : made s' = made s ++ [made_of c];
  en_known r : holder (made_of c) r → registered (w_of s) r;
  en_signed : ∃ p, (w_of s).(peers) !! c.(owner_id) = Some p ∧ verify_node c (verify_key p.(signing_key)) = true;
  en_keeps h n : made_of (g h n) = made_of n ∧ n.(children_hashes) ⊆ (g h n).(children_hashes) ∧
    ∀ k, verify_node (g h n) k = verify_node n k;
  en_parent h : parent_of c = Some h →
    ∃ n, held (w_of s) c.(owner_id) h = Some n ∧ c.(node_hash) ∈ (g h n).(children_hashes);
}.

Lemma api_inv_enters c g s s' :
  api_inv s → enters c g s s' → (∀ m, m ∈ made s → m.(m_hash) ≠ c.(node_hash)) → api_inv s'.
Proof.
  intros [Hc Hsh] He Hfresh. assert (adds (made s) (w_of s) (w_of s') c g) as Ha.
  { split; try apply He; [|done]. intros h n. destruct (en_keeps _ _ _ _ He h n) as (? & ? & _). done. }
  split; [rewrite (en_made _ _ _ _ He); by eapply custody_add|].
  eapply shared_add; [exact Hc|exact Hsh|exact Ha|apply He|apply He|intros; by apply (en_keeps _ _ _ _ He)|apply He].
Qed.

(** What the end of a route that made [m] does: log and announce it. *)
Record announced (m : Made) s s' : Prop := {
  an_quiet : quiet (w_of s) (w_of s');
  an_caches : (w_of s').(token_caches) = (w_of s).(token_caches);
  an_objects : s'.(objects) = s.(objects);
  an_next : s'.(next_object) = s.(next_object);
  an_made : made s' = made s ++ [m];
}.

Lemma announce_run {A B R} (ty actor target details : string) (gone : nat → bool) (f : Api → A) (g : Api → B)
    (ev : A → B → api_event) (resp : R) m s :
  ty ≠ "DELETE_ISSUE" → (∀ a b, event_made (ev a b) = Some m) →
  ∃ s', (on (net (NetworkSim.log_event ty actor target details)) ;;
         a ← gets f; b ← gets g; broadcast_event gone (ev a b) ;; mret resp) s = (Ok resp, s') ∧ announced m s s'.
Proof.
  intros Hty Hev. eexists. split; [reflexivity|]. split; [by apply quiet_log_event|done|done|done|].
  unfold made. cbn. rewrite omap_app. cbn. by rewrite Hev.
Qed.

(** [c] is stored at [ids], and [g] was applied to the nodes that were there. *)
Record entered (ids : list string) (c : CoCNode) (g : string → CoCNode → CoCNode) s s' : Prop := {
  et_peers : same_peers (w_of s) (w_of s');
  et_held r h : held (w_of s') r h =
    if decide (h = c.(node_hash) ∧ r ∈ ids) then Some c else g h <$> held (w_of s) r h;
  et_objects r h : s'.(objects) !! (r, h) =
    if decide (h = c.(node_hash) ∧ r ∈ ids) then Some s.(next_object) else s.(objects) !! (r, h);
  et_next : s'.(next_object) = s.(next_object);
  et_flight : (w_of s').(in_flight) = (w_of s).(in_flight);
  et_caches : (w_of s').(token_caches) = (w_of s).(token_caches);
  et_audit a h : issue_event a h ∈ (w_of s').(NetworkSim.audit_log) ↔ issue_event a h ∈ (w_of s).(NetworkSim.audit_log);
  et_made : made s' = made s;
}.

Lemma entered_id ids c s s' : stores_ok s → puts ids c s s' → entered ids c (λ _ n, n) s s'.
Proof.
  intros Hs [P H O N F Ca A M]. split; try done; [by apply P|]. intros r h. rewrite H. case_decide; [done|].
  by destruct (held (w_of s) r h).
Qed.

Lemma entered_puts ids ids' c g s1 s2 s3 :
  entered ids c g s1 s2 → puts ids' c s2 s3 → entered (ids ++ ids') c g s1 s3.
Proof.
  intros [P1 H1 O1 N1 F1 C1 A1 M1] [P2 H2 O2 N2 F2 C2 A2 M2]. split; try congruence.
  - eapply same_peers_trans; [exact P1|]. apply P2, P1.
  - intros r h. rewrite H2, H1. repeat case_decide; set_solver.
  - intros r h. rewrite O2, O1, N1. repeat case_decide; set_solver.
  - intros a h. by rewrite A2, A1.
Qed.

(** Stored at all holders and announced. *)
Lemma enters_entered c g s s1 s2 ids :
  entered ids c g s s1 → announced (made_of c) (object_made s1) s2 →
  (∀ r, r ∈ ids ↔ holder (made_of c) r) → (∀ r, r ∈ ids → registered (w_of s) r) →
  (∃ p, (w_of s).(peers) !! c.(owner_id) = Some p ∧ verify_node c (verify_key p.(signing_key)) = true) →
  (∀ h n, made_of (g h n) = made_of n ∧ n.(children_hashes) ⊆ (g h n).(children_hashes) ∧
    ∀ k, verify_node (g h n) k = verify_node n k) →
  (∀ h, parent_of c = Some h →
    ∃ n, held (w_of s) c.(owner_id) h = Some n ∧ c.(node_hash) ∈ (g h n).(children_hashes)) →
  enters c g s s2.
Proof.
  intros Hp [Hq Hca Ho Hn Hm] Hids Hk Hsig Hg Hpar.
  change (w_of (object_made s1)) with (w_of s1) in *. change (made (object_made s1)) with (made s1) in *.
  split; try done.
  - eapply same_peers_trans; [apply Hp|]. split; intros id; rewrite (q_peers _ _ Hq); [done|]. apply (et_peers _ _ _ _ _ Hp).
  - intros r h. rewrite (quiet_held _ _ _ _ Hq), (et_held _ _ _ _ _ Hp). by apply decide_ext; rewrite Hids.
  - intros r h. rewrite Ho. cbn. rewrite (et_objects _ _ _ _ _ Hp). by apply decide_ext; rewrite Hids.
  - rewrite Hn. cbn. by rewrite (et_next _ _ _ _ _ Hp).
  - by rewrite (q_flight _ _ Hq), (et_flight _ _ _ _ _ Hp).
  - by rewrite Hca, (et_caches _ _ _ _ _ Hp).
  - intros a h. by rewrite (q_audit _ _ Hq), (et_audit _ _ _ _ _ Hp).
  - by rewrite Hm, (et_made _ _ _ _ _ Hp).
  - intros r Hr%Hids. by apply Hk.
Qed.

(** ** The routes that make messages *)

Context {P : SharingPrims} {D : Digest} (gone : nat → bool).

Lemma bind_run {St A B} (m : M St A) (f : A → M St B) x a y : m x = (Ok a, y) → (m ≫= f) x = f a y.
Proof. intros Hm. unfold mbind, M_bind. by rewrite Hm. Qed.

Lemma create_root_run now self content rids p s :
  (w_of s).(peers) !! self = Some p → p.(peer_id) = self →
  let c := new_node now (hash_content content) self p.(signing_key) rids None 0 in
  ∃ s', on (net (create_coc_root now self content rids)) s = (Ok c, s') ∧ puts [self] c s (hold_newest self c.(node_hash) s').
Proof.
  intros Hp Hid c. destruct (puts_share_node self now c s) as (s1 & Hr1 & Hp1); [by exists p|apply new_node_wf|].
  pose proof (puts_content self now (hash_content content) content c s1) as Hp2.
  unfold share_node, mbind, M_bind in Hr1. rewrite net_update_run in Hr1. injection Hr1 as <-.
  pose proof (puts_trans _ _ _ _ _ _ Hp1 Hp2) as Hp12.
  exists (set_engine (set_world (stored self (add_content now (hash_content content) content)
    (stored self (add_node now c) (w_of s))) (get_engine s)) s). split; [|exact Hp12].
  unfold on, net, create_coc_root, mbind, M_bind, NetworkSim.get_peer. fold (w_of s). rewrite Hp. cbn [from_option_exn].
  by rewrite Hid.
Qed.

Lemma share_and_fill now c ch txt id s :
  wf_node c → registered (w_of s) id →
  ∃ s', (share_node now c id ;; on (net (update_storage id (add_content now ch txt)))) s = (Ok (), s') ∧ puts [id] c s s'.
Proof.
  intros Hwf Hr. destruct (puts_share_node id now c s Hr Hwf) as (s1 & Hr1 & Hp1).
  pose proof (puts_content id now ch txt c s1) as Hp2. eexists.
  unfold mbind, M_bind. rewrite Hr1. split; [reflexivity|]. by apply (puts_trans [id] [] c s s1).
Qed.

(** The call failed and changed nothing, or it announced [c], which has then
    entered if its hash is new. *)
Definition makes (s : Api) (out : result MessageCreatedResponse * Api) (c : CoCNode) (g : string → CoCNode → CoCNode) : Prop :=
  (∃ e, out.1 = Raise e ∧ inert s out.2) ∨
  (∃ resp, out.1 = Ok resp ∧ made out.2 = made s ++ [made_of c] ∧
     ((∀ m, m ∈ made s → m.(m_hash) ≠ c.(node_hash)) → enters c g s out.2)).

Lemma holder_new now ch self key rids ph dep r :
  r ∈ self :: rids ↔ holder (made_of (new_node now ch self key rids ph dep)) r.
Proof. unfold holder. cbn. by rewrite sorted_Permutation, elem_of_cons. Qed.

Lemma create_message_makes d uuid req s :
  custody (made s) (w_of s) →
  ∃ c g, makes s (create_message gone d uuid req s) c g.
Proof.
  intros Hc. assert (stores_ok s) as Hs by (intros id p Hp; by apply (c_peers _ _ Hc id)).
  destruct req as [self content rids mid]. unfold create_message. unfold mbind at 1, M_bind at 1.
  destruct (known_peer_run self s) as [-> Hi1]. destruct (peers (w_of s) !! self) as [p|] eqn:Hp; cycle 1.
  { exists (new_node 0 "" "" [] [] None 0), (λ _ n, n). left. by eexists. }
  destruct (c_peers _ _ Hc _ _ Hp) as (Hid & _).
  set (s1 := set_engine (get_engine s) s) in *. unfold mbind at 1, M_bind at 1.
  destruct (check_peers_run rids s1) as (s2 & Hi2 & [[-> Hall]|[e ->]]); cycle 1.
  { exists (new_node 0 "" "" [] [] None 0), (λ _ n, n). left. eexists. split; [done|]. by etrans. }
  assert (inert s s2) as Hi by (by etrans). clear Hi1 Hi2.
  assert (Forall (registered (w_of s)) rids) as Hreg by exact Hall. destruct Hi as (Hw2 & Hi').
  cbv zeta. unfold mbind at 1, M_bind at 1.
  destruct (create_root_run d.(dr_now) self content rids p s2) as (s3 & -> & Hp3); [by rewrite Hw2|done|].
  set (c := new_node _ _ _ _ _ _ _) in *. exists c, (λ _ n, n). right. set (s4 := hold_newest _ _ s3) in *.
  rewrite (bind_run _ _ s3 () s4) by done.
  set (mid' := default (str uuid) (nonempty mid)).
  rewrite (bind_run _ _ s4 () (set_engine (set_registry mid' c.(node_hash) (get_engine s4)) s4)) by done.
  set (s5 := set_engine _ s4). assert (puts [self] c s s5) as Hp5.
  { apply (inert_puts _ _ _ s2); [done|]. apply (puts_trans [self] [] c s2 s4 s5 Hp3), puts_inert. done. }
  destruct (puts_for_each c (λ id, share_node (dr_now d) c id ;;
    on (net (update_storage id (add_content (dr_now d) (content_hash c) content)))) rids s5) as (s6 & Hr6 & Hp6).
  { intros id s' Hr _. apply share_and_fill; [apply new_node_wf|done]. }
  { eapply Forall_impl; [exact Hreg|]. intros r. by apply (puts_registered _ _ _ _ _ Hp5). }
  { by eapply puts_stores_ok. }
  rewrite (bind_run _ _ _ _ _ Hr6), (bind_run _ _ s6 () (object_made s6)) by done.
  match goal with |- ∃ _, ?X.1 = _ ∧ _ =>
    edestruct (announce_run "CREATE_MESSAGE" self c.(node_hash)
      ("Content delivered to " +:+ pretty.pretty (length rids) +:+ " recipients") gone (name_of self)
      (λ s, (λ r, name_of r s) <$> rids)
      (λ a b, MESSAGE_CREATED (to_dict c) mid' a b (isoformat (dr_now d)))
      (mkCreated (node_to_response c) mid') (made_of c) (object_made s6)) as (s7 & Hr7 & Han); [done|done|];
    assert (X = (Ok (mkCreated (node_to_response c) mid'), s7)) as -> by exact Hr7
  end.
  eexists. split; [done|]. assert (puts (self :: rids) c s s6) as Hall6 by (by apply (puts_trans [self] rids c s s5 s6)).
  split; [rewrite <-(pu_made _ _ _ _ Hall6); apply (an_made _ _ _ Han)|]. intros _. cbn [snd].
  apply (enters_entered c (λ _ n, n) s s6 s7 (self :: rids)); [|done|apply holder_new| | |done|done].
  - by apply entered_id.
  - intros r [->|Hr]%elem_of_cons; [by exists p|]. rewrite Forall_forall in Hreg. by apply Hreg.
  - exists p. split; [done|]. apply verify_node_new.
Qed.

(** ** Forwarding *)

Lemma alias_nodes_inv F st :
  InMemory.inv st →
  (∀ h n, (F h n).(content_hash) = n.(content_hash) ∧ (F h n).(node_hash) = n.(node_hash) ∧ (wf_node n → wf_node (F h n))) →
  InMemory.inv (alias_nodes F st).
Proof.
  intros [Hi Hne Hn] HF. split; cbn; [|done|].
  - intros c h. rewrite Hi, map_lookup_imap. split.
    + intros (n & Hl & Hc). rewrite Hl. eexists. split; [done|]. by rewrite (proj1 (HF h n)).
    + intros (n & Hl & Hc). destruct (InMemory.nodes st !! h) as [n0|] eqn:Hn0; [|done]. injection Hl as <-.
      exists n0. split; [done|]. by rewrite (proj1 (HF h n0)) in Hc.
  - intros h n. rewrite map_lookup_imap. destruct (InMemory.nodes st !! h) as [n0|] eqn:Hn0; [|done]. cbn. intros [= <-].
    destruct (Hn _ _ Hn0) as [Hw Hh]. destruct (HF h n0) as (_ & Hh' & Hw'). split; [by apply Hw'|congruence].
Qed.

(** [parent.add_child(c)] on one object. *)
Definition with_child (c n : CoCNode) : CoCNode := (add_child n c).1.

Lemma with_child_wf c n : wf_node n → wf_node (with_child c n).
Proof. intros [? ?]. by split. Qed.

Lemma with_child_twice c n : with_child c (with_child c n) = with_child c n.
Proof. unfold with_child, add_child. cbn. f_equal. set_solver. Qed.

Lemma mutate_held o f s r h :
  held (w_of (mutate o f s)) r h =
  (λ n, if decide (is_Some o ∧ s.(objects) !! (r, h) = o) then f n else n) <$> held (w_of s) r h.
Proof.
  unfold held, mutate, w_of. cbn. rewrite map_lookup_imap. destruct (peers _ !! r) as [p|]; [|done]. cbn.
  rewrite map_lookup_imap. by destruct (InMemory.nodes _ !! h).
Qed.

Lemma mutate_same_peers o c s :
  stores_ok s → same_peers (w_of s) (w_of (mutate o (with_child c) s)).
Proof.
  intros Hs. split; intros id; unfold mutate, w_of; cbn; rewrite map_lookup_imap.
  - by destruct (peers _ !! id).
  - destruct (peers _ !! id) as [p|] eqn:Hp; [|done]. cbn. intros q [= <-]. cbn. apply alias_nodes_inv; [by apply (Hs id)|].
    intros h n. case_decide; [|done]. split; [done|]. split; [done|apply with_child_wf].
Qed.

(** In a state with shared objects, the object under (sender, parent) is the
    parent and nothing else. *)
Definition to_parent (hp : string) (c : CoCNode) (h : string) (n : CoCNode) : CoCNode :=
  if decide (h = hp) then with_child c n else n.

Lemma slot_is_parent s self hp parent r h n :
  shared s → held (w_of s) self hp = Some parent → held (w_of s) r h = Some n →
  (is_Some (s.(objects) !! (self, hp)) ∧ s.(objects) !! (r, h) = s.(objects) !! (self, hp)) ↔ h = hp.
Proof.
  intros Hsh Hpar Hn. destruct (sh_object _ Hsh _ _ _ Hpar) as (o & Ho & _). split.
  - intros [_ Heq]. rewrite Ho in Heq. by apply (sh_apart _ Hsh r self h hp n parent o).
  - intros ->. split; [by eexists|]. by destruct (sh_same _ Hsh r self hp n parent Hn Hpar).
Qed.

Lemma mutate_parent_held s self hp parent c r h :
  shared s → held (w_of s) self hp = Some parent →
  held (w_of (mutate (s.(objects) !! (self, hp)) (with_child c) s)) r h = to_parent hp c h <$> held (w_of s) r h.
Proof.
  intros Hsh Hpar. rewrite mutate_held. destruct (held (w_of s) r h) as [n|] eqn:Hn; [|done]. cbn. f_equal.
  apply decide_ext. by eapply slot_is_parent.
Qed.

Lemma mutate_entered s self hp parent c :
  stores_ok s → shared s → held (w_of s) self hp = Some parent →
  entered [] c (to_parent hp c) s (mutate (s.(objects) !! (self, hp)) (with_child c) s).
Proof.
  intros Hs Hsh Hpar. split; try done.
  - by apply mutate_same_peers.
  - intros r h. rewrite decide_False by set_solver. by eapply mutate_parent_held.
  - intros r h. by rewrite decide_False by set_solver.
Qed.

(** Storing a node where it already is. *)
Lemma puts_again id now n c s :
  stores_ok s → held (w_of s) id n.(node_hash) = Some n →
  puts [] c s (on (net (update_storage id (add_node now n))) s).2.
Proof.
  intros Hs Hn. assert (registered (w_of s) id ∧ wf_node n) as [Hr Hwf].
  { unfold held in Hn. destruct (peers (w_of s) !! id) as [p|] eqn:Hp; [|done]. split; [by exists p|].
    by destruct (InMemory.inv_nodes _ (Hs _ _ Hp) _ _ Hn). }
  rewrite net_update_run. split; cbn; try done.
  - by apply (stored_node_peers id now).
  - intros r h. rewrite decide_False by set_solver.
    change (w_of (set_engine ?e s)) with (world e). cbn [world set_world].
    rewrite (stored_add_node_held id now) by done. case_decide as E; [|done].
    destruct E as [-> ->%list_elem_of_singleton]. done.
  - intros r h. by rewrite decide_False by set_solver.
Qed.

Section forward.
Context s (Hinv : api_inv s) (self : string) (p : Peer InMemory.storage) (Hp : (w_of s).(peers) !! self = Some p).
Context (parent : CoCNode) (Hpar : held (w_of s) self parent.(node_hash) = Some parent).
Context (now : Z) (ch : string) (rids : list string) (dep : Z).
Context (Hreg : Forall (registered (w_of s)) rids).
#[local] Abbreviation child0 := (new_node now ch self p.(signing_key) rids (Some parent.(node_hash)) dep).
#[local] Abbreviation c := (add_child parent child0).2.
#[local] Abbreviation fresh := (∀ m, m ∈ made s → m.(m_hash) ≠ c.(node_hash)).

Lemma forward_stores_ok : stores_ok s.
Proof. intros id q Hq. by apply (c_peers _ _ (proj1 Hinv) id). Qed.

Lemma child_not_parent : fresh → parent.(node_hash) ≠ c.(node_hash).
Proof. intros Hfresh. apply (Hfresh (made_of parent)). by apply (c_held _ _ (proj1 Hinv)) in Hpar as [? _]. Qed.

Lemma child_wf : wf_node c.
Proof. apply add_child_wf; [by apply (held_hash _ _ _ _ _ (proj1 Hinv) Hpar)|apply new_node_wf]. Qed.

Lemma parent_wf : wf_node (with_child c parent).
Proof. apply with_child_wf. by apply (held_hash _ _ _ _ _ (proj1 Hinv) Hpar). Qed.

(** Once the child is with the sender and its recipients, it has entered. *)
Lemma forward_enters s1 s2 ids :
  (∀ r, r ∈ ids ↔ r ∈ self :: rids) →
  entered ids c (to_parent parent.(node_hash) c) s s1 → announced (made_of c) (object_made s1) s2 →
  enters c (to_parent parent.(node_hash) c) s s2.
Proof.
  intros Hids Hen Han. eapply enters_entered; [exact Hen|exact Han|..].
  - intros r. rewrite Hids. apply (holder_new now ch self p.(signing_key) rids (Some parent.(node_hash)) dep).
  - intros r [->|Hr]%Hids%elem_of_cons; [by exists p|]. rewrite Forall_forall in Hreg. by apply Hreg.
  - exists p. split; [done|]. apply (verify_node_new now ch self p.(signing_key) rids (Some parent.(node_hash)) dep).
  - intros h n. unfold to_parent. case_decide; [|done]. split; [done|]. split; [|done]. cbn. set_solver.
  - intros h Hh. assert (h = parent.(node_hash)) as ->.
    { unfold parent_of in Hh. cbn in Hh. destruct (node_hash parent); congruence. }
    exists parent. split; [exact Hpar|]. unfold to_parent. rewrite decide_True by done. cbn. set_solver.
Qed.

(** The stores after the child and the changed parent are with the sender. *)
Lemma watermarked_entered s2 :
  fresh → share_node now c self (mutate (s.(objects) !! (self, parent.(node_hash))) (with_child c) s) = (Ok (), s2) →
  entered [self] c (to_parent parent.(node_hash) c) s
    (on (net (update_storage self (add_node now (with_child c parent)))) s2).2.
Proof.
  intros Hfresh Hr2. pose proof (mutate_entered s self _ parent c forward_stores_ok (proj2 Hinv) Hpar) as Hen1.
  set (s1 := mutate _ _ s) in *.
  destruct (puts_share_node self now c s1) as (s2' & Hr2' & Hp2); [|apply child_wf|].
  { apply (same_peers_registered _ _ _ (et_peers _ _ _ _ _ Hen1)). by exists p. }
  rewrite Hr2 in Hr2'. injection Hr2' as <-. pose proof (entered_puts _ _ _ _ _ _ _ Hen1 Hp2) as Hen2. cbn [app] in Hen2.
  apply (entered_puts [self] [] c _ s s2); [done|]. apply puts_again; [exact (proj2 (et_peers _ _ _ _ _ Hen2))|].
  rewrite (et_held _ _ _ _ _ Hen2), decide_False by (intros [E _]; by apply child_not_parent).
  cbn [with_child add_child fst node_hash]. rewrite Hpar. cbn. f_equal. unfold to_parent. by rewrite decide_True.
Qed.

Lemma regular_peers o :
  same_peers (w_of s) (w_of (mutate o (with_child c) (hold_newest self c.(node_hash)
    (set_engine (set_world (stored self (add_node now (with_child c parent))
      (stored self (add_node now c) (w_of s))) (get_engine s)) s)))).
Proof.
  set (wc := stored self (add_node now c) (w_of s)).
  pose proof (stored_node_peers self now c (w_of s) child_wf forward_stores_ok) as Hsc. fold wc in Hsc.
  pose proof (stored_node_peers self now (with_child c parent) wc parent_wf (proj2 Hsc)) as Hsp.
  eapply same_peers_trans; [exact Hsc|]. eapply same_peers_trans; [exact Hsp|].
  apply mutate_same_peers. exact (proj2 Hsp).
Qed.

Lemma regular_entered :
  fresh → let s1 := set_engine (set_world (stored self (add_node now (with_child c parent))
    (stored self (add_node now c) (w_of s))) (get_engine s)) s in
  entered [self] c (to_parent parent.(node_hash) c) s
    (mutate (s.(objects) !! (self, parent.(node_hash))) (with_child c) (hold_newest self c.(node_hash) s1)).
Proof.
  intros Hfresh s1. set (wc := stored self (add_node now c) (w_of s)).
  pose proof (regular_peers (s.(objects) !! (self, parent.(node_hash)))) as Hpeers.
  pose proof (stored_node_peers self now c (w_of s) child_wf forward_stores_ok) as Hsc. fold wc in Hsc.
  destruct (sh_object _ (proj2 Hinv) _ _ _ Hpar) as (o & Ho & Hlt). rewrite Ho in Hpeers |- *.
  set (s2 := hold_newest self (node_hash c) s1). split; try done.
  - intros r h. rewrite mutate_held. change (objects s2) with (<[(self, node_hash c) := s.(next_object)]> s.(objects)).
    change (w_of s2) with (stored self (add_node now (with_child c parent)) wc).
    rewrite (stored_add_node_held self now) by (apply (same_peers_registered (w_of s)); [done|by exists p]).
    unfold wc. rewrite (stored_add_node_held self now) by (by exists p).
    pose proof (child_not_parent Hfresh) as Hne. change (node_hash (with_child c parent)) with (node_hash parent).
    destruct (decide (h = node_hash c ∧ r ∈ [self])) as [[-> ->%list_elem_of_singleton]|Hn].
    + rewrite decide_False by (by intros [? _]). cbn [fmap option_fmap option_map]. f_equal. apply decide_False.
      rewrite lookup_insert_eq. intros [_ [= E]]. lia.
    + rewrite lookup_insert_ne by (intros [= <- <-]; apply Hn; set_solver).
      destruct (decide (h = node_hash parent ∧ r ∈ [self])) as [[-> ->%list_elem_of_singleton]|Hd].
      * rewrite Hpar, Ho. cbn [fmap option_fmap option_map]. f_equal. unfold to_parent.
        etrans; [apply decide_True; split; [by eexists|done]|]. etrans; [apply with_child_twice|].
        symmetry. by apply decide_True.
      * destruct (held (w_of s) r h) as [n|] eqn:Hh; [|done]. cbn. f_equal. apply decide_ext. rewrite <-Ho.
        by apply (slot_is_parent s self (node_hash parent) parent r h n (proj2 Hinv)).
  - intros r h. destruct (decide ((r, h) = (self, node_hash c))) as [[= -> ->]|Hne].
    + rewrite decide_True by set_solver. apply lookup_insert_eq.
    + rewrite decide_False by set_solver. by apply lookup_insert_ne.
Qed.

(** The rest of both branches, from a state in which the sender has the child. *)
Lemma forward_rest s1 kind details marked nh mid (body : string → M Api unit) d :
  kind ≠ "DELETE_ISSUE" → same_peers (w_of s) (w_of s1) →
  (∀ id s, registered (w_of s) id → stores_ok s → ∃ s', body id s = (Ok (), s') ∧ puts [id] c s s') →
  ∃ resp s', (register mid c.(node_hash) ;; for_each rids body ;; modify object_made ;;
    announce_forward gone d kind details marked self nh mid rids c) s1 = (Ok resp, s') ∧
    made s' = made s1 ++ [made_of c] ∧
    (entered [self] c (to_parent parent.(node_hash) c) s s1 → enters c (to_parent parent.(node_hash) c) s s').
Proof.
  intros Hkind Hsame Hbody.
  rewrite (bind_run _ _ s1 () (set_engine (set_registry mid c.(node_hash) (get_engine s1)) s1)) by done.
  set (s2 := set_engine _ s1). assert (puts [] c s1 s2) as Hp2 by (by apply puts_inert).
  destruct (puts_for_each c body rids s2 Hbody) as (s3 & Hr3 & Hp3); [|exact (proj2 Hsame)|].
  { eapply Forall_impl; [exact Hreg|]. intros r. by apply (same_peers_registered _ _ _ Hsame). }
  rewrite (bind_run _ _ _ _ _ Hr3), (bind_run _ _ s3 () (object_made s3)) by done. unfold announce_forward.
  edestruct (announce_run kind self c.(node_hash) (details +:+ pretty.pretty (length rids) +:+ " recipients") gone
    (name_of self) (λ s, (λ r, name_of r s) <$> rids)
    (λ a b, MESSAGE_FORWARDED (to_dict c) nh mid marked a b (isoformat (dr_now d)))
    (mkCreated (node_to_response c) mid) (made_of c) (object_made s3)) as (s4 & Hr4 & Han); [done|done|].
  exists (mkCreated (node_to_response c) mid), s4. split; [exact Hr4|].
  split; [rewrite <-(pu_made _ _ _ _ Hp2), <-(pu_made _ _ _ _ Hp3); apply (an_made _ _ _ Han)|]. intros Hen.
  apply (forward_enters s3 s4 ([self] ++ rids)); [done| |done].
  apply (entered_puts [self] rids c _ s s2); [|done]. by apply (entered_puts [self] [] c _ s s1).
Qed.
End forward.

Lemma inert_api_inv s s' : inert s s' → api_inv s → api_inv s'.
Proof.
  intros (Hw & Ho & Hn & Hm) [Hc [A B E F]]. split; [by rewrite Hm, Hw|]. split; rewrite ?Hw, ?Ho, ?Hn; assumption.
Qed.

Lemma inert_enters c g s s1 s2 : inert s s1 → enters c g s1 s2 → enters c g s s2.
Proof. intros (Hw & Ho & Hn & Hm) [? ? ? ? ? ? ? ? ? ? ? ?]. split; rewrite <-?Hw, <-?Ho, <-?Hn, <-?Hm; assumption. Qed.

Lemma regular_body now self c id s :
  wf_node c → registered (w_of s) id → stores_ok s →
  ∃ s', share_forward now self c id s = (Ok (), s') ∧ puts [id] c s s'.
Proof.
  intros Hwf Hr _. unfold share_forward. destruct (puts_share_node id now c s Hr Hwf) as (s1 & Hr1 & Hp1). rewrite (bind_run _ _ _ _ _ Hr1).
  set (content := stored_content self (content_hash c) (get_engine s1)).
  rewrite (bind_run _ _ s1 content (set_engine (get_engine s1) s1)) by done.
  set (s2 := set_engine _ s1). assert (puts [id] c s s2) as Hp2.
  { by apply (puts_trans [id] [] c s s1 s2 Hp1), puts_inert. }
  destruct content as [[|a txt]|]; [by exists s2| |by exists s2].
  eexists. split; [reflexivity|]. apply (puts_trans [id] [] c s s2 _ Hp2), puts_content.
Qed.

Lemma forward_regular_makes d nh mid self rids uw m0 p parent s :
  api_inv s → (w_of s).(peers) !! self = Some p → held (w_of s) self parent.(node_hash) = Some parent →
  Forall (registered (w_of s)) rids →
  ∃ c g, makes s (forward_regular gone d nh mid (mkForward self rids uw m0) parent s) c g.
Proof.
  intros Hinv Hp Hpar Hreg. destruct (c_peers _ _ (proj1 Hinv) _ _ Hp) as (Hid & _).
  set (now := d.(dr_now)). set (c := (add_child parent
    (new_node now parent.(content_hash) self p.(signing_key) rids (Some parent.(node_hash)) 0)).2).
  set (s1 := set_engine (set_world (stored self (add_node now (with_child c parent))
    (stored self (add_node now c) (w_of s))) (get_engine s)) s).
  assert (on (net (forward_coc_message now self parent rids)) s = (Ok (c, with_child c parent), s1)) as Hrun.
  { unfold on, net, forward_coc_message, mbind, M_bind, NetworkSim.get_peer. fold (w_of s). rewrite Hp.
    cbn [from_option_exn]. rewrite Hid. done. }
  unfold forward_regular. rewrite (bind_run _ _ s (s.(objects) !! (self, parent.(node_hash))) s) by done.
  rewrite (bind_run _ _ _ _ _ Hrun). set (o := objects s !! _).
  rewrite (bind_run _ _ s1 () (hold_newest self c.(node_hash) s1)) by done.
  set (s2 := hold_newest _ _ s1). rewrite (bind_run _ _ s2 () (mutate o (with_child c) s2)) by done.
  exists c, (to_parent parent.(node_hash) c). right.
  edestruct (forward_rest s Hinv self p Hp parent Hpar now parent.(content_hash) rids 0 Hreg
    (mutate o (with_child c) s2) "FORWARD_MESSAGE" "Forwarded to " false nh mid (share_forward now self c) d) as (resp & s' & Hr & Hh & Hen);
    [done|by apply (regular_peers s Hinv self p)| |].
  { intros id s0. apply regular_body. by apply (child_wf s Hinv self p parent Hpar now parent.(content_hash) rids 0). }
  match goal with |- ∃ _, ?X.1 = _ ∧ _ => assert (X = (Ok resp, s')) as -> by exact Hr end.
  eexists. split; [done|]. split; [exact Hh|]. intros Hfresh. apply Hen.
  by apply (regular_entered s Hinv self p Hp parent Hpar now parent.(content_hash) rids 0).
Qed.

Lemma inert_on {A} (m : M Sim A) s : (∀ e, (m e).2.(world) = e.(world)) → inert s (on m s).2.
Proof.
  intros Hm. unfold on. specialize (Hm (get_engine s)). destruct (m (get_engine s)) as [r e].
  split; [exact Hm|done].
Qed.

Lemma embed_mark_inert d content id dep s : inert s (embed_mark d content id dep s).2.
Proof.
  apply inert_on. intros e. unfold mbind, M_bind, gets, lift, modify. destruct (code_points content); [|done].
  destruct (code_points id); [|done]. destruct (embed_watermark _ _ _ _ _ _ _ _ _) as [[marked|] known]; [|done]. done.
Qed.

Lemma forward_watermarked_makes d nh mid self rids uw m0 p parent content s :
  api_inv s → (w_of s).(peers) !! self = Some p → held (w_of s) self parent.(node_hash) = Some parent →
  Forall (registered (w_of s)) rids →
  ∃ c g, makes s (forward_watermarked gone d p nh mid (mkForward self rids uw m0) parent content s) c g.
Proof.
  intros Hinv0 Hp0 Hpar0 Hreg0. unfold forward_watermarked.
  pose proof (embed_mark_inert d content self (parent.(depth) + 1) s) as Hi.
  destruct (embed_mark d content self (depth parent + 1) s) as [[marked|e] s0] eqn:Hem; cycle 1.
  { unfold mbind at 1, M_bind at 1. rewrite Hem. exists parent, (λ _ n, n). left. by exists e. }
  rewrite (bind_run _ _ _ _ _ Hem). cbn [snd] in Hi. destruct Hi as (Hw & Hobj & Hnext & Hmade).
  assert (inert s s0) as Hi by done. pose proof (inert_api_inv _ _ Hi Hinv0) as Hinv.
  rewrite <-Hw in Hp0, Hpar0, Hreg0. set (now := d.(dr_now)). set (wh := hash_content marked). set (dep := parent.(depth) + 1).
  set (c := (add_child parent (new_node now wh self p.(signing_key) rids (Some parent.(node_hash)) dep)).2).
  cbv zeta. fold now wh dep.
  replace (add_child parent (new_node now wh self p.(signing_key) rids (Some parent.(node_hash)) dep))
    with (with_child c parent, c) by done. cbv iota beta.
  rewrite (bind_run _ _ s0 (s0.(objects) !! (self, parent.(node_hash))) s0) by done. set (o := objects s0 !! _).
  rewrite (bind_run _ _ s0 () (mutate o (with_child c) s0)) by done. set (s1 := mutate o _ s0).
  assert (wf_node c) as Hwf by (by apply (child_wf s0 Hinv self p parent Hpar0 now wh rids dep)).
  assert (stores_ok s0) as Hs0 by (by apply (forward_stores_ok s0 Hinv)).
  pose proof (mutate_same_peers o c s0 Hs0) as Hsame1.
  destruct (puts_share_node self now c s1) as (s2 & Hr2 & Hp2); [|done|].
  { apply (same_peers_registered _ _ _ Hsame1). by exists p. }
  pose proof (pu_peers _ _ _ _ Hp2 (proj2 Hsame1)) as Hsame2.
  rewrite (bind_run _ _ _ _ _ Hr2).
  set (s3 := (on (net (update_storage self (add_node now (with_child c parent)))) s2).2).
  rewrite (bind_run _ _ s2 () s3) by done. set (s4 := (on (net (update_storage self (add_content now wh marked))) s3).2).
  rewrite (bind_run _ _ s3 () s4) by done.
  assert (same_peers (w_of s0) (w_of s3)) as Hsame3.
  { eapply same_peers_trans; [exact Hsame1|]. eapply same_peers_trans; [exact Hsame2|].
    apply stored_node_peers; [|exact (proj2 Hsame2)]. by apply (parent_wf s0 Hinv self p parent Hpar0 now wh rids dep). }
  pose proof (puts_content self now wh marked c s3) as Hp4. fold s4 in Hp4.
  exists c, (to_parent parent.(node_hash) c). right.
  edestruct (forward_rest s0 Hinv self p Hp0 parent Hpar0 now wh rids dep Hreg0 s4 "FORWARD_WATERMARKED"
    "Watermarked forward to " true nh mid (λ id, share_node now c id ;;
      on (net (update_storage id (add_content now wh marked)))) d) as (resp & s' & Hr & Hh & Hen);
    [done|eapply same_peers_trans; [exact Hsame3|apply (pu_peers _ _ _ _ Hp4 (proj2 Hsame3))]| |].
  { intros id s' Hreg _. by apply share_and_fill. }
  match goal with |- ∃ _, ?X.1 = _ ∧ _ => assert (X = (Ok resp, s')) as -> by exact Hr end.
  assert (made s4 = made s) as Hm4.
  { etrans; [apply (pu_made _ _ _ _ Hp4)|]. etrans; [apply (pu_made _ _ _ _ Hp2)|]. exact Hmade. }
  eexists. split; [done|]. split; [by rewrite <-Hm4|]. intros Hfresh. rewrite <-Hmade in Hfresh.
  apply (inert_enters _ _ _ _ _ Hi), Hen.
  apply (entered_puts [self] [] c _ s0 s3 s4); [|done].
  by apply (watermarked_entered s0 Hinv self p Hp0 parent Hpar0 now wh rids dep s2).
Qed.

Lemma forward_message_makes d uuid nh req s :
  api_inv s → ∃ c g, makes s (forward_message gone d uuid nh req s) c g.
Proof.
  intros Hinv. destruct req as [self rids uw mid]. unfold forward_message. cbn [fm_sender_id fm_recipient_ids fm_use_watermark fm_message_id].
  assert (∀ s' e, inert s s' → ∃ c g, makes s (Raise e, s') c g) as Hfail.
  { intros s' e Hi. exists (new_node 0 "" "" [] [] None 0), (λ _ n, n). left. by exists e. }
  unfold mbind at 1, M_bind at 1. destruct (known_peer_run self s) as [-> Hi1].
  destruct (peers (w_of s) !! self) as [p|] eqn:Hp; [|by apply Hfail]. set (s1 := set_engine _ s) in *.
  destruct (InMemory.get_node nh (storage p)) as [parent|] eqn:Hn; [|by apply Hfail].
  assert (held (w_of s) self nh = Some parent) as Hpar by (unfold held; by rewrite Hp).
  destruct (held_hash _ _ _ _ _ (proj1 Hinv) Hpar) as [<- _].
  unfold mbind at 1, M_bind at 1.
  destruct (check_peers_run rids s1) as (s2 & Hi2 & [[-> Hall]|[e ->]]); [|apply Hfail; by etrans].
  set (mid' := default (str uuid) (nonempty mid)). cbv zeta.
  rewrite (bind_run _ _ s2 (stegano (get_engine s2)) (set_engine (get_engine s2) s2)) by done.
  set (s3 := set_engine _ s2). assert (inert s s3) as Hi by (etrans; [exact Hi1|]; etrans; [exact Hi2|done]).
  assert (Forall (registered (w_of s)) rids) as Hreg by exact Hall.
  enough (∃ c g, makes s3 (match uw, stegano (get_engine s2), InMemory.get_content (content_hash parent) (storage p) with
    | true, Some _, Some (String _ _ as content) =>
        forward_watermarked gone d p (node_hash parent) mid' (mkForward self rids uw mid) parent content
    | _, _, _ => forward_regular gone d (node_hash parent) mid' (mkForward self rids uw mid) parent
    end s3) c g) as (c & g & Hm).
  { exists c, g. destruct Hm as [(e & He & Hie)|(resp & Hr & Hh & Hen)]; [left; exists e; split; [done|by etrans]|].
    pose proof (proj2 (proj2 (proj2 Hi))) as Hm. right. exists resp. split; [done|]. split; [by rewrite <-Hm|].
    intros Hf. apply (inert_enters _ _ _ _ _ Hi), Hen. by rewrite Hm. }
  pose proof (inert_api_inv _ _ Hi Hinv) as Hinv3. destruct Hi as (Hw & _). rewrite <-Hw in Hp, Hpar, Hreg.
  repeat case_match; eauto using forward_regular_makes, forward_watermarked_makes.
Qed.

(** ** The other calls *)

(** The invariant holds; no node and no request was forgotten. *)
Definition evolves s s' : Prop :=
  api_inv s' ∧ (∀ m, m ∈ made s → m ∈ made s') ∧ ∀ m, requested (w_of s) m → requested (w_of s') m.

Lemma inert_evolves s s' : api_inv s → inert s s' → evolves s s'.
Proof.
  intros Hinv Hi. split; [by eapply inert_api_inv|]. destruct Hi as (Hw & _ & _ & Hm). by rewrite Hw, Hm.
Qed.

Lemma evolves_trans s1 s2 s3 : evolves s1 s2 → evolves s2 s3 → evolves s1 s3.
Proof. intros (_ & M1 & H1) (? & M2 & H2). split; auto. Qed.

Lemma makes_evolves s out c g :
  api_inv s → makes s out c g → NoDup (m_hash <$> made out.2) → evolves s out.2.
Proof.
  intros Hinv [(e & _ & Hi)|(resp & Hr & Hm & Hen)] Hnd; [by apply inert_evolves|].
  rewrite Hm, fmap_app, NoDup_app in Hnd. destruct Hnd as (_ & Hnd & _).
  assert (∀ m, m ∈ made s → m.(m_hash) ≠ c.(node_hash)) as Hfresh.
  { intros m Hin Heq. apply (Hnd (m_hash m)); [by apply list_elem_of_fmap_2|]. rewrite Heq. by left. }
  specialize (Hen Hfresh).
  split; [by eapply api_inv_enters|]. split; [|intros m; apply (en_audit _ _ _ _ Hen)].
  intros m. rewrite (en_made _ _ _ _ Hen). set_solver.
Qed.

(** A new peer with an empty store. *)
Lemma register_held w p r h :
  p.(storage) = InMemory.init → w.(peers) !! p.(peer_id) = None →
  held (set_peers (<[p.(peer_id) := p]>) w) r h = held w r h.
Proof.
  intros Hst Hnone. unfold held. cbn. destruct (decide (r = peer_id p)) as [->|Hne].
  - rewrite lookup_insert_eq, Hnone. cbn. rewrite Hst. apply lookup_empty.
  - by rewrite lookup_insert_ne.
Qed.

Lemma custody_register K w p :
  custody K w → p.(storage) = InMemory.init → p.(online) = true → w.(peers) !! p.(peer_id) = None →
  custody K (set_peers (<[p.(peer_id) := p]>) w).
Proof.
  intros Hc Hst Hon Hnone. pose proof (λ r h, register_held w p r h Hst Hnone) as Hh.
  assert (∀ id q, w.(peers) !! id = Some q → (<[p.(peer_id) := p]> w.(peers)) !! id = Some q) as Hmono.
  { intros id q Hq. rewrite lookup_insert_ne; [done|]. intros <-. congruence. }
  split; try apply Hc; cbn.
  - intros id q. rewrite lookup_insert_Some. intros [[<- <-]|[_ Hq]]; [|by apply (c_peers _ _ Hc)].
    split; [done|]. split; [done|]. rewrite Hst. split; cbn; [|done|done].
    intros c h. rewrite lookup_empty. split; [by intros ?%elem_of_empty|by intros (n & ? & _)].
  - intros r h n. rewrite Hh. apply (c_held _ _ Hc).
  - intros m r Hm Hr. destruct (c_known _ _ Hc m r Hm Hr) as [q Hq]. exists q. by apply Hmono.
  - intros r h n m. rewrite Hh. apply (c_child _ _ Hc).
  - intros m r Hm Hr. rewrite Hh. by apply (c_gone _ _ Hc).
  - intros m r Hu Hm Hrq Hr. rewrite Hh. by apply (c_pending _ _ Hc).
  - intros msg (t & m & Hb & (o & sg & Ho & Hx) & Hrest)%(c_flight _ _ Hc). exists t, m. split; [done|]. split; [|done].
    exists o, sg. split; [by apply Hmono|done].
  - intros r cc th t0 Hl Hth. destruct (c_cache _ _ Hc _ _ _ _ Hl Hth) as (t & m & ? & ? & ? & ? & ?). exists t, m. by rewrite Hh.
Qed.

Lemma create_peer_evolves d uuid key req s : api_inv s → evolves s (create_peer gone d uuid key req s).2.
Proof.
  intros [Hc Hsh]. unfold create_peer. set (id := or_default _ _). set (name := or_default _ _).
  rewrite (bind_run _ _ s ((w_of s).(peers) !! id) (set_engine (get_engine s) s)) by done.
  destruct (peers (w_of s) !! id) as [q|] eqn:Hq; [by apply inert_evolves|].
  match goal with |- evolves _ ?X => set (s' := X) end. set (p := new_peer (dr_now d) key id).
  assert (w_of s' = set_peers (<[id := p]>) (w_of s)) as Hw by done.
  assert (made s' = made s) as Hm.
  { unfold made. change (event_log s') with (event_log s ++ [PEER_CREATED id name (isoformat (dr_now d))]).
    rewrite omap_app. apply app_nil_r. }
  assert (∀ r h, held (w_of s') r h = held (w_of s) r h) as Hh by (intros r h; rewrite Hw; by apply (register_held (w_of s) p)).
  split; [|by rewrite Hm]. split; [rewrite Hm, Hw; by apply (custody_register (made s) (w_of s) p)|].
  destruct Hsh as [A B E F]. split; setoid_rewrite Hh; [exact A|exact B|exact E|].
  intros r h n (o & Ho & Hv)%F. exists o. split; [|done]. rewrite Hw. cbn. rewrite lookup_insert_ne; [done|].
  intros Heq. congruence.
Qed.

Lemma quiet_prepared K w w' :
  custody K w → quiet w w' → w'.(token_caches) = w.(token_caches) → prepared K w w' None.
Proof.
  intros Hc Hq Hca. split.
  - split; intros id; rewrite (q_peers _ _ Hq); [done|]. intros p Hp. by apply (c_peers _ _ Hc id).
  - intros r h. by rewrite (quiet_held _ _ _ _ Hq), decide_False.
  - apply (q_audit _ _ Hq).
  - intros msg. by rewrite (q_flight _ _ Hq).
  - intros msg r h _. by rewrite (q_flight _ _ Hq).
  - intros r c th t0. rewrite Hca. left. eauto.
Qed.

Lemma advance_evolves s s' slot cs :
  api_inv s → made s' = made s → s'.(objects) = s.(objects) → s'.(next_object) = s.(next_object) →
  advances (made s) (w_of s) (w_of s') slot cs → evolves s s'.
Proof.
  intros [Hc Hsh] Hm Ho Hn Ha. split; [split; [rewrite Hm; by eapply custody_advance|by eapply shared_advance]|].
  rewrite Hm. split; [done|]. intros m Hreq. apply (av_audit _ _ _ _ _ Ha). by left.
Qed.

(** The answer is an error, or the deletion of [nh] is requested. *)
Definition takes_request (nh self : string) s (out : result DeletionResponse * Api) : Prop :=
  evolves s out.2 ∧ ∀ resp, out.1 = Ok resp →
    ∃ m, m ∈ made s ∧ m.(m_hash) = nh ∧ m.(m_owner) = self ∧ requested (w_of out.2) m.

Lemma delete_message_evolves d nh self s : api_inv s → takes_request nh self s (delete_message gone d nh self s).
Proof.
  intros Hinv. unfold delete_message. unfold mbind at 1, M_bind at 1. destruct (known_peer_run self s) as [-> Hi].
  destruct (peers (w_of s) !! self) as [p|] eqn:Hp; [|by split; [apply inert_evolves|]]. set (s1 := set_engine _ s) in *.
  destruct (InMemory.get_node nh (storage p)) as [n|] eqn:Hn; [|by split; [apply inert_evolves|]].
  case_decide as Ho; [by split; [apply inert_evolves|]|].
  pose proof (inert_api_inv _ _ Hi Hinv) as Hinv1.
  destruct (c_peers _ _ (proj1 Hinv) _ _ Hp) as (Hid & _).
  assert (held (w_of s1) self nh = Some n) as Hheld by (change (held (w_of s) self nh = Some n); unfold held; by rewrite Hp).
  destruct (c_held _ _ (proj1 Hinv1) _ _ _ Hheld) as [Hk _].
  assert (same_peers (w_of s) (w_of s)) as Hself by (apply same_peers_refl; intros id q Hq; by apply (c_peers _ _ (proj1 Hinv) id)).
  set (w2 := issued_more [issue_event self n.(node_hash)] (messages_for d.(dr_now) d.(dr_nonce_of) self p n) (w_of s1)).
  set (s2 := set_engine (set_world w2 (get_engine s1)) s1).
  assert (on (net (initiate_deletion d.(dr_now) d.(dr_nonce_of) self n)) s1 = (Ok (), s2)) as Hrun.
  { unfold on, net. fold (w_of s1). rewrite (initiate_run _ _ self p); [done|done|done|done|].
    by apply (made_online (made s) (w_of s)); [apply Hinv|..]. }
  cbv zeta. rewrite (bind_run _ _ _ _ _ Hrun).
  assert (evolves s1 s2) as Hev2.
  { apply (advance_evolves s1 s2 None [n]); [done|done|done|done|].
    pose proof (advances_issue (made s1) (w_of s1) (w_of s1) None [n] d.(dr_now) d.(dr_nonce_of) self p
      (quiet_prepared _ _ _ (proj1 Hinv1) (reflexivity _) eq_refl) Hp Hid) as Hav.
    cbn in Hav. rewrite app_nil_r in Hav. apply Hav; [|done]. by intros c ->%list_elem_of_singleton. }
  match goal with |- takes_request _ _ _ ?X => set (out := X) end. set (s3 := out.2).
  assert (evolves s2 s3) as Hev3.
  { apply (advance_evolves s2 s3 None []); [apply Hev2| |done|done|].
    - unfold made. change (event_log s3) with (event_log s2 ++
        [MESSAGE_DELETED nh (name_of self s2) (size (children_hashes n)) (isoformat (dr_now d))]).
      rewrite omap_app. apply app_nil_r.
    - apply advances_nil, quiet_prepared; [apply Hev2| |done]. by apply quiet_log_event. }
  split; [exact (evolves_trans s s1 s3 (inert_evolves s s1 Hinv Hi) (evolves_trans s1 s2 s3 Hev2 Hev3))|].
  intros resp _. exists (made_of n). split; [done|]. split; [by apply (held_hash _ _ _ _ _ (proj1 Hinv1) Hheld)|].
  split; [done|]. apply Hev3. unfold requested. cbn. rewrite Ho. rewrite elem_of_app. right. by left.
Qed.

(** Calls that leave stores and nodes alone. *)
Definition harmless {A} (m : M Api A) : Prop := ∀ s, inert s (m s).2.

Lemma harmless_bind {A B} (m : M Api A) (f : A → M Api B) :
  harmless m → (∀ a, harmless (f a)) → harmless (m ≫= f).
Proof.
  intros Hm Hf s. specialize (Hm s). unfold mbind, M_bind. destruct (m s) as [[a|e] s1]; [|done].
  etrans; [exact Hm|apply Hf].
Qed.

Lemma harmless_pure {A} (m : M Api A) : (∀ s, (m s).2 = s) → harmless m.
Proof. intros Hm s. by rewrite Hm. Qed.

Lemma harmless_on {A} (m : M Sim A) : (∀ e, (m e).2.(world) = e.(world)) → harmless (on m).
Proof. intros Hm s. by apply inert_on. Qed.

Lemma harmless_known_peer id : harmless (known_peer id).
Proof. intros s. destruct (known_peer_run id s) as [-> Hi]. done. Qed.

Lemma harmless_check_peers ids : harmless (check_peers ids).
Proof. intros s. by destruct (check_peers_run ids s) as (s' & Hi & [[-> _]|[e ->]]). Qed.

Lemma harmless_broadcast ev : event_made ev = None → harmless (broadcast_event gone ev).
Proof.
  intros Hev s. do 3 (split; [done|]). unfold made. cbn. rewrite omap_app. cbn. rewrite Hev. apply app_nil_r.
Qed.

(** A route made of such calls, through its binds and cases. *)
Ltac harmless_route := cbv zeta; repeat match goal with
  | |- harmless (_ ≫= _) => apply harmless_bind
  | |- ∀ a, harmless _ => let a := fresh "a" in intros a; cbv zeta
  | |- harmless (known_peer _) => apply harmless_known_peer
  | |- harmless (check_peers _) => apply harmless_check_peers
  | |- harmless (broadcast_event _ _) => by apply harmless_broadcast
  | |- harmless (on _) => by apply harmless_on
  | |- harmless (match ?x with _ => _ end) => destruct x
  | |- harmless _ => by apply harmless_pure
  end.

Lemma detect_leak_harmless d req : harmless (detect_leak gone d req).
Proof.
  unfold detect_leak. harmless_route. rename a1 into candidates. apply harmless_on.
  induction candidates as [|c cs IH]; intros e; [done|]. cbn [for_each]. unfold mbind, M_bind, modify at 1. by rewrite IH.
Qed.

Lemma distribute_shares_harmless req : harmless (ApiServer.distribute_shares req).
Proof. unfold ApiServer.distribute_shares. harmless_route. Qed.

Lemma reconstruct_secret_harmless req : harmless (ApiServer.reconstruct_secret req).
Proof. unfold ApiServer.reconstruct_secret. harmless_route. Qed.

Lemma create_timelock_harmless d req : harmless (create_timelock d req).
Proof. unfold create_timelock. harmless_route. Qed.

Context (set_order : gset string → list string).

Lemma provenance_harmless frames nh : harmless (get_provenance_chain set_order frames nh).
Proof. unfold get_provenance_chain. harmless_route. Qed.

Lemma get_peer_harmless id : harmless (ApiServer.get_peer id).
Proof. unfold ApiServer.get_peer. harmless_route. Qed.

Lemma get_all_nodes_harmless : harmless ApiServer.get_all_nodes.
Proof. unfold ApiServer.get_all_nodes. harmless_route. Qed.

(** ** The event log only grows *)

Definition appends {A} (m : M Api A) : Prop := ∀ s, s.(event_log) `prefix_of` (m s).2.(event_log).

Lemma made_prefix s s' : s.(event_log) `prefix_of` s'.(event_log) → made s `prefix_of` made s'.
Proof. intros [l Hl]. unfold made. rewrite Hl, omap_app. by eexists. Qed.

Lemma appends_bind {A B} (m : M Api A) (f : A → M Api B) : appends m → (∀ a, appends (f a)) → appends (m ≫= f).
Proof.
  intros Hm Hf s. specialize (Hm s). unfold mbind, M_bind. destruct (m s) as [[a|e] s1]; [|done].
  etrans; [exact Hm|apply Hf].
Qed.

Lemma appends_for_each {A} (f : A → M Api unit) l : (∀ a, appends (f a)) → appends (for_each l f).
Proof. intros Hf. induction l as [|a l IH]; [by intros s|]. by apply appends_bind. Qed.

Lemma appends_on {A} (m : M Sim A) : appends (on m).
Proof. intros s. unfold on. by destruct (m (get_engine s)). Qed.

Lemma appends_broadcast ev : appends (broadcast_event gone ev).
Proof. intros s. cbn. by eexists. Qed.

Lemma appends_same {A} (m : M Api A) : (∀ s, (m s).2.(event_log) = s.(event_log)) → appends m.
Proof. intros Hm s. by rewrite Hm. Qed.

Ltac appends_route := cbv zeta; repeat match goal with
  | |- appends (_ ≫= _) => apply appends_bind
  | |- ∀ a, appends _ => let a := fresh "a" in intros a; cbv zeta
  | |- appends (for_each _ _) => apply appends_for_each
  | |- appends (broadcast_event _ _) => apply appends_broadcast
  | |- appends (on _) => apply appends_on
  | |- appends (match ?x with _ => _ end) => destruct x
  | |- appends (known_peer _) => unfold known_peer
  | |- appends (check_peers _) => unfold check_peers
  | |- appends (register _ _) => apply appends_on
  | |- appends (embed_mark _ _ _ _) => apply appends_on
  | |- appends (share_node _ _ _) => unfold share_node
  | |- appends (share_forward _ _ _ _) => unfold share_forward
  | |- appends (announce_forward _ _ _ _ _ _ _ _ _ _) => unfold announce_forward
  | |- appends _ => by apply appends_same
  end.

Lemma forward_message_appends d uuid nh req : appends (forward_message gone d uuid nh req).
Proof. unfold forward_message, forward_watermarked, forward_regular. appends_route. Qed.

Lemma delete_message_appends d nh self : appends (delete_message gone d nh self).
Proof. unfold delete_message. appends_route. Qed.

Lemma serve_appends d r s : s.(event_log) `prefix_of` (serve gone set_order d r s).(event_log).
Proof.
  destruct r; cbn [serve]; try done; revert s;
    match goal with |- ∀ s, _ `prefix_of` event_log ((?m s).2) => change (appends m) end.
  - unfold create_peer. appends_route.
  - unfold create_message. appends_route.
  - apply forward_message_appends.
  - apply delete_message_appends.
  - unfold detect_leak. appends_route.
  - unfold ApiServer.distribute_shares. appends_route.
  - unfold ApiServer.reconstruct_secret. appends_route.
  - unfold create_timelock. appends_route.
  - unfold ApiServer.get_peer. appends_route.
  - unfold get_provenance_chain. appends_route.
Qed.

(** ** Histories *)

(** The message [msg] is received; [rest] stays under way. *)
Definition deliver_at (now : Z) (nonce_of : string → string) (msg : Message) (rest : list Message) (s : Api) : Api :=
  set_engine (set_world (receive_message TOKEN_VALIDITY_SECONDS DEFAULT_TOMBSTONE_GRACE_SECONDS now nonce_of
    msg.(msg_recipient_id) msg (without (w_of s) rest)).2 (get_engine s)) s.

(** One step, with the message it delivers, if it is a delivery. *)
Inductive api_step (now : Z) : option Message → Api → Api → Prop :=
  | do_request d r s : d.(dr_now) = now → api_step now None s (serve gone set_order d r s)
  | do_deliver s before msg after nonce_of :
      (w_of s).(in_flight) = before ++ msg :: after →
      api_step now (Some msg) s (deliver_at now nonce_of msg (before ++ after) s)
  | do_connect ws s : api_step now None s (ws_connect ws s)
  | do_replay ws s : api_step now None s (ws_replay gone ws s)
  | do_disconnect ws s : api_step now None s (ws_disconnect ws s)
  | do_cleanup s e random : (get_engine s).(timelock) = Some e →
      api_step now None s (set_engine (set_timelock
        (TimeLock.with_keys e (TimeLock.cleanup_expired random now (TimeLock.key_store e))) (get_engine s)) s).

(** A history from [s0] at time [start], at non-decreasing times, with the
    deliveries in it. *)
Inductive api_run (start : Z) (s0 : Api) : Z → list (Z * Message) → Api → Prop :=
  | run_begin : api_run start s0 start [] s0
  | run_more now now' ds msg s s' :
      api_run start s0 now ds s → now ≤ now' → api_step now' msg s s' →
      api_run start s0 now' (ds ++ ((λ m, (now', m)) <$> option_list msg)) s'.

(** The token that is delivered is still valid. *)
Definition in_time (now : Z) (msg : Message) : Prop :=
  ∀ t, msg.(msg_body_of) = DeletionTokenMsg t → token_is_expired now TOKEN_VALIDITY_SECONDS t = false.

(** Every node has a hash of its own. *)
Definition hashes_apart s : Prop := NoDup (m_hash <$> made s).

Definition token_in (msg : Message) : option DeletionToken :=
  match msg.(msg_body_of) with DeletionTokenMsg t => Some t | _ => None end.

(** Two tokens for different nodes have the same hash. *)
Definition tokens_clash (msgs : list Message) : Prop :=
  Exists (λ t, Exists (λ t', token_get_hash t = token_get_hash t' ∧ t.(tok_node_hash) ≠ t'.(tok_node_hash))
    (omap token_in msgs)) (omap token_in msgs).

#[global] Instance tokens_clash_dec msgs : Decision (tokens_clash msgs).
Proof. unfold tokens_clash. apply _. Defined.

(** What is asked of a delivery. *)
Definition accounted (now : Z) (msg : Message) : Prop :=
  ∀ t, msg.(msg_body_of) = DeletionTokenMsg t → T t ∧ (U → token_is_expired now TOKEN_VALIDITY_SECONDS t = false).

Lemma hashes_apart_before s s' : s.(event_log) `prefix_of` s'.(event_log) → hashes_apart s' → hashes_apart s.
Proof. intros [l Hl]%made_prefix. unfold hashes_apart. rewrite Hl, fmap_app, NoDup_app. tauto. Qed.

Lemma step_appends now msg s s' : api_step now msg s s' → s.(event_log) `prefix_of` s'.(event_log).
Proof.
  intros []; [apply serve_appends|done|done| |done|done]. unfold ws_replay. by repeat case_match.
Qed.

Lemma run_appends start s0 now ds s : api_run start s0 now ds s → s0.(event_log) `prefix_of` s.(event_log).
Proof. induction 1 as [|now now' ds msg s s' _ IH _ Hs%step_appends]; [done|by etrans]. Qed.

Lemma serve_evolves d r s :
  api_inv s → hashes_apart (serve gone set_order d r s) → evolves s (serve gone set_order d r s).
Proof.
  intros Hinv Hn. destruct r; cbn [serve] in *.
  - by apply create_peer_evolves.
  - destruct (create_message_makes d uuid req s (proj1 Hinv)) as (c & g & Hm). by apply (makes_evolves s _ c g).
  - destruct (forward_message_makes d uuid node_hash req s Hinv) as (c & g & Hm). by apply (makes_evolves s _ c g).
  - by apply delete_message_evolves.
  - apply inert_evolves; [done|apply detect_leak_harmless].
  - apply inert_evolves; [done|apply distribute_shares_harmless].
  - apply inert_evolves; [done|apply reconstruct_secret_harmless].
  - apply inert_evolves; [done|apply create_timelock_harmless].
  - by apply inert_evolves.
  - by apply inert_evolves.
  - by apply inert_evolves.
  - by apply inert_evolves.
  - apply inert_evolves; [done|apply get_peer_harmless].
  - apply inert_evolves; [done|apply provenance_harmless].
  - apply inert_evolves; [done|apply get_all_nodes_harmless].
Qed.

Lemma api_step_evolves now msg s s' :
  0 ≤ now → now + DEFAULT_TOMBSTONE_GRACE_SECONDS * 1000000 < max_datetime →
  api_inv s → hashes_apart s' → (∀ m, msg = Some m → accounted now m) → api_step now msg s s' → evolves s s'.
Proof.
  intros Hnow Hmax Hinv Hap Hacc Hstep.
  destruct Hstep as [d r s Hd|s before msg after nonce_of Hf|ws s|ws s|ws s|s e random He].
  - by apply serve_evolves.
  - edestruct (deliver_advances (made s) (w_of s) DEFAULT_TOMBSTONE_GRACE_SECONDS now nonce_of
      before msg after) as (slot & cs & Ha & _); [apply Hinv|done|done| |by apply Hacc|].
    { unfold DEFAULT_TOMBSTONE_GRACE_SECONDS in *. lia. }
    by apply (advance_evolves s _ slot cs).
  - by apply inert_evolves.
  - apply inert_evolves; [done|]. unfold ws_replay. by repeat case_match.
  - by apply inert_evolves.
  - by apply inert_evolves.
Qed.

Lemma run_le start s0 now ds s : api_run start s0 now ds s → start ≤ now.
Proof. induction 1; lia. Qed.

Lemma run_evolves start s0 now ds s :
  0 ≤ start → api_inv s0 → api_run start s0 now ds s →
  now + DEFAULT_TOMBSTONE_GRACE_SECONDS * 1000000 < max_datetime → hashes_apart s →
  Forall (λ d, accounted d.1 d.2) ds → evolves s0 s.
Proof.
  intros H0 Hinv Hrun. induction Hrun as [|now now' ds msg s s' Hrun IH Hle Hstep]; intros Hmax Hap Hacc; [by apply inert_evolves|].
  apply Forall_app in Hacc as [Hacc Hmsg]. pose proof (run_le _ _ _ _ _ Hrun) as Hst.
  assert (evolves s0 s) as Hev.
  { apply IH; [lia| |done]. eapply hashes_apart_before; [by eapply step_appends|done]. }
  eapply evolves_trans; [exact Hev|]. apply (api_step_evolves now' msg); [lia|done|apply Hev|done| |done].
  intros m ->. apply Forall_cons in Hmsg as [Hmsg _]. exact Hmsg.
Qed.

Lemma api_start_inv : api_inv api_start.
Proof.
  split; [apply custody_init|]. split; unfold held; cbn; intros *; by rewrite lookup_empty.
Qed.

(** A request that was granted, with what came before and after it. *)
Lemma granted_request start now now' ds ds' d h self s s1 s2 resp :
  0 ≤ start → api_run start api_start now ds s → delete_message gone d h self s = (Ok resp, s1) →
  api_run now s1 now' ds' s2 → hashes_apart s2 → Forall (λ d, accounted d.1 d.2) (ds ++ ds') →
  now' + DEFAULT_TOMBSTONE_GRACE_SECONDS * 1000000 < max_datetime →
  api_inv s2 ∧ ∃ m, m ∈ made s ∧ m.(m_hash) = h ∧ m.(m_owner) = self ∧ m ∈ made s2 ∧ requested (w_of s2) m.
Proof.
  intros H0 Hrun Hdel Hrun' Hap [Hds Hds']%Forall_app Hmax.
  pose proof (run_le _ _ _ _ _ Hrun) as Hle. pose proof (run_le _ _ _ _ _ Hrun') as Hle'.
  assert (event_log s `prefix_of` event_log s2) as Hlog.
  { etrans; [|by eapply run_appends]. pose proof (delete_message_appends d h self s) as Ha. by rewrite Hdel in Ha. }
  destruct (run_evolves start api_start now ds s) as (Hinv & _);
    [done|apply api_start_inv|done|lia|by eapply hashes_apart_before|done|].
  pose proof (delete_message_evolves d h self s Hinv) as [(Hinv1 & Hm1 & _) Hreq].
  rewrite Hdel in Hinv1, Hm1, Hreq. destruct (Hreq resp eq_refl) as (m & Hm & Hh & Ho & Hr).
  destruct (run_evolves now s1 now' ds' s2) as (Hinv2 & Hm2 & Hr2); [lia|done..|].
  split; [done|]. exists m. do 3 (split; [done|]). split; [by apply Hm2, Hm1|by apply Hr2].
Qed.

(** [m'] was made from [m] by someone who received [m]. *)
Definition passed_on s (m m' : Made) : Prop :=
  m' ∈ made s ∧ m'.(m_parent) = Some m.(m_hash) ∧ m'.(m_owner) ∈ m.(m_recipients).

Lemma quiet_deletion s m m' :
  U → api_inv s → (w_of s).(in_flight) = [] → m ∈ made s → requested (w_of s) m → rtc (passed_on s) m m' →
  ∀ r, r ∈ m'.(m_recipients) → held (w_of s) r m'.(m_hash) = None.
Proof.
  intros Hu [Hc _] Hq Hm Hreq Hpath.
  assert (∀ m r, m ∈ made s → requested (w_of s) m → r ∈ m.(m_recipients) → held (w_of s) r m.(m_hash) = None) as Hgone.
  { intros m0 r0 Hm0 Hreq0 Hr0. destruct (held (w_of s) r0 (m_hash m0)) as [n|] eqn:Hn; [|done].
    destruct (c_pending _ _ Hc m0 r0 Hu Hm0 Hreq0 Hr0) as (msg & Hmsg & _); [by rewrite Hn|].
    rewrite Hq in Hmsg. by apply elem_of_nil in Hmsg. }
  induction Hpath as [m|m m1 m' (Hm1 & Hpar & Hown) _ IH]; [by intros r Hr; apply Hgone|].
  apply IH; [done|]. destruct (c_gone _ _ Hc m (m_owner m1)) as [_ Hch]; [done|by right|by apply Hgone|].
  by apply Hch.
Qed.

(** A delivery at a time of a window. *)
Definition delivers (from until : Z) (msg : Message) (s s' : Api) : Prop :=
  ∃ now nonce_of before after, from ≤ now ≤ until ∧ (w_of s).(in_flight) = before ++ msg :: after ∧
    s' = deliver_at now nonce_of msg (before ++ after) s.

Definition delivers_any (from until : Z) (s s' : Api) : Prop := ∃ msg, delivers from until msg s s'.

(** Deliveries in any order. *)
Inductive deliveries (from until : Z) : Api → list Message → Api → Prop :=
  | deliveries_nil s : deliveries from until s [] s
  | deliveries_cons s s1 s' msg msgs :
      delivers from until msg s s1 → deliveries from until s1 msgs s' → deliveries from until s (msg :: msgs) s'.

(** All that is stored, by peer and hash. *)
Definition stock w : gmap (string * string) CoCNode :=
  map_uncurry ((λ p : Peer InMemory.storage, p.(storage).(InMemory.nodes)) <$> w.(peers)).

Lemma lookup_stock w r h : stock w !! (r, h) = held w r h.
Proof. unfold stock, held. rewrite lookup_map_uncurry, lookup_fmap. by destruct (peers w !! r). Qed.

(** Every delivery uses up a stored node or a message. *)
Lemma delivery_spends s now nonce_of before msg after :
  0 ≤ now → now + DEFAULT_TOMBSTONE_GRACE_SECONDS * 1000000 < max_datetime → api_inv s →
  (w_of s).(in_flight) = before ++ msg :: after → accounted now msg →
  let s' := deliver_at now nonce_of msg (before ++ after) s in
  evolves s s' ∧ (∀ msg', msg' ∈ (w_of s').(in_flight) → msg' ∈ (w_of s).(in_flight) ∨ fresh_token now msg') ∧
  ((size (stock (w_of s')) < size (stock (w_of s)))%nat ∨
   size (stock (w_of s')) = size (stock (w_of s)) ∧ (length (w_of s').(in_flight) < length (w_of s).(in_flight))%nat).
Proof.
  intros Hnow Hmax Hinv Hf Ht s'.
  destruct (deliver_advances (made s) (w_of s) DEFAULT_TOMBSTONE_GRACE_SECONDS now nonce_of
    before msg after (proj1 Hinv) Hf Hnow ltac:(unfold DEFAULT_TOMBSTONE_GRACE_SECONDS in *; lia) Ht)
    as (slot & cs & Ha & [Hidle Hslot Hsent]).
  split; [by apply (advance_evolves s s' slot cs)|]. split.
  { intros msg' [Hin|?]%Hsent; [left|by right]. rewrite Hf. set_solver. }
  assert (∀ r h, stock (w_of s') !! (r, h) = if decide (slot = Some (r, h)) then None else stock (w_of s) !! (r, h)) as Hst.
  { intros r h. rewrite !lookup_stock. apply (av_held _ _ _ _ _ Ha). }
  destruct slot as [[r h]|].
  - left. destruct (Hslot r h eq_refl) as [n Hn]. rewrite <-lookup_stock in Hn.
    assert (stock (w_of s') = delete (r, h) (stock (w_of s))) as ->; cycle 1.
    { rewrite map_size_delete_Some by (by exists n). assert (size (stock (w_of s)) ≠ 0%nat); [|lia].
      rewrite map_size_ne_0_lookup. eauto. }
    apply map_eq. intros [r' h']. rewrite Hst. case_decide as E; [injection E as <- <-; by rewrite lookup_delete_eq|].
    rewrite lookup_delete_ne; congruence.
  - right. split; [f_equal; apply map_eq; intros [r' h']; by rewrite Hst, decide_False|].
    rewrite (Hidle eq_refl : in_flight (w_of s') = _), Hf, !length_app. cbn. lia.
Qed.

Section window.
Context (from until : Z) (Hfrom : 0 ≤ from) (Huntil : until + DEFAULT_TOMBSTONE_GRACE_SECONDS * 1000000 < max_datetime).

(** However they are ordered, the deliveries of a window come to an end. *)
Lemma delivers_end s : ¬ U → (∀ t, T t) → api_inv s → sn (delivers_any from until) s.
Proof.
  intros Hnu HT. remember (size (stock (w_of s))) as k eqn:Hk. revert s Hk. induction (lt_wf k) as [k _ IHk].
  intros s Hk. remember (length (w_of s).(in_flight)) as l eqn:Hl. revert s Hk Hl. induction (lt_wf l) as [l _ IHl].
  intros s -> -> Hinv. constructor. intros s' (msg & now & nonce_of & before & after & Hnow & Hf & ->).
  destruct (delivery_spends s now nonce_of before msg after) as ((Hinv' & _) & _ & Hless); [lia|lia|done..|by intros t _|].
  destruct Hless as [Hless|[Heq Hless]]; [by eapply IHk|]. by eapply IHl.
Qed.

Context (Hwindow : until ≤ from + TOKEN_VALIDITY_SECONDS * us_per_second).

(** What is under way can still be delivered at the end of the window. *)
Definition valid_until s : Prop := ∀ msg, msg ∈ (w_of s).(in_flight) → in_time until msg.

Lemma in_time_earlier now msg : now ≤ until → in_time until msg → in_time now msg.
Proof.
  intros Hle Ht t Hb. specialize (Ht t Hb). revert Ht. unfold token_is_expired.
  destruct (fromisoformat _); [|done]. rewrite !Z.ltb_ge. lia.
Qed.

Lemma fresh_in_time now msg : from ≤ now ≤ until → fresh_token now msg → in_time until msg.
Proof.
  intros Hnow (t & Hb & Hts) t' Hb'. rewrite Hb in Hb'. injection Hb' as <-. unfold token_is_expired.
  unfold DEFAULT_TOMBSTONE_GRACE_SECONDS in Huntil. rewrite Hts, fromisoformat_isoformat by lia. apply Z.ltb_ge. lia.
Qed.

Lemma delivers_evolves msg s s' :
  api_inv s → valid_until s → (∀ t, token_in msg = Some t → T t) → delivers from until msg s s' →
  evolves s s' ∧ valid_until s'.
Proof.
  intros Hinv Hv HT (now & nonce_of & before & after & Hnow & Hf & ->).
  destruct (delivery_spends s now nonce_of before msg after) as (Hev & Hsent & _); [lia|lia|done..| |].
  - intros t Hb. split; [apply HT; unfold token_in; by rewrite Hb|]. intros _. revert t Hb.
    apply (in_time_earlier now msg); [lia|]. apply Hv. rewrite Hf. set_solver.
  - split; [done|]. intros msg' [?|?]%Hsent; [by apply Hv|]. by eapply fresh_in_time.
Qed.

Lemma deliveries_evolve s msgs s' :
  api_inv s → valid_until s → (∀ t, t ∈ omap token_in msgs → T t) → deliveries from until s msgs s' →
  evolves s s' ∧ valid_until s'.
Proof.
  intros Hinv Hv HT Hr. revert Hinv Hv HT.
  induction Hr as [s|s s1 s' msg msgs Hs _ IH]; intros Hinv Hv HT; [split; [by apply inert_evolves|done]|].
  destruct (delivers_evolves msg s s1 Hinv Hv) as [Hev Hv1]; [|done|].
  { intros t Ht. apply HT. cbn. rewrite Ht. by left. }
  destruct IH as [Hev' ?]; [apply Hev|done| |split; [by eapply evolves_trans|done]].
  intros t Ht. apply HT. cbn. destruct (token_in msg); [by right|done].
Qed.

(** While something is under way, a delivery is possible. *)
Lemma undelivered s : from ≤ until → nf (delivers_any from until) s → (w_of s).(in_flight) = [].
Proof.
  intros Hle Hnf. destruct (in_flight (w_of s)) as [|msg rest] eqn:Hf; [done|]. destruct Hnf.
  eexists. exists msg, from, id, [], rest. split; [lia|]. done.
Qed.
End window.
End server.

(** ** The theorems *)

Section theorems.
Context {C : Crypto} {L : CryptoLaws C} {P : SharingPrims} {D : Digest} (gone : nat → bool)
  (set_order : gset string → list string).

(** C2: in every history of the server in which no two announced nodes have the
    same hash, a node stored by a peer is one the event log announces, stored by
    its owner or a recipient; it carries a valid signature of its owner, who is
    registered, and every peer that stores a node under this hash stores the
    same. Tokens may be delivered in any order, and after they have expired. *)
Theorem stored_nodes_genuine (start now : Z) (ds : list (Z * Message)) (s : Api) (r h : string) (n : CoCNode) :
  0 ≤ start → api_run gone set_order start api_start now ds s →
  now + DEFAULT_TOMBSTONE_GRACE_SECONDS * 1000000 < max_datetime → hashes_apart s →
  held (w_of s) r h = Some n →
  n.(node_hash) = h ∧ made_of n ∈ made s ∧ holder (made_of n) r ∧
  (∃ p, (w_of s).(peers) !! n.(owner_id) = Some p ∧ verify_node n (verify_key p.(signing_key)) = true) ∧
  ∀ r' n', held (w_of s) r' h = Some n' → n' = n.
Proof.
  intros H0 Hrun Hmax Hap Hn.
  destruct (run_evolves False (λ _, True) ltac:(done) gone set_order start api_start now ds s) as ([Hc Hsh] & _);
    [done|apply api_start_inv|done|done|done|by apply Forall_forall; intros d _ t _|].
  destruct (c_held _ _ _ _ Hc _ _ _ Hn) as [Hm Hr]. split; [by apply (held_hash _ _ _ _ _ _ _ Hc Hn)|].
  split; [done|]. split; [done|]. split; [by apply (sh_signed _ Hsh r h)|].
  intros r' n' Hn'. by destruct (sh_same _ Hsh r' r h n' n Hn' Hn).
Qed.

Lemma no_clash_apart msgs :
  ¬ tokens_clash msgs → ∀ t t', t ∈ omap token_in msgs → t' ∈ omap token_in msgs →
  token_get_hash t = token_get_hash t' → t.(tok_node_hash) = t'.(tok_node_hash).
Proof.
  intros Hn t t' Ht Ht' Heq. destruct (decide (tok_node_hash t = tok_node_hash t')) as [?|Hne]; [done|].
  destruct Hn. apply Exists_exists. exists t. split; [done|]. apply Exists_exists. by exists t'.
Qed.

Lemma in_time_accounted (U : Prop) (ds : list (Z * Message)) msgs :
  Forall (λ d, in_time d.1 d.2) ds →
  Forall (λ d, accounted U (λ t, t ∈ omap token_in (ds.*2 ++ msgs)) d.1 d.2) ds.
Proof.
  rewrite !Forall_forall. intros Hall [now msg] Hd t Hb. split; [|intros _; by apply (Hall _ Hd)].
  apply list_elem_of_omap. exists msg. unfold token_in. cbn in Hb. rewrite Hb. split; [|done].
  rewrite elem_of_app. left. by apply (list_elem_of_fmap_2 snd ds (now, msg)).
Qed.

(** C1: [delete_message] has answered 200 for a node; before and after it there
    were any calls, and deliveries of tokens that were still valid. Let all the
    messages now under way be delivered while their tokens are valid, in any
    order and with all that they cause: these deliveries come to an end, and
    then no recipient of the node stores it, and the same holds for every node
    that recipients made from it by forwarding, directly or through others.
    This supposes that no two announced nodes have the same hash; and the
    alternative is that two of the delivered tokens, for different nodes, have
    the same hash. *)
Theorem deletion_reaches_recipients (start now now' until : Z) (ds ds' : list (Z * Message)) (d : Draw)
    (h self : string) (s s1 s2 : Api) (resp : DeletionResponse) :
  0 ≤ start → api_run gone set_order start api_start now ds s → delete_message gone d h self s = (Ok resp, s1) →
  api_run gone set_order now s1 now' ds' s2 → hashes_apart s2 →
  Forall (λ d, in_time d.1 d.2) (ds ++ ds') → valid_until until s2 →
  now' ≤ until ≤ now' + TOKEN_VALIDITY_SECONDS * us_per_second →
  until + DEFAULT_TOMBSTONE_GRACE_SECONDS * 1000000 < max_datetime →
  sn (delivers_any now' until) s2 ∧
  ∀ msgs s3, deliveries now' until s2 msgs s3 → nf (delivers_any now' until) s3 →
    tokens_clash ((ds ++ ds').*2 ++ msgs) ∨
    ∃ m, m ∈ made s ∧ m.(m_hash) = h ∧ m.(m_owner) = self ∧
      ∀ m' r, rtc (passed_on s3) m m' → r ∈ m'.(m_recipients) → held (w_of s3) r m'.(m_hash) = None.
Proof.
  intros H0 Hrun Hdel Hrun' Hap Htime Hv Huntil Hmax.
  pose proof (run_le _ _ _ _ _ _ _ Hrun) as Hle. pose proof (run_le _ _ _ _ _ _ _ Hrun') as Hle'. split.
  - apply (delivers_end False (λ _, True) ltac:(done)); [lia|lia|tauto|done|].
    eapply (granted_request False (λ _, True) ltac:(done) gone set_order start now now' ds ds'); try done; [|lia].
    by apply Forall_forall; intros x _ t _.
  - intros msgs s3 Hs3 Hnf. destruct (decide (tokens_clash ((ds ++ ds').*2 ++ msgs))) as [?|Hclash]; [by left|right].
    set (T := λ t, t ∈ omap token_in ((ds ++ ds').*2 ++ msgs)). pose proof (no_clash_apart _ Hclash) as HU.
    destruct (granted_request True T (λ _, HU) gone set_order start now now' ds ds' d h self s s1 s2 resp)
      as (Hinv2 & m & Hm & Hh & Ho & Hm2 & Hr2); try done; [by apply in_time_accounted|lia|].
    destruct (deliveries_evolve True T (λ _, HU) now' until ltac:(lia) Hmax ltac:(lia) s2 msgs s3 Hinv2 Hv)
      as [(Hinv3 & Hm3 & Hr3) Hv3]; [|done|].
    { intros t Ht. unfold T. rewrite omap_app, elem_of_app. by right. }
    exists m. split; [done|]. split; [done|]. split; [done|]. intros m' r Hpath.
    apply (quiet_deletion True T s3 m m'); auto. apply (undelivered now' until); auto; lia.
Qed.
End theorems.

(** ** Witnesses *)

(** The toy scheme with a digest of eight hexadecimal digits. *)
Definition short_digest (s : string) : string :=
  let v := foldl (λ a b, (a * 257 + b) mod 4294967291) 0 (str s) in
  pystring ((λ i, hexdigit (v / 16 ^ i mod 16)) <$> seqZ 0 8).

Definition hex_crypto : Crypto := {|
  hash_content := short_digest;
  sign_message sk m := ((λ b, b mod 256) <$> sk) ++ 1 :: str m;
  verify_key sk := sk;
  verify_signature vk m sig := bool_decide (sig = ((λ b, b mod 256) <$> vk) ++ 1 :: str m);
|}.

Lemma hex_crypto_laws : CryptoLaws hex_crypto.
Proof. destruct toy_crypto_laws as [A B E]. by split. Qed.

Section witnesses.
#[local] Existing Instance hex_crypto.
#[local] Existing Instance hex_crypto_laws.
#[local] Existing Instance toy_prims.
#[local] Existing Instance Steganography.toy_digest.

(** A closed option has a value. *)
Ltac vm_is_some := apply (bool_decide_unpack (is_Some _)); vm_compute; exact I.
(** A closed decidable proposition holds. *)
Ltac vm_decide_true := match goal with |- ?P => apply (bool_decide_unpack P); vm_compute; exact I end.

Definition nobody (ws : nat) : bool := false.
Definition draw_at (now : Z) : Draw := mkDraw now (λ h, h) toy_entropy TimeLock.toy_lock [0].
Definition served (now : Z) (r : request) (s : Api) : Api := serve nobody elements (draw_at now) r s.

(** ann, bob and cid; ann sends a message to bob. *)
Definition api_two : Api :=
  served 3 (CreateMessage "u" (mkCreateMessage "ann" "hi" ["bob"] None))
    (served 2 (CreatePeer "u" [3] (mkCreatePeer (Some "cid") None))
      (served 2 (CreatePeer "u" [2] (mkCreatePeer (Some "bob") None))
        (served 1 (CreatePeer "u" [1] (mkCreatePeer (Some "ann") (Some "Ann"))) api_start))).

Definition the_hash : string := Eval vm_compute in default "" (m_hash <$> head (made api_two)).

Lemma served_run start s0 now now' r s :
  api_run nobody elements start s0 now [] s → now ≤ now' → api_run nobody elements start s0 now' [] (served now' r s).
Proof.
  intros Hrun Hle. apply (run_more nobody elements start s0 now now' [] None s); [done|done|]. by apply do_request.
Qed.

Lemma api_two_run : api_run nobody elements 0 api_start 3 [] api_two.
Proof.
  apply (served_run _ _ 2); [|lia]. apply (served_run _ _ 2); [|lia]. apply (served_run _ _ 1); [|lia].
  apply (served_run _ _ 0); [apply run_begin|lia].
Qed.

Lemma stored_nodes_genuine_witness :
  ∃ n, held (w_of api_two) "bob" the_hash = Some n ∧ n.(node_hash) = the_hash ∧ n.(owner_id) = "ann" ∧
    ∀ r' n', held (w_of api_two) r' the_hash = Some n' → n' = n.
Proof.
  destruct (held (w_of api_two) "bob" the_hash) as [n|] eqn:Hn; [|vm_compute in Hn; discriminate].
  destruct (stored_nodes_genuine nobody elements 0 3 [] api_two "bob" the_hash n)
    as (Hh & _ & _ & _ & Hall); [lia|exact api_two_run|reflexivity|by vm_decide_true|exact Hn|].
  exists n. split; [reflexivity|]. split; [exact Hh|]. split; [|exact Hall].
  vm_compute in Hn. injection Hn as <-. reflexivity.
Defined.

(** ann forwards her own message to cid, and then deletes it; the one token
    this sends reaches bob. *)
Definition api_three : Api :=
  served 4 (ForwardMessage "u" the_hash (mkForward "ann" ["cid"] false None)) api_two.
Definition api_deleted : Api := (delete_message nobody (draw_at 5) the_hash "ann" api_three).2.
Definition delivered (now : Z) (s : Api) : Api :=
  match (w_of s).(in_flight) with
  | msg :: rest => deliver_at now id msg rest s
  | [] => s
  end.

Lemma api_three_run : api_run nobody elements 0 api_start 4 [] api_three.
Proof. apply (served_run _ _ 3); [apply api_two_run|lia]. Qed.

Lemma api_deleted_valid : valid_until 6 api_deleted.
Proof.
  intros msg Hm. vm_compute in Hm. apply list_elem_of_singleton in Hm as ->. intros t [= <-]. vm_compute. reflexivity.
Qed.

Definition first_message : Message := default (mkMessage "" "" (OtherMsg "" JNull)) (head (w_of api_deleted).(in_flight)).

Lemma api_deleted_delivers : delivers 4 6 first_message api_deleted (delivered 6 api_deleted).
Proof.
  destruct (in_flight (w_of api_deleted)) as [|msg rest] eqn:Hf; [vm_compute in Hf; discriminate|].
  unfold first_message, delivered. rewrite Hf. cbn [head from_option].
  exists 6, id, [], rest. split; [lia|]. split; [exact Hf|]. reflexivity.
Qed.

Lemma fst_pair {A B} (p : A * B) a : p.1 = a → p = (a, p.2).
Proof. by destruct p; intros <-. Qed.

Lemma deletion_reaches_recipients_witness :
  (delete_message nobody (draw_at 5) the_hash "ann" api_three).1 = Ok (mkDeletion the_hash 1) ∧
  is_Some (held (w_of api_deleted) "bob" the_hash) ∧ held (w_of (delivered 6 api_deleted)) "bob" the_hash = None.
Proof.
  split; [vm_compute; reflexivity|]. split; [by vm_is_some|].
  destruct (deletion_reaches_recipients nobody elements 0 4 4 6 [] [] (draw_at 5) the_hash "ann"
    api_three api_deleted api_deleted (mkDeletion the_hash 1)) as [_ Hend].
  - lia.
  - exact api_three_run.
  - unfold api_deleted. apply fst_pair. vm_compute. reflexivity.
  - apply run_begin.
  - by vm_decide_true.
  - by apply Forall_nil.
  - exact api_deleted_valid.
  - split; [lia|]. vm_compute. discriminate.
  - reflexivity.
  - destruct (Hend [first_message] (delivered 6 api_deleted)) as [Hclash|(m & Hm & Hh & Ho & Hgone)].
    + eapply deliveries_cons; [exact api_deleted_delivers|apply deliveries_nil].
    + intros [s4 (msg & now & nonce_of & before & after & _ & Hf & _)]. vm_compute in Hf. destruct before; discriminate.
    + exfalso. apply (bool_decide_eq_true_2 (tokens_clash _)) in Hclash. vm_compute in Hclash. discriminate.
    + rewrite <-Hh. apply (Hgone m "bob"); [apply rtc_refl|]. clear -Hm Hh. vm_compute in Hm, Hh.
      apply elem_of_cons in Hm as [->|Hm]; [by left|]. apply list_elem_of_singleton in Hm as ->. discriminate.
Defined.

(** What the deletion does not reach: the copy of the owner, and what the owner
    made of it by forwarding, though the answer counts the latter. *)
Lemma owner_forward_survives :
  let s := delivered 6 api_deleted in
  (w_of s).(in_flight) = [] ∧ is_Some (held (w_of s) "ann" the_hash) ∧
  ∃ m, made s !! 1%nat = Some m ∧ m.(m_parent) = Some the_hash ∧ is_Some (held (w_of s) "cid" m.(m_hash)).
Proof.
  intros s. split; [vm_compute; reflexivity|]. split; [by vm_is_some|].
  destruct (made s !! 1%nat) as [m|] eqn:Hm; [|vm_compute in Hm; discriminate].
  exists m. split; [done|]. vm_compute in Hm. injection Hm as <-. split; [reflexivity|by vm_is_some].
Qed.
End witnesses.
